(* ===== verification/_CoqProject ===== *)
-Q . S2P
Prelude.v
Ansi.v
Topology.v
Subscriber.v
Engine.v
EngineFacts.v
GoStr.v
Sanitize.v
Session.v
Pairing.v
Access.v
AuthAdapter.v
Stores.v
Json.v
Keys.v
Dispatch.v
Mutations.v
Guard.v
Concurrent.v
Routes.v
GoText.v
Interpret.v
Grammar.v
GrammarFacts.v
Runs.v
RunsFacts.v
Redact.v
RedactFacts.v
Terminal.v
TerminalFacts.v
Attach.v
Events.v
GoPath.v
GoPathFacts.v
TunnelLog.v
TunnelLogFacts.v
Tunnel.v
TunnelFacts.v
HerdrClient.v
Config.v
Views.v
ConfigFacts.v
Assembly.v
Control.v
Supervise.v
Daemon.v
Launch.v
Stack.v
Cli.v
Discover.v
Shell.v
Float64.v
Rate.v
Throttle.v
Calls.v
Flight.v
Report.v
Files.v
Process.v
ControlServer.v
WireConn.v
Mux.v
Service.v
