(* ===== verification/Prelude.v ===== *)
(** * herdr-phone: a verification library

    herdr-phone is a loopback relay that lets a phone supervise and control a
    Herdr terminal multiplexer through a Cloudflare tunnel. A browser talks to the
    relay only (internal/server); the relay authenticates it (internal/auth, through
    internal/integration), mirrors Herdr's topology by polling (internal/state),
    performs a closed set of mutations over Herdr's socket (internal/integration,
    internal/herdr), reads the output of agents (internal/interpret) and streams
    terminals through a filter (internal/terminal, internal/security). A daemon
    (internal/daemon) owns the state directory, runs cloudflared (internal/tunnel) and
    answers the command line (internal/app) on a control socket. This library models
    these parts as executable functions and machines, and proves what they promise
    each other.

    ** Files and what they model

    Ground: [Prelude] (bytes, 64-bit integers, NUL-separated strings, tables, sorting
    by key; the tactics and the hint database [herdr]); [GoStr] (UTF-8 decoding with
    RuneError, TrimSpace, raw URL base64, Split, EqualFold against ASCII, io.ReadFull);
    [GoText] (the rest of package strings, standard base64); [GoPath], [GoPathFacts]
    (paths, os.Expand, addresses); [Float64] (binary64 arithmetic, compared with the
    SpecFloat of the Standard Library); [Json] (objects as the two decoders read them).

    Text (internal/security, internal/interpret):
    - [Ansi]: security/ansi.go. [step] is one iteration of the loop of
      ANSIFilter.Filter; [Filter] and [Write] as in the source.
    - [Sanitize], [Redact], [RedactFacts]: security/redact.go and the text bounds of
      server/runs.go, server/terminalroute.go and herdr/errors.go. The four patterns
      are functions that measure a match.
    - [Interpret], [Grammar], [GrammarFacts]: interpret.go for any grammar, then the
      grammars of claude.go and opencode.go with clean.go and options.go.

    State (internal/state):
    - [Topology]: the records of herdr/models.go and the projection of
      state/snapshot.go that is hashed.
    - [Subscriber], [Engine], [EngineFacts]: subscriptions live in a store and are
      shared by address; Engine.Run is the step relation [loopStep].
    - [Runs], [RunsFacts]: state/runs.go, its adapter and the run and pane handlers.

    Authentication (internal/auth): [Session], [Pairing], [Access] (jwt.go, jwks.go;
    the key cache implements the class [KeySource] the verifier is written against),
    [Flight] (concurrent key lookups with singleflight.go, as a machine),
    [AuthAdapter] (integration/auth.go, the instance of the class [Authenticator] of
    server/interfaces.go).

    Server (internal/server):
    - [Routes]: the route table, the middleware [wrap], pairing and logout, against
      [Authenticator]; [AuthenticatorLaws] is what the middleware needs of it and
      [adapter_laws] discharges it. [Mux]: how http.ServeMux finds the route.
      [Rate] is the token bucket, [Throttle] the middleware with it.
    - [Stores], [Mutations], [Concurrent], [Guard]: confirmation nonces and the
      idempotency cache; [handleMutations] as the stages [validate], [enter],
      [confirm], [execute], [finish]; these stages interleaved among many requests;
      the server's guards against what the dispatcher does. [Service] is the whole
      relay: multiplexer, middleware, both endpoints, stores and socket, interleaved.
    - [Views] (snapshot, directories, audit records), [Report] (session view,
      capability document, health), [Shell] (construction, headers, the application
      shell with webui.go), [Events] (the hub and its handlers, as a machine),
      [Attach] (opening a terminal), [WireConn] (its deadlines).

    Herdr (internal/herdr, integration/mutate.go): [Keys], [Dispatch] (an operation and
    its params to the request), [HerdrClient] (framing, round trip, handshake,
    reconnecting subscription), [Calls] (the typed operations and their results over
    the socket), [Discover] (startable agent kinds).

    Terminals: [Terminal], [TerminalFacts]: protocol.go and bridge.go; the bridge's six
    goroutines are a machine of atomic actions.

    Tunnel (internal/tunnel): [TunnelLog], [TunnelLogFacts] (reading cloudflared),
    [Tunnel], [TunnelFacts] (configuration, argv, backoff, orphans and the supervise
    loop as a machine), [Process] (stopping processes, ps, finding Herdr).

    Daemon: [Control] (messages and dispatch of control.go), [ControlServer] (its
    connections and Close, as a machine), [Supervise] (children), [Daemon] (the daemon
    object, socket path, runtime file, lock and reconciliation; several processes on
    one directory as a transition system), [Files] (the writers of private files as
    programs over a file system that may fail or stop after any call).

    Assembly: [Config], [ConfigFacts] (internal/config), [Assembly] (configmap.go,
    paths.go), [Stack] (building and tearing down the serving process), [Launch]
    (start, stop, status, setup-link), [Cli] (internal/app, the doctor and the entry
    point cmd/herdr-phone).

    ** What is shown

    - Terminal output: for every input and fragmentation what is forwarded is plain
      text and permitted complete sequences ([Filter_safe]), for every schedule of the
      bridge ([terminal_output_safe]); keystrokes arrive in order
      ([terminal_input_intact]); once any of its goroutines ends, a session is
      cancelled and ends by itself, every wait on the controller, the browser or the
      timers being one that the teardown cuts short ([session_ends]). Redacted text
      holds no secret the patterns describe ([RedactSecrets_clean]). An answer key is
      the number shown beside its label ([answer_keys]).
    - State: the generation a client holds is accepted only while the occupant it saw
      is there, as long as the pane stays listed ([generation_guard]); runs are exactly
      the live agents ([Runs_exact]); a client of the stream has the newest snapshot
      ([events_newest]).
    - Authentication: the verifier accepts exactly authentic assertions
      ([VerifyToken_exact]); concurrent key lookups fetch one at a time
      ([lookups_safe]); a pairing secret is spent once ([pairing_single_use]) and
      guessing is bounded by the clock ([pairing_throttled]); sessions end on time
      ([Get_live]); a reload recovers exactly the token of its session
      ([reload_recovers]).
    - Mutations: nothing reaches Herdr past the guards ([mutation_gate]); a request
      executes once under every interleaving with others and the clock, unless it
      outlives its reservation of thirty seconds or more ([mutation_exactly_once]); a
      response that says retryable has spent nothing; the guarded resource is the one acted on
      unless a member's case differs ([guard_addresses_target]), and then it is
      whatever the client likes ([guard_bypassed]). End to end, every frame on the Herdr socket is
      the typed call of an admitted request ([frames_authorised]; one call alone is
      [mutation_on_the_wire]) and no destructive one goes out without a
      confirmation of its own ([destructive_confirmed]).
    - Requests: each has one place to go ([serveMux_exact]); a handler runs only behind
      every check of its route ([wrap_serves]); listings stay below the roots
      ([directories_confined]); no path leaves the asset tree ([shell_confined]).
    - Daemon and files: one daemon per directory ([state_dir_exclusive]); private files
      are replaced in one piece and the token is never left behind, whatever fails and
      wherever the process dies ([records_replaced], [token_private]); the supervisor
      stops in a bounded number of steps of its own, whatever cloudflared does
      ([stop_terminates]); a serving process leaves
      nothing behind ([serve_releases]); a start that reports success can be reached
      ([start_confirmed]); a command on the control socket gets what the daemon answered,
      or an error when that is over the 64 KiB of a line ([control_exchange]); children restart boundedly often ([child_restarts]) and
      stopping a process takes bounded time ([stop_bounded]).
    - Configuration: validation is exact ([Validate_exact]), and where the tunnel
      package refuses what it accepted is said exactly ([tunnel_accepts_exactly]).

    ** Conventions and bounds

    A [byte] is Go's byte and [bz] its value; a Go string is a [list byte] where its
    bytes matter and a [string] where it is only compared. Times are nanoseconds since
    the zero time, [timeSub] saturates like Time.Sub, and 64-bit sums wrap through
    [int64] and [u64]. A method that holds a mutex is one function; where a handler
    gives it up between calls the pieces are separate. Concurrent parts are machines:
    [act] is one action, everything done between two operations on what is shared, and
    a run is a list of actions; the outcomes of selects, writes, timers and the system
    are given by the action, so a theorem on all runs is one on all schedules.

    Fuel: a byte is re-read at most once by the terminal filter, so [filter_loop] gets
    twice the length of its input ([Filter_safe] proves that it returns);
    [dropInvalidTail], the fields of an IPv6 address and the frames of an event stream
    shorten their argument at each step and get its length. All other functions are
    structurally recursive.

    Parameters stand for what is not in the repository or not in the text of the
    program: SHA-256 and RSA; the lexing, printing and typed decoding of JSON and TOML;
    gzip; url.Parse, time.ParseDuration and time layouts; symbolic links and directory
    contents; the embedded asset tree; Go's cross-origin check; simple case folding,
    ToLower and the decimal digits of Unicode outside Latin-1; the powers of the restart delays
    before their cap; quoting, the QR code and time formats of the command line. The
    theorems hold for all of them; where one is needed to behave, its behaviour is a
    named hypothesis with an instance in the witness: a collision-free hash for
    [published_generations], 64-bit decoded times for [VerifyToken_exact], clean
    resolved paths for [directories_confined], a collision-free hash and distinct pane
    ids for [Runs_exact], and for the control socket a JSON codec that gives back what
    it was given with invalid UTF-8 replaced.

    The clock of a machine is free. In [Concurrent] a request may be held up past the
    expiry of its reservation, and the second owner that this allows is a run of the
    machine ([overrun_two_owners]); such an overrun is recorded, and the theorem speaks
    of the keys without one. In [Terminal] pings and idle resize ticks may go on for
    ever before the session is cancelled. In [Tunnel] and [Terminal] the theorems on
    ending name the actions that need no help from outside. In [Daemon] each removal of
    a clean-up is a step of its own, and a process lives on after it gave up its lock.

    ** Not modelled

    The primitives of the system (sockets, processes, kill, the clock), whose outcomes
    are inputs; ranges and revalidation by http.FileServer, and the WebSocket library;
    functional options, string constants and accessors; the timer that calls the
    session store's GC. Nothing else with logic of its own is left out. *)

From Stdlib Require Import ZArith Lia Bool.
From stdpp Require Export base tactics list gmap strings sorting.
From Stdlib Require Export Strings.Byte.

Open Scope Z_scope.

(** ** Notations and automation *)

Declare Scope herdr_scope.
Delimit Scope herdr_scope with herdr.
Open Scope herdr_scope.

(** The unsigned value of a Go [byte]. *)
Definition bz (b : byte) : Z := Z.of_N (Byte.to_N b).

(** [b] lies in the closed interval [lo..hi], the shape of most of the byte
    tests of the source ([b >= lo && b <= hi]). *)
Definition between (lo hi : Z) (b : byte) : bool := (lo <=? bz b) && (bz b <=? hi).

Notation "a =b c" := (bz a =? bz c) (at level 70) : herdr_scope.

Lemma bz_range (b : byte) : 0 <= bz b <= 255.
Proof.
  unfold bz. pose proof (Byte.to_N_bounded b) as H. lia.
Qed.

Lemma bz_inj (a b : byte) : bz a = bz b -> a = b.
Proof.
  unfold bz. intros H. apply N2Z.inj in H.
  pose proof (Byte.of_to_N a) as Ha. pose proof (Byte.of_to_N b) as Hb.
  rewrite H in Ha. congruence.
Qed.

Lemma byte_eqb_eq (a b : byte) : (a =b b) = true <-> a = b.
Proof. rewrite Z.eqb_eq. split; [apply bz_inj | by intros ->]. Qed.

Lemma byte_eqb_refl (a : byte) : (a =b a) = true.
Proof. apply Z.eqb_refl. Qed.

Lemma between_spec lo hi b : between lo hi b = true <-> lo <= bz b <= hi.
Proof. unfold between. rewrite andb_true_iff, !Z.leb_le. lia. Qed.

#[global] Instance byte_eq_dec : EqDecision byte := Byte.byte_eq_dec.

(** Boolean hypotheses to propositions, then linear arithmetic. *)
Ltac bool_hyps :=
  repeat match goal with
  | H : (_ && _) = true |- _ => apply andb_true_iff in H; destruct H
  | H : (_ && _) = false |- _ => apply andb_false_iff in H
  | H : (_ || _) = true |- _ => apply orb_true_iff in H
  | H : (_ || _) = false |- _ => apply orb_false_iff in H; destruct H
  | H : negb _ = true |- _ => apply negb_true_iff in H
  | H : negb _ = false |- _ => apply negb_false_iff in H
  | H : (_ =? _) = true |- _ => apply Z.eqb_eq in H
  | H : (_ =? _) = false |- _ => apply Z.eqb_neq in H
  | H : (_ <=? _) = true |- _ => apply Z.leb_le in H
  | H : (_ <=? _) = false |- _ => apply Z.leb_gt in H
  | H : (_ <? _) = true |- _ => apply Z.ltb_lt in H
  | H : (_ <? _) = false |- _ => apply Z.ltb_ge in H
  end.

(** Replaces a byte variable tested equal to a constant. *)
Ltac byte_subst :=
  repeat match goal with
  | H : (bz ?a =? bz ?c) = true |- _ => is_var a; apply byte_eqb_eq in H; subst a
  end.

(** Evaluates [bz] at byte constants, and adds the range of byte variables. *)
Ltac bz_consts :=
  repeat match goal with
  | |- context [bz ?c] =>
      assert_fails (is_var c); let v := eval vm_compute in (bz c) in change (bz c) with v
  | H : context [bz ?c] |- _ =>
      assert_fails (is_var c); let v := eval vm_compute in (bz c) in change (bz c) with v in H
  end.

Ltac bz_ranges :=
  repeat match goal with
  | b : byte |- _ =>
      lazymatch goal with
      | _ : 0 <= bz b <= 255 |- _ => fail
      | _ => pose proof (bz_range b)
      end
  end.

(** ** Machine integers *)

Definition u64 (z : Z) : Z := z mod 2 ^ 64.
Definition int64 (z : Z) : Z := (z + 2 ^ 63) mod 2 ^ 64 - 2 ^ 63.

Lemma u64_small z : 0 <= z < 2 ^ 64 -> u64 z = z.
Proof. apply Z.mod_small. Qed.

Lemma u64_range z : 0 <= u64 z < 2 ^ 64.
Proof. apply Z.mod_pos_bound. lia. Qed.

Lemma u64_add_l a b : u64 (u64 a + b) = u64 (a + b).
Proof. unfold u64. by rewrite Zplus_mod_idemp_l. Qed.

Lemma int64_small z : - 2 ^ 63 <= z < 2 ^ 63 -> int64 z = z.
Proof. unfold int64. intros. rewrite Z.mod_small; lia. Qed.

Definition maxInt : Z := 2 ^ 63 - 1.

(** [time.Time] in nanoseconds since the zero time; [Sub] saturates at the range
    of a 64-bit [Duration]. *)
Definition minDuration : Z := - 2 ^ 63.
Definition maxDuration : Z := 2 ^ 63 - 1.
Definition timeSub (a b : Z) : Z := Z.max minDuration (Z.min maxDuration (a - b)).

(** The test [len(x) == 0] (or [x == ""]). *)
Definition isEmpty {A} (l : list A) : bool := match l with [] => true | _ => false end.

Lemma isEmpty_true {A} (l : list A) : isEmpty l = true <-> l = [].
Proof. by destruct l. Qed.

Lemma isEmpty_false {A} (l : list A) : isEmpty l = false <-> l ≠ [].
Proof. by destruct l. Qed.

(** ** The hint database of the development

    Ranges of bytes and machine integers here; each component adds the lemmas
    that preserve its invariant. *)
Create HintDb herdr.
#[export] Hint Resolve bz_range bz_inj u64_range byte_eqb_refl : herdr.
#[export] Hint Rewrite u64_add_l : herdr.

(** ** Strings

    A Go string is a byte sequence; [string] is one too. *)

Definition NUL : string := String Ascii.zero EmptyString.

Definition nulFree (s : string) : Prop := Ascii.zero ∉ String.list_ascii_of_string s.

Lemma append_cons (c : Ascii.ascii) (s t : string) : String c s +:+ t = String c (s +:+ t).
Proof. done. Qed.

Lemma append_nil_l (t : string) : "" +:+ t = t.
Proof. done. Qed.

Lemma append_nil_r (s : string) : s +:+ "" = s.
Proof. induction s as [|a s IH]; [done|]. by rewrite append_cons, IH. Qed.

Lemma append_assoc (s1 s2 s3 : string) : (s1 +:+ s2) +:+ s3 = s1 +:+ (s2 +:+ s3).
Proof. induction s1 as [|a s IH]; [done|]. by rewrite !append_cons, IH. Qed.

Lemma nulFree_cons c s : nulFree (String c s) <-> c ≠ Ascii.zero /\ nulFree s.
Proof. unfold nulFree. simpl. rewrite not_elem_of_cons. naive_solver. Qed.

(** A NUL-free prefix is recovered from what follows the first NUL. *)
Lemma nul_split (a b x y : string) :
  nulFree a -> nulFree b -> a +:+ NUL +:+ x = b +:+ NUL +:+ y -> a = b /\ x = y.
Proof.
  revert b. induction a as [|c a IH]; intros [|d b] Ha Hb H;
    rewrite ?append_cons, ?append_nil_l in H; rewrite ?nulFree_cons in *.
  - split; [done|]. by injection H.
  - injection H. intros _ E. by destruct Hb.
  - injection H. intros _ E. by destruct Ha.
  - injection H as -> H. destruct (IH b) as [-> ->]; tauto.
Qed.

(** A NUL-free string is not one that contains a NUL. *)
Lemma nul_not (a b x : string) : nulFree a -> a = b +:+ NUL +:+ x -> False.
Proof.
  intros Ha ->. induction b as [|c b IH]; rewrite ?append_cons, ?append_nil_l in Ha.
  - apply nulFree_cons in Ha as [Ha _]. done.
  - apply nulFree_cons in Ha as [_ Ha]. auto.
Qed.

(** ** Lists with distinct keys *)

Lemma NoDup_key_inj {A B} (f : A -> B) (l : list A) x y :
  NoDup (f <$> l) -> x ∈ l -> y ∈ l -> f x = f y -> x = y.
Proof.
  intros Hnd Hx Hy E. apply list_elem_of_lookup in Hx as [i Hi], Hy as [j Hj].
  assert (i = j) as ->; [|congruence].
  eapply (NoDup_lookup _ i j (f x)); eauto; rewrite list_lookup_fmap; [by rewrite Hi|].
  rewrite Hj. simpl. by rewrite E.
Qed.

(** ** Tables indexed by a string *)

Fixpoint assoc {A} (key : string) (l : list (string * A)) : option A :=
  match l with
  | [] => None
  | (k, v) :: r => if bool_decide (key = k) then Some v else assoc key r
  end.

Lemma assoc_elem {A} key (l : list (string * A)) v : assoc key l = Some v -> (key, v) ∈ l.
Proof.
  induction l as [|[k w] l IH]; simpl; [done|]. case_bool_decide; [|set_solver].
  intros [= ->]. subst. set_solver.
Qed.

Lemma assoc_keys {A} key (l : list (string * A)) : is_Some (assoc key l) <-> key ∈ l.*1.
Proof.
  induction l as [|[k w] l IH]; simpl; [split; [by intros []|set_solver]|].
  case_bool_decide; [subst; split; [set_solver|by eexists]|]. rewrite IH. set_solver.
Qed.

(** ** Sorting by a string key ([slices.SortFunc] with [cmp.Compare])

    Go's sort is not stable; with pairwise distinct keys the result is the same
    for every sorting algorithm ([sortBy_permutation]). A second key breaks
    ties of the first; a single-key sort uses the empty second key. *)

Section SortBy.
Context {A : Type} (key : A -> string * string).

Definition keyLe (x y : A) : Prop :=
  ((key x).1 ≠ (key y).1 /\ String.le (key x).1 (key y).1) \/
  ((key x).1 = (key y).1 /\ String.le (key x).2 (key y).2).

#[global] Instance keyLe_dec x y : Decision (keyLe x y).
Proof. unfold keyLe. apply _. Defined.

Definition sortBy (l : list A) : list A := merge_sort keyLe l.

#[local] Instance keyLe_total : Total keyLe.
Proof.
  intros x y. unfold keyLe. destruct (decide ((key x).1 = (key y).1)) as [E|E].
  - destruct (total String.le (key x).2 (key y).2); auto.
  - destruct (total String.le (key x).1 (key y).1); auto.
Qed.

#[local] Instance keyLe_trans : Transitive keyLe.
Proof.
  intros x y z [[N1 H1]|[E1 H1]] [[N2 H2]|[E2 H2]]; unfold keyLe.
  - destruct (decide ((key x).1 = (key z).1)) as [E|E].
    + exfalso. apply N2. apply (anti_symm String.le); [done|]. by rewrite <- E.
    + left. split; [done|]. by transitivity (key y).1.
  - left. rewrite <- E2. done.
  - left. rewrite E1. done.
  - right. rewrite E1. split; [done|]. by transitivity (key y).2.
Qed.

Lemma keyLe_antisym x y : keyLe x y -> keyLe y x -> key x = key y.
Proof.
  intros [[N1 H1]|[E1 H1]] [[N2 H2]|[E2 H2]]; try congruence.
  - exfalso. apply N1. by apply (anti_symm String.le).
  - rewrite (surjective_pairing (key x)), (surjective_pairing (key y)).
    f_equal; [done|]. by apply (anti_symm String.le).
Qed.

Lemma sortBy_perm l : sortBy l ≡ₚ l.
Proof. apply merge_sort_Permutation. Qed.

Lemma sortBy_sorted l : StronglySorted keyLe (sortBy l).
Proof. apply StronglySorted_merge_sort; apply _. Qed.

Lemma keyLe_le x y : keyLe x y -> String.le (key x).1 (key y).1.
Proof. intros [[_ H]|[E _]]; [done|]. by rewrite E. Qed.

(** Permuted lists with distinct keys sort to the same list. *)
Lemma sortBy_permutation l l' : NoDup (key <$> l) -> l ≡ₚ l' -> sortBy l = sortBy l'.
Proof.
  intros Hnd Hp. apply (StronglySorted_unique_strong keyLe).
  - intros x y Hx Hy H1 H2. rewrite sortBy_perm in Hx, Hy. rewrite <- Hp in Hy.
    eapply (NoDup_key_inj key); eauto using keyLe_antisym.
  - apply sortBy_sorted.
  - apply sortBy_sorted.
  - by rewrite !sortBy_perm.
Qed.
End SortBy.
