(* ===== verification/Ansi.v ===== *)
(** * Ansi: the streaming terminal filter of internal/security/ansi.go

    The parser state is [ANSIFilter]; [step] is one iteration of the loop of
    [ANSIFilter.Filter] and reports, as the source does with [i--], that the
    byte has to be read again from the new state. *)

From S2P Require Import Prelude.

(** ** Control bytes, states and the filter record *)

Definition ctrlENQ : byte := x05.
Definition ctrlBEL : byte := x07.
Definition ctrlESC : byte := x1b.
Definition c1DCS : byte := x90.
Definition c1SOS : byte := x98.
Definition c1CSI : byte := x9b.
Definition c1ST : byte := x9c.
Definition c1OSC : byte := x9d.
Definition c1PM : byte := x9e.
Definition c1APC : byte := x9f.

Definition defaultMaxSeqBytes : Z := 4096.
Definition defaultMaxStrBytes : Z := 1048576.

Inductive ansiState :=
| stGround | stEsc | stEscInt | stCSI | stOSC | stOSCEsc | stStr | stStrEsc.

#[global] Instance ansiState_eq_dec : EqDecision ansiState.
Proof. solve_decision. Defined.

Record ANSIFilter := mkFilter {
  state : ansiState;
  seq : list byte;
  strN : Z;
  utf8Remaining : Z;
  maxSeq : Z;
  maxStr : Z
}.

Definition NewANSIFilter : ANSIFilter :=
  mkFilter stGround [] 0 0 defaultMaxSeqBytes defaultMaxStrBytes.

Definition Reset (f : ANSIFilter) : ANSIFilter :=
  mkFilter stGround [] 0 0 (maxSeq f) (maxStr f).

(** Field updates, one per assignment form of the source. *)
Definition goto (s : ansiState) (q : list byte) (f : ANSIFilter) : ANSIFilter :=
  mkFilter s q (strN f) (utf8Remaining f) (maxSeq f) (maxStr f).
Definition set_strN (n : Z) (f : ANSIFilter) : ANSIFilter :=
  mkFilter (state f) (seq f) n (utf8Remaining f) (maxSeq f) (maxStr f).
Definition set_utf8 (n : Z) (f : ANSIFilter) : ANSIFilter :=
  mkFilter (state f) (seq f) (strN f) n (maxSeq f) (maxStr f).

Definition utf8Continuation (lead : byte) : Z :=
  if between 240 247 lead then 3
  else if between 224 239 lead then 2
  else if between 192 223 lead then 1
  else 0.

(** ** Strip decisions *)

Definition hasByte (c : byte) (l : list byte) : bool := existsb (fun b => b =b c) l.

(** The body after an [ESC intro] prefix, when the prefix is there. *)
Definition dropIntro (intro : byte) (q : list byte) : list byte :=
  match q with
  | a :: b :: r => if (a =b ctrlESC) && (b =b intro) then r else q
  | _ => q
  end.

Definition csiShouldStrip (q : list byte) : bool :=
  let body := dropIntro x5b q in
  match last body with
  | None => false
  | Some final =>
      let mid := removelast body in
      let hasDollar := hasByte x24 mid in
      let hasStar := hasByte x2a mid in
      let hasSpace := hasByte x20 mid in
      let hasGT := hasByte x3e mid in
      if (final =b x6e) || (final =b x63) || (final =b x74) then true
      else if final =b x70 then hasDollar
      else if final =b x71 then hasGT && negb hasSpace
      else if final =b x78 then negb hasDollar
      else if final =b x79 then hasStar
      else false
  end.

(** The terminator (BEL, or ESC backslash) is trimmed. *)
Definition trimTerminator (p : list byte) : list byte :=
  match reverse p with
  | a :: r =>
      if a =b ctrlBEL then reverse r
      else match r with
           | e :: r' => if (e =b ctrlESC) && (a =b x5c) then reverse r' else p
           | [] => p
           end
  | [] => p
  end.

Definition isDigit (b : byte) : bool := between 48 57 b.

(** The numeric OSC code: [-1] without a digit, otherwise the decimal value of
    the leading digits, stopping as soon as it exceeds 1,000,000. *)
Fixpoint oscCode (code : Z) (p : list byte) : Z :=
  match p with
  | b :: r =>
      if isDigit b then
        let code' := (if code <? 0 then 0 else code) * 10 + (bz b - 48) in
        if 1000000 <? code' then code' else oscCode code' r
      else code
  | [] => code
  end.

Definition oscShouldStrip (q : list byte) : bool :=
  let p := trimTerminator (dropIntro x5d q) in
  let code := oscCode (-1) p in
  if (code =? 0) || (code =? 1) || (code =? 2) then true
  else if code =? 8 then true
  else if code =? 52 then true
  else hasByte x3f p.

(** ** One iteration of the loop, per state *)

(** The new filter, the bytes appended to [out], and whether the byte is read
    again ([i--]). *)
Definition result : Type := ANSIFilter * list byte * bool.

Definition step_ground_fresh (f : ANSIFilter) (b : byte) : result :=
  if b =b ctrlESC then (goto stEsc [b] f, [], false)
  else if b =b ctrlENQ then (f, [], false)
  else if b =b c1CSI then (goto stCSI [ctrlESC; x5b] f, [], false)
  else if b =b c1OSC then (goto stOSC [ctrlESC; x5d] f, [], false)
  else if (b =b c1DCS) || (b =b c1SOS) || (b =b c1PM) || (b =b c1APC)
  then (goto stStr [] (set_strN 0 f), [], false)
  else if b =b c1ST then (f, [], false)
  else if between 128 159 b then (f, [], false)
  else if 192 <=? bz b then (set_utf8 (utf8Continuation b) f, [b], false)
  else (f, [b], false).

Definition step_ground (f : ANSIFilter) (b : byte) : result :=
  if 0 <? utf8Remaining f then
    if between 128 191 b then (set_utf8 (utf8Remaining f - 1) f, [b], false)
    else step_ground_fresh (set_utf8 0 f) b
  else step_ground_fresh f b.

Definition step_esc (f : ANSIFilter) (b : byte) : result :=
  if b =b x5b then (goto stCSI (seq f ++ [b]) f, [], false)
  else if b =b x5d then (goto stOSC (seq f ++ [b]) f, [], false)
  else if (b =b x50) || (b =b x5f) || (b =b x5e) || (b =b x58)
  then (goto stStr [] (set_strN 0 f), [], false)
  else if b =b x5a then (goto stGround [] f, [], false)
  else if b =b ctrlESC then (goto stEsc [b] f, [], false)
  else if between 32 47 b then (goto stEscInt (seq f ++ [b]) f, [], false)
  else if between 48 126 b then (goto stGround [] f, seq f ++ [b], false)
  else (goto stGround [] f, [], true).

(** The bound check that follows the switch of the ESC-intermediate and CSI
    states, whatever branch was taken. *)
Definition boundSeq (r : result) : result :=
  let '(f, o, again) := r in
  if maxSeq f <? Z.of_nat (length (seq f)) then (goto stGround [] f, o, again) else r.

Definition step_escint (f : ANSIFilter) (b : byte) : result :=
  boundSeq
    (if between 32 47 b then (goto stEscInt (seq f ++ [b]) f, [], false)
     else if between 48 126 b then (goto stGround [] f, seq f ++ [b], false)
     else if b =b ctrlESC then (goto stEsc [b] f, [], false)
     else (goto stGround [] f, [], true)).

Definition step_csi (f : ANSIFilter) (b : byte) : result :=
  boundSeq
    (if between 48 63 b then (goto stCSI (seq f ++ [b]) f, [], false)
     else if between 32 47 b then (goto stCSI (seq f ++ [b]) f, [], false)
     else if between 64 126 b then
       (goto stGround [] f,
        if csiShouldStrip (seq f ++ [b]) then [] else seq f ++ [b], false)
     else if b =b ctrlESC then (goto stEsc [b] f, [], false)
     else (goto stGround [] f, [], true)).

Definition step_osc (f : ANSIFilter) (b : byte) : result :=
  if (b =b ctrlBEL) || (b =b c1ST) then
    (goto stGround [] f,
     if oscShouldStrip (seq f ++ [ctrlBEL]) then [] else seq f ++ [ctrlBEL], false)
  else if b =b ctrlESC then (goto stOSCEsc (seq f) f, [], false)
  else if (bz b <? 32) || (bz b =? 127) || between 128 159 b
  then (goto stGround [] f, [], true)
  else boundSeq (goto stOSC (seq f ++ [b]) f, [], false).

Definition step_oscesc (f : ANSIFilter) (b : byte) : result :=
  if b =b x5c then
    (goto stGround [] f,
     if oscShouldStrip (seq f ++ [ctrlESC; x5c]) then [] else seq f ++ [ctrlESC; x5c], false)
  else (goto stGround [] f, [], true).

Definition step_str (f : ANSIFilter) (b : byte) : result :=
  if (b =b ctrlBEL) || (b =b c1ST) then (goto stGround (seq f) (set_strN 0 f), [], false)
  else if b =b ctrlESC then (goto stStrEsc (seq f) f, [], false)
  else
    let f1 := set_strN (strN f + 1) f in
    if maxStr f <? strN f1 then (goto stGround (seq f) (set_strN 0 f), [], false)
    else (f1, [], false).

Definition step_stresc (f : ANSIFilter) (b : byte) : result :=
  (goto stGround (seq f) (set_strN 0 f), [], negb (b =b x5c)).

Definition step (f : ANSIFilter) (b : byte) : result :=
  match state f with
  | stGround => step_ground f b
  | stEsc => step_esc f b
  | stEscInt => step_escint f b
  | stCSI => step_csi f b
  | stOSC => step_osc f b
  | stOSCEsc => step_oscesc f b
  | stStr => step_str f b
  | stStrEsc => step_stresc f b
  end.

(** ** The loop and its entry point *)

(** The loop of [Filter] over the bytes still to read; [None] only when the
    fuel runs out, which [filter_loop_run] below rules out for
    [2 * length p]. *)
Fixpoint filter_loop (fuel : nat) (f : ANSIFilter) (p out : list byte)
  : option (ANSIFilter * list byte) :=
  match p with
  | [] => Some (f, out)
  | b :: p' =>
      match fuel with
      | O => None
      | S fuel' =>
          let '(f', o, again) := step f b in
          filter_loop fuel' f' (if again then p else p') (out ++ o)
      end
  end.

(** The lazily applied default limits. *)
Definition withLimits (f : ANSIFilter) : ANSIFilter :=
  mkFilter (state f) (seq f) (strN f) (utf8Remaining f)
    (if maxSeq f =? 0 then defaultMaxSeqBytes else maxSeq f)
    (if maxStr f =? 0 then defaultMaxStrBytes else maxStr f).

Definition Filter (f : ANSIFilter) (p : list byte) : option (ANSIFilter * list byte) :=
  filter_loop (2 * length p) (withLimits f) p [].

(** ** Termination: the loop is a fold *)

(** One input byte, with the at most one re-read it can cause. *)
Definition feed (f : ANSIFilter) (b : byte) : ANSIFilter * list byte :=
  let '(f', o, again) := step f b in
  if again then let '(f'', o', _) := step f' b in (f'', o ++ o') else (f', o).

Fixpoint run (f : ANSIFilter) (p : list byte) : ANSIFilter * list byte :=
  match p with
  | [] => (f, [])
  | b :: p' =>
      let '(f1, o1) := feed f b in
      let '(f2, o2) := run f1 p' in (f2, o1 ++ o2)
  end.

(** Splits every conditional of an unfolded [step]. *)
Ltac split_ifs :=
  repeat match goal with
  | |- context [if ?c then _ else _] => destruct c eqn:?
  | H : context [if ?c then _ else _] |- _ => destruct c eqn:?
  end.

Ltac unfold_step :=
  unfold step, step_ground, step_ground_fresh, step_esc, step_escint, step_csi,
    step_osc, step_oscesc, step_str, step_stresc, boundSeq in *.

(** A re-read only happens on the way back to ground, with nothing emitted. *)
Lemma step_again_ground f b f' o :
  step f b = (f', o, true) -> state f' = stGround /\ o = [].
Proof.
  unfold_step. intros H.
  destruct (state f); split_ifs; simplify_eq/=; auto.
Qed.

(** In the ground state every byte is consumed. *)
Lemma step_ground_consumes f b f' o again :
  state f = stGround -> step f b = (f', o, again) -> again = false.
Proof.
  intros Hs H. unfold step in H. rewrite Hs in H.
  unfold step_ground, step_ground_fresh in H. split_ifs; simplify_eq/=; auto.
Qed.

Lemma filter_loop_S fuel f b p out :
  filter_loop (S fuel) f (b :: p) out =
  let '(f', o, again) := step f b in
  filter_loop fuel f' (if again then b :: p else p) (out ++ o).
Proof. reflexivity. Qed.

Lemma filter_loop_run fuel f p out :
  (2 * length p <= fuel)%nat ->
  filter_loop fuel f p out = Some ((run f p).1, out ++ (run f p).2).
Proof.
  revert fuel f out. induction p as [|b p IH]; intros fuel f out Hf.
  { destruct fuel; simpl; by rewrite app_nil_r. }
  destruct fuel as [|[|fuel]]; [simpl in Hf; lia.. |]. simpl in Hf.
  rewrite filter_loop_S. cbn [run]. unfold feed.
  destruct (step f b) as [[f1 o1] again] eqn:E1. destruct again.
  - destruct (step_again_ground _ _ _ _ E1) as [Hg ->]. rewrite filter_loop_S.
    destruct (step f1 b) as [[f2 o2] again2] eqn:E2.
    pose proof (step_ground_consumes _ _ _ _ _ Hg E2) as ->.
    rewrite IH by lia. destruct (run f2 p); simpl. by rewrite <- !app_assoc.
  - rewrite IH by lia. destruct (run f1 p); simpl. by rewrite <- !app_assoc.
Qed.

Lemma Filter_run f p : Filter f p = Some (run (withLimits f) p).
Proof.
  unfold Filter. rewrite filter_loop_run by lia. by destruct (run _ p).
Qed.

Lemma run_app f p q :
  run f (p ++ q) =
  ((run (run f p).1 q).1, (run f p).2 ++ (run (run f p).1 q).2).
Proof.
  revert f. induction p as [|b p IH]; intros f; simpl.
  { by destruct (run f q). }
  destruct (feed f b) as [f1 o1]. rewrite IH.
  destruct (run f1 p) as [f2 o2]. simpl. by rewrite app_assoc.
Qed.

Lemma step_limits f b : 
  maxSeq (step f b).1.1 = maxSeq f /\ maxStr (step f b).1.1 = maxStr f.
Proof.
  unfold_step. destruct (state f); split_ifs; simpl; auto.
Qed.

Lemma feed_limits f b : maxSeq (feed f b).1 = maxSeq f /\ maxStr (feed f b).1 = maxStr f.
Proof.
  unfold feed. pose proof (step_limits f b) as H1.
  destruct (step f b) as [[f1 o1] []]; simpl in *; [|done].
  pose proof (step_limits f1 b) as H2.
  destruct (step f1 b) as [[f2 o2] ?]; simpl in *. destruct H1, H2; split; congruence.
Qed.

Lemma run_limits f p : maxSeq (run f p).1 = maxSeq f /\ maxStr (run f p).1 = maxStr f.
Proof.
  revert f. induction p as [|b p IH]; intros f; simpl; [done|].
  pose proof (feed_limits f b) as H1. destruct (feed f b) as [f1 o1].
  pose proof (IH f1) as H2. destruct (run f1 p) as [f2 o2]; simpl in *.
  destruct H1, H2; split; congruence.
Qed.

Lemma withLimits_id f : maxSeq f ≠ 0 -> maxStr f ≠ 0 -> withLimits f = f.
Proof.
  intros H1 H2. unfold withLimits. apply Z.eqb_neq in H1, H2. rewrite H1, H2.
  by destruct f.
Qed.

Lemma withLimits_nonzero f : maxSeq (withLimits f) ≠ 0 /\ maxStr (withLimits f) ≠ 0.
Proof.
  unfold withLimits; simpl. split; split_ifs; bool_hyps; by unfold defaultMaxSeqBytes, defaultMaxStrBytes.
Qed.

Lemma run_withLimits f p : withLimits (run (withLimits f) p).1 = (run (withLimits f) p).1.
Proof.
  destruct (run_limits (withLimits f) p) as [E1 E2].
  destruct (withLimits_nonzero f). apply withLimits_id; congruence.
Qed.

(** ** Strip decisions against their specification *)

(** Decimal value of the maximal digit prefix, unbounded. *)
Fixpoint digitPrefix (p : list byte) : list byte :=
  match p with
  | b :: r => if isDigit b then b :: digitPrefix r else []
  | [] => []
  end.

Definition decimal (acc : Z) (ds : list byte) : Z :=
  fold_left (fun a b => a * 10 + (bz b - 48)) ds acc.

Lemma decimal_ge acc ds : 0 <= acc -> Forall (fun b => isDigit b = true) ds -> acc <= decimal acc ds.
Proof.
  intros Ha Hd. revert acc Ha. induction Hd as [|b ds Hb Hd IH]; intros acc Ha; simpl; [lia|].
  unfold isDigit in Hb. apply between_spec in Hb.
  specialize (IH (acc * 10 + (bz b - 48)) ltac:(lia)). unfold decimal in *. simpl. lia.
Qed.

Lemma digitPrefix_digits p : Forall (fun b => isDigit b = true) (digitPrefix p).
Proof. induction p as [|b p IH]; simpl; [done|]. destruct (isDigit b) eqn:E; auto. Qed.

(** The early stop of [oscCode] never changes the comparison with a small code. *)
Lemma oscCode_decimal acc p k :
  0 <= acc -> k <= 1000000 ->
  (oscCode acc p = k <-> decimal acc (digitPrefix p) = k).
Proof.
  intros Ha Hk. revert acc Ha. induction p as [|b p IH]; intros acc Ha; simpl; [done|].
  destruct (isDigit b) eqn:Hb; [|done].
  pose proof (proj1 (between_spec _ _ _) Hb) as Hr.
  replace (acc <? 0) with false by lia. simpl.
  destruct (1000000 <? _) eqn:E; [|apply IH; lia]. bool_hyps.
  pose proof (decimal_ge (acc * 10 + (bz b - 48)) (digitPrefix p)
    ltac:(lia) (digitPrefix_digits p)) as H. unfold decimal in *; simpl. lia.
Qed.

Lemma oscCode_start p :
  oscCode (-1) p = match digitPrefix p with [] => -1 | _ :: _ => oscCode 0 p end.
Proof. destruct p as [|b p]; simpl; [done|]. by destruct (isDigit b). Qed.

(** The OSC codes that are stripped whatever their payload. *)
Definition strippedOSC (n : Z) : bool :=
  (n =? 0) || (n =? 1) || (n =? 2) || (n =? 8) || (n =? 52).

Lemma oscCode_stripped p :
  strippedOSC (oscCode (-1) p) =
  negb (bool_decide (digitPrefix p = [])) && strippedOSC (decimal 0 (digitPrefix p)).
Proof.
  rewrite oscCode_start. destruct (digitPrefix p) as [|d ds] eqn:E; [done|].
  rewrite <- E. simpl. unfold strippedOSC.
  assert (H : forall k, k <= 1000000 -> (oscCode 0 p =? k) = (decimal 0 (digitPrefix p) =? k)).
  { intros k Hk. pose proof (oscCode_decimal 0 p k ltac:(lia) Hk) as Hd.
    destruct (Z.eqb_spec (oscCode 0 p) k), (Z.eqb_spec (decimal 0 (digitPrefix p)) k); tauto. }
  rewrite bool_decide_eq_false_2 by congruence. by rewrite !H by lia.
Qed.

Lemma trimTerminator_bel p : trimTerminator (p ++ [ctrlBEL]) = p.
Proof. unfold trimTerminator. rewrite reverse_app. simpl. by rewrite reverse_involutive. Qed.

Lemma trimTerminator_st p : trimTerminator (p ++ [ctrlESC; x5c]) = p.
Proof. unfold trimTerminator. rewrite reverse_app. simpl. by rewrite reverse_involutive. Qed.

Lemma oscShouldStrip_body term p :
  trimTerminator (p ++ term) = p ->
  oscShouldStrip (ctrlESC :: x5d :: p ++ term) =
  strippedOSC (oscCode (-1) p) || hasByte x3f p.
Proof.
  intros Ht. unfold oscShouldStrip. simpl dropIntro. rewrite Ht. unfold strippedOSC.
  by destruct (oscCode (-1) p =? 0), (oscCode (-1) p =? 1), (oscCode (-1) p =? 2),
    (oscCode (-1) p =? 8), (oscCode (-1) p =? 52).
Qed.

(** What must not be forwarded, stated on the sequence itself. An OSC string is
    hostile when its decimal code, read without any bound, is 0, 1, 2 (titles),
    8 (hyperlink) or 52 (clipboard), or its payload contains a question mark. *)
Definition hostileOSC (p : list byte) : bool :=
  (negb (bool_decide (digitPrefix p = [])) && strippedOSC (decimal 0 (digitPrefix p))) ||
  bool_decide (x3f ∈ p).

(** A CSI sequence is hostile when it makes the terminal answer or reports or
    manipulates the window: finals n, c and t; p with a dollar (mode query); q
    with a greater-than and no space (version query); x without a dollar
    (parameter report); y with an asterisk (checksum). *)
Definition hostileCSI (mid : list byte) (fin : byte) : bool :=
  bool_decide (fin ∈ [x6e; x63; x74]) ||
  (bool_decide (fin = x70) && bool_decide (x24 ∈ mid)) ||
  (bool_decide (fin = x71) && bool_decide (x3e ∈ mid) && bool_decide (x20 ∉ mid)) ||
  (bool_decide (fin = x78) && bool_decide (x24 ∉ mid)) ||
  (bool_decide (fin = x79) && bool_decide (x2a ∈ mid)).

Lemma byte_eqb_decide (a b : byte) : (a =b b) = bool_decide (a = b).
Proof.
  case_bool_decide as E; [subst; apply byte_eqb_refl|].
  destruct (a =b b) eqn:Eb; [|done]. by apply byte_eqb_eq in Eb.
Qed.

Lemma hasByte_decide c l : hasByte c l = bool_decide (c ∈ l).
Proof.
  unfold hasByte. induction l as [|b l IH]; [done|]. cbn [existsb].
  rewrite IH, byte_eqb_decide. repeat case_bool_decide; set_solver.
Qed.

Lemma oscStrip_exact p :
  oscShouldStrip (ctrlESC :: x5d :: p ++ [ctrlBEL]) = hostileOSC p /\
  oscShouldStrip (ctrlESC :: x5d :: p ++ [ctrlESC; x5c]) = hostileOSC p.
Proof.
  rewrite !oscShouldStrip_body by auto using trimTerminator_bel, trimTerminator_st.
  unfold hostileOSC. by rewrite oscCode_stripped, hasByte_decide.
Qed.

Lemma csiStrip_exact mid fin :
  csiShouldStrip (ctrlESC :: x5b :: mid ++ [fin]) = hostileCSI mid fin.
Proof.
  unfold csiShouldStrip, hostileCSI.
  replace (dropIntro x5b (ctrlESC :: x5b :: mid ++ [fin])) with (mid ++ [fin]) by done.
  rewrite last_snoc, removelast_last. rewrite !hasByte_decide, !byte_eqb_decide.
  destruct (decide (fin ∈ [x6e; x63; x74])) as [Hin|Hin].
  { rewrite (bool_decide_true (fin ∈ _)) by done. cbn [orb]. rewrite !elem_of_cons in Hin.
    destruct_or!; subst; try done. set_solver. }
  rewrite (bool_decide_false (fin ∈ _)) by done. rewrite !not_elem_of_cons in Hin.
  destruct Hin as (N1 & N2 & N3 & _). cbn [orb].
  repeat (case_bool_decide; subst; simpl; try done; try congruence).
Qed.

(** ** The output language *)

Definition escInter (b : byte) : Prop := 32 <= bz b <= 47.
Definition csiBody (b : byte) : Prop := 32 <= bz b <= 63.
Definition oscBody (b : byte) : Prop := 32 <= bz b <= 126 \/ 160 <= bz b.

(** Finals that turn a bare [ESC] into an introducer (CSI, OSC, DCS, APC, PM,
    SOS) or into the DECID query; none of them completes a two-byte sequence. *)
Definition escIntroducer (b : byte) : Prop :=
  b ∈ [x5b; x5d; x50; x5f; x5e; x58; x5a].

(** The complete escape sequences the filter may forward; [ms] bounds what was
    buffered before the terminator. *)
Inductive token (ms : Z) : list byte -> Prop :=
| tok_esc ints fin :
    Forall escInter ints -> 48 <= bz fin <= 126 ->
    (ints = [] -> ~ escIntroducer fin) ->
    1 + Z.of_nat (length ints) <= ms ->
    token ms (ctrlESC :: ints ++ [fin])
| tok_csi mid fin :
    Forall csiBody mid -> 64 <= bz fin <= 126 ->
    hostileCSI mid fin = false ->
    2 + Z.of_nat (length mid) <= ms ->
    token ms (ctrlESC :: x5b :: mid ++ [fin])
| tok_osc_bel p :
    Forall oscBody p ->
    hostileOSC p = false ->
    2 + Z.of_nat (length p) <= ms ->
    token ms (ctrlESC :: x5d :: p ++ [ctrlBEL])
| tok_osc_st p :
    Forall oscBody p ->
    hostileOSC p = false ->
    2 + Z.of_nat (length p) <= ms ->
    token ms (ctrlESC :: x5d :: p ++ [ctrlESC; x5c]).

(** [safe ms r o r']: a UTF-8 aware reader that still expects [r] continuation
    bytes reads [o] as plain text and complete allowed sequences only, and then
    expects [r']. A byte in 0x80-0x9F is acceptable only as an expected
    continuation; ENQ never is; ESC only as the start of a [token]. *)
Inductive safe (ms : Z) : Z -> list byte -> Z -> Prop :=
| safe_nil r : safe ms r [] r
| safe_cont r b o r' :
    0 < r -> 128 <= bz b <= 191 -> safe ms (r - 1) o r' -> safe ms r (b :: o) r'
| safe_plain r b o r' :
    (0 < r -> ~ 128 <= bz b <= 191) ->
    b ≠ ctrlESC -> b ≠ ctrlENQ -> ~ 128 <= bz b <= 159 -> bz b < 192 ->
    safe ms 0 o r' -> safe ms r (b :: o) r'
| safe_lead r b o r' :
    192 <= bz b -> safe ms (utf8Continuation b) o r' -> safe ms r (b :: o) r'
| safe_tok r t o r' :
    token ms t -> safe ms 0 o r' -> safe ms r (t ++ o) r'.

Lemma safe_app ms r o r1 o' r2 :
  safe ms r o r1 -> safe ms r1 o' r2 -> safe ms r (o ++ o') r2.
Proof.
  intros Hs. revert o' r2. induction Hs; intros o' r2 Ht; simpl; eauto using safe.
  rewrite <- app_assoc. eauto using safe.
Qed.

Lemma safe_token ms r t : token ms t -> safe ms r t 0.
Proof. intros Ht. rewrite <- (app_nil_r t). eauto using safe. Qed.

(** ** Parser invariant *)

Definition wf (f : ANSIFilter) : Prop :=
  2 <= maxSeq f /\ 0 <= utf8Remaining f /\
  (state f ≠ stGround -> utf8Remaining f = 0) /\
  match state f with
  | stGround | stStr | stStrEsc => seq f = []
  | stEsc => seq f = [ctrlESC]
  | stEscInt =>
      exists ints, seq f = ctrlESC :: ints /\ ints ≠ [] /\ Forall escInter ints /\
        1 + Z.of_nat (length ints) <= maxSeq f
  | stCSI =>
      exists mid, seq f = ctrlESC :: x5b :: mid /\ Forall csiBody mid /\
        2 + Z.of_nat (length mid) <= maxSeq f
  | stOSC | stOSCEsc =>
      exists p, seq f = ctrlESC :: x5d :: p /\ Forall oscBody p /\
        2 + Z.of_nat (length p) <= maxSeq f
  end.

(** The continuation count of the filter against that of a reader of its
    output: equal, or the filter has already given the rune up. *)
Definition pending (f : ANSIFilter) (r : Z) : Prop :=
  0 <= r /\ (utf8Remaining f = r \/ utf8Remaining f = 0).

Lemma wf_new : wf NewANSIFilter.
Proof. unfold wf, NewANSIFilter, defaultMaxSeqBytes; simpl. repeat split; auto; lia. Qed.

Lemma utf8Continuation_nonneg b : 0 <= utf8Continuation b.
Proof. unfold utf8Continuation. split_ifs; lia. Qed.

Lemma byte_neq (a b : byte) : bz a ≠ bz b -> a ≠ b.
Proof. by intros H ->. Qed.

Ltac bytes :=
  unfold between, escInter, csiBody, oscBody in *; bool_hyps; bz_consts; bz_ranges; try lia.

(** Closes the conjuncts of [wf] once the buffer of the state is known. *)
Ltac wf_close :=
  repeat split; auto; try congruence; try lia;
  lazymatch goal with
  | |- exists l, _ :: _ :: ?r = _ :: _ :: l /\ _ => exists r
  | |- exists l, _ :: ?r = _ :: l /\ _ => exists r
  | |- _ => idtac
  end; repeat split; auto; rewrite ?Forall_app, ?length_app in *; simpl in *;
  repeat split; auto; try match goal with |- Forall _ [_] => apply Forall_singleton; bytes end; try lia;
  try done.

Lemma step_wf f b : wf f -> wf (step f b).1.1.
Proof.
  intros (Hm & Hu & Hz & Hst). pose proof (utf8Continuation_nonneg b) as Hc.
  unfold_step. destruct (state f) eqn:Es; try (specialize (Hz ltac:(done))).
  - split_ifs; byte_subst; unfold wf; simpl; rewrite ?Es, ?Hst; bytes; wf_close.
  - rewrite Hst; split_ifs; byte_subst; unfold wf; simpl; bytes; wf_close.
  - destruct Hst as (ints & Hq & Hne & Hi & Hl). rewrite Hq; split_ifs; byte_subst; unfold wf; simpl in *;
      bytes; wf_close. by destruct ints.
  - destruct Hst as (mid & Hq & Hi & Hl). rewrite Hq; split_ifs; byte_subst; unfold wf; simpl in *;
      bytes; wf_close.
  - destruct Hst as (p & Hq & Hi & Hl). rewrite Hq; split_ifs; byte_subst; unfold wf; simpl in *;
      bytes; wf_close.
  - split_ifs; unfold wf; simpl; wf_close.
  - split_ifs; unfold wf; simpl; rewrite ?Es; wf_close.
  - split_ifs; unfold wf; simpl; wf_close.
Qed.

(** What one iteration emits is safe for the reader of the output. *)
Lemma step_safe f b r :
  wf f -> pending f r ->
  exists r', safe (maxSeq f) r (step f b).1.2 r' /\ pending (step f b).1.1 r'.
Proof.
  intros (Hm & Hu & Hz & Hst) [Hr Hp].
  pose proof (utf8Continuation_nonneg b) as Hc. unfold_step.
  destruct (state f) eqn:Es; try (specialize (Hz ltac:(done))).
  - split_ifs; byte_subst; unfold pending; simpl.
    all: try (exists r; split; [apply safe_nil|lia]).
    + exists (r - 1). split; [|bytes]. apply safe_cont; [bytes..|constructor].
    + exists (utf8Continuation b). split; [|lia]. apply safe_lead; [bytes|constructor].
    + exists 0. split; [|lia]. apply safe_plain; try constructor; bytes; intros ->; bytes.
    + exists (utf8Continuation b). split; [|lia]. apply safe_lead; [bytes|constructor].
    + destruct (decide (0 < r /\ 128 <= bz b <= 191)) as [[? ?]|Hn].
      * exists (r - 1). split; [|lia]. apply safe_cont; [bytes..|constructor].
      * exists 0. split; [|lia]. apply safe_plain; try constructor; bytes; intros ->; bytes.
  - rewrite Hst; split_ifs; byte_subst; unfold pending; simpl;
      try (exists r; split; [apply safe_nil|lia]).
    exists 0. split; [|lia]. apply safe_token. apply (tok_esc _ []); simpl; [done|bytes| |lia].
    intros _ Hin. unfold escIntroducer in Hin. rewrite !elem_of_cons in Hin.
    destruct_or!; subst; bytes; set_solver.
  - destruct Hst as (ints & Hq & Hne & Hi & Hl). rewrite Hq.
    split_ifs; byte_subst; unfold pending; simpl in *; try (exists r; split; [apply safe_nil|lia]);
    exists 0; (split; [|lia]); apply safe_token; apply tok_esc; auto; try congruence; bytes.
  - destruct Hst as (mid & Hq & Hi & Hl). rewrite Hq.
    split_ifs; byte_subst; unfold pending; simpl in *; try (exists r; split; [apply safe_nil|lia]);
    exists 0; (split; [|lia]); apply safe_token; apply tok_csi; rewrite ?csiStrip_exact in *; auto; bytes.
  - destruct Hst as (p & Hq & Hi & Hl). rewrite Hq.
    split_ifs; byte_subst; unfold pending; simpl in *; try (exists r; split; [apply safe_nil|lia]);
    exists 0; (split; [|lia]); apply safe_token; apply tok_osc_bel; rewrite ?(proj1 (oscStrip_exact p)) in *; auto.
  - destruct Hst as (p & Hq & Hi & Hl). rewrite Hq.
    split_ifs; byte_subst; unfold pending; simpl in *; try (exists r; split; [apply safe_nil|lia]);
    exists 0; (split; [|lia]); apply safe_token; apply tok_osc_st; rewrite ?(proj2 (oscStrip_exact p)) in *; auto.
  - split_ifs; unfold pending; simpl; exists r; (split; [apply safe_nil|lia]).
  - unfold pending; simpl; exists r; (split; [apply safe_nil|lia]).
Qed.

Lemma feed_wf f b : wf f -> wf (feed f b).1.
Proof.
  intros H. apply (step_wf f b) in H. unfold feed.
  destruct (step f b) as [[f1 o1] []]; simpl in *; [|done].
  apply (step_wf f1 b) in H. by destruct (step f1 b) as [[f2 o2] ?].
Qed.

Lemma feed_safe f b r :
  wf f -> pending f r ->
  exists r', safe (maxSeq f) r (feed f b).2 r' /\ pending (feed f b).1 r'.
Proof.
  intros Hw Hp. pose proof (step_safe f b r Hw Hp) as H1.
  pose proof (step_wf f b Hw) as Hw1. destruct (step_limits f b) as [El _].
  unfold feed. destruct (step f b) as [[f1 o1] []]; simpl in *; [|done].
  destruct H1 as (r1 & Hs1 & Hp1).
  destruct (step_safe f1 b r1 Hw1 Hp1) as (r2 & Hs2 & Hp2).
  destruct (step f1 b) as [[f2 o2] ?]; simpl in *. rewrite El in Hs2.
  eauto using safe_app.
Qed.

Lemma run_safe_out f p r :
  wf f -> pending f r ->
  exists r', safe (maxSeq f) r (run f p).2 r' /\ pending (run f p).1 r' /\ wf (run f p).1.
Proof.
  revert f r. induction p as [|b p IH]; intros f r Hw Hp; simpl; [eauto using safe|].
  pose proof (feed_wf f b Hw) as Hw1. destruct (feed_limits f b) as [El _].
  destruct (feed_safe f b r Hw Hp) as (r1 & Hs1 & Hp1).
  destruct (feed f b) as [f1 o1]; simpl in *.
  destruct (IH f1 r1 Hw1 Hp1) as (r2 & Hs2 & Hp2 & Hw2).
  destruct (run f1 p) as [f2 o2]; simpl in *. rewrite El in Hs2. eauto using safe_app.
Qed.

(** ** Safe text is forwarded unchanged *)

Lemma set_utf8_id f : set_utf8 (utf8Remaining f) f = f.
Proof. by destruct f. Qed.

Lemma set_utf8_zero f : utf8Remaining f = 0 -> set_utf8 0 f = f.
Proof. intros <-. apply set_utf8_id. Qed.

Lemma goto_id s q f : state f = s -> seq f = q -> goto s q f = f.
Proof. intros <- <-. by destruct f. Qed.

Lemma run_cons f b p :
  run f (b :: p) = ((run (feed f b).1 p).1, (feed f b).2 ++ (run (feed f b).1 p).2).
Proof.
  cbn [run]. destruct (feed f b) as [f1 o1]. cbn [fst snd]. by destruct (run f1 p).
Qed.

(** Bytes that a state only buffers are buffered, while the bound allows it. *)
Lemma run_collect s (P : byte -> Prop) l g :
  (forall h b, state h = s -> P b -> Z.of_nat (length (seq h)) + 1 <= maxSeq h ->
     feed h b = (goto s (seq h ++ [b]) h, [])) ->
  state g = s -> Forall P l -> Z.of_nat (length (seq g ++ l)) <= maxSeq g ->
  run g l = (goto s (seq g ++ l) g, []).
Proof.
  intros Hfeed. revert g. induction l as [|b l IH]; intros g Hs Hl Hlen.
  { simpl. rewrite app_nil_r, goto_id; auto. }
  apply Forall_cons in Hl as [Hb Hl]. rewrite length_app in Hlen. simpl in Hlen.
  rewrite run_cons, Hfeed by (auto; lia). simpl.
  rewrite IH; auto; simpl; rewrite <- ?app_assoc; [done|].
  rewrite length_app. simpl. lia.
Qed.

(** The tests of [step] at a byte known only by its range. *)
Ltac decide_tests :=
  repeat match goal with
  | |- context [if ?c then _ else _] =>
      first [ replace c with true by (symmetry; unfold between; bz_consts; bz_ranges; lia)
            | replace c with false by (symmetry; unfold between; bz_consts; bz_ranges; lia) ];
      cbv iota
  end.

Lemma feed_step f b f' o : step f b = (f', o, false) -> feed f b = (f', o).
Proof. unfold feed. by intros ->. Qed.

Lemma boundSeq_ok f o again :
  Z.of_nat (length (seq f)) <= maxSeq f -> boundSeq (f, o, again) = (f, o, again).
Proof. unfold boundSeq. intros H. apply Z.ltb_ge in H. by rewrite H. Qed.

(** The buffering branch of the three collecting states. *)
Ltac buffered Hs :=
  apply feed_step; unfold step; rewrite Hs; unfold step_csi, step_escint, step_osc;
  decide_tests; apply boundSeq_ok; simpl; rewrite length_app; simpl; lia.

Lemma feed_csi_body h b :
  state h = stCSI -> csiBody b -> Z.of_nat (length (seq h)) + 1 <= maxSeq h ->
  feed h b = (goto stCSI (seq h ++ [b]) h, []).
Proof.
  intros Hs Hb Hl. unfold csiBody in Hb.
  destruct (decide (48 <= bz b)); buffered Hs.
Qed.

Lemma feed_escint_body h b :
  state h = stEscInt -> escInter b -> Z.of_nat (length (seq h)) + 1 <= maxSeq h ->
  feed h b = (goto stEscInt (seq h ++ [b]) h, []).
Proof. intros Hs Hb Hl. unfold escInter in Hb. buffered Hs. Qed.

Lemma feed_osc_body h b :
  state h = stOSC -> oscBody b -> Z.of_nat (length (seq h)) + 1 <= maxSeq h ->
  feed h b = (goto stOSC (seq h ++ [b]) h, []).
Proof. intros Hs Hb Hl. unfold oscBody in Hb. buffered Hs. Qed.

(** The completing branch: the buffer is emitted and the filter is at ground. *)
Lemma feed_csi_final h b :
  state h = stCSI -> 64 <= bz b <= 126 -> 0 <= maxSeq h ->
  csiShouldStrip (seq h ++ [b]) = false ->
  feed h b = (goto stGround [] h, seq h ++ [b]).
Proof.
  intros Hs Hb Hm Hc. apply feed_step. unfold step. rewrite Hs. unfold step_csi.
  rewrite Hc. decide_tests. by apply boundSeq_ok.
Qed.

Lemma feed_escint_final h b :
  state h = stEscInt -> 48 <= bz b <= 126 -> 0 <= maxSeq h ->
  feed h b = (goto stGround [] h, seq h ++ [b]).
Proof.
  intros Hs Hb Hm. apply feed_step. unfold step. rewrite Hs. unfold step_escint.
  decide_tests. by apply boundSeq_ok.
Qed.

Lemma feed_esc_final h b :
  state h = stEsc -> 48 <= bz b <= 126 -> ~ escIntroducer b ->
  feed h b = (goto stGround [] h, seq h ++ [b]).
Proof.
  intros Hs Hb Hn. apply feed_step. unfold step. rewrite Hs. unfold step_esc.
  unfold escIntroducer in Hn. rewrite !elem_of_cons in Hn.
  repeat match goal with |- context [b =b ?k] =>
    lazymatch k with ctrlESC => fail | _ =>
      destruct (b =b k) eqn:?; [exfalso; byte_subst; tauto|] end end.
  cbn [orb]. decide_tests. done.
Qed.

Lemma feed_ground_esc f :
  state f = stGround -> 0 <= utf8Remaining f ->
  feed f ctrlESC = (goto stEsc [ctrlESC] (set_utf8 0 f), []).
Proof.
  intros Hs Hr. unfold feed, step, step_ground. rewrite Hs.
  destruct (0 <? utf8Remaining f) eqn:E; [done|].
  bool_hyps. by rewrite set_utf8_zero by lia.
Qed.

(** Through the collecting state [s]: introducer seen, body buffered. *)
Lemma run_body s (P : byte -> Prop) h l p :
  (forall h b, state h = s -> P b -> Z.of_nat (length (seq h)) + 1 <= maxSeq h ->
     feed h b = (goto s (seq h ++ [b]) h, [])) ->
  state h = s -> Forall P l -> Z.of_nat (length (seq h ++ l)) <= maxSeq h ->
  run h (l ++ p) = run (goto s (seq h ++ l) h) p.
Proof.
  intros Hf Hs Hl Hn. rewrite run_app, (run_collect s P l h Hf Hs Hl Hn). simpl.
  by destruct (run _ p).
Qed.

Lemma goto_goto s q s' q' f : goto s q (goto s' q' f) = goto s q f.
Proof. done. Qed.

Lemma run_token f t :
  token (maxSeq f) t -> state f = stGround -> seq f = [] -> 0 <= utf8Remaining f ->
  2 <= maxSeq f -> run f t = (set_utf8 0 f, t).
Proof.
  intros Ht Hs Hq Hr Hm.
  assert (Hback : goto stGround [] (set_utf8 0 f) = set_utf8 0 f).
  { destruct f; simpl in *; by subst. }
  destruct Ht as [ints fin Hi Hf Hn Hl|mid fin Hi Hf Hc Hl|p Hi Hc Hl|p Hi Hc Hl];
    [|rewrite <- csiStrip_exact in Hc|rewrite <- (proj1 (oscStrip_exact p)) in Hc|
      rewrite <- (proj2 (oscStrip_exact p)) in Hc];
    rewrite run_cons, feed_ground_esc by done; cbn [fst snd app].
  - destruct ints as [|i ints]; cbn [app].
    + rewrite run_cons, feed_esc_final by auto. simpl. by rewrite goto_goto, Hback.
    + apply Forall_cons in Hi as [Hi Hi'].
      rewrite run_cons, (feed_step _ i (goto stEscInt [ctrlESC; i] (set_utf8 0 f)) []).
      2: { unfold step; simpl. unfold step_esc. unfold escInter in Hi. by decide_tests. }
      cbn [fst snd app]. rewrite (run_body stEscInt escInter); auto using feed_escint_body.
      2: { simpl in *. lia. }
      rewrite run_cons, feed_escint_final by (simpl; auto; lia). simpl.
      by rewrite ?goto_goto, ?app_nil_r, Hback.
  - rewrite run_cons, (feed_step _ _ (goto stCSI [ctrlESC; x5b] (set_utf8 0 f)) []) by done.
    cbn [fst snd app]. rewrite (run_body stCSI csiBody); auto using feed_csi_body.
    2: { simpl in *. lia. }
    rewrite run_cons, feed_csi_final by (simpl; auto; lia). simpl.
    by rewrite ?goto_goto, ?app_nil_r, Hback.
  - rewrite run_cons, (feed_step _ _ (goto stOSC [ctrlESC; x5d] (set_utf8 0 f)) []) by done.
    cbn [fst snd app]. rewrite (run_body stOSC oscBody); auto using feed_osc_body.
    2: { simpl in *. lia. }
    rewrite run_cons, (feed_step _ _ (goto stGround [] (set_utf8 0 f)) (ctrlESC :: x5d :: p ++ [ctrlBEL])).
    2: { unfold step, step_osc; simpl. simpl in Hc. by rewrite Hc. }
    simpl. by rewrite app_nil_r, Hback.
  - rewrite run_cons, (feed_step _ _ (goto stOSC [ctrlESC; x5d] (set_utf8 0 f)) []) by done.
    cbn [fst snd app]. rewrite (run_body stOSC oscBody); auto using feed_osc_body.
    2: { simpl in *. lia. }
    rewrite run_cons, (feed_step _ _ (goto stOSCEsc (ctrlESC :: x5d :: p) (set_utf8 0 f)) []) by done.
    rewrite run_cons, (feed_step _ _ (goto stGround [] (set_utf8 0 f)) (ctrlESC :: x5d :: p ++ [ctrlESC; x5c])).
    2: { unfold step, step_oscesc; simpl. simpl in Hc. by rewrite Hc. }
    simpl. by rewrite app_nil_r, Hback.
Qed.

Lemma run_safe ms r o r' f :
  safe ms r o r' -> maxSeq f = ms -> 2 <= ms -> 0 <= r ->
  state f = stGround -> seq f = [] -> utf8Remaining f = r ->
  run f o = (set_utf8 r' f, o).
Proof.
  intros Hsafe. revert f. induction Hsafe as
    [r|r b o r' Hr Hb Hs IH|r b o r' Hc He Hq H9 Hb Hs IH|r b o r' Hb Hs IH|r t o r' Ht Hs IH];
    intros f Hms Hm Hr0 Hst Hsq Hu.
  - simpl. by rewrite <- Hu, set_utf8_id.
  - rewrite run_cons, (feed_step _ _ (set_utf8 (r - 1) f) [b]).
    2: { unfold step, step_ground. rewrite Hst, Hu. by decide_tests. }
    cbn [fst snd]. rewrite IH by (simpl; auto; lia). done.
  - assert (bz b ≠ 27) by (intros E; apply He, bz_inj; by rewrite E).
    assert (bz b ≠ 5) by (intros E; apply Hq, bz_inj; by rewrite E).
    rewrite run_cons, (feed_step _ _ (set_utf8 0 f) [b]).
    2: { assert (E : step_ground_fresh (set_utf8 0 f) b = (set_utf8 0 f, [b], false)).
         { unfold step_ground_fresh. by decide_tests. }
         unfold step, step_ground. rewrite Hst, Hu.
         destruct (0 <? r) eqn:Er; bool_hyps; [by decide_tests|].
         by rewrite <- (set_utf8_zero f) at 1 by lia. }
    cbn [fst snd]. rewrite IH by (simpl; auto; lia). done.
  - rewrite run_cons, (feed_step _ _ (set_utf8 (utf8Continuation b) f) [b]).
    2: { unfold step, step_ground, step_ground_fresh. rewrite Hst, Hu.
         destruct (0 <? r) eqn:Er; bool_hyps; by decide_tests. }
    cbn [fst snd]. rewrite IH by (simpl; auto using utf8Continuation_nonneg). done.
  - subst ms r. rewrite run_app, (run_token f t) by auto. cbn [fst snd].
    rewrite IH by (simpl; auto; lia). done.
Qed.

Lemma no_enq_above (P : byte -> Prop) l :
  (forall b, P b -> 32 <= bz b) -> Forall P l -> ctrlENQ ∉ l.
Proof.
  intros HP Hl Hin. rewrite Forall_forall in Hl. apply Hl, HP in Hin. bytes.
Qed.

Lemma token_no_enq ms t : token ms t -> ctrlENQ ∉ t.
Proof.
  intros Ht. destruct Ht as [ints fin Hi Hf|mid fin Hi Hf|p Hi|p Hi];
    apply (no_enq_above _ _) in Hi; try (by unfold escInter, csiBody, oscBody; intros; lia);
    rewrite !not_elem_of_cons, not_elem_of_app, ?not_elem_of_cons;
    repeat split; auto using not_elem_of_nil; intros E; apply (f_equal bz) in E; bytes.
Qed.

Lemma safe_no_enq ms r o r' : safe ms r o r' -> ctrlENQ ∉ o.
Proof.
  induction 1 as [r|r b o r' Hr Hb Hs IH|r b o r' Hc He Hq H9 Hb Hs IH|r b o r' Hb Hs IH|r t o r' Ht Hs IH].
  - set_solver.
  - rewrite not_elem_of_cons; split; [|done]. intros <-. bytes.
  - rewrite not_elem_of_cons; split; [|done]. congruence.
  - rewrite not_elem_of_cons; split; [|done]. intros <-. bytes.
  - rewrite not_elem_of_app; eauto using token_no_enq.
Qed.

(** ** Fragmented input and the writer *)

(** A stream delivered in fragments: one [Filter] call per fragment. *)
Fixpoint FilterAll (f : ANSIFilter) (chunks : list (list byte))
  : option (ANSIFilter * list byte) :=
  match chunks with
  | [] => Some (f, [])
  | c :: cs =>
      '(f1, o1) ← Filter f c;
      '(f2, o2) ← FilterAll f1 cs;
      Some (f2, o1 ++ o2)
  end.

Lemma FilterAll_run f chunks :
  withLimits f = f -> FilterAll f chunks = Some (run f (concat chunks)).
Proof.
  revert f. induction chunks as [|c cs IH]; intros f Hf; [done|]. simpl.
  rewrite Filter_run, Hf, run_app. 
  pose proof (run_withLimits f c) as Hw. rewrite Hf in Hw.
  destruct (run f c) as [f1 o1]; simpl in *. rewrite IH by done.
  by destruct (run f1 (concat cs)).
Qed.

(** [ansiWriter]: the sink is any [io.Writer], here its state [W] and its write
    operation, which may fail. *)
Section Writer.
Context {W E : Type} (sinkWrite : W -> list byte -> W * option E).

Record ansiWriter := mkWriter { w : W; flt : ANSIFilter }.

Definition NewANSIWriter (w0 : W) : ansiWriter := mkWriter w0 NewANSIFilter.

(** The byte count and error [Write] returns, and the writer afterwards. *)
Definition Write (a : ansiWriter) (p : list byte) : option (ansiWriter * (nat * option E)) :=
  '(f, filtered) ← Filter (flt a) p;
  Some match filtered with
       | [] => (mkWriter (w a) f, (length p, None))
       | _ :: _ =>
           match sinkWrite (w a) filtered with
           | (w', Some e) => (mkWriter w' f, (O, Some e))
           | (w', None) => (mkWriter w' f, (length p, None))
           end
       end.

Fixpoint WriteAll (a : ansiWriter) (ps : list (list byte)) : option ansiWriter :=
  match ps with
  | [] => Some a
  | p :: ps' => '(a', _) ← Write a p; WriteAll a' ps'
  end.
End Writer.

(** A sink that never fails and keeps what it was given. *)
Definition bufferSink (w : list byte) (p : list byte) : list byte * option Empty_set :=
  (w ++ p, None).

Lemma Write_buffer (a : ansiWriter) p :
  withLimits (flt a) = flt a ->
  Write bufferSink a p =
  Some (mkWriter (w a ++ (run (flt a) p).2) (run (flt a) p).1, (length p, None)).
Proof.
  intros Hf. unfold Write. rewrite Filter_run, Hf. simpl.
  destruct (run (flt a) p) as [f1 [|c o]]; simpl; [by rewrite app_nil_r|done].
Qed.

(** ** Properties *)

(** C10: The filter never forwards a dangerous control sequence. For every input
    stream the filter returns (the re-reads of its loop terminate) and its
    output is plain text, expected UTF-8 continuations and complete allowed
    sequences only; in particular ENQ never gets through. *)
Theorem Filter_safe (p : list byte) :
  exists f out r, Filter NewANSIFilter p = Some (f, out) /\
    safe defaultMaxSeqBytes 0 out r /\ ctrlENQ ∉ out.
Proof.
  rewrite Filter_run. change (withLimits NewANSIFilter) with NewANSIFilter.
  destruct (run_safe_out NewANSIFilter p 0 wf_new) as (r & Hs & _ & _).
  { unfold pending; simpl; lia. }
  destruct (run NewANSIFilter p) as [f out]. exists f, out, r.
  repeat split; eauto using safe_no_enq.
Qed.

(** The output does not depend on how the stream is fragmented: filtering
    any sequence of fragments one by one gives the state and the concatenated
    output of filtering the whole stream at once. *)
Theorem Filter_chunking (chunks : list (list byte)) :
  FilterAll NewANSIFilter chunks = Filter NewANSIFilter (concat chunks).
Proof. rewrite FilterAll_run, Filter_run; done. Qed.

(** Text and rendering sequences survive: any byte string that is already
    safe is forwarded unchanged and leaves the filter in the ground state. *)
Theorem Filter_transparent (o : list byte) (r : Z) :
  safe defaultMaxSeqBytes 0 o r ->
  exists f, Filter NewANSIFilter o = Some (f, o) /\ state f = stGround.
Proof.
  intros Hs. rewrite Filter_run. change (withLimits NewANSIFilter) with NewANSIFilter.
  rewrite (run_safe _ _ _ _ NewANSIFilter Hs) by (done || by unfold defaultMaxSeqBytes).
  by eexists.
Qed.

(** Two characters, a colour change, a two-byte rune and a query-free OSC. *)
Definition sampleText : list byte :=
  [x68; x69] ++ [ctrlESC; x5b; x33; x31; x6d] ++ [xc3; xa9] ++
  [ctrlESC; x5d; x31; x33; x33; x3b; x41; ctrlBEL].

Lemma sampleText_safe : safe defaultMaxSeqBytes 0 sampleText 0.
Proof.
  unfold sampleText. simpl.
  do 2 (apply safe_plain; [lia|done|done|bz_consts; lia|done|]).
  apply (safe_tok _ _ [ctrlESC; x5b; x33; x31; x6d]).
  { apply (tok_csi _ [x33; x31] x6d); [|done|done|done].
    repeat constructor; done. }
  apply safe_lead; [done|]. apply safe_cont; [done|done|].
  apply (safe_tok _ _ [ctrlESC; x5d; x31; x33; x33; x3b; x41; ctrlBEL] []); [|constructor].
  apply (tok_osc_bel _ [x31; x33; x33; x3b; x41]); [|done|done].
  repeat (apply Forall_cons; split; [left; done|]). done.
Qed.

Lemma Filter_transparent_witness :
  exists f, Filter NewANSIFilter sampleText = Some (f, sampleText) /\ state f = stGround.
Proof. exact (Filter_transparent sampleText 0 sampleText_safe). Defined.

(** Filtering is idempotent: a second pass over the output of the filter
    changes nothing. *)
Theorem Filter_idempotent (p out : list byte) (f : ANSIFilter) :
  Filter NewANSIFilter p = Some (f, out) ->
  exists f', Filter NewANSIFilter out = Some (f', out).
Proof.
  rewrite !Filter_run. change (withLimits NewANSIFilter) with NewANSIFilter.
  intros [= H]. destruct (run_safe_out NewANSIFilter p 0 wf_new) as (r & Hs & _ & _).
  { unfold pending; simpl; lia. }
  rewrite H in Hs. simpl in Hs.
  rewrite (run_safe _ _ _ _ NewANSIFilter Hs) by (done || by unfold defaultMaxSeqBytes).
  by eexists.
Qed.

(** An 8-bit CSI, a clipboard OSC and an answerback byte around text. *)
Definition sampleHostile : list byte :=
  [x61; x9b; x33; x31; x6d; ctrlESC; x5d; x35; x32; x3b; x63; ctrlBEL; ctrlENQ; x62].

Lemma Filter_idempotent_witness :
  exists f', Filter NewANSIFilter [x61; ctrlESC; x5b; x33; x31; x6d; x62] =
    Some (f', [x61; ctrlESC; x5b; x33; x31; x6d; x62]).
Proof.
  eapply (Filter_idempotent sampleHostile). vm_compute. reflexivity.
Defined.

Lemma run_wf f p : wf f -> wf (run f p).1.
Proof.
  revert f. induction p as [|b p IH]; intros f Hw; [done|].
  rewrite run_cons. simpl. auto using feed_wf.
Qed.

(** Buffering is bounded: whatever was read, at most [maxSeq] bytes are
    held back. *)
Theorem Filter_bounded (p : list byte) :
  exists f out, Filter NewANSIFilter p = Some (f, out) /\
    Z.of_nat (length (seq f)) <= defaultMaxSeqBytes.
Proof.
  rewrite Filter_run. change (withLimits NewANSIFilter) with NewANSIFilter.
  pose proof (run_wf NewANSIFilter p wf_new) as (_ & _ & _ & Hq).
  destruct (run_limits NewANSIFilter p) as [Hm _].
  destruct (run NewANSIFilter p) as [f out]; simpl in *.
  exists f, out. split; [done|]. change (maxSeq NewANSIFilter) with defaultMaxSeqBytes in Hm.
  destruct (state f); repeat match goal with H : exists _, _ |- _ => destruct H end;
    destruct_and?; try rewrite Hm in *;
    match goal with H : seq f = _ |- _ => rewrite H end; simpl in *;
    unfold defaultMaxSeqBytes in *; lia.
Qed.

(** The writer reports every accepted byte as written and delivers to its
    sink exactly the filtered stream, whatever the write boundaries. *)
Theorem Write_delivers (ps : list (list byte)) :
  exists f out, Filter NewANSIFilter (concat ps) = Some (f, out) /\
    WriteAll bufferSink (NewANSIWriter []) ps = Some (mkWriter out f).
Proof.
  rewrite Filter_run. change (withLimits NewANSIFilter) with NewANSIFilter.
  exists (run NewANSIFilter (concat ps)).1, (run NewANSIFilter (concat ps)).2.
  split; [by destruct (run _ _)|].
  assert (H : forall ps w0 f0, withLimits f0 = f0 ->
    WriteAll bufferSink (mkWriter w0 f0) ps =
    Some (mkWriter (w0 ++ (run f0 (concat ps)).2) (run f0 (concat ps)).1)).
  { clear ps. induction ps as [|p ps IH]; intros w0 f0 Hf; simpl; [by rewrite app_nil_r|].
    rewrite Write_buffer by done. simpl. rewrite IH, run_app; simpl.
    - by rewrite app_assoc.
    - pose proof (run_withLimits f0 p) as Hw. by rewrite Hf in Hw. }
  unfold NewANSIWriter. by rewrite H.
Qed.

(** The filter tracks bytes, not code points: the UTF-8 encoding of U+009B (the
    8-bit CSI as a code point) followed by a status query is forwarded. *)
Example Filter_forwards_encoded_csi :
  snd <$> Filter NewANSIFilter [xc2; x9b; x36; x6e] = Some [xc2; x9b; x36; x6e].
Proof. reflexivity. Qed.
