(* ===== verification/Topology.v ===== *)
(** * Topology: the decoded Herdr snapshot of internal/herdr/models.go, and the
    content projection of internal/state/snapshot.go that is hashed to decide
    whether a poll changed anything.

    Go integers that the code only copies are [Z]; the one float64 (a split
    ratio, only copied and hashed) is kept as its 64-bit pattern. *)

From S2P Require Import Prelude.

(** ** Records of models.go *)

(** Herdr's status strings are kept verbatim: an unknown one must survive. *)
Definition AgentStatus := string.
Definition StatusIdle : AgentStatus := "idle".
Definition StatusWorking : AgentStatus := "working".
Definition StatusBlocked : AgentStatus := "blocked".
Definition StatusDone : AgentStatus := "done".
Definition StatusUnknown : AgentStatus := "unknown".

Definition Active (s : AgentStatus) : bool :=
  bool_decide (s = StatusWorking) || bool_decide (s = StatusBlocked).

Record WorkspaceWorktree := mkWorkspaceWorktree {
  wt_RepoKey : string; wt_RepoName : string; wt_RepoRoot : string;
  wt_CheckoutPath : string; wt_IsLinkedWorktree : bool
}.

Record Workspace := mkWorkspace {
  w_WorkspaceID : string; w_Number : Z; w_Label : string; w_Focused : bool;
  w_PaneCount : Z; w_TabCount : Z; w_ActiveTabID : string;
  w_AgentStatus : AgentStatus; w_Worktree : option WorkspaceWorktree
}.

Record Tab := mkTab {
  t_TabID : string; t_WorkspaceID : string; t_Number : Z; t_Label : string;
  t_Focused : bool; t_PaneCount : Z; t_AgentStatus : AgentStatus
}.

Record Scroll := mkScroll {
  OffsetFromBottom : Z; MaxOffsetFromBottom : Z; ViewportRows : Z
}.

Record AgentSession := mkAgentSession {
  as_Source : string; as_Agent : string; as_Kind : string; as_Value : string
}.

Record Pane := mkPane {
  p_PaneID : string; p_TerminalID : string; p_WorkspaceID : string; p_TabID : string;
  p_Focused : bool; p_CWD : string; p_ForegroundCWD : string; p_Agent : string;
  p_DisplayAgent : string; p_AgentSession : option AgentSession;
  p_AgentStatus : AgentStatus; p_Label : string; p_Title : string;
  p_TerminalTitle : string; p_TerminalTitleStripped : string;
  p_Scroll : option Scroll; p_Revision : Z
}.

Record Agent := mkAgent {
  a_TerminalID : string; a_Agent : string; a_Name : string; a_DisplayAgent : string;
  a_Title : string; a_AgentSession : option AgentSession; a_AgentStatus : AgentStatus;
  a_WorkspaceID : string; a_TabID : string; a_PaneID : string; a_Focused : bool;
  a_InteractiveReady : bool; a_LaunchPending : bool; a_ScreenDetectionSkipped : bool;
  a_StateChangeSeq : Z; a_CWD : string; a_ForegroundCWD : string;
  a_TerminalTitle : string; a_TerminalTitleStripped : string; a_Revision : Z
}.

Record Rect := mkRect { r_X : Z; r_Y : Z; r_Width : Z; r_Height : Z }.

Record LayoutPane := mkLayoutPane { lp_PaneID : string; lp_Focused : bool; lp_Rect : Rect }.

Record LayoutSplit := mkLayoutSplit {
  ls_ID : string; ls_Direction : string; ls_Ratio : Z; ls_Rect : Rect
}.

Record Layout := mkLayout {
  l_WorkspaceID : string; l_TabID : string; l_Zoomed : bool; l_Area : Rect;
  l_FocusedPaneID : string; l_Panes : list LayoutPane; l_Splits : list LayoutSplit
}.

Record HerdrSnapshot := mkHerdrSnapshot {
  Version : string; Protocol : Z; FocusedWorkspaceID : string; FocusedTabID : string;
  FocusedPaneID : string; Workspaces : list Workspace; Tabs : list Tab;
  Panes : list Pane; Layouts : list Layout; Agents : list Agent
}.

(** The terminal occupant of a pane as one NUL-separated key. *)
Definition OccupantFingerprint (p : Pane) : string :=
  let fp := p_TerminalID p +:+ NUL +:+ p_Agent p in
  match p_AgentSession p with
  | Some s => fp +:+ NUL +:+ as_Source s +:+ NUL +:+ as_Kind s +:+ NUL +:+ as_Value s
  | None => fp
  end.

(** ** The hashed projection of snapshot.go *)

Record projWS := mkProjWS {
  pw_ID : string; pw_Label : string; pw_ActiveTab : string; pw_Status : string;
  pw_Number : Z; pw_PaneCount : Z; pw_TabCount : Z; pw_Focused : bool; pw_Worktree : string
}.
Record projTab := mkProjTab {
  pt_ID : string; pt_WS : string; pt_Label : string; pt_Status : string;
  pt_Number : Z; pt_PaneCount : Z; pt_Focused : bool
}.
Record projPane := mkProjPane {
  pp_ID : string; pp_Terminal : string; pp_WS : string; pp_Tab : string; pp_Agent : string;
  pp_DisplayAgent : string; pp_Status : string; pp_Label : string; pp_Title : string;
  pp_CWD : string; pp_FgCWD : string; pp_Occupant : string; pp_Focused : bool
}.
Record projAgent := mkProjAgent {
  pa_Pane : string; pa_Agent : string; pa_Name : string; pa_Status : string; pa_WS : string;
  pa_Tab : string; pa_CWD : string; pa_Focused : bool; pa_InteractiveReady : bool
}.

Record hashProjection := mkHashProjection {
  FW : string; FT : string; FP : string;
  h_Workspaces : list projWS; h_Tabs : list projTab; h_Panes : list projPane;
  h_Agents : list projAgent; h_Layouts : list Layout
}.

Definition formatBool (b : bool) : string := if b then "true" else "false".

Definition worktreeKey (w : option WorkspaceWorktree) : string :=
  match w with
  | None => ""
  | Some w =>
      wt_RepoKey w +:+ NUL +:+ wt_RepoName w +:+ NUL +:+ wt_RepoRoot w +:+ NUL +:+
      wt_CheckoutPath w +:+ NUL +:+ formatBool (wt_IsLinkedWorktree w)
  end.

Definition single {A} (f : A -> string) (x : A) : string * string := (f x, "").

(** An empty list and a nil slice both encode as JSON null after [project]: the
    projection appends to nil slices, so both are the empty list here. *)
Definition canonicalLayouts (ls : list Layout) : list Layout :=
  (fun l => mkLayout (l_WorkspaceID l) (l_TabID l) (l_Zoomed l) (l_Area l) (l_FocusedPaneID l)
              (sortBy (single lp_PaneID) (l_Panes l)) (sortBy (single ls_ID) (l_Splits l))) <$> ls.

Definition projectWS (w : Workspace) : projWS :=
  mkProjWS (w_WorkspaceID w) (w_Label w) (w_ActiveTabID w) (w_AgentStatus w)
    (w_Number w) (w_PaneCount w) (w_TabCount w) (w_Focused w) (worktreeKey (w_Worktree w)).
Definition projectTab (t : Tab) : projTab :=
  mkProjTab (t_TabID t) (t_WorkspaceID t) (t_Label t) (t_AgentStatus t)
    (t_Number t) (t_PaneCount t) (t_Focused t).
Definition projectPane (p : Pane) : projPane :=
  mkProjPane (p_PaneID p) (p_TerminalID p) (p_WorkspaceID p) (p_TabID p) (p_Agent p)
    (p_DisplayAgent p) (p_AgentStatus p) (p_Label p) (p_Title p) (p_CWD p)
    (p_ForegroundCWD p) (OccupantFingerprint p) (p_Focused p).
Definition projectAgent (a : Agent) : projAgent :=
  mkProjAgent (a_PaneID a) (a_Agent a) (a_Name a) (a_AgentStatus a) (a_WorkspaceID a)
    (a_TabID a) (a_CWD a) (a_Focused a) (a_InteractiveReady a).

Definition agentKey (a : projAgent) : string * string := (pa_Pane a, pa_Agent a).

Definition project (s : HerdrSnapshot) : hashProjection :=
  mkHashProjection (FocusedWorkspaceID s) (FocusedTabID s) (FocusedPaneID s)
    (sortBy (single pw_ID) (projectWS <$> Workspaces s))
    (sortBy (single pt_ID) (projectTab <$> Tabs s))
    (sortBy (single pp_ID) (projectPane <$> Panes s))
    (sortBy agentKey (projectAgent <$> Agents s))
    (sortBy (single l_TabID) (canonicalLayouts (Layouts s))).

(** ** The fingerprint separates occupants *)

(** The session identity the fingerprint covers. *)
Definition sessionKey (s : AgentSession) : string * string * string :=
  (as_Source s, as_Kind s, as_Value s).

Definition nulFreePane (p : Pane) : Prop :=
  nulFree (p_TerminalID p) /\ nulFree (p_Agent p) /\
  match p_AgentSession p with
  | Some s => nulFree (as_Source s) /\ nulFree (as_Kind s) /\ nulFree (as_Value s)
  | None => True
  end.

(** Two panes with the same fingerprint have the same terminal, agent kind
    and bound session (source, kind and value), as long as these strings carry
    no NUL byte, the separator of the fingerprint. *)
Theorem OccupantFingerprint_inj (p q : Pane) :
  nulFreePane p -> nulFreePane q ->
  OccupantFingerprint p = OccupantFingerprint q ->
  p_TerminalID p = p_TerminalID q /\ p_Agent p = p_Agent q /\
  sessionKey <$> p_AgentSession p = sessionKey <$> p_AgentSession q.
Proof.
  intros (Ht & Ha & Hs) (Ht' & Ha' & Hs') H. unfold OccupantFingerprint in H.
  destruct (p_AgentSession p) as [s|], (p_AgentSession q) as [s'|]; rewrite ?append_assoc in H;
    apply nul_split in H as [-> H]; auto.
  - apply nul_split in H as [-> H]; [|tauto..].
    apply nul_split in H as [E1 H]; [|tauto..].
    apply nul_split in H as [E2 E3]; [|tauto..].
    simpl. unfold sessionKey. by rewrite E1, E2, E3.
  - symmetry in H. apply nul_not in H; tauto.
  - apply nul_not in H; tauto.
Qed.

Definition samplePane (id term agent : string) (sess : option AgentSession) : Pane :=
  mkPane id term "w1" "t1" false "/repo" "/repo" agent "" sess StatusWorking "" "" "" "" None 0.

Lemma OccupantFingerprint_inj_witness :
  let p := samplePane "p1" "term1" "claude" (Some (mkAgentSession "hook" "claude" "id" "s-1")) in
  p_Agent p = p_Agent p.
Proof.
  intros p. apply (OccupantFingerprint_inj p p); [..|reflexivity];
    repeat split; vm_compute; intros H; repeat (apply elem_of_cons in H as [H|H]; [discriminate|]);
    by apply not_elem_of_nil in H.
Defined.

(** ** Wire order and volatile fields do not matter *)

(** The same content up to the order of the topology arrays and of the inner
    arrays of each layout, and up to what the hash does not cover (revision,
    scroll position, terminal titles, protocol version). *)
Definition layoutReordered (l l' : Layout) : Prop :=
  l_WorkspaceID l = l_WorkspaceID l' /\ l_TabID l = l_TabID l' /\ l_Zoomed l = l_Zoomed l' /\
  l_Area l = l_Area l' /\ l_FocusedPaneID l = l_FocusedPaneID l' /\
  l_Panes l ≡ₚ l_Panes l' /\ l_Splits l ≡ₚ l_Splits l' /\
  NoDup (lp_PaneID <$> l_Panes l) /\ NoDup (ls_ID <$> l_Splits l).

Record reordered (s s' : HerdrSnapshot) : Prop := {
  ro_focus : (FocusedWorkspaceID s, FocusedTabID s, FocusedPaneID s) =
             (FocusedWorkspaceID s', FocusedTabID s', FocusedPaneID s');
  ro_ws : projectWS <$> Workspaces s ≡ₚ projectWS <$> Workspaces s';
  ro_tabs : projectTab <$> Tabs s ≡ₚ projectTab <$> Tabs s';
  ro_panes : projectPane <$> Panes s ≡ₚ projectPane <$> Panes s';
  ro_agents : projectAgent <$> Agents s ≡ₚ projectAgent <$> Agents s';
  ro_layouts : exists ls, Layouts s ≡ₚ ls /\ Forall2 layoutReordered ls (Layouts s')
}.

(** Identifiers are distinct within each array. *)
Record distinctIDs (s : HerdrSnapshot) : Prop := {
  di_ws : NoDup (w_WorkspaceID <$> Workspaces s);
  di_tabs : NoDup (t_TabID <$> Tabs s);
  di_panes : NoDup (p_PaneID <$> Panes s);
  di_agents : NoDup ((fun a => (a_PaneID a, a_Agent a)) <$> Agents s);
  di_layouts : NoDup (l_TabID <$> Layouts s)
}.

Lemma NoDup_single {A} (f : A -> string) (l : list A) :
  NoDup (f <$> l) -> NoDup (single f <$> l).
Proof.
  intros H. unfold single. rewrite (list_fmap_compose f (fun x => (x, ""))).
  apply NoDup_fmap_2; [|done]. intros x y E. by injection E.
Qed.

Lemma sortBy_single {A} (f : A -> string) (l l' : list A) :
  NoDup (f <$> l) -> l ≡ₚ l' -> sortBy (single f) l = sortBy (single f) l'.
Proof. intros Hn Hp. apply sortBy_permutation; auto using NoDup_single. Qed.

Lemma canonicalLayouts_reordered ls ls' :
  Forall2 layoutReordered ls ls' -> canonicalLayouts ls = canonicalLayouts ls'.
Proof.
  induction 1 as [|l l' ls ls' Hl _ IH]; [done|]. unfold canonicalLayouts in *. simpl.
  f_equal; [|done].
  destruct Hl as (-> & -> & -> & -> & -> & Hp & Hs & Np & Ns).
  by rewrite (sortBy_single lp_PaneID _ _ Np Hp), (sortBy_single ls_ID _ _ Ns Hs).
Qed.

Lemma l_TabID_canonical ls : l_TabID <$> canonicalLayouts ls = l_TabID <$> ls.
Proof. unfold canonicalLayouts. rewrite <- list_fmap_compose. done. Qed.

(** The content hash is independent of enumeration order: two topologies
    that differ only in the order of their arrays, and in fields outside the
    projection, have the same projection, hence the same hash and no
    rebroadcast. *)
Theorem project_reordered (s s' : HerdrSnapshot) :
  distinctIDs s -> reordered s s' -> project s = project s'.
Proof.
  intros [Hw Ht Hp Ha Hl] [Ef Rw Rt Rp Ra (ls & Rl & Fl)]. injection Ef as E1 E2 E3.
  unfold project. rewrite E1, E2, E3.
  rewrite (sortBy_single pw_ID _ _) with (2 := Rw) by (by rewrite <- list_fmap_compose).
  rewrite (sortBy_single pt_ID _ _) with (2 := Rt) by (by rewrite <- list_fmap_compose).
  rewrite (sortBy_single pp_ID _ _) with (2 := Rp) by (by rewrite <- list_fmap_compose).
  rewrite (sortBy_permutation agentKey _ _) with (2 := Ra) by (by rewrite <- list_fmap_compose).
  rewrite (sortBy_single l_TabID (canonicalLayouts (Layouts s)) (canonicalLayouts ls)).
  - by rewrite (canonicalLayouts_reordered ls (Layouts s')).
  - by rewrite l_TabID_canonical.
  - unfold canonicalLayouts. by rewrite Rl.
Qed.

Definition sampleTopology (panes : list Pane) : HerdrSnapshot :=
  mkHerdrSnapshot "0.7.5" 17 "w1" "t1" "p1"
    [mkWorkspace "w1" 1 "repo" true 2 1 "t1" StatusWorking None]
    [mkTab "t1" "w1" 1 "main" true 2 StatusWorking] panes [] [].

Lemma project_reordered_witness :
  let a := samplePane "p1" "term1" "claude" None in
  let b := samplePane "p2" "term2" "codex" None in
  project (sampleTopology [a; b]) = project (sampleTopology [b; a]).
Proof.
  intros a b. apply project_reordered.
  - split; simpl; repeat constructor; set_solver.
  - split; try reflexivity; [apply perm_swap|]. exists []. split; constructor.
Defined.
