(* ===== verification/Subscriber.v ===== *)
(** * Subscriber: the per-client snapshot queue of internal/state/subscriber.go

    The buffered [notify] channel (capacity one) is the boolean "a signal is
    waiting"; the [done] channel is the number of times it was closed, since
    closing it twice would panic. *)

From S2P Require Import Prelude Topology.

(** ** The broadcast unit (snapshot.go) *)

Record Snapshot {Digest : Type} := mkSnapshot {
  Seq : Z;
  Hash : Digest;
  Topology : HerdrSnapshot;
  Generations : gmap string Z;
  sn_bytes : Z
}.
Arguments Snapshot : clear implicits.
Arguments mkSnapshot {Digest}.

(** ** The queue and its operations *)

Record Subscription {Digest : Type} := mkSubscription {
  sub_maxItems : Z;
  sub_maxBytes : Z;
  pending : list (Snapshot Digest);
  bytes : Z;
  closed : bool;
  overflow : bool;
  notify : bool;
  doneCloses : nat
}.
Arguments Subscription : clear implicits.
Arguments mkSubscription {Digest}.

Section Queue.
Context {Digest : Type}.
Implicit Types (s : Subscription Digest) (snap : Snapshot Digest).

Definition newSubscription (maxItems maxBytes : Z) : Subscription Digest :=
  mkSubscription maxItems maxBytes [] 0 false false false 0.

Definition closeLocked s : Subscription Digest :=
  if closed s then s
  else mkSubscription (sub_maxItems s) (sub_maxBytes s) [] 0 true (overflow s) (notify s)
         (S (doneCloses s)).

Definition Close s : Subscription Digest := closeLocked s.

Definition signal s : Subscription Digest :=
  mkSubscription (sub_maxItems s) (sub_maxBytes s) (pending s) (bytes s) (closed s)
    (overflow s) true (doneCloses s).

(** [pending[len-1:]] once there is more than one element. *)
Definition coalesce (l : list (Snapshot Digest)) : list (Snapshot Digest) :=
  if (1 <? length l)%nat then drop (length l - 1) l else l.

Definition enqueue s snap : Subscription Digest * bool :=
  if closed s then (s, false)
  else
    let pending' := coalesce (pending s ++ [snap]) in
    let s1 := mkSubscription (sub_maxItems s) (sub_maxBytes s) pending' (sn_bytes snap)
                (closed s) (overflow s) (notify s) (doneCloses s) in
    if (sub_maxBytes s1 <? bytes s1) || (sub_maxItems s1 <? Z.of_nat (length (pending s1)))
    then (closeLocked (mkSubscription (sub_maxItems s) (sub_maxBytes s) pending'
                         (sn_bytes snap) (closed s) true (notify s) (doneCloses s)), false)
    else (signal s1, true).

Definition Drain s : Subscription Digest * list (Snapshot Digest) :=
  match pending s with
  | [] => (s, [])
  | _ => (mkSubscription (sub_maxItems s) (sub_maxBytes s) [] 0 (closed s) (overflow s)
            (notify s) (doneCloses s), pending s)
  end.

Definition Latest s : option (Snapshot Digest) := last (pending s).
Definition Overflow s : bool := overflow s.

(** The reader receives from [notify]: the waiting signal is consumed. *)
Definition recvNotify s : Subscription Digest :=
  mkSubscription (sub_maxItems s) (sub_maxBytes s) (pending s) (bytes s) (closed s)
    (overflow s) false (doneCloses s).

(** ** Invariant *)

(** At most one snapshot waits and it fits the budget; a queue that is closed
    holds nothing; [done] was closed exactly when the queue is closed. *)
Definition subWf s : Prop :=
  doneCloses s = (if closed s then 1 else 0)%nat /\
  (overflow s = true -> closed s = true) /\
  match pending s with
  | [] => True
  | [x] => closed s = false /\ bytes s = sn_bytes x /\ sn_bytes x <= sub_maxBytes s
  | _ => False
  end.

Lemma coalesce_app l snap : coalesce (l ++ [snap]) = [snap].
Proof.
  unfold coalesce. rewrite length_app. simpl.
  destruct (1 <? length l + 1)%nat eqn:E.
  - rewrite Nat.add_sub. by rewrite drop_app_length.
  - apply Nat.ltb_ge in E. destruct l; simpl in *; [done|lia].
Qed.

Lemma subWf_new i b : subWf (newSubscription i b).
Proof. by repeat split. Qed.

Lemma subWf_close s : subWf s -> subWf (closeLocked s).
Proof.
  unfold closeLocked. destruct (closed s) eqn:E; [done|]. intros (Hd & _ & _).
  rewrite E in Hd. repeat split; simpl; auto.
Qed.

Lemma subWf_enqueue s snap : subWf s -> subWf (enqueue s snap).1.
Proof.
  unfold enqueue. intros H. destruct (closed s) eqn:E; [done|].
  rewrite coalesce_app. simpl. destruct H as (Hd & Ho & Hp). rewrite E in Hd.
  destruct (_ || _) eqn:T; unfold closeLocked; simpl; rewrite ?E; repeat split; simpl; auto;
    bool_hyps; rewrite ?E; auto.
  intros; exfalso. specialize (Ho ltac:(done)). congruence.
Qed.

Lemma subWf_drain s : subWf s -> subWf (Drain s).1.
Proof.
  unfold Drain. intros (Hd & Ho & Hp). destruct (pending s) as [|x l] eqn:E; simpl.
  - unfold subWf. by rewrite E.
  - repeat split; simpl; auto.
Qed.

Lemma subWf_recv s : subWf s -> subWf (recvNotify s).
Proof. done. Qed.

(** ** Behaviour over any history *)

Inductive subOp :=
| OpEnqueue (snap : Snapshot Digest) | OpDrain | OpRecv | OpClose.

Definition subStep s (o : subOp) : Subscription Digest :=
  match o with
  | OpEnqueue snap => (enqueue s snap).1
  | OpDrain => (Drain s).1
  | OpRecv => recvNotify s
  | OpClose => Close s
  end.

Definition subRun s (os : list subOp) : Subscription Digest := fold_left subStep os s.

Lemma subWf_step s o : subWf s -> subWf (subStep s o).
Proof.
  destruct o; simpl; auto using subWf_enqueue, subWf_drain, subWf_recv.
  apply subWf_close.
Qed.

Lemma subWf_run s os : subWf s -> subWf (subRun s os).
Proof.
  unfold subRun. revert s. induction os as [|o os IH]; simpl; auto using subWf_step.
Qed.

Lemma closed_step s o : closed s = true -> closed (subStep s o) = true.
Proof.
  intros E. destruct o; simpl; unfold enqueue, Drain, Close, closeLocked; rewrite ?E; auto.
  by destruct (pending s).
Qed.

(** Whatever a client does, its queue holds at most one snapshot, within
    the byte budget, and its [done] channel is closed at most once. *)
Theorem subscription_bounded (maxItems maxBytes : Z) (os : list subOp) :
  let s := subRun (newSubscription maxItems maxBytes) os in
  (length (pending s) <= 1)%nat /\ (doneCloses s <= 1)%nat /\
  (pending s ≠ [] -> bytes s <= sub_maxBytes s /\ closed s = false).
Proof.
  intros s. pose proof (subWf_run _ os (subWf_new maxItems maxBytes)) as (Hd & _ & Hp).
  fold s in Hd, Hp. repeat split.
  - destruct (pending s) as [|x [|y l]]; simpl; [lia..|done].
  - rewrite Hd. destruct (closed s); lia.
  - destruct (pending s) as [|x [|y l]]; [done| |done]. destruct Hp as (_ & -> & ?). lia.
  - destruct (pending s) as [|x [|y l]]; [done| |done]. by destruct Hp.
Qed.

(** Delivery to an open queue coalesces to the newest snapshot when it
    fits the budget, and otherwise drops the client (closed, marked
    overflowed, nothing pending) instead of blocking. *)
Theorem enqueue_newest (s : Subscription Digest) (snap : Snapshot Digest) :
  closed s = false -> 1 <= sub_maxItems s ->
  let '(s', ok) := enqueue s snap in
  if sn_bytes snap <=? sub_maxBytes s
  then ok = true /\ (Drain s').2 = [snap] /\ notify s' = true
  else ok = false /\ closed s' = true /\ Overflow s' = true /\ (Drain s').2 = [].
Proof.
  intros E Hi. unfold enqueue. rewrite E, coalesce_app. simpl.
  destruct (_ || _) eqn:T, (sn_bytes snap <=? sub_maxBytes s) eqn:T'; bool_hyps;
    unfold closeLocked; simpl; rewrite ?E; simpl; try done; exfalso; destruct_or?; bool_hyps; simpl in *; lia.
Qed.
End Queue.

Lemma enqueue_newest_witness :
  let snap := mkSnapshot 1 tt (sampleTopology []) ∅ 100 in
  enqueue (newSubscription 8 10) snap =
  (mkSubscription 8 10 [] 0 true true false 1, false) /\
  closed (enqueue (newSubscription 8 10) snap).1 = true.
Proof.
  intros snap. split; [reflexivity|].
  pose proof (enqueue_newest (newSubscription 8 10) snap eq_refl ltac:(simpl; lia)) as H.
  vm_compute in H. vm_compute. apply H.
Defined.
