(* ===== verification/Engine.v ===== *)
(** * Engine: the poll-as-truth state engine of internal/state/engine.go

    Every method runs under the engine's mutex, so each is a function on the
    engine value; [Run]'s select loop is the step relation at the end. The
    clients hold pointers to their subscriptions, so all subscriptions ever
    created live in the store [heap] and [subs] is the registered subset.

    SHA-256 over the JSON encoding of the projection is the parameter [hash];
    the wire size of a snapshot ([json.Marshal], which may fail) is the
    parameter [wireSize]. *)

From S2P Require Import Prelude Topology Subscriber.

(** ** Configuration *)

Definition millisecond : Z := 1000000.
Definition second : Z := 1000 * millisecond.

Definition DefaultPollHot : Z := 1500 * millisecond.
Definition DefaultPollCold : Z := 12 * second.
Definition MinPollHot : Z := 250 * millisecond.
Definition DefaultMaxQueueItems : Z := 8.
Definition DefaultMaxQueueBytes : Z := 4194304.

Record Config := mkConfig {
  HasSource : bool;
  PollHot : Z;
  PollCold : Z;
  MaxQueueItems : Z;
  MaxQueueBytes : Z
}.

Record Engine {Digest Err : Type} := mkEngine {
  pollHot : Z;
  pollCold : Z;
  maxItems : Z;
  maxBytes : Z;
  wake : bool;
  current : option (Snapshot Digest);
  generations : gmap string Z;
  occupants : gmap string string;
  seq : Z;
  heap : gmap nat (Subscription Digest);
  subs : gset nat;
  lastPollErr : option Err;
  lastPollAt : Z;
  polls : Z
}.
Arguments Engine : clear implicits.
Arguments mkEngine {Digest Err}.

(** [pollOutcome]: what a [SnapshotSource] call produced. *)
Record pollOutcome {Err : Type} := mkOutcome {
  out_snap : option HerdrSnapshot;
  out_err : option Err
}.
Arguments pollOutcome : clear implicits.
Arguments mkOutcome {Err}.

(** ** Generations *)

(** The maps [updateGenerationsLocked] maintains. *)
Definition genState : Type := gmap string Z * gmap string string.

(** One iteration over [topo.Panes]; a Go map read of a missing occupant is the
    empty string. *)
Definition bumpPane (g : genState) (p : Pane) : genState :=
  let '(gens, occ) := g in
  let fp := OccupantFingerprint p in
  match gens !! p_PaneID p with
  | None => (<[p_PaneID p := 1]> gens, <[p_PaneID p := fp]> occ)
  | Some n =>
      if bool_decide (default "" (occ !! p_PaneID p) = fp) then (gens, occ)
      else (<[p_PaneID p := u64 (n + 1)]> gens, <[p_PaneID p := fp]> occ)
  end.

Definition updateGenerations (panes : list Pane) (g : genState) : genState :=
  let '(gens, occ) := fold_left bumpPane panes g in
  let present : gset string := list_to_set (p_PaneID <$> panes) in
  (filter (fun kv => kv.1 ∈ present) gens,
   filter (fun kv => kv.1 ∈ present \/ gens !! kv.1 = None) occ).

Section Engine.
Context {Digest Err : Type} `{EqDecision Digest}.
Context (hash : hashProjection -> Digest).
Context (wireSize : Z -> Digest -> HerdrSnapshot -> gmap string Z -> option Z).

Implicit Types (e : Engine Digest Err).

Definition New (cfg : Config) : option (Engine Digest Err) :=
  if negb (HasSource cfg) then None
  else
    let hot := if PollHot cfg <=? 0 then DefaultPollHot else PollHot cfg in
    let hot := if hot <? MinPollHot then MinPollHot else hot in
    let cold := if PollCold cfg <=? 0 then DefaultPollCold else PollCold cfg in
    let cold := if cold <? hot then hot else cold in
    let items := if MaxQueueItems cfg <=? 0 then DefaultMaxQueueItems else MaxQueueItems cfg in
    let bytes := if MaxQueueBytes cfg <=? 0 then DefaultMaxQueueBytes else MaxQueueBytes cfg in
    Some (mkEngine hot cold items bytes false None ∅ ∅ 0 ∅ ∅ None 0 0).

Definition Wake e : Engine Digest Err :=
  mkEngine (pollHot e) (pollCold e) (maxItems e) (maxBytes e) true (current e)
    (generations e) (occupants e) (seq e) (heap e) (subs e) (lastPollErr e)
    (lastPollAt e) (polls e).

Definition hashTopology (s : HerdrSnapshot) : Digest := hash (project s).

Definition active e : bool :=
  if bool_decide (subs e ≠ ∅) then true
  else match current e with
       | None => false
       | Some snap =>
           let topo := Topology snap in
           existsb (fun w => Active (w_AgentStatus w)) (Workspaces topo) ||
           existsb (fun a => Active (a_AgentStatus a)) (Agents topo) ||
           existsb (fun p => Active (p_AgentStatus p)) (Panes topo)
       end.

Definition desiredInterval e : Z := if active e then pollHot e else pollCold e.

(** Every registered subscription gets the snapshot; one that cannot take it
    is unregistered. *)
Definition broadcastLocked (snap : Snapshot Digest) e : Engine Digest Err :=
  let heap' := map_imap (fun id s =>
    Some (if decide (id ∈ subs e) then (enqueue s snap).1 else s)) (heap e) in
  let keeps id := match heap e !! id with
                  | Some s => (enqueue s snap).2
                  | None => false
                  end in
  mkEngine (pollHot e) (pollCold e) (maxItems e) (maxBytes e) (wake e) (current e)
    (generations e) (occupants e) (seq e) heap' (filter (fun id => keeps id = true) (subs e))
    (lastPollErr e) (lastPollAt e) (polls e).

(** [apply] as one function of the clock reading and the outcome. *)
Definition apply (now : Z) (out : pollOutcome Err) e : Engine Digest Err :=
  let polls' := u64 (polls e + 1) in
  match out_err out with
  | Some err =>
      mkEngine (pollHot e) (pollCold e) (maxItems e) (maxBytes e) (wake e) (current e)
        (generations e) (occupants e) (seq e) (heap e) (subs e) (Some err) now polls'
  | None =>
      match out_snap out with
      | None =>
          mkEngine (pollHot e) (pollCold e) (maxItems e) (maxBytes e) (wake e) (current e)
            (generations e) (occupants e) (seq e) (heap e) (subs e) None now polls'
      | Some topo =>
          let '(gens, occ) := updateGenerations (Panes topo) (generations e, occupants e) in
          let h := hashTopology topo in
          let unchanged := match current e with
                           | Some c => bool_decide (Hash c = h)
                           | None => false
                           end in
          if unchanged then
            mkEngine (pollHot e) (pollCold e) (maxItems e) (maxBytes e) (wake e) (current e)
              gens occ (seq e) (heap e) (subs e) None now polls'
          else
            let seq' := u64 (seq e + 1) in
            let size := default maxInt (wireSize seq' h topo gens) in
            let snap := mkSnapshot seq' h topo gens size in
            broadcastLocked snap
              (mkEngine (pollHot e) (pollCold e) (maxItems e) (maxBytes e) (wake e)
                 (Some snap) gens occ seq' (heap e) (subs e) None now polls')
      end
  end.

Definition Current e : option (Snapshot Digest) := current e.

Definition Generation e (paneID : string) : option Z := generations e !! paneID.

Definition CheckGeneration e (paneID : string) (expected : Z) : bool :=
  match Generation e paneID with
  | Some g => g =? expected
  | None => false
  end.

(** The new subscription is at a fresh address of the store. *)
Definition Subscribe e : Engine Digest Err * nat :=
  let id := fresh (dom (heap e)) in
  let sub := newSubscription (maxItems e) (maxBytes e) in
  let upd h r := mkEngine (pollHot e) (pollCold e) (maxItems e) (maxBytes e) (wake e)
                   (current e) (generations e) (occupants e) (seq e) h r
                   (lastPollErr e) (lastPollAt e) (polls e) in
  match current e with
  | None => (upd (<[id := sub]> (heap e)) ({[id]} ∪ subs e), id)
  | Some snap =>
      match enqueue sub snap with
      | (sub', false) => (upd (<[id := sub']> (heap e)) (subs e), id)
      | (sub', true) => (upd (<[id := sub']> (heap e)) ({[id]} ∪ subs e), id)
      end
  end.

Definition Unsubscribe (id : nat) e : Engine Digest Err :=
  mkEngine (pollHot e) (pollCold e) (maxItems e) (maxBytes e) (wake e) (current e)
    (generations e) (occupants e) (seq e) (alter Close id (heap e)) (subs e ∖ {[id]})
    (lastPollErr e) (lastPollAt e) (polls e).

(** ** The poll loop of [Run] *)

(** The loop's locals with the engine: [inflight] and [launched] count the
    polling goroutines, [reset] is the last ticker interval. *)
Record Loop := mkLoop {
  eng : Engine Digest Err;
  inProgress : bool;
  queued : bool;
  reset : Z;
  inflight : nat;
  launched : nat
}.

Definition trigger (l : Loop) : Loop :=
  if inProgress l then mkLoop (eng l) true true (reset l) (inflight l) (launched l)
  else mkLoop (eng l) true (queued l) (reset l) (S (inflight l)) (S (launched l)).

Definition runStart (e : Engine Digest Err) : Loop :=
  trigger (mkLoop e false false (pollCold e) 0 0).

(** The non-terminating cases of the select: a tick, a received wake-up, and
    the completion of the poll in flight. *)
Inductive loopEvent :=
| EvTick
| EvWake
| EvDone (now : Z) (out : pollOutcome Err).

Definition clearWake e : Engine Digest Err :=
  mkEngine (pollHot e) (pollCold e) (maxItems e) (maxBytes e) false (current e)
    (generations e) (occupants e) (seq e) (heap e) (subs e) (lastPollErr e)
    (lastPollAt e) (polls e).

(** Whether the select can take the case. *)
Definition enabled (l : Loop) (ev : loopEvent) : bool :=
  match ev with
  | EvTick => true
  | EvWake => wake (eng l)
  | EvDone _ _ => (1 <=? inflight l)%nat
  end.

Definition loopBody (l : Loop) (ev : loopEvent) : Loop :=
  match ev with
  | EvTick => trigger l
  | EvWake =>
      trigger (mkLoop (clearWake (eng l)) (inProgress l) (queued l) (reset l)
                 (inflight l) (launched l))
  | EvDone now out =>
      let e := apply now out (eng l) in
      let l1 := mkLoop e false (queued l) (desiredInterval e) (pred (inflight l)) (launched l) in
      if queued l
      then trigger (mkLoop e false false (desiredInterval e) (pred (inflight l)) (launched l))
      else l1
  end.

(** A step of the system: the loop takes an enabled case, or another goroutine
    calls an engine method. *)
Inductive loopStep : Loop -> Loop -> Prop :=
| step_event l ev : enabled l ev = true -> loopStep l (loopBody l ev)
| step_wake l :
    loopStep l (mkLoop (Wake (eng l)) (inProgress l) (queued l) (reset l) (inflight l) (launched l))
| step_subscribe l :
    loopStep l (mkLoop (Subscribe (eng l)).1 (inProgress l) (queued l) (reset l) (inflight l) (launched l))
| step_unsubscribe l id :
    loopStep l (mkLoop (Unsubscribe id (eng l)) (inProgress l) (queued l) (reset l) (inflight l) (launched l)).
End Engine.
