(* ===== verification/EngineFacts.v ===== *)
(** * EngineFacts: correctness of the state engine *)

From S2P Require Import Prelude Topology Subscriber Engine.

(** ** Generation bookkeeping *)

(** What one poll does to the generation of a present pane with fingerprint
    [fp], given its previous generation and occupant. *)
Definition nextGen (gen : option Z) (occ : option string) (fp : string) : Z :=
  match gen with
  | None => 1
  | Some n => if bool_decide (occ = Some fp) then n else u64 (n + 1)
  end.

Lemma fingerprint_nonempty p : OccupantFingerprint p ≠ "".
Proof.
  unfold OccupantFingerprint. intros H.
  destruct (p_AgentSession p); rewrite ?append_assoc in H; by destruct (p_TerminalID p).
Qed.

Lemma default_fingerprint (o : option string) p :
  bool_decide (default "" o = OccupantFingerprint p) = bool_decide (o = Some (OccupantFingerprint p)).
Proof.
  pose proof (fingerprint_nonempty p) as Hn.
  apply bool_decide_ext. destruct o as [s|]; simpl; naive_solver.
Qed.

Lemma bumpPane_same gens occ p :
  (bumpPane (gens, occ) p).1 !! p_PaneID p =
    Some (nextGen (gens !! p_PaneID p) (occ !! p_PaneID p) (OccupantFingerprint p)) /\
  (bumpPane (gens, occ) p).2 !! p_PaneID p = Some (OccupantFingerprint p).
Proof.
  unfold bumpPane, nextGen. destruct (gens !! p_PaneID p) as [n|] eqn:E.
  - rewrite default_fingerprint. case_bool_decide as B; simpl; [by rewrite E, B|].
    by rewrite !lookup_insert_eq.
  - simpl. by rewrite !lookup_insert_eq.
Qed.

Lemma bumpPane_other gens occ p id :
  id ≠ p_PaneID p ->
  (bumpPane (gens, occ) p).1 !! id = gens !! id /\ (bumpPane (gens, occ) p).2 !! id = occ !! id.
Proof.
  intros Hne. unfold bumpPane.
  destruct (gens !! p_PaneID p); [case_bool_decide|]; simpl; rewrite ?lookup_insert_ne; auto.
Qed.

Lemma bumps_other panes g id :
  id ∉ (p_PaneID <$> panes) ->
  (fold_left bumpPane panes g).1 !! id = g.1 !! id /\
  (fold_left bumpPane panes g).2 !! id = g.2 !! id.
Proof.
  revert g. induction panes as [|p panes IH]; intros [gens occ] Hid; [done|].
  rewrite fmap_cons, not_elem_of_cons in Hid. destruct Hid as [Hne Hid].
  cbn [fold_left]. destruct (bumpPane_other gens occ p id Hne) as [E1 E2].
  destruct (IH (bumpPane (gens, occ) p) Hid) as [-> ->]. auto.
Qed.

Lemma bumps_in panes g p :
  NoDup (p_PaneID <$> panes) -> p ∈ panes ->
  (fold_left bumpPane panes g).1 !! p_PaneID p =
    Some (nextGen (g.1 !! p_PaneID p) (g.2 !! p_PaneID p) (OccupantFingerprint p)) /\
  (fold_left bumpPane panes g).2 !! p_PaneID p = Some (OccupantFingerprint p).
Proof.
  revert g. induction panes as [|q panes IH]; intros [gens occ] Hnd Hin.
  { by apply not_elem_of_nil in Hin. }
  rewrite fmap_cons, NoDup_cons in Hnd. destruct Hnd as [Hq Hnd].
  cbn [fold_left]. apply elem_of_cons in Hin as [->|Hin].
  - destruct (bumps_other panes (bumpPane (gens, occ) q) (p_PaneID q) Hq) as [-> ->].
    apply bumpPane_same.
  - destruct (IH (bumpPane (gens, occ) q) Hnd Hin) as [-> ->].
    destruct (bumpPane_other gens occ q (p_PaneID p)) as [-> ->]; [|done].
    intros E. apply Hq. rewrite <- E. apply list_elem_of_fmap. eauto.
Qed.

(** Both maps describe exactly the same panes. *)
Definition sameDomain (g : genState) : Prop := forall id, g.1 !! id = None <-> g.2 !! id = None.

Lemma bumps_none panes g id :
  sameDomain g -> (fold_left bumpPane panes g).1 !! id = None <->
                  (fold_left bumpPane panes g).2 !! id = None.
Proof.
  revert g. induction panes as [|p panes IH]; intros [gens occ] Hd; [apply Hd|].
  cbn [fold_left]. apply IH. intros k. destruct (decide (k = p_PaneID p)) as [->|Hne].
  - destruct (bumpPane_same gens occ p) as [-> ->]. split; discriminate.
  - destruct (bumpPane_other gens occ p k Hne) as [-> ->]. apply Hd.
Qed.

Lemma update_lookup panes g id :
  sameDomain g ->
  (updateGenerations panes g).1 !! id =
    (if decide (id ∈ p_PaneID <$> panes) then (fold_left bumpPane panes g).1 !! id else None) /\
  (updateGenerations panes g).2 !! id =
    (if decide (id ∈ p_PaneID <$> panes) then (fold_left bumpPane panes g).2 !! id else None).
Proof.
  intros Hd. pose proof (bumps_none panes g id Hd) as Hn.
  unfold updateGenerations. destruct (fold_left bumpPane panes g) as [gens occ]. simpl in *.
  rewrite !map_lookup_filter. case_decide as Hin; split.
  - destruct (gens !! id); simpl; [|done]. rewrite option_guard_True; [done|set_solver].
  - destruct (occ !! id); simpl; [|done]. rewrite option_guard_True; [done|set_solver].
  - destruct (gens !! id); simpl; [|done]. rewrite option_guard_False; [done|set_solver].
  - destruct (occ !! id) eqn:E; simpl; [|done]. rewrite option_guard_False; [done|].
    rewrite elem_of_list_to_set. intros [?|?]; [done|]. apply Hn in H. congruence.
Qed.

Lemma update_present panes g p :
  sameDomain g -> NoDup (p_PaneID <$> panes) -> p ∈ panes ->
  (updateGenerations panes g).1 !! p_PaneID p =
    Some (nextGen (g.1 !! p_PaneID p) (g.2 !! p_PaneID p) (OccupantFingerprint p)) /\
  (updateGenerations panes g).2 !! p_PaneID p = Some (OccupantFingerprint p).
Proof.
  intros Hd Hnd Hin. destruct (update_lookup panes g (p_PaneID p) Hd) as [-> ->].
  rewrite !decide_True by (apply list_elem_of_fmap; eauto). by apply bumps_in.
Qed.

Lemma update_absent panes g id :
  sameDomain g -> id ∉ p_PaneID <$> panes ->
  (updateGenerations panes g).1 !! id = None /\ (updateGenerations panes g).2 !! id = None.
Proof.
  intros Hd Hid. destruct (update_lookup panes g id Hd) as [-> ->]. by rewrite !decide_False.
Qed.

Lemma update_sameDomain panes g : sameDomain g -> sameDomain (updateGenerations panes g).
Proof.
  intros Hd id. destruct (update_lookup panes g id Hd) as [-> ->].
  case_decide; [by apply bumps_none|done].
Qed.

(** A present pane is listed with the generation and occupant of its last
    fingerprint; the maps hold no other pane. *)
Lemma update_fixpoint panes panes' g :
  sameDomain g -> NoDup (p_PaneID <$> panes) -> NoDup (p_PaneID <$> panes') ->
  projectPane <$> panes ≡ₚ projectPane <$> panes' ->
  updateGenerations panes' (updateGenerations panes g) = updateGenerations panes g.
Proof.
  intros Hd Hn Hn' Hp. pose proof (update_sameDomain panes g Hd) as Hd1.
  assert (Hids : forall id, id ∈ p_PaneID <$> panes' <-> id ∈ p_PaneID <$> panes).
  { intros id. change p_PaneID with (pp_ID ∘ projectPane). rewrite !list_fmap_compose.
    by rewrite Hp. }
  assert (H : forall id,
    (updateGenerations panes' (updateGenerations panes g)).1 !! id = (updateGenerations panes g).1 !! id /\
    (updateGenerations panes' (updateGenerations panes g)).2 !! id = (updateGenerations panes g).2 !! id).
  { intros id. destruct (decide (id ∈ p_PaneID <$> panes')) as [Hin|Hout].
    - apply list_elem_of_fmap in Hin as (q & -> & Hq).
      destruct (update_present panes' _ q Hd1 Hn' Hq) as [-> ->].
      assert (Hin : projectPane q ∈ projectPane <$> panes).
      { rewrite Hp. apply list_elem_of_fmap. eauto. }
      apply list_elem_of_fmap in Hin as (p & Epq & Hpin).
      assert (p_PaneID q = p_PaneID p) as -> by (by injection Epq).
      assert (OccupantFingerprint q = OccupantFingerprint p) as -> by (by injection Epq).
      destruct (update_present panes g p Hd Hn Hpin) as [-> ->].
      simpl. by rewrite bool_decide_true.
    - destruct (update_absent panes' _ id Hd1 Hout) as [-> ->].
      rewrite Hids in Hout. by destruct (update_absent panes g id Hd Hout) as [-> ->]. }
  rewrite (surjective_pairing (updateGenerations panes' _)), (surjective_pairing (updateGenerations panes g)).
  f_equal; apply map_eq; intros id; rewrite <- surjective_pairing; apply H.
Qed.

(** ** Decidable equality of the projection *)

#[global] Instance WorkspaceWorktree_eq_dec : EqDecision WorkspaceWorktree. Proof. solve_decision. Defined.
#[global] Instance Rect_eq_dec : EqDecision Rect. Proof. solve_decision. Defined.
#[global] Instance LayoutPane_eq_dec : EqDecision LayoutPane. Proof. solve_decision. Defined.
#[global] Instance LayoutSplit_eq_dec : EqDecision LayoutSplit. Proof. solve_decision. Defined.
#[global] Instance Layout_eq_dec : EqDecision Layout. Proof. solve_decision. Defined.
#[global] Instance projWS_eq_dec : EqDecision projWS. Proof. solve_decision. Defined.
#[global] Instance projTab_eq_dec : EqDecision projTab. Proof. solve_decision. Defined.
#[global] Instance projPane_eq_dec : EqDecision projPane. Proof. solve_decision. Defined.
#[global] Instance projAgent_eq_dec : EqDecision projAgent. Proof. solve_decision. Defined.
#[global] Instance hashProjection_eq_dec : EqDecision hashProjection. Proof. solve_decision. Defined.

Lemma project_panes s s' :
  project s = project s' -> projectPane <$> Panes s ≡ₚ projectPane <$> Panes s'.
Proof.
  intros H. apply (f_equal h_Panes) in H. simpl in H.
  by rewrite <- (sortBy_perm (single pp_ID) (projectPane <$> Panes s)), H, sortBy_perm.
Qed.

Section Facts.
Context {Digest Err : Type} `{EqDecision Digest}.
Context (hash : hashProjection -> Digest).
Context (wireSize : Z -> Digest -> HerdrSnapshot -> gmap string Z -> option Z).

Implicit Types (e : Engine Digest Err) (out : pollOutcome Err).

#[local] Abbreviation apply := (apply hash wireSize).

Definition gens e : genState := (generations e, occupants e).

(** A successful outcome lists each pane once. *)
Definition distinctPanes out : Prop :=
  match out_err out, out_snap out with
  | None, Some topo => NoDup (p_PaneID <$> Panes topo)
  | _, _ => True
  end.

(** ** What [apply] does, outcome by outcome *)

(** The topology an outcome makes the engine integrate. *)
Definition polled out : option HerdrSnapshot :=
  match out_err out with Some _ => None | None => out_snap out end.

Lemma apply_gens now out e :
  gens (apply now out e) =
  match polled out with
  | Some topo => updateGenerations (Panes topo) (gens e)
  | None => gens e
  end.
Proof.
  unfold Engine.apply, polled, gens. destruct (out_err out); [done|].
  destruct (out_snap out) as [topo|]; [|done].
  destruct (updateGenerations _ _) as [g o] eqn:E.
  by destruct (match current e with Some _ => _ | None => _ end).
Qed.

(** ** Engine invariant *)

Definition inRange (g : genState) : Prop :=
  forall id n, g.1 !! id = Some n -> 0 <= n < 2 ^ 64.

(** The published snapshot carries the engine's own generation map, and that
    map was produced from the panes of that very snapshot. *)
Definition engineInv e : Prop :=
  sameDomain (gens e) /\ inRange (gens e) /\
  match current e with
  | None => gens e = (∅, ∅)
  | Some s =>
      Hash s = hashTopology hash (Topology s) /\
      NoDup (p_PaneID <$> Panes (Topology s)) /\
      Generations s = generations e /\
      exists g, sameDomain g /\ gens e = updateGenerations (Panes (Topology s)) g
  end.

Lemma update_inRange panes g :
  sameDomain g -> NoDup (p_PaneID <$> panes) -> inRange g -> inRange (updateGenerations panes g).
Proof.
  intros Hd Hn Hr id n H. destruct (decide (id ∈ p_PaneID <$> panes)) as [Hin|Hout].
  - apply list_elem_of_fmap in Hin as (p & -> & Hp).
    destruct (update_present panes g p Hd Hn Hp) as [E _]. rewrite E in H. injection H as <-.
    unfold nextGen. destruct (g.1 !! p_PaneID p) eqn:Eg; [|lia].
    case_bool_decide; [by eapply Hr|apply u64_range].
  - destruct (update_absent panes g id Hd Hout) as [E _]. congruence.
Qed.

Lemma engineInv_apply `{!Inj (=) (=) hash} now out e :
  distinctPanes out -> engineInv e -> engineInv (apply now out e).
Proof.
  intros Hv (Hd & Hr & Hc). pose proof (apply_gens now out e) as Eg.
  unfold distinctPanes, polled in *. unfold engineInv.
  destruct (out_err out) eqn:Eo.
  { rewrite Eg. unfold Engine.apply. rewrite Eo. simpl. done. }
  destruct (out_snap out) as [topo|] eqn:Es.
  2: { rewrite Eg. unfold Engine.apply. rewrite Eo, Es. simpl. done. }
  rewrite Eg. split_and!; [by apply update_sameDomain|by apply update_inRange|].
  unfold gens in *. unfold Engine.apply. rewrite Eo, Es.
  destruct (updateGenerations (Panes topo) (generations e, occupants e)) as [g o] eqn:E.
  destruct (current e) as [c|] eqn:Ec.
  - case_bool_decide as B; simpl.
    + destruct Hc as (Hh & Hn & Hg & g0 & Hg0 & E0). split_and!; auto.
      * rewrite Hh in B. apply (inj hash), project_panes in B.
        pose proof (update_fixpoint _ _ g0 Hg0 Hn Hv B) as F. rewrite <- E0, E in F.
        injection F as -> ->. done.
      * exists g0. split; [done|]. rewrite Hh in B. apply (inj hash), project_panes in B.
        pose proof (update_fixpoint _ _ g0 Hg0 Hn Hv B) as F. rewrite <- E0, E in F.
        by rewrite <- E0.
    + split_and!; auto. exists (generations e, occupants e). done.
  - simpl. split_and!; auto.
    exists (generations e, occupants e). done.
Qed.

Lemma engineInv_new cfg e : New cfg = Some e -> engineInv e.
Proof.
  unfold New. destruct (HasSource cfg); simpl; [|done]. intros [= <-].
  split_and!; [done| |done]. intros id n H. simpl in H. by rewrite lookup_empty in H.
Qed.

(** ** Histories of engine calls *)

Inductive engineOp :=
| OpPoll (now : Z) (out : pollOutcome Err)
| OpWake
| OpSubscribe
| OpUnsubscribe (id : nat).

Definition engineStep e (o : engineOp) : Engine Digest Err :=
  match o with
  | OpPoll now out => apply now out e
  | OpWake => Wake e
  | OpSubscribe => (Subscribe e).1
  | OpUnsubscribe id => Unsubscribe id e
  end.

Definition engineRun e (os : list engineOp) : Engine Digest Err := fold_left engineStep os e.

Definition opOk (o : engineOp) : Prop :=
  match o with OpPoll _ out => distinctPanes out | _ => True end.

Lemma subscribe_same e :
  gens (Subscribe e).1 = gens e /\ current (Subscribe e).1 = current e /\
  generations (Subscribe e).1 = generations e.
Proof.
  unfold Subscribe. destruct (current e) as [c|] eqn:E; [|done].
  destruct (enqueue _ c) as [s []]; simpl; rewrite ?E; done.
Qed.

Lemma engineInv_step `{!Inj (=) (=) hash} e o :
  opOk o -> engineInv e -> engineInv (engineStep e o).
Proof.
  destruct o as [now out| | |id]; simpl; intros Ho Hi; [by apply engineInv_apply|done| |done].
  unfold engineInv. destruct (subscribe_same e) as (-> & -> & ->). done.
Qed.

Lemma engineInv_run `{!Inj (=) (=) hash} e os :
  Forall opOk os -> engineInv e -> engineInv (engineRun e os).
Proof.
  unfold engineRun. intros Ho. revert e. induction Ho as [|o os Ho Hos IH]; intros e Hi; simpl; auto.
  apply IH. by apply engineInv_step.
Qed.
(** ** Generations over a history of polls *)

Definition pollAll e (outs : list (Z * pollOutcome Err)) : Engine Digest Err :=
  fold_left (fun e o => apply o.1 o.2 e) outs e.

(** Every successful outcome lists pane [id], once. *)
Definition keepsPane (id : string) out : Prop :=
  match polled out with
  | Some topo => NoDup (p_PaneID <$> Panes topo) /\ id ∈ p_PaneID <$> Panes topo
  | None => True
  end.

(** The occupant an outcome shows in pane [id] is [fp]. *)
Definition showsOccupant (id fp : string) out : Prop :=
  match polled out with
  | Some topo => forall p, p ∈ Panes topo -> p_PaneID p = id -> OccupantFingerprint p = fp
  | None => True
  end.

(** One poll moves the generation by zero or one, and by zero only if the
    occupant is the recorded one. *)
Lemma apply_kept now out e id n fp :
  sameDomain (gens e) -> keepsPane id out ->
  generations e !! id = Some n -> occupants e !! id = Some fp ->
  exists fp' d, (d = 0 \/ d = 1) /\ sameDomain (gens (apply now out e)) /\
    generations (apply now out e) !! id = Some (if d =? 0 then n else u64 (n + d)) /\
    occupants (apply now out e) !! id = Some fp' /\
    (d = 0 -> fp' = fp /\ showsOccupant id fp out).
Proof.
  intros Hd Hk Hg Ho. pose proof (apply_gens now out e) as Eg.
  unfold keepsPane, showsOccupant in *. rewrite Eg. destruct (polled out) as [topo|] eqn:Ep.
  2: { injection Eg as -> ->. exists fp, 0. split_and!; auto. }
  destruct Hk as [Hn Hin]. apply list_elem_of_fmap in Hin as (p & -> & Hp).
  destruct (update_present (Panes topo) (gens e) p Hd Hn Hp) as [E1 E2].
  rewrite <- Eg in E1, E2. simpl in E1, E2. unfold nextGen in E1. rewrite Hg, Ho in E1.
  pose proof (update_sameDomain (Panes topo) (gens e) Hd) as Hd'.
  destruct (decide (fp = OccupantFingerprint p)) as [->|Hne].
  - rewrite bool_decide_true in E1 by done. exists (OccupantFingerprint p), 0.
    split_and!; auto. intros _. split; [done|]. intros q Hq Eq.
    f_equal. eapply (NoDup_key_inj p_PaneID); eauto.
  - rewrite bool_decide_false in E1 by congruence. exists (OccupantFingerprint p), 1.
    split_and!; auto. done.
Qed.

Lemma pollAll_kept e outs id n fp :
  sameDomain (gens e) -> Forall (fun o => keepsPane id o.2) outs ->
  0 <= n < 2 ^ 64 -> generations e !! id = Some n -> occupants e !! id = Some fp ->
  exists fp' d, 0 <= d <= Z.of_nat (length outs) /\
    generations (pollAll e outs) !! id = Some (u64 (n + d)) /\
    occupants (pollAll e outs) !! id = Some fp' /\
    (d = 0 -> fp' = fp /\ Forall (fun o => showsOccupant id fp o.2) outs).
Proof.
  unfold pollAll. intros Hd Hk. revert e n fp Hd.
  induction Hk as [|[now out] outs Ho Hk IH]; intros e n fp Hd Hn Hg Hocc; simpl.
  { exists fp, 0. rewrite Z.add_0_r, u64_small by done. split_and!; auto; lia. }
  destruct (apply_kept now out e id n fp Hd Ho Hg Hocc) as (fp1 & d1 & Hd1 & Hdom & Hg1 & Ho1 & Hz1).
  simpl. destruct Hd1 as [-> | ->]; simpl in Hg1.
  - destruct (Hz1 eq_refl) as [-> Hs]. destruct (IH _ n fp Hdom Hn Hg1 Ho1) as (fp2 & d2 & ? & Hg2 & Ho2 & Hz2).
    exists fp2, d2. split_and!; auto; [lia..|]. intros Hz. destruct (Hz2 Hz). auto.
  - destruct (IH _ (u64 (n + 1)) fp1 Hdom (u64_range _) Hg1 Ho1) as (fp2 & d2 & ? & Hg2 & Ho2 & Hz2).
    exists fp2, (1 + d2). rewrite u64_add_l, <- Z.add_assoc in Hg2. split_and!; auto; lia.
Qed.

(** C7: The generation guard is sound while a pane stays listed. If a client
    holds the generation [n] a pane had, the pane appears in every successful
    poll since (fewer than 2^64 of them), and the guard still accepts [n], then
    every one of those polls showed the occupant the client saw. *)
Theorem generation_guard e (outs : list (Z * pollOutcome Err)) (id fp : string) (n : Z) :
  sameDomain (gens e) -> inRange (gens e) ->
  Generation e id = Some n -> occupants e !! id = Some fp ->
  Forall (fun o => keepsPane id o.2) outs ->
  Z.of_nat (length outs) < 2 ^ 64 ->
  CheckGeneration (pollAll e outs) id n = true ->
  Forall (fun o => showsOccupant id fp o.2) outs.
Proof.
  unfold Generation. intros Hd Hr Hg Ho Hk Hlen Hc. pose proof (Hr id n Hg) as Hn.
  destruct (pollAll_kept e outs id n fp Hd Hk Hn Hg Ho) as (fp' & d & Hd' & Hg' & _ & Hz).
  unfold CheckGeneration, Generation in Hc. rewrite Hg' in Hc. bool_hyps.
  apply Hz. unfold u64 in Hc.
  destruct (decide (n + d < 2 ^ 64)); [rewrite Z.mod_small in Hc; lia|].
  assert (n + d - 2 ^ 64 = n); [|lia]. rewrite <- Hc at 2.
  rewrite <- (Z.mod_small (n + d - 2 ^ 64) (2 ^ 64)) by lia.
  rewrite <- (Z_mod_plus_full (n + d - 2 ^ 64) 1 (2 ^ 64)). f_equal. lia.
Qed.

(** The published snapshot never carries stale generations. With a
    collision-free hash, after any history of polls, wake-ups and client
    (un)subscriptions the generations in the current snapshot are the ones the
    mutation guard checks, and they cover exactly the panes it lists. *)
Theorem published_generations `{!Inj (=) (=) hash} (cfg : Config) e (os : list engineOp)
  (snap : Snapshot Digest) :
  New cfg = Some e -> Forall opOk os ->
  Current (engineRun e os) = Some snap ->
  (forall id, Generations snap !! id = Generation (engineRun e os) id) /\
  (forall id, is_Some (Generations snap !! id) <-> id ∈ p_PaneID <$> Panes (Topology snap)).
Proof.
  intros Hnew Hos Hcur.
  pose proof (engineInv_run e os Hos (engineInv_new cfg e Hnew)) as (Hd & _ & Hc).
  unfold Current in Hcur. rewrite Hcur in Hc. destruct Hc as (_ & Hn & Hg & g & Hg0 & E).
  split; [intros id; unfold Generation; by rewrite Hg|]. intros id. rewrite Hg.
  change (generations (engineRun e os)) with (gens (engineRun e os)).1. rewrite E.
  destruct (update_lookup (Panes (Topology snap)) g id Hg0) as [-> _].
  case_decide as Hin; [|split; [by intros []|done]].
  split; [done|]. intros _. apply list_elem_of_fmap in Hin as (p & -> & Hp).
  destruct (bumps_in (Panes (Topology snap)) g p Hn Hp) as [-> _]. eauto.
Qed.

(** ** Broadcasting *)

Lemma apply_unchanged now out e topo c :
  polled out = Some topo -> current e = Some c -> Hash c = hashTopology hash topo ->
  current (apply now out e) = current e /\ seq (apply now out e) = seq e /\
  heap (apply now out e) = heap e /\ subs (apply now out e) = subs e.
Proof.
  unfold polled. intros Hp Hc Hh. unfold Engine.apply. destruct (out_err out); [done|].
  rewrite Hp, Hc. destruct (updateGenerations _ _) as [g o].
  rewrite bool_decide_true by done. simpl. auto.
Qed.

(** A poll that changes nothing is silent. When the polled topology differs
    from the published one only by enumeration order and fields outside the
    projection, no new snapshot is published, the sequence number stays, and no
    subscription is touched. *)
Theorem apply_silent e (now : Z) (topo : HerdrSnapshot) (c : Snapshot Digest) :
  engineInv e -> Current e = Some c -> distinctIDs (Topology c) ->
  reordered (Topology c) topo ->
  let e' := apply now (mkOutcome (Some topo) None) e in
  Current e' = Some c /\ seq e' = seq e /\ heap e' = heap e /\ subs e' = subs e.
Proof.
  intros (_ & _ & Hi) Hc Hd Hr e'. unfold Current in *. rewrite Hc in Hi.
  destruct Hi as (Hh & _). rewrite <- Hc. unfold e'. apply (apply_unchanged now _ e topo c); [done..|].
  rewrite Hh. unfold hashTopology. by rewrite (project_reordered _ _ Hd Hr).
Qed.

(** A poll that changes the content is published once and reaches every
    client: the sequence number advances by one, the new snapshot is current,
    and each registered open subscription either has exactly that snapshot
    pending or, when it exceeds the client's budget, is dropped and closed. *)
Theorem apply_broadcasts e (now : Z) (topo : HerdrSnapshot) :
  (forall c, Current e = Some c -> Hash c ≠ hashTopology hash topo) ->
  let e' := apply now (mkOutcome (Some topo) None) e in
  exists snap, Current e' = Some snap /\ Topology snap = topo /\
    Seq snap = u64 (seq e + 1) /\ seq e' = u64 (seq e + 1) /\
    forall id s, id ∈ subs e -> heap e !! id = Some s -> closed s = false ->
      1 <= sub_maxItems s ->
      exists s', heap e' !! id = Some s' /\
        if sn_bytes snap <=? sub_maxBytes s
        then id ∈ subs e' /\ pending s' = [snap]
        else id ∉ subs e' /\ closed s' = true /\ pending s' = [].
Proof.
  unfold Current. intros Hne. unfold Engine.apply. cbn [out_err out_snap].
  destruct (updateGenerations _ _) as [g o].
  replace (match current e with Some c => _ | None => false end) with false.
  2: { destruct (current e) as [c|]; [|done]. rewrite bool_decide_false; auto. }
  set (snap := mkSnapshot _ _ _ _ _). exists snap. split_and!; try done.
  intros id s Hin Hh Hcl Hi. clearbody snap. simpl. rewrite map_lookup_imap, Hh. simpl.
  rewrite decide_True by done. eexists. split; [done|].
  pose proof (enqueue_newest s snap Hcl Hi) as He.
  destruct (sn_bytes snap <=? sub_maxBytes s); rewrite elem_of_filter, Hh;
    destruct (enqueue s snap) as [s' ok]; simpl in *; destruct_and!; subst; split_and?; auto;
    try (by intros [? ?]); unfold Drain in *; destruct (pending s') eqn:E; simpl in *; congruence.
Qed.
End Facts.

(** ** The poll loop *)

Section LoopFacts.
Context {Digest Err : Type} `{EqDecision Digest}.
Context (hash : hashProjection -> Digest).
Context (wireSize : Z -> Digest -> HerdrSnapshot -> gmap string Z -> option Z).

#[local] Abbreviation Loop := (@Loop Digest Err).
#[local] Abbreviation loopStep := (@loopStep Digest Err _ hash wireSize).
#[local] Abbreviation loopBody := (@loopBody Digest Err _ hash wireSize).

Definition loopInv (l : Loop) : Prop :=
  inflight l = (if inProgress l then 1 else 0)%nat /\ (queued l = true -> inProgress l = true).

Lemma loopInv_trigger l : loopInv l -> loopInv (trigger l).
Proof.
  unfold loopInv, trigger. intros [H1 H2]. destruct (inProgress l); simpl; [auto|].
  by rewrite H1.
Qed.

Lemma loopInv_step l l' : loopStep l l' -> loopInv l -> loopInv l'.
Proof.
  destruct 1 as [l ev He|l|l|l id]; auto. intros Hi. destruct ev as [| |now out]; cbn [Engine.loopBody enabled] in *.
  - by apply loopInv_trigger.
  - by apply loopInv_trigger.
  - destruct Hi as [H1 H2]. apply Nat.leb_le in He.
    assert (pred (inflight l) = 0%nat) as Hp by (rewrite H1 in *; destruct (inProgress l); simpl in *; lia).
    destruct (queued l) eqn:E; [apply loopInv_trigger|]; unfold loopInv; simpl; rewrite ?E, Hp; auto.
Qed.

Lemma loopInv_reach e l : rtc loopStep (runStart e) l -> loopInv l.
Proof.
  intros Hr. assert (loopInv (runStart e)) as Hs by (split; auto).
  induction Hr as [|l1 l2 l3 H1 _ IH]; auto. eauto using loopInv_step.
Qed.

(** Polls are single-flight and no trigger is lost. In every reachable
    state of the loop at most one poll is in flight; a trigger that arrives
    meanwhile is remembered, and the completion of the poll then starts the
    follow-up poll at once. *)
Theorem poll_single_flight (e : Engine Digest Err) (l : Loop) :
  rtc loopStep (runStart e) l ->
  (inflight l <= 1)%nat /\
  (forall ev, enabled l ev = true -> (forall now out, ev ≠ EvDone now out) ->
     let l' := loopBody l ev in
     inProgress l' = true /\ (launched l' = S (launched l) \/ queued l' = true)) /\
  (forall now out, queued l = true ->
     let l' := loopBody l (EvDone now out) in
     launched l' = S (launched l) /\ inflight l' = 1%nat /\ queued l' = false).
Proof.
  intros Hr. destruct (loopInv_reach e l Hr) as [H1 H2]. split_and!.
  - rewrite H1. destruct (inProgress l); lia.
  - intros ev He Hne. destruct ev as [| |now out]; simpl; [..|by destruct (Hne now out)];
      unfold trigger; simpl; destruct (inProgress l); simpl; auto.
  - intros now out Hq. simpl. rewrite Hq. unfold trigger. simpl.
    rewrite H1, (H2 Hq). auto.
Qed.
End LoopFacts.

Definition sampleConfig : Config := mkConfig true 0 0 0 0.
Definition sampleEngine : Engine hashProjection unit :=
  mkEngine DefaultPollHot DefaultPollCold DefaultMaxQueueItems DefaultMaxQueueBytes
    false None ∅ ∅ 0 ∅ ∅ None 0 0.
Definition sampleSize (_ : Z) (_ : hashProjection) (_ : HerdrSnapshot) (_ : gmap string Z)
  : option Z := Some 100.
Definition claudePane : Pane := samplePane "p1" "term1" "claude" None.
Definition codexPane : Pane := samplePane "p1" "term2" "codex" None.
Definition okOutcome (panes : list Pane) : pollOutcome unit :=
  mkOutcome (Some (sampleTopology panes)) None.

Lemma poll_single_flight_witness :
  (inflight (runStart (sampleEngine)) <= 1)%nat.
Proof.
  apply (poll_single_flight id sampleSize sampleEngine (runStart sampleEngine) (rtc_refl _ _)).
Defined.

(** A history: a first poll lists one pane, the second shows it unchanged. *)
Definition samplePolled : Engine hashProjection unit :=
  Engine.apply id sampleSize 5 (okOutcome [claudePane]) sampleEngine.

Lemma samplePolled_gens : sameDomain (gens samplePolled) /\ inRange (gens samplePolled).
Proof.
  assert (Hd : sameDomain (gens sampleEngine)) by done.
  unfold samplePolled. rewrite apply_gens. cbn [polled okOutcome out_err out_snap].
  split; [by apply update_sameDomain|]. apply update_inRange; [done| |by intros id n].
  simpl. repeat constructor; set_solver.
Qed.

Lemma generation_guard_witness :
  Forall (fun o => showsOccupant "p1" (OccupantFingerprint claudePane) o.2)
    [(6, okOutcome [claudePane]); (7, mkOutcome None (Some tt))].
Proof.
  apply (generation_guard id sampleSize samplePolled _ _ _ 1).
  - apply samplePolled_gens.
  - apply samplePolled_gens.
  - reflexivity.
  - reflexivity.
  - repeat constructor; simpl; set_solver.
  - simpl. lia.
  - reflexivity.
Defined.

Lemma published_generations_witness :
  exists snap, Current samplePolled = Some snap /\
    (forall id, Generations snap !! id = Generation samplePolled id).
Proof.
  eexists. split; [reflexivity|].
  apply (published_generations id sampleSize sampleConfig sampleEngine
           [OpPoll 5 (okOutcome [claudePane])]).
  - reflexivity.
  - repeat constructor; simpl; set_solver.
  - reflexivity.
Defined.

Lemma apply_silent_witness :
  seq (Engine.apply id sampleSize 9 (okOutcome [claudePane]) samplePolled) = seq samplePolled.
Proof.
  eapply (apply_silent id sampleSize samplePolled 9 (sampleTopology [claudePane])).
  - apply (engineInv_apply id sampleSize 5 (okOutcome [claudePane]) sampleEngine).
    + simpl. repeat constructor; set_solver.
    + apply (engineInv_new id sampleConfig). reflexivity.
  - reflexivity.
  - split; simpl; repeat constructor; set_solver.
  - split; try reflexivity. exists []. split; constructor.
Defined.

Lemma apply_broadcasts_witness :
  seq (Engine.apply id sampleSize 9 (okOutcome [codexPane]) samplePolled) = 2.
Proof.
  edestruct (apply_broadcasts id sampleSize samplePolled 9 (sampleTopology [codexPane]))
    as (snap & _ & _ & _ & E & _).
  - intros c Hc. vm_compute in Hc. injection Hc as <-. vm_compute. discriminate.
  - exact E.
Defined.

(** Dropping a pane forgets its generation, so the guard has a gap: a client
    that saw pane [p1] at generation 1 with one agent is still accepted after
    the pane vanished from one poll and came back with another agent. *)
Example recycled_pane_accepted :
  let e1 := samplePolled in
  let e2 := Engine.apply id sampleSize 6 (okOutcome []) e1 in
  let e3 := Engine.apply id sampleSize 7 (okOutcome [codexPane]) e2 in
  Generation e1 "p1" = Some 1 /\
  CheckGeneration e2 "p1" 1 = false /\
  CheckGeneration e3 "p1" 1 = true /\
  occupants e3 !! "p1" ≠ occupants e1 !! "p1".
Proof. vm_compute. split_and!; done. Qed.

(** The configured cadence and queue bounds are clamped to usable values. *)
Theorem New_bounds {Digest Err} (cfg : Config) (e : Engine Digest Err) :
  New cfg = Some e ->
  MinPollHot <= pollHot e /\ pollHot e <= pollCold e /\ 1 <= maxItems e /\ 1 <= maxBytes e.
Proof.
  unfold New. destruct (HasSource cfg); simpl; [|done]. intros [= <-]; simpl.
  repeat match goal with |- context [if ?c then _ else _] => destruct c eqn:?; bool_hyps end;
    unfold MinPollHot, DefaultPollHot, DefaultPollCold, DefaultMaxQueueItems, DefaultMaxQueueBytes,
      second, millisecond in *; lia.
Qed.

Lemma New_bounds_witness : MinPollHot <= pollHot sampleEngine.
Proof. apply (New_bounds sampleConfig sampleEngine). reflexivity. Defined.
