(* ===== verification/GoStr.v ===== *)
(** * GoStr: the parts of Go's byte strings the source relies on

    UTF-8 decoding as [range] over a string performs it (an invalid byte is one
    [RuneError] of width one), [utf8.AppendRune], [strings.TrimSpace] and
    [base64.RawURLEncoding]. A Go string is a [list byte] here. *)

From S2P Require Import Prelude.

(** The byte with a given value. *)
Definition zb (z : Z) : byte := default x00 (Byte.of_N (Z.to_N z)).

Lemma bz_zb z : 0 <= z < 256 -> bz (zb z) = z.
Proof.
  intros H. unfold zb, bz. destruct (Byte.of_N (Z.to_N z)) as [b|] eqn:E; simpl.
  - apply Byte.to_of_N in E. rewrite E. lia.
  - apply Byte.of_N_None_iff in E. lia.
Qed.

Lemma zb_bz b : zb (bz b) = b.
Proof. apply bz_inj, bz_zb. pose proof (bz_range b). lia. Qed.

Lemma zb_eq z b : z = bz b -> zb z = b.
Proof. intros ->. apply zb_bz. Qed.

(** ** UTF-8 *)

Definition RuneError : Z := 65533.

(** Second-byte range of a three- or four-byte lead. *)
Definition second3 (b0 b1 : byte) : bool :=
  if bz b0 =? 224 then between 160 191 b1
  else if bz b0 =? 237 then between 128 159 b1
  else between 128 191 b1.
Definition second4 (b0 b1 : byte) : bool :=
  if bz b0 =? 240 then between 144 191 b1
  else if bz b0 =? 244 then between 128 143 b1
  else between 128 191 b1.

Definition rune2 (b0 b1 : byte) : Z := (bz b0 - 192) * 64 + (bz b1 - 128).
Definition rune3 (b0 b1 b2 : byte) : Z :=
  (bz b0 - 224) * 4096 + (bz b1 - 128) * 64 + (bz b2 - 128).
Definition rune4 (b0 b1 b2 b3 : byte) : Z :=
  (bz b0 - 240) * 262144 + (bz b1 - 128) * 4096 + (bz b2 - 128) * 64 + (bz b3 - 128).

(** The runes of [for _, r := range s]. *)
Fixpoint runes (s : list byte) : list Z :=
  match s with
  | [] => []
  | b0 :: s1 =>
      if bz b0 <? 128 then bz b0 :: runes s1
      else match s1 with
      | b1 :: s2 =>
          if between 194 223 b0 && between 128 191 b1 then rune2 b0 b1 :: runes s2
          else match s2 with
          | b2 :: s3 =>
              if between 224 239 b0 && second3 b0 b1 && between 128 191 b2
              then rune3 b0 b1 b2 :: runes s3
              else match s3 with
              | b3 :: s4 =>
                  if between 240 244 b0 && second4 b0 b1 && between 128 191 b2 && between 128 191 b3
                  then rune4 b0 b1 b2 b3 :: runes s4
                  else RuneError :: runes s1
              | [] => RuneError :: runes s1
              end
          | [] => RuneError :: runes s1
          end
      | [] => RuneError :: runes s1
      end
  end.

Definition validRune (r : Z) : bool :=
  ((0 <=? r) && (r <? 55296)) || ((57344 <=? r) && (r <=? 1114111)).

(** [utf8.AppendRune]. *)
Definition encodeRune (r : Z) : list byte :=
  if negb (validRune r) then [xef; xbf; xbd]
  else if r <? 128 then [zb r]
  else if r <? 2048 then [zb (192 + r / 64); zb (128 + r mod 64)]
  else if r <? 65536 then
    [zb (224 + r / 4096); zb (128 + (r / 64) mod 64); zb (128 + r mod 64)]
  else [zb (240 + r / 262144); zb (128 + (r / 4096) mod 64); zb (128 + (r / 64) mod 64);
        zb (128 + r mod 64)].

Definition encodeRunes (rs : list Z) : list byte := rs ≫= encodeRune.

(** Decoding a three-byte form needs the exclusion of the shorter ones. *)
Lemma runes_encode r s : validRune r = true -> runes (encodeRune r ++ s) = r :: runes s.
Proof.
  intros Hv. unfold encodeRune. rewrite Hv. simpl negb. cbv iota.
  assert (0 <= r <= 1114111 /\ ~ 55296 <= r < 57344) as [Hr Hs] by (unfold validRune in Hv; lia).
  pose proof (Z.mod_pos_bound r 64 ltac:(lia)). pose proof (Z.mod_pos_bound (r / 64) 64 ltac:(lia)).
  pose proof (Z.mod_pos_bound (r / 4096) 64 ltac:(lia)).
  pose proof (Z.div_mod r 64 ltac:(lia)). pose proof (Z.div_mod (r / 64) 64 ltac:(lia)) as D2.
  pose proof (Z.div_mod (r / 4096) 64 ltac:(lia)) as D3.
  rewrite Z.div_div in D2 by lia. rewrite Z.div_div in D3 by lia. change (64 * 64) with 4096 in D2. change (4096 * 64) with 262144 in D3.
  destruct (r <? 128) eqn:E1; bool_hyps.
  { cbn [app runes]. rewrite bz_zb by lia. by replace (r <? 128) with true by lia. }
  destruct (r <? 2048) eqn:E2; bool_hyps.
  { cbn [app runes]. unfold between, rune2. rewrite !bz_zb by lia.
    replace (192 + r / 64 <? 128) with false by lia.
    replace (_ && _) with true by lia. f_equal. lia. }
  destruct (r <? 65536) eqn:E3; bool_hyps.
  { cbn [app runes]. unfold between, rune2, rune3, second3, between. rewrite !bz_zb by lia.
    replace (224 + r / 4096 <? 128) with false by lia.
    replace ((194 <=? 224 + r / 4096) && (224 + r / 4096 <=? 223) && _) with false by lia.
    replace (_ && _ && _) with true; [f_equal; lia|]. symmetry.
    destruct (224 + r / 4096 =? 224) eqn:F1; [lia|]. destruct (224 + r / 4096 =? 237) eqn:F2; lia. }
  cbn [app runes]. unfold between, rune2, rune3, rune4, second3, second4, between. rewrite !bz_zb by lia.
  replace (240 + r / 262144 <? 128) with false by lia.
  replace ((194 <=? 240 + r / 262144) && (240 + r / 262144 <=? 223) && _) with false by lia.
  replace ((224 <=? 240 + r / 262144) && (240 + r / 262144 <=? 239) && _ && _) with false by lia.
  replace (_ && _ && _ && _) with true; [f_equal; lia|]. symmetry.
  destruct (240 + r / 262144 =? 240) eqn:F1; [lia|]. destruct (240 + r / 262144 =? 244) eqn:F2; lia.
Qed.

Lemma div_mod_2 a b : 0 <= b < 64 -> (a * 64 + b) / 64 = a /\ (a * 64 + b) mod 64 = b.
Proof.
  intros Hb. split; symmetry; [apply (Z.div_unique _ 64 _ b)|apply (Z.mod_unique _ 64 a)]; lia.
Qed.

(** The three multi-byte forms re-encode to the bytes they came from. *)
Lemma encode_rune2 b0 b1 :
  between 194 223 b0 && between 128 191 b1 = true ->
  encodeRune (rune2 b0 b1) = [b0; b1] /\ validRune (rune2 b0 b1) = true.
Proof.
  unfold between. intros H. bool_hyps. bz_ranges.
  assert (Hv : validRune (rune2 b0 b1) = true) by (unfold validRune, rune2; lia).
  split; [|done]. unfold encodeRune. rewrite Hv. simpl negb. cbv iota. unfold rune2 in *.
  replace (_ <? 128) with false by lia. replace (_ <? 2048) with true by lia.
  destruct (div_mod_2 (bz b0 - 192) (bz b1 - 128)) as [E1 E2]; [lia|].
  rewrite (zb_eq _ b0), (zb_eq _ b1) by lia. done.
Qed.

Lemma div_mod_3 a b c : 0 <= b < 64 -> 0 <= c < 64 ->
  (a * 4096 + b * 64 + c) / 4096 = a /\ ((a * 4096 + b * 64 + c) / 64) mod 64 = b /\
  (a * 4096 + b * 64 + c) mod 64 = c /\ (a * 4096 + b * 64 + c) / 64 = a * 64 + b.
Proof.
  intros Hb Hc.
  assert (E : (a * 4096 + b * 64 + c) / 64 = a * 64 + b).
  { symmetry. apply (Z.div_unique _ 64 _ c); lia. }
  split_and!; [|rewrite E| |done].
  - symmetry. apply (Z.div_unique _ 4096 _ (b * 64 + c)); lia.
  - symmetry. apply (Z.mod_unique _ 64 a); lia.
  - symmetry. apply (Z.mod_unique _ 64 (a * 64 + b)); lia.
Qed.

Lemma encode_rune3 b0 b1 b2 :
  between 224 239 b0 && second3 b0 b1 && between 128 191 b2 = true ->
  encodeRune (rune3 b0 b1 b2) = [b0; b1; b2] /\ validRune (rune3 b0 b1 b2) = true.
Proof.
  unfold between, second3, between. intros H. bool_hyps. bz_ranges.
  assert (Hb1 : 128 <= bz b1 <= 191).
  { destruct (bz b0 =? 224), (bz b0 =? 237); bool_hyps; lia. }
  assert (Hlo : bz b0 = 224 -> 160 <= bz b1).
  { intros E. rewrite E in *. simpl in *. bool_hyps. lia. }
  assert (Hhi : bz b0 = 237 -> bz b1 <= 159).
  { intros E. rewrite E in *. simpl in *. bool_hyps. lia. }
  assert (Hv : validRune (rune3 b0 b1 b2) = true).
  { unfold validRune, rune3. apply orb_true_iff. rewrite !andb_true_iff, !Z.leb_le, !Z.ltb_lt. lia. }
  split; [|done]. unfold encodeRune. rewrite Hv. simpl negb. cbv iota. unfold rune3 in *.
  destruct (div_mod_3 (bz b0 - 224) (bz b1 - 128) (bz b2 - 128)) as (E1 & E2 & E3 & _); [lia..|].
  replace (_ <? 128) with false by lia. replace (_ <? 2048) with false by lia.
  replace (_ <? 65536) with true by lia.
  rewrite (zb_eq _ b0), (zb_eq _ b1), (zb_eq _ b2) by lia. done.
Qed.

Lemma div_mod_4 a b c d : 0 <= b < 64 -> 0 <= c < 64 -> 0 <= d < 64 ->
  let r := a * 262144 + b * 4096 + c * 64 + d in
  r / 262144 = a /\ (r / 4096) mod 64 = b /\ (r / 64) mod 64 = c /\ r mod 64 = d.
Proof.
  intros Hb Hc Hd r.
  assert (E1 : r / 64 = (a * 64 + b) * 64 + c).
  { symmetry. apply (Z.div_unique _ 64 _ d); unfold r; lia. }
  assert (E2 : r / 4096 = a * 64 + b).
  { symmetry. apply (Z.div_unique _ 4096 _ (c * 64 + d)); unfold r; lia. }
  rewrite E1, E2. split_and!.
  - symmetry. apply (Z.div_unique _ 262144 _ (b * 4096 + c * 64 + d)); unfold r; lia.
  - by apply div_mod_2.
  - by apply div_mod_2.
  - symmetry. apply (Z.mod_unique _ 64 ((a * 64 + b) * 64 + c)); unfold r; lia.
Qed.

Lemma encode_rune4 b0 b1 b2 b3 :
  between 240 244 b0 && second4 b0 b1 && between 128 191 b2 && between 128 191 b3 = true ->
  encodeRune (rune4 b0 b1 b2 b3) = [b0; b1; b2; b3] /\ validRune (rune4 b0 b1 b2 b3) = true.
Proof.
  unfold between, second4, between. intros H. bool_hyps. bz_ranges.
  assert (Hb1 : 128 <= bz b1 <= 191).
  { destruct (bz b0 =? 240), (bz b0 =? 244); bool_hyps; lia. }
  assert (Hlo : bz b0 = 240 -> 144 <= bz b1).
  { intros E. rewrite E in *. simpl in *. bool_hyps. lia. }
  assert (Hhi : bz b0 = 244 -> bz b1 <= 143).
  { intros E. rewrite E in *. simpl in *. bool_hyps. lia. }
  assert (Hv : validRune (rune4 b0 b1 b2 b3) = true).
  { unfold validRune, rune4. apply orb_true_iff. rewrite !andb_true_iff, !Z.leb_le, !Z.ltb_lt. lia. }
  split; [|done]. unfold encodeRune. rewrite Hv. simpl negb. cbv iota. unfold rune4 in *.
  destruct (div_mod_4 (bz b0 - 240) (bz b1 - 128) (bz b2 - 128) (bz b3 - 128))
    as (E1 & E2 & E3 & E4); [lia..|].
  replace (_ <? 128) with false by lia. replace (_ <? 2048) with false by lia.
  replace (_ <? 65536) with false by lia.
  rewrite (zb_eq _ b0), (zb_eq _ b1), (zb_eq _ b2), (zb_eq _ b3) by lia. done.
Qed.

(** One decoding step: the first rune covers a non-empty prefix, which is its
    encoding unless it is the [RuneError] of an invalid byte. *)
Lemma runes_step b s :
  exists r c rest, b :: s = c ++ rest /\ c ≠ [] /\ runes (b :: s) = r :: runes rest /\
    validRune r = true /\ (encodeRune r = c \/ r = RuneError).
Proof.
  cbn [runes]. destruct (bz b <? 128) eqn:E1.
  { exists (bz b), [b], s. bool_hyps. pose proof (bz_range b).
    assert (validRune (bz b) = true) as Hv by (unfold validRune; lia).
    split_and!; try done. left. unfold encodeRune. rewrite Hv. simpl.
    replace (bz b <? 128) with true by lia. by rewrite zb_bz. }
  assert (Hbad : exists r c rest, b :: s = c ++ rest /\ c ≠ [] /\
    RuneError :: runes s = r :: runes rest /\ validRune r = true /\
    (encodeRune r = c \/ r = RuneError)).
  { exists RuneError, [b], s. split_and!; try done. by right. }
  destruct s as [|b1 s2]; [done|].
  destruct (between 194 223 b && between 128 191 b1) eqn:E2.
  { apply encode_rune2 in E2 as [? ?]. exists (rune2 b b1), [b; b1], s2. split_and!; try done. by left. }
  destruct s2 as [|b2 s3]; [done|].
  destruct (between 224 239 b && second3 b b1 && between 128 191 b2) eqn:E3.
  { apply encode_rune3 in E3 as [? ?]. exists (rune3 b b1 b2), [b; b1; b2], s3. split_and!; try done. by left. }
  destruct s3 as [|b3 s4]; [done|].
  destruct (_ && _ && _ && _) eqn:E4; [|done].
  apply encode_rune4 in E4 as [? ?]. exists (rune4 b b1 b2 b3), [b; b1; b2; b3], s4. split_and!; try done. by left.
Qed.

(** Induction along the decoding. *)
Lemma runes_ind (P : list byte -> list Z -> Prop) :
  P [] [] ->
  (forall c rest r, c ≠ [] -> validRune r = true -> (encodeRune r = c \/ r = RuneError) ->
     P rest (runes rest) -> P (c ++ rest) (r :: runes rest)) ->
  forall s, P s (runes s).
Proof.
  intros H0 HS s. remember (length s) as n eqn:En. revert s En.
  induction n as [n IH] using lt_wf_ind. intros [|b s] ->; [done|].
  destruct (runes_step b s) as (r & c & rest & E & Hc & -> & Hv & Hr). rewrite E.
  apply HS; auto. apply (IH (length rest)); [|done].
  rewrite E, length_app. destruct c; simpl; [done|lia].
Qed.

Lemma runes_valid s : Forall (fun r => validRune r = true) (runes s).
Proof. apply (runes_ind (fun _ rs => Forall _ rs)); auto. Qed.

Lemma encodeRunes_cons r rs : encodeRunes (r :: rs) = encodeRune r ++ encodeRunes rs.
Proof. done. Qed.

Lemma runes_encodeRunes rs s :
  Forall (fun r => validRune r = true) rs -> runes (encodeRunes rs ++ s) = rs ++ runes s.
Proof.
  induction 1 as [|r rs Hr _ IH]; [done|].
  rewrite encodeRunes_cons, <- app_assoc, runes_encode by done. simpl. by rewrite IH.
Qed.

Lemma runes_encodeRunes_nil rs :
  Forall (fun r => validRune r = true) rs -> runes (encodeRunes rs) = rs.
Proof.
  intros H. rewrite <- (app_nil_r (encodeRunes rs)), runes_encodeRunes by done.
  apply app_nil_r.
Qed.

(** A selection of the runes of [s] without [RuneError] is no longer than [s]. *)
Lemma encode_selection_length (keep : Z -> bool) s :
  keep RuneError = false ->
  (length (encodeRunes (List.filter keep (runes s))) <= length s)%nat.
Proof.
  intros He. apply (runes_ind (fun s rs => (length (encodeRunes (List.filter keep rs)) <= length s)%nat)).
  - done.
  - intros c rest r Hc Hv Hr IH. rewrite length_app. simpl.
    destruct (keep r) eqn:Ek; [|lia]. rewrite encodeRunes_cons, length_app.
    destruct Hr as [-> | ->]; [lia|congruence].
Qed.

(** Runes that all survive re-encode to the string itself. *)
Lemma encode_all s : Forall (fun r => r ≠ RuneError) (runes s) -> encodeRunes (runes s) = s.
Proof.
  apply (runes_ind (fun s rs => Forall (fun r => r ≠ RuneError) rs -> encodeRunes rs = s)); [done|].
  intros c rest r Hc Hv Hr IH Hf. apply Forall_cons in Hf as [Hn Hf].
  rewrite encodeRunes_cons, IH by done. by destruct Hr as [-> | ->].
Qed.

(** ** [strings.TrimSpace]

    Leading and trailing runes of [unicode.IsSpace] are removed. A trailing
    rune is found by [utf8.DecodeLastRune]: the suffix that is its encoding. *)

Definition isSpace (r : Z) : bool :=
  ((9 <=? r) && (r <=? 13)) || (r =? 32) || (r =? 133) || (r =? 160) || (r =? 5760) ||
  ((8192 <=? r) && (r <=? 8202)) || (r =? 8232) || (r =? 8233) || (r =? 8239) ||
  (r =? 8287) || (r =? 12288).

(** The one-, two- and three-byte encodings of a space. *)
Definition space1 (b0 : byte) : bool := (bz b0 <? 128) && isSpace (bz b0).
Definition space2 (b0 b1 : byte) : bool :=
  between 194 223 b0 && between 128 191 b1 && isSpace (rune2 b0 b1).
Definition space3 (b0 b1 b2 : byte) : bool :=
  between 224 239 b0 && second3 b0 b1 && between 128 191 b2 && isSpace (rune3 b0 b1 b2).

Fixpoint trimLeft (s : list byte) : list byte :=
  match s with
  | [] => []
  | b0 :: s1 =>
      if space1 b0 then trimLeft s1
      else match s1 with
      | b1 :: s2 =>
          if space2 b0 b1 then trimLeft s2
          else match s2 with
          | b2 :: s3 => if space3 b0 b1 b2 then trimLeft s3 else s
          | [] => s
          end
      | [] => s
      end
  end.

(** The same from the right end, on the reversed string. *)
Fixpoint trimRightRev (s : list byte) : list byte :=
  match s with
  | [] => []
  | b0 :: s1 =>
      if space1 b0 then trimRightRev s1
      else match s1 with
      | b1 :: s2 =>
          if space2 b1 b0 then trimRightRev s2
          else match s2 with
          | b2 :: s3 => if space3 b2 b1 b0 then trimRightRev s3 else s
          | [] => s
          end
      | [] => s
      end
  end.

Definition TrimSpace (s : list byte) : list byte := reverse (trimRightRev (reverse (trimLeft s))).

(** A string whose bytes are all ASCII and not spaces is not trimmed. *)
Definition plainByte (b : byte) : bool := (bz b <? 128) && negb (isSpace (bz b)).

Lemma plain_not_space b0 b1 b2 :
  plainByte b0 = true ->
  space1 b0 = false /\ space2 b0 b1 = false /\ space3 b0 b1 b2 = false /\
  space2 b1 b0 = false /\ space3 b2 b1 b0 = false.
Proof.
  unfold plainByte, space1, space2, space3, between. intros H. bool_hyps.
  split_and!; [by rewrite H0, andb_false_r|apply andb_false_iff; left; lia..].
Qed.

Lemma trimLeft_plain s : Forall (fun b => plainByte b = true) s -> trimLeft s = s.
Proof.
  destruct s as [|b0 [|b1 [|b2 s]]]; intros H; [done|..];
    apply Forall_cons in H as [H _]; simpl.
  - destruct (plain_not_space b0 b0 b0 H) as (-> & _). done.
  - destruct (plain_not_space b0 b1 b1 H) as (-> & -> & _). done.
  - destruct (plain_not_space b0 b1 b2 H) as (-> & -> & -> & _). done.
Qed.

Lemma trimRightRev_plain s : Forall (fun b => plainByte b = true) s -> trimRightRev s = s.
Proof.
  destruct s as [|b0 [|b1 [|b2 s]]]; intros H; [done|..];
    apply Forall_cons in H as [H _]; simpl.
  - destruct (plain_not_space b0 b0 b0 H) as (-> & _). done.
  - destruct (plain_not_space b0 b1 b1 H) as (-> & _ & _ & -> & _). done.
  - destruct (plain_not_space b0 b1 b2 H) as (-> & _ & _ & -> & ->). done.
Qed.

Lemma TrimSpace_plain s : Forall (fun b => plainByte b = true) s -> TrimSpace s = s.
Proof.
  intros H. unfold TrimSpace. rewrite trimLeft_plain by done.
  rewrite trimRightRev_plain; [apply reverse_involutive|].
  rewrite Forall_forall in *. intros b Hb. rewrite elem_of_reverse in Hb. auto.
Qed.

(** ** [base64.RawURLEncoding] *)

Definition b64char (v : Z) : byte :=
  if v <? 26 then zb (65 + v) else if v <? 52 then zb (71 + v)
  else if v <? 62 then zb (v - 4) else if v =? 62 then x2d else x5f.

Definition b64value (b : byte) : option Z :=
  if between 65 90 b then Some (bz b - 65)
  else if between 97 122 b then Some (bz b - 71)
  else if between 48 57 b then Some (bz b + 4)
  else if bz b =? 45 then Some 62
  else if bz b =? 95 then Some 63
  else None.

Fixpoint b64encode (s : list byte) : list byte :=
  match s with
  | a :: b :: c :: r =>
      b64char (bz a / 4) :: b64char ((bz a mod 4) * 16 + bz b / 16) ::
      b64char ((bz b mod 16) * 4 + bz c / 64) :: b64char (bz c mod 64) :: b64encode r
  | [a; b] =>
      [b64char (bz a / 4); b64char ((bz a mod 4) * 16 + bz b / 16); b64char ((bz b mod 16) * 4)]
  | [a] => [b64char (bz a / 4); b64char ((bz a mod 4) * 16)]
  | [] => []
  end.

(** Sextets to bytes; a single left-over character is an error, and the unused
    low bits of a short last group are ignored. *)
Fixpoint b64join (vs : list Z) : option (list byte) :=
  match vs with
  | [] => Some []
  | [_] => None
  | [v; w] => Some [zb (v * 4 + w / 16)]
  | [v; w; x] => Some [zb (v * 4 + w / 16); zb ((w mod 16) * 16 + x / 4)]
  | v :: w :: x :: y :: r =>
      r' ← b64join r;
      Some (zb (v * 4 + w / 16) :: zb ((w mod 16) * 16 + x / 4) :: zb ((x mod 4) * 64 + y) :: r')
  end.

(** Carriage returns and newlines are skipped before decoding. *)
Definition b64decode (s : list byte) : option (list byte) :=
  vs ← mapM b64value (List.filter (fun b => negb ((bz b =? 10) || (bz b =? 13))) s);
  b64join vs.

(** A boolean fact checked at every sextet. *)
Lemma sextet_check (P : Z -> bool) :
  forallb P (seqZ 0 64) = true -> forall v, 0 <= v < 64 -> P v = true.
Proof.
  intros H v Hv. rewrite forallb_forall in H. apply H. apply list_elem_of_In, elem_of_seqZ. lia.
Qed.

Lemma b64char_value v : 0 <= v < 64 -> b64value (b64char v) = Some v.
Proof.
  intros Hv. apply (bool_decide_unpack _). 
  eapply (sextet_check (fun v => bool_decide (b64value (b64char v) = Some v))) in Hv; [|reflexivity].
  by rewrite Hv.
Qed.

Lemma b64char_plain v : 0 <= v < 64 -> plainByte (b64char v) = true.
Proof. by apply (sextet_check (fun v => plainByte (b64char v))). Qed.

(** Induction three bytes at a time. *)
Lemma triple_ind (P : list byte -> Prop) :
  P [] -> (forall a, P [a]) -> (forall a b, P [a; b]) ->
  (forall a b c r, P r -> P (a :: b :: c :: r)) -> forall s, P s.
Proof.
  intros H0 H1 H2 H3. fix IH 1. intros [|a [|b [|c r]]]; [done|auto|auto|]. apply H3, IH.
Qed.

Fixpoint sextets (s : list byte) : list Z :=
  match s with
  | a :: b :: c :: r =>
      bz a / 4 :: (bz a mod 4) * 16 + bz b / 16 :: (bz b mod 16) * 4 + bz c / 64 ::
      bz c mod 64 :: sextets r
  | [a; b] => [bz a / 4; (bz a mod 4) * 16 + bz b / 16; (bz b mod 16) * 4]
  | [a] => [bz a / 4; (bz a mod 4) * 16]
  | [] => []
  end.

Lemma b64encode_map s : b64encode s = b64char <$> sextets s.
Proof. induction s using triple_ind; simpl; auto. by f_equal; f_equal; f_equal; f_equal. Qed.

Ltac byte_divmod :=
  bz_ranges; Z.div_mod_to_equations; lia.

Lemma sextets_range s : Forall (fun v => 0 <= v < 64) (sextets s).
Proof.
  induction s using triple_ind; simpl; repeat (apply Forall_cons; split; [byte_divmod|]); auto.
Qed.

Lemma b64join_sextets s : b64join (sextets s) = Some s.
Proof.
  induction s as [|a|a b|a b c r IH] using triple_ind; cbn [sextets b64join]; [done|..].
  - rewrite (zb_eq _ a) by byte_divmod. done.
  - rewrite (zb_eq _ a), (zb_eq _ b) by byte_divmod. done.
  - rewrite IH. cbn. rewrite (zb_eq _ a), (zb_eq _ b), (zb_eq _ c) by byte_divmod. done.
Qed.

Lemma b64_plain s : Forall (fun b => plainByte b = true) (b64encode s).
Proof.
  rewrite b64encode_map. apply Forall_fmap. eapply Forall_impl; [apply sextets_range|].
  intros v Hv. by apply b64char_plain.
Qed.

Lemma b64_roundtrip s : b64decode (b64encode s) = Some s.
Proof.
  unfold b64decode.
  assert (E : List.filter (fun b => negb ((bz b =? 10) || (bz b =? 13))) (b64encode s) = b64encode s).
  { pose proof (b64_plain s) as H. induction H as [|b l Hb _ IH]; [done|]. simpl.
    unfold plainByte, isSpace in Hb. replace (negb _) with true by lia. by rewrite IH. }
  rewrite E, b64encode_map. clear E.
  replace (mapM b64value (b64char <$> sextets s)) with (Some (sextets s)).
  { simpl. apply b64join_sextets. }
  symmetry. apply mapM_Some. apply Forall2_fmap_l, Forall_Forall2_diag.
  eapply Forall_impl; [apply sextets_range|]. intros v Hv. by apply b64char_value.
Qed.

(** ** [io.ReadFull] on an entropy source

    The source is the list of bytes it will still deliver; a short read drains
    it and fails. *)
Definition readFull (rnd : list byte) (n : nat) : option (list byte) * list byte :=
  if (length rnd <? n)%nat then (None, []) else (Some (take n rnd), drop n rnd).

Lemma readFull_cases rnd n :
  ((length rnd < n)%nat /\ readFull rnd n = (None, [])) \/
  ((n <= length rnd)%nat /\ readFull rnd n = (Some (take n rnd), drop n rnd)).
Proof. unfold readFull. destruct (Nat.ltb_spec (length rnd) n); auto. Qed.

(** ** Strings as bytes, and case folding *)

Definition bytesOf (s : string) : list byte := String.list_byte_of_string s.

(** [strings.EqualFold] against an ASCII word: ASCII letters fold to lower case,
    and U+017F and U+212A are the two other runes that fold to ASCII. *)
Definition foldRune (r : Z) : Z :=
  if (65 <=? r) && (r <=? 90) then r + 32
  else if r =? 383 then 115 else if r =? 8490 then 107 else r.
Definition EqualFold (s word : list byte) : bool :=
  bool_decide (foldRune <$> runes s = foldRune <$> runes word).

(** ** [strings.Split] with a one-byte separator *)

Fixpoint splitOn (sep : byte) (s : list byte) : list (list byte) :=
  match s with
  | [] => [[]]
  | b :: r =>
      if b =b sep then [] :: splitOn sep r
      else match splitOn sep r with
           | p :: ps => (b :: p) :: ps
           | [] => [[b]]
           end
  end.

Fixpoint joinWith (sep : byte) (ps : list (list byte)) : list byte :=
  match ps with [] => [] | [p] => p | p :: ps' => p ++ [sep] ++ joinWith sep ps' end.

Lemma splitOn_free sep p : Forall (fun b => b ≠ sep) p -> splitOn sep p = [p].
Proof.
  induction 1 as [|b p Hb _ IH]; [done|]. simpl. rewrite IH.
  destruct (b =b sep) eqn:E; [|done]. by apply byte_eqb_eq in E.
Qed.

Lemma splitOn_app sep p r : Forall (fun b => b ≠ sep) p ->
  splitOn sep (p ++ [sep] ++ r) = p :: splitOn sep r.
Proof.
  induction 1 as [|b p Hb _ IH]; [simpl; by rewrite byte_eqb_refl|].
  rewrite <- app_comm_cons. cbn [splitOn]. rewrite IH.
  destruct (b =b sep) eqn:E; [|done]. by apply byte_eqb_eq in E.
Qed.

Lemma splitOn_nonempty sep s : splitOn sep s ≠ [].
Proof. destruct s as [|b s]; [done|]. simpl. destruct (b =b sep); [done|]. by destruct (splitOn sep s). Qed.

(** The parts contain no separator, and joining them gives the string back. *)
Lemma splitOn_spec sep s :
  joinWith sep (splitOn sep s) = s /\ Forall (Forall (fun b => b ≠ sep)) (splitOn sep s).
Proof.
  induction s as [|b s [IH1 IH2]]; [split; [done|by repeat constructor]|]. simpl.
  pose proof (splitOn_nonempty sep s) as Hne.
  destruct (b =b sep) eqn:E.
  - apply byte_eqb_eq in E as ->. split; [|by repeat constructor].
    destruct (splitOn sep s) as [|q ps]; [done|].
    change (sep :: joinWith sep (q :: ps) = sep :: s). by rewrite IH1.
  - assert (b ≠ sep) by (intros ->; by rewrite byte_eqb_refl in E).
    destruct (splitOn sep s) as [|q ps]; [done|].
    inversion IH2; subst. split; [|by repeat constructor]. destruct ps; simpl in *; done.
Qed.
