(* ===== verification/Sanitize.v ===== *)
(** * Sanitize: text leaving the relay

    internal/security/redact.go ([SanitizeLogLine], [SanitizeTextBlock]), the
    bounding helpers of internal/server/runs.go, the close-reason bound of
    internal/server/terminalroute.go and the error-message bound of
    internal/herdr/errors.go. *)

From S2P Require Import Prelude GoStr.

(** ** Rune filters *)

(** What a loop over the runes writes for one rune, if anything. *)
Definition logRune (r : Z) : option Z :=
  if (r =? 9) || (r =? 10) || (r =? 13) then Some 32
  else if (r <? 32) || (r =? 127) then None
  else if (128 <=? r) && (r <=? 159) then None
  else if r =? RuneError then None
  else Some r.

Definition blockRune (r : Z) : option Z :=
  if (r =? 10) || (r =? 9) then Some r
  else if (r <? 32) || (r =? 127) then None
  else if (128 <=? r) && (r <=? 159) then None
  else if r =? RuneError then None
  else Some r.

Definition messageRune (r : Z) : option Z :=
  if (r =? 9) || (r =? 32) then Some r
  else if (r <? 32) || (r =? 127) then None
  else if (128 <=? r) && (r <=? 159) then None
  else Some r.

Definition SanitizeLogLine (s : list byte) : list byte := encodeRunes (omap logRune (runes s)).
Definition SanitizeTextBlock (s : list byte) : list byte := encodeRunes (omap blockRune (runes s)).

Definition maxErrorMessage : nat := 512.

Definition sanitizeMessage (s : list byte) : list byte :=
  let s := if (maxErrorMessage <? length s)%nat then take maxErrorMessage s else s in
  TrimSpace (encodeRunes (omap messageRune (runes s))).

(** ** Bounds *)

(** [utf8.RuneStart]. *)
Definition RuneStart (b : byte) : bool := negb (between 128 191 b).

Fixpoint dropContinuation (s : list byte) : list byte :=
  match s with
  | b :: r => if RuneStart b then s else dropContinuation r
  | [] => []
  end.

Definition boundObservedText (s : list byte) (maxBytes : Z) : list byte * bool :=
  let s := SanitizeTextBlock s in
  if (maxBytes <=? 0) || (Z.of_nat (length s) <=? maxBytes) then (s, false)
  else (dropContinuation (drop (length s - Z.to_nat maxBytes) s), true).

(** The loop [for cut > 0 && !RuneStart(s[cut])]; [s[cut]] is in range because
    the caller checked [len(s) > maxBytes]. *)
Fixpoint cutBack (s : list byte) (cut : nat) : nat :=
  match cut with
  | O => O
  | S cut' => if RuneStart (default x00 (s !! cut)) then cut else cutBack s cut'
  end.

Definition truncateUTF8 (s : list byte) (maxBytes : nat) : list byte :=
  if (length s <=? maxBytes)%nat then s else take (cutBack s maxBytes) s.

Definition maxRunTextFieldLen : nat := 512.

Definition sanitizeRunField (s : list byte) : list byte :=
  match s with
  | [] => s
  | _ =>
      let out := SanitizeLogLine s in
      if (maxRunTextFieldLen <? length out)%nat then truncateUTF8 out maxRunTextFieldLen else out
  end.

Definition countNewlines (s : list byte) : nat := length (List.filter (fun b => bz b =? 10) s).

Definition countLines (s : list byte) : nat :=
  match last s with
  | None => O
  | Some b => if bz b =? 10 then countNewlines s else S (countNewlines s)
  end.

(** [utf8.ValidString]: every invalid byte would re-encode to three bytes. *)
Definition ValidString (s : list byte) : bool := bool_decide (encodeRunes (runes s) = s).

(** The loop that drops the last byte until the string is valid. *)
Fixpoint dropInvalidTail (fuel : nat) (s : list byte) : option (list byte) :=
  if ValidString s || (length s =? 0)%nat then Some s
  else match fuel with
       | O => None
       | S fuel' => dropInvalidTail fuel' (take (length s - 1) s)
       end.

Definition maxCloseReason : nat := 123.

Definition truncateCloseReason (reason : list byte) : option (list byte) :=
  if (length reason <=? maxCloseReason)%nat && ValidString reason then Some reason
  else
    let reason := if (maxCloseReason <? length reason)%nat then take maxCloseReason reason else reason in
    dropInvalidTail (length reason) reason.

(** ** Facts *)

Lemma logRune_ok r r' : logRune r = Some r' -> validRune r = true ->
  validRune r' = true /\ r' ≠ RuneError /\ 32 <= r' /\ r' ≠ 127 /\ ~ 128 <= r' <= 159.
Proof.
  unfold logRune, validRune, RuneError. intros H Hv.
  repeat match type of H with context [if ?c then _ else _] => destruct c eqn:? end;
    simplify_eq; split_and!; lia.
Qed.

Lemma blockRune_ok r r' : blockRune r = Some r' -> validRune r = true ->
  validRune r' = true /\ r' ≠ RuneError /\ (r' = 10 \/ r' = 9 \/ 32 <= r') /\ r' ≠ 127 /\
  ~ 128 <= r' <= 159.
Proof.
  unfold blockRune, validRune, RuneError. intros H Hv.
  repeat match type of H with context [if ?c then _ else _] => destruct c eqn:? end;
    simplify_eq; split_and!; lia.
Qed.

Lemma omap_Forall {A B} (f : A -> option B) (P : A -> Prop) (Q : B -> Prop) l :
  (forall x y, f x = Some y -> P x -> Q y) -> Forall P l -> Forall Q (omap f l).
Proof.
  intros Hf. induction 1 as [|x l Hx _ IH]; simpl; [done|].
  destruct (f x) eqn:E; [constructor; eauto|done].
Qed.

Lemma omap_id {A} (f : A -> option A) (l : list A) :
  Forall (fun x => f x = Some x) l -> omap f l = l.
Proof. induction 1 as [|x l Hx _ IH]; simpl; [done|]. rewrite Hx. by f_equal. Qed.

(** A one-rune-for-one filter that never writes [RuneError] does not grow the
    text, when what it writes is no longer than what it reads. *)
Lemma encode_omap_length (f : Z -> option Z) s :
  f RuneError = None ->
  (forall r r', f r = Some r' -> validRune r = true ->
     (length (encodeRune r') <= length (encodeRune r))%nat) ->
  (length (encodeRunes (omap f (runes s))) <= length s)%nat.
Proof.
  intros He Hf.
  apply (runes_ind (fun s rs => (length (encodeRunes (omap f rs)) <= length s)%nat)); [done|].
  intros c rest r Hc Hv Hr IH. rewrite length_app.
  change (omap f (r :: runes rest)) with
    (match f r with Some y => y :: omap f (runes rest) | None => omap f (runes rest) end).
  destruct (f r) as [r'|] eqn:Ef; [|lia]. rewrite encodeRunes_cons, length_app.
  destruct Hr as [<- | ->]; [|congruence]. specialize (Hf _ _ Ef Hv). lia.
Qed.

(** Every rune is encoded as a start byte followed by continuation bytes, and
    the bytes of a rune other than a control are not controls. *)
Lemma encodeRune_shape r :
  validRune r = true ->
  exists h t, encodeRune r = h :: t /\ RuneStart h = true /\
    Forall (fun b => RuneStart b = false) t /\ (length t <= 3)%nat /\
    (32 <= r -> r ≠ 127 -> Forall (fun b => 32 <= bz b /\ bz b ≠ 127) (h :: t)).
Proof.
  intros Hv. unfold encodeRune. rewrite Hv. simpl negb. cbv iota.
  assert (0 <= r <= 1114111) as Hr by (unfold validRune in Hv; lia).
  assert (0 <= r mod 64 < 64) by (apply Z.mod_pos_bound; lia).
  assert (0 <= (r / 64) mod 64 < 64) by (apply Z.mod_pos_bound; lia).
  assert (0 <= (r / 4096) mod 64 < 64) by (apply Z.mod_pos_bound; lia).
  destruct (r <? 128) eqn:E1; [|destruct (r <? 2048) eqn:E2; [|destruct (r <? 65536) eqn:E3]]; bool_hyps;
    eexists _, _; (split; [reflexivity|]); unfold RuneStart, between.
  - split_and!; [rewrite bz_zb by lia; lia|done|simpl; lia|].
    intros. repeat constructor; rewrite bz_zb; lia.
  - assert (2 <= r / 64 < 32) by (Z.div_mod_to_equations; lia).
    split_and!; [rewrite bz_zb by lia; lia|repeat constructor; rewrite bz_zb by lia; lia|simpl; lia|].
    intros. repeat constructor; rewrite bz_zb; lia.
  - assert (0 <= r / 4096 < 16) by (Z.div_mod_to_equations; lia).
    split_and!; [rewrite bz_zb by lia; lia|repeat constructor; rewrite bz_zb by lia; lia|simpl; lia|].
    intros. repeat constructor; rewrite bz_zb; lia.
  - assert (0 <= r / 262144 < 5) by (Z.div_mod_to_equations; lia).
    split_and!; [rewrite bz_zb by lia; lia|repeat constructor; rewrite bz_zb by lia; lia|simpl; lia|].
    intros. repeat constructor; rewrite bz_zb; lia.
Qed.

Lemma dropContinuation_app t s :
  Forall (fun b => RuneStart b = false) t -> dropContinuation (t ++ s) = dropContinuation s.
Proof. induction 1 as [|b t Hb _ IH]; simpl; [done|]. by rewrite Hb. Qed.

Lemma dropContinuation_encoded rs :
  Forall (fun r => validRune r = true) rs -> dropContinuation (encodeRunes rs) = encodeRunes rs.
Proof.
  destruct 1 as [|r rs Hr _]; [done|]. rewrite encodeRunes_cons.
  destruct (encodeRune_shape r Hr) as (h & t & -> & Hh & _). simpl. by rewrite Hh.
Qed.

(** Cutting an encoded text anywhere and dropping the continuation bytes leaves
    the encoding of a suffix of its runes. *)
Lemma drop_encoded n rs :
  Forall (fun r => validRune r = true) rs ->
  exists rs', rs' `suffix_of` rs /\ dropContinuation (drop n (encodeRunes rs)) = encodeRunes rs'.
Proof.
  intros H. revert n. induction H as [|r rs Hr Hrs IH]; intros n.
  { exists []. split; [done|]. by destruct n. }
  destruct n as [|n].
  { exists (r :: rs). split; [done|]. rewrite drop_0. apply dropContinuation_encoded. by constructor. }
  rewrite encodeRunes_cons, drop_app.
  destruct (encodeRune_shape r Hr) as (h & t & -> & _ & Ht & _). simpl.
  rewrite dropContinuation_app by (by apply Forall_drop).
  destruct (IH (S n - S (length t))%nat) as (rs' & Hs & E). simpl in E. rewrite E.
  exists rs'. split; [by apply suffix_cons_r|done].
Qed.

(** The start bytes of an encoded text are exactly the rune boundaries. *)
Lemma take_encoded n rs :
  Forall (fun r => validRune r = true) rs -> (n <= length (encodeRunes rs))%nat ->
  (forall b, encodeRunes rs !! n = Some b -> RuneStart b = true) ->
  exists rs', rs' `prefix_of` rs /\ take n (encodeRunes rs) = encodeRunes rs'.
Proof.
  intros H. revert n. induction H as [|r rs Hr Hrs IH]; intros n Hn Hb.
  { exists []. split; [done|]. by destruct n. }
  destruct n as [|n]; [exists []; split; [apply prefix_nil|done]|].
  rewrite encodeRunes_cons in *. rewrite length_app in Hn.
  destruct (encodeRune_shape r Hr) as (h & t & Er & _ & Ht & _). rewrite Er in *. simpl in *.
  destruct (decide (n < length t)%nat) as [Hlt|Hge].
  - exfalso. destruct (lookup_lt_is_Some_2 t n Hlt) as [b E].
    rewrite lookup_app_l in Hb by done. specialize (Hb b E).
    rewrite Forall_lookup in Ht. rewrite (Ht n b E) in Hb. done.
  - destruct (IH (n - length t)%nat) as (rs' & Hp & E); [lia| |].
    { intros b Eb. apply Hb. by rewrite lookup_app_r by lia. }
    exists (r :: rs'). split; [by apply prefix_cons|]. rewrite encodeRunes_cons, Er. simpl.
    f_equal. rewrite take_app, take_ge by lia. by rewrite E.
Qed.

Lemma cutBack_spec s n :
  (cutBack s n <= n)%nat /\ (cutBack s n = O \/ RuneStart (default x00 (s !! cutBack s n)) = true).
Proof.
  induction n as [|n [IH1 IH2]]; cbn [cutBack]; [auto|].
  destruct (RuneStart (default x00 (s !! S n))) eqn:E; [auto|]. auto with lia.
Qed.

Lemma omap_valid (f : Z -> option Z) (Q : Z -> Prop) s :
  (forall r r', f r = Some r' -> validRune r = true -> validRune r' = true /\ Q r') ->
  Forall (fun r => validRune r = true) (omap f (runes s)) /\ Forall Q (omap f (runes s)).
Proof.
  intros Hf. split; eapply (omap_Forall f _ _ (runes s));
    try apply (runes_valid s); intros x y E Hv; by destruct (Hf x y E Hv).
Qed.

(** No byte of the encoding of control-free runes is a C0 control or DEL. *)
Lemma encoded_no_control rs :
  Forall (fun r => validRune r = true) rs -> Forall (fun r => 32 <= r /\ r ≠ 127) rs ->
  Forall (fun b => 32 <= bz b /\ bz b ≠ 127) (encodeRunes rs).
Proof.
  intros Hv. induction Hv as [|r rs Hr Hrs IH]; intros Hc; [constructor|].
  apply Forall_cons in Hc as [[H1 H2] Hc]. rewrite encodeRunes_cons. apply Forall_app. split; auto.
  destruct (encodeRune_shape r Hr) as (h & t & -> & _ & _ & _ & Hb). auto.
Qed.

Definition printableRune (r : Z) : Prop :=
  validRune r = true /\ r ≠ RuneError /\ 32 <= r /\ r ≠ 127 /\ ~ 128 <= r <= 159.

Lemma logRune_printable r : printableRune r -> logRune r = Some r.
Proof. unfold printableRune, logRune. intros (_ & H1 & H2 & H3 & H4).
  repeat match goal with |- context [if ?c then _ else _] => replace c with false by lia end. done.
Qed.

Lemma log_runes s :
  runes (SanitizeLogLine s) = omap logRune (runes s) /\
  Forall printableRune (omap logRune (runes s)).
Proof.
  destruct (omap_valid logRune printableRune s) as [H1 H2].
  { intros r r' E Hv. destruct (logRune_ok r r' E Hv) as (? & ? & ? & ? & ?). by repeat split. }
  split; [by apply runes_encodeRunes_nil|done].
Qed.

Lemma log_length s : (length (SanitizeLogLine s) <= length s)%nat.
Proof.
  apply encode_omap_length; [done|]. intros r r' E Hv.
  unfold logRune in E. repeat match type of E with context [if ?c then _ else _] => destruct c eqn:? end;
    simplify_eq; auto. destruct (encodeRune_shape r Hv) as (h & t & -> & _). simpl. lia.
Qed.

(** A sanitized log line carries no terminal control. Whatever the input
    bytes, every rune of the output is printable (no C0, DEL, C1 or invalid
    byte, so no escape sequence can start), no output byte is a control byte,
    the output is no longer than the input, and a line that is already clean is
    returned unchanged. *)
Theorem SanitizeLogLine_clean (s : list byte) :
  Forall printableRune (runes (SanitizeLogLine s)) /\
  Forall (fun b => 32 <= bz b /\ bz b ≠ 127) (SanitizeLogLine s) /\
  (length (SanitizeLogLine s) <= length s)%nat /\
  (Forall printableRune (runes s) -> SanitizeLogLine s = s).
Proof.
  destruct (log_runes s) as [E Hp]. split_and!.
  - by rewrite E.
  - apply encoded_no_control; eapply Forall_impl; try apply Hp; unfold printableRune; naive_solver.
  - apply log_length.
  - intros Hc. unfold SanitizeLogLine. rewrite omap_id.
    + apply encode_all. eapply Forall_impl; [apply Hc|]. unfold printableRune. naive_solver.
    + eapply Forall_impl; [apply Hc|]. apply logRune_printable.
Qed.

Definition blockSafe (r : Z) : Prop :=
  validRune r = true /\ r ≠ RuneError /\ (r = 10 \/ r = 9 \/ 32 <= r) /\ r ≠ 127 /\ ~ 128 <= r <= 159.

Lemma block_runes s :
  Forall (fun r => validRune r = true) (omap blockRune (runes s)) /\
  Forall blockSafe (omap blockRune (runes s)).
Proof.
  apply omap_valid. intros r r' E Hv.
  destruct (blockRune_ok r r' E Hv) as (? & ? & ? & ? & ?). by repeat split.
Qed.

(** Observed output is bounded without breaking a rune. With a positive
    bound the published text has at most that many bytes, is a suffix of the
    sanitized text cut at a rune boundary (so it is valid UTF-8 and free of
    terminal controls), and truncation is reported exactly when bytes were
    dropped. *)
Theorem boundObservedText_tail (s : list byte) (maxBytes : Z) :
  0 < maxBytes ->
  let '(text, truncated) := boundObservedText s maxBytes in
  Z.of_nat (length text) <= maxBytes /\
  runes text `suffix_of` runes (SanitizeTextBlock s) /\
  Forall blockSafe (runes text) /\
  truncated = negb (Z.of_nat (length (SanitizeTextBlock s)) <=? maxBytes) /\
  (truncated = false -> text = SanitizeTextBlock s).
Proof.
  intros Hm. destruct (block_runes s) as [Hv Hb]. unfold boundObservedText.
  set (t := SanitizeTextBlock s). assert (Et : runes t = omap blockRune (runes s)).
  { unfold t, SanitizeTextBlock. by apply runes_encodeRunes_nil. }
  replace (maxBytes <=? 0) with false by lia. simpl.
  destruct (Z.of_nat (length t) <=? maxBytes) eqn:E; bool_hyps.
  { split_and!; auto. by rewrite Et. }
  destruct (drop_encoded (length t - Z.to_nat maxBytes) _ Hv) as (rs' & Hs & Ed).
  change (encodeRunes (omap blockRune (runes s))) with t in Ed. rewrite Ed.
  destruct Hs as [pre Hs]. rewrite Hs in Hv, Hb. apply Forall_app in Hv as [_ Hv], Hb as [_ Hb].
  rewrite runes_encodeRunes_nil, Et by done. split_and!; auto; [|by exists pre|done].
  rewrite <- Ed.
  assert (Hd : forall l, (length (dropContinuation l) <= length l)%nat).
  { induction l as [|b l IH]; simpl; [done|]. destruct (RuneStart b); simpl; lia. }
  specialize (Hd (drop (length t - Z.to_nat maxBytes) t)). rewrite length_drop in Hd. lia.
Qed.

Lemma boundObservedText_tail_witness :
  boundObservedText [x61; xc3; xa9; x62] 2 = ([x62], true) /\
  Z.of_nat (length (boundObservedText [x61; xc3; xa9; x62] 2).1) <= 2.
Proof.
  split; [reflexivity|].
  exact (proj1 (boundObservedText_tail [x61; xc3; xa9; x62] 2 ltac:(lia))).
Defined.

(** A run display field is at most 512 bytes and printable, cut at a rune
    boundary when it is too long. *)
Theorem sanitizeRunField_bounded (s : list byte) :
  (length (sanitizeRunField s) <= maxRunTextFieldLen)%nat /\
  Forall printableRune (runes (sanitizeRunField s)) /\
  runes (sanitizeRunField s) `prefix_of` runes (SanitizeLogLine s).
Proof.
  assert (E0 : sanitizeRunField s = let out := SanitizeLogLine s in
    if (maxRunTextFieldLen <? length out)%nat then truncateUTF8 out maxRunTextFieldLen else out)
    by (destruct s; reflexivity).
  rewrite E0. cbv zeta. destruct (log_runes s) as [E Hp]. set (t := SanitizeLogLine s) in *.
  destruct (maxRunTextFieldLen <? length t)%nat eqn:El.
  2: { apply Nat.ltb_ge in El. rewrite E. split_and!; auto. }
  apply Nat.ltb_lt in El. unfold truncateUTF8.
  replace (length t <=? maxRunTextFieldLen)%nat with false by (symmetry; apply Nat.leb_gt; lia).
  destruct (cutBack_spec t maxRunTextFieldLen) as [Hle Hst].
  assert (Hv : Forall (fun r => validRune r = true) (omap logRune (runes s))).
  { eapply Forall_impl; [apply Hp|]. unfold printableRune. naive_solver. }
  destruct (take_encoded (cutBack t maxRunTextFieldLen) _ Hv) as (rs' & [k Hk] & Et).
  { change (encodeRunes (omap logRune (runes s))) with t. lia. }
  { change (encodeRunes (omap logRune (runes s))) with t. intros b Eb.
    destruct Hst as [Hz|Hs]; [|by rewrite Eb in Hs]. rewrite Hz in Eb.
    unfold t, SanitizeLogLine in Eb. destruct (omap logRune (runes s)) as [|r rs]; [done|].
    apply Forall_cons in Hv as [Hr _]. rewrite encodeRunes_cons in Eb.
    destruct (encodeRune_shape r Hr) as (h & t' & Er & Hh & _). rewrite Er in Eb. simpl in Eb.
    by simplify_eq. }
  change (encodeRunes (omap logRune (runes s))) with t in Et. rewrite Hk in Hp, Hv.
  apply Forall_app in Hp as [Hp _], Hv as [Hv _]. split_and!.
  - rewrite length_take. lia.
  - rewrite Et, runes_encodeRunes_nil; done.
  - rewrite Et, runes_encodeRunes_nil, E, Hk by done. by exists k.
Qed.

Lemma dropInvalidTail_total fuel s :
  (length s <= fuel)%nat ->
  exists out, dropInvalidTail fuel s = Some out /\ out `prefix_of` s /\ ValidString out = true.
Proof.
  revert s. induction fuel as [|fuel IH]; intros s Hl; cbn [dropInvalidTail].
  - destruct s; [|simpl in Hl; lia]. exists []. auto.
  - destruct (ValidString s) eqn:Ev; simpl; [exists s; auto|].
    destruct (length s =? 0)%nat eqn:E0.
    { apply Nat.eqb_eq, nil_length_inv in E0 as ->. done. }
    apply Nat.eqb_neq in E0.
    destruct (IH (take (length s - 1) s)) as (out & -> & Hp & Hv); [rewrite length_take; lia|].
    exists out. split_and!; auto. etransitivity; [apply Hp|]. apply prefix_take.
Qed.

(** A close reason always fits the WebSocket limit: the loop terminates with
    a valid UTF-8 prefix of the reason of at most 123 bytes, and a short valid
    reason is sent as it is. *)
Theorem truncateCloseReason_valid (reason : list byte) :
  exists out, truncateCloseReason reason = Some out /\
    (length out <= maxCloseReason)%nat /\ ValidString out = true /\ out `prefix_of` reason /\
    ((length reason <= maxCloseReason)%nat -> ValidString reason = true -> out = reason).
Proof.
  unfold truncateCloseReason.
  destruct ((length reason <=? maxCloseReason)%nat && ValidString reason) eqn:E.
  { apply andb_true_iff in E as [E1 E2]. apply Nat.leb_le in E1. exists reason. auto. }
  set (cut := if (maxCloseReason <? length reason)%nat then take maxCloseReason reason else reason).
  assert (Hc : (length cut <= maxCloseReason)%nat /\ cut `prefix_of` reason).
  { unfold cut. destruct (maxCloseReason <? length reason)%nat eqn:El.
    - split; [rewrite length_take; lia|apply prefix_take].
    - apply Nat.ltb_ge in El. auto. }
  destruct Hc as [Hl Hp].
  destruct (dropInvalidTail_total (length cut) cut (le_n _)) as (out & -> & Ho & Hv).
  exists out. split_and!; auto.
  - apply prefix_length in Ho. lia.
  - by transitivity cut.
  - intros H1 H2. apply Nat.leb_le in H1. by rewrite H1, H2 in E.
Qed.

(** ** Line counting *)

Definition newlineFree (l : list byte) : Prop := Forall (fun b => bz b ≠ 10) l.
Definition nl : byte := x0a.

Lemma countNewlines_app a b : countNewlines (a ++ b) = (countNewlines a + countNewlines b)%nat.
Proof. unfold countNewlines. by rewrite List.filter_app, length_app. Qed.

Lemma countNewlines_free l : newlineFree l -> countNewlines l = O.
Proof.
  unfold countNewlines. induction 1 as [|b l Hb _ IH]; simpl; [done|].
  by replace (bz b =? 10) with false by lia.
Qed.

Lemma countNewlines_lines ls :
  Forall newlineFree ls -> countNewlines (ls ≫= (fun l => l ++ [nl])) = length ls.
Proof.
  induction 1 as [|l ls Hl _ IH]; [done|]. cbn [mbind list_bind].
  change (foldr _ _ _) with (ls ≫= (fun l => l ++ [nl])).
  rewrite !countNewlines_app, countNewlines_free by done. simpl length.
  change (countNewlines [nl]) with 1%nat. by rewrite <- IH.
Qed.

(** The published line count is the number of lines: a text of newline
    terminated lines counts each of them, and a last unterminated line counts
    once more exactly when it is not empty. *)
Theorem countLines_lines (ls : list (list byte)) (rest : list byte) :
  Forall newlineFree ls -> newlineFree rest ->
  countLines ((ls ≫= (fun l => l ++ [nl])) ++ rest) =
  (length ls + (if decide (rest = []) then 0 else 1))%nat.
Proof.
  intros Hl Hr. unfold countLines.
  assert (Hn : countNewlines ((ls ≫= (fun l => l ++ [nl])) ++ rest) = length ls).
  { rewrite countNewlines_app, countNewlines_lines, countNewlines_free by done. lia. }
  rewrite Hn. case_decide as Hd.
  - subst rest. rewrite app_nil_r in *. destruct ls as [|l ls _] using rev_ind; [done|].
    rewrite bind_app. cbn [mbind list_bind]. rewrite app_nil_r, app_assoc, last_snoc.
    change (bz nl =? 10) with true. cbv iota. lia.
  - destruct rest as [|b rest _] using rev_ind; [done|]. rewrite app_assoc, last_snoc.
    apply Forall_app in Hr as [_ Hb]. apply Forall_cons in Hb as [Hb _].
    replace (bz b =? 10) with false by lia. lia.
Qed.

Lemma countLines_lines_witness : countLines [x61; x0a; x62] = 2%nat.
Proof.
  apply (countLines_lines [[x61]] [x62]); repeat constructor; discriminate.
Defined.

(** ** Error messages *)

Lemma trimLeft_suffix s : trimLeft s `suffix_of` s.
Proof.
  remember (length s) as n eqn:En. revert s En. induction n as [n IH] using lt_wf_ind.
  intros [|b0 s1] ->; [done|]. simpl.
  destruct (space1 b0); [apply suffix_cons_r, (IH (length s1)); simpl; auto; lia|].
  destruct s1 as [|b1 s2]; [done|].
  destruct (space2 b0 b1); [do 2 apply suffix_cons_r; apply (IH (length s2)); simpl; auto; lia|].
  destruct s2 as [|b2 s3]; [done|].
  destruct (space3 b0 b1 b2); [do 3 apply suffix_cons_r; apply (IH (length s3)); simpl; auto; lia|done].
Qed.

Lemma trimRightRev_suffix s : trimRightRev s `suffix_of` s.
Proof.
  remember (length s) as n eqn:En. revert s En. induction n as [n IH] using lt_wf_ind.
  intros [|b0 s1] ->; [done|]. simpl.
  destruct (space1 b0); [apply suffix_cons_r, (IH (length s1)); simpl; auto; lia|].
  destruct s1 as [|b1 s2]; [done|].
  destruct (space2 b1 b0); [do 2 apply suffix_cons_r; apply (IH (length s2)); simpl; auto; lia|].
  destruct s2 as [|b2 s3]; [done|].
  destruct (space3 b2 b1 b0); [do 3 apply suffix_cons_r; apply (IH (length s3)); simpl; auto; lia|done].
Qed.

Lemma TrimSpace_shrinks s :
  (length (TrimSpace s) <= length s)%nat /\ (forall P, Forall P s -> Forall P (TrimSpace s)).
Proof.
  unfold TrimSpace. destruct (trimRightRev_suffix (reverse (trimLeft s))) as [u Hu].
  destruct (trimLeft_suffix s) as [v Hv]. split.
  - rewrite length_reverse. apply (f_equal length) in Hu, Hv.
    rewrite length_reverse, length_app in Hu. rewrite length_app in Hv. lia.
  - intros P HP. rewrite Hv in HP. apply Forall_app in HP as [_ HP].
    apply Forall_reverse in HP. rewrite Hu in HP. apply Forall_app in HP as [_ HP].
    by apply Forall_reverse.
Qed.

Lemma messageRune_ok r r' : messageRune r = Some r' -> validRune r = true ->
  r' = r /\ validRune r' = true /\ (r' = 9 \/ 32 <= r') /\ r' ≠ 127 /\ ~ 128 <= r' <= 159.
Proof.
  unfold messageRune, validRune. intros H Hv.
  repeat match type of H with context [if ?c then _ else _] => destruct c eqn:? end;
    simplify_eq; split_and!; lia.
Qed.

(** Each input byte yields at most three output bytes. *)
Lemma message_length s : (length (encodeRunes (omap messageRune (runes s))) <= 3 * length s)%nat.
Proof.
  apply (runes_ind (fun s rs => (length (encodeRunes (omap messageRune rs)) <= 3 * length s)%nat)); [done|].
  intros c rest r Hc Hv Hr IH. rewrite length_app.
  change (omap messageRune (r :: runes rest)) with
    (match messageRune r with Some y => y :: omap messageRune (runes rest) | None => omap messageRune (runes rest) end).
  assert (1 <= length c)%nat by (destruct c; [done|simpl; lia]).
  destruct (messageRune r) as [r'|] eqn:Ef; [|lia]. rewrite encodeRunes_cons, length_app.
  destruct (messageRune_ok _ _ Ef Hv) as (-> & _).
  destruct Hr as [-> | ->]; [lia|]. change (length (encodeRune RuneError)) with 3%nat. lia.
Qed.

(** An error message kept from Herdr is bounded (three times the 512-byte
    cut, since an invalid byte becomes a three-byte replacement character) and
    carries no control byte other than TAB, so it cannot inject an escape. *)
Theorem sanitizeMessage_bounded (s : list byte) :
  (length (sanitizeMessage s) <= 3 * maxErrorMessage)%nat /\
  Forall (fun b => bz b = 9 \/ (32 <= bz b /\ bz b ≠ 127)) (sanitizeMessage s).
Proof.
  unfold sanitizeMessage. set (c := if (_ <? _)%nat then _ else s).
  assert (Hc : (length c <= maxErrorMessage)%nat).
  { unfold c. destruct (_ <? _)%nat eqn:E; [rewrite length_take; lia|by apply Nat.ltb_ge]. }
  destruct (TrimSpace_shrinks (encodeRunes (omap messageRune (runes c)))) as [Hl HP].
  split; [pose proof (message_length c); lia|]. apply HP.
  destruct (omap_valid messageRune (fun r => r = 9 \/ (32 <= r /\ r ≠ 127)) c) as [Hv Hq].
  { intros r r' E Hv. destruct (messageRune_ok r r' E Hv) as (_ & ? & ? & ? & _). split; [done|lia]. }
  clear -Hv Hq. revert Hq. induction Hv as [|r rs Hr _ IH]; intros Hq; [constructor|].
  apply Forall_cons in Hq as [H1 Hq]. rewrite encodeRunes_cons. apply Forall_app. split; [|auto].
  destruct (encodeRune_shape r Hr) as (h & t & E & _ & _ & _ & Hb). rewrite E.
  destruct H1 as [-> | [H1 H2]]; [|eapply Forall_impl; [by apply Hb|auto]].
  vm_compute in E. injection E as <- <-. repeat constructor.
Qed.
