(* ===== verification/Session.v ===== *)
(** * Session: internal/auth/session.go and csrf.go

    The in-memory session store. Every method runs under the store's mutex; the
    clock reading is an argument and the entropy source is the list of bytes it
    will still deliver. *)

From S2P Require Import Prelude GoStr.

(** ** Time *)

Definition isZero (t : Z) : bool := t =? 0.

(** ** Data *)

Definition sessionIDBytes : nat := 32.
Definition csrfTokenBytes : nat := 32.
Definition auditIDBytes : nat := 16.

Record Identity := mkIdentity { Email : string; CommonName : string; Quick : bool }.

#[global] Instance Identity_eq_dec : EqDecision Identity.
Proof. solve_decision. Defined.

Definition nonempty (s : string) : bool := negb (bool_decide (s = "")).

Definition Display (id : Identity) : string :=
  if Quick id then "Quick Tunnel operator"
  else if nonempty (Email id) then Email id
  else if nonempty (CommonName id) then CommonName id
  else "unknown".

Definition IdentitySubject (id : Identity) : string :=
  if Quick id then ""
  else if nonempty (Email id) then Email id
  else CommonName id.

Record Session := mkSession {
  ID : string; AuditID : string; CSRFToken : string; s_Identity : Identity;
  CreatedAt : Z; ExpiresAt : Z; LastSeen : Z
}.

Record SessionStore := mkStore {
  sessions : gmap string Session;
  ttl : Z;
  idle : Z;
  entropy : list byte
}.

Definition NewSessionStore (ttl idle : Z) (rnd : list byte) : SessionStore :=
  mkStore ∅ ttl idle rnd.

Definition withSessions (m : gmap string Session) (s : SessionStore) : SessionStore :=
  mkStore m (ttl s) (idle s) (entropy s).

(** ** Operations *)

Definition randomToken (rnd : list byte) (n : nat) : option string * list byte :=
  let '(buf, rest) := readFull rnd n in
  ((fun buf => String.string_of_list_byte (b64encode buf)) <$> buf, rest).

Definition Create (s : SessionStore) (now : Z) (id : Identity) (hardExpiry : Z)
  : SessionStore * option Session :=
  let '(sid, r1) := randomToken (entropy s) sessionIDBytes in
  match sid with
  | None => (mkStore (sessions s) (ttl s) (idle s) r1, None)
  | Some sid =>
      let '(csrf, r2) := randomToken r1 csrfTokenBytes in
      match csrf with
      | None => (mkStore (sessions s) (ttl s) (idle s) r2, None)
      | Some csrf =>
          let '(auditID, r3) := randomToken r2 auditIDBytes in
          match auditID with
          | None => (mkStore (sessions s) (ttl s) (idle s) r3, None)
          | Some auditID =>
              let expires := now + ttl s in
              let expires := if negb (isZero hardExpiry) && (hardExpiry <? expires)
                             then hardExpiry else expires in
              let sess := mkSession sid auditID csrf id now expires now in
              (mkStore (<[sid := sess]> (sessions s)) (ttl s) (idle s) r3, Some sess)
          end
      end
  end.

Definition expiredLocked (s : SessionStore) (sess : Session) (now : Z) : bool :=
  if negb (now <? ExpiresAt sess) then true
  else if (0 <? idle s) && (idle s <? timeSub now (LastSeen sess)) then true
  else false.

Definition touch (now : Z) (sess : Session) : Session :=
  mkSession (ID sess) (AuditID sess) (CSRFToken sess) (s_Identity sess)
    (CreatedAt sess) (ExpiresAt sess) now.

Definition Get (s : SessionStore) (now : Z) (id : string) : SessionStore * option Session :=
  if bool_decide (id = "") then (s, None)
  else match sessions s !! id with
       | None => (s, None)
       | Some sess =>
           if expiredLocked s sess now then (withSessions (delete id (sessions s)) s, None)
           else (withSessions (<[id := touch now sess]> (sessions s)) s, Some (touch now sess))
       end.

(** One iteration of the range over the map; [String.ltb b a] is Go's [a > b]. *)
Definition better (key : string) (best : option Session) (sess : Session) : option Session :=
  if bool_decide (IdentitySubject (s_Identity sess) ≠ key) then best
  else match best with
       | None => Some sess
       | Some b =>
           if (CreatedAt b <? CreatedAt sess) ||
              ((CreatedAt sess =? CreatedAt b) && String.ltb (ID b) (ID sess))
           then Some sess else best
       end.

(** Expired entries are deleted while iterating and never become [best]. *)
Definition GetByIdentity (s : SessionStore) (now : Z) (id : Identity)
  : SessionStore * option Session :=
  let key := IdentitySubject id in
  if bool_decide (key = "") then (s, None)
  else
    let live := filter (fun kv => expiredLocked s kv.2 now = false) (sessions s) in
    let best := fold_left (better key) (map_to_list live).*2 None in
    match best with
    | None => (withSessions live s, None)
    | Some b => (withSessions (<[ID b := touch now b]> live) s, Some (touch now b))
    end.

Definition Delete (s : SessionStore) (id : string) : SessionStore :=
  withSessions (delete id (sessions s)) s.

Definition GC (s : SessionStore) (now : Z) : SessionStore * nat :=
  let live := filter (fun kv => expiredLocked s kv.2 now = false) (sessions s) in
  (withSessions live s, (size (sessions s) - size live)%nat).

Definition Len (s : SessionStore) : nat := size (sessions s).

(** csrf.go; [subtle.ConstantTimeCompare] is equality of the byte strings. *)
Definition ValidCSRF (expected provided : string) : bool :=
  if bool_decide (expected = "") || bool_decide (provided = "") then false
  else bool_decide (expected = provided).

Definition ValidateRequestCSRF (s : SessionStore) (now : Z) (sessionID header : string)
  : SessionStore * bool :=
  match Get s now sessionID with
  | (s', None) => (s', false)
  | (s', Some sess) => (s', ValidCSRF (CSRFToken sess) header)
  end.

(** ** Histories *)

(** One call on the store with the clock reading it took. *)
Inductive storeOp :=
| OpCreate (now : Z) (id : Identity) (hardExpiry : Z)
| OpGet (now : Z) (id : string)
| OpGetByIdentity (now : Z) (id : Identity)
| OpDelete (id : string)
| OpGC (now : Z).

Definition storeStep (s : SessionStore) (o : storeOp) : SessionStore :=
  match o with
  | OpCreate now id hard => (Create s now id hard).1
  | OpGet now id => (Get s now id).1
  | OpGetByIdentity now id => (GetByIdentity s now id).1
  | OpDelete id => Delete s id
  | OpGC now => (GC s now).1
  end.

Definition storeRun (s : SessionStore) (os : list storeOp) : SessionStore := fold_left storeStep os s.

(** ** Invariant *)

Definition sessionOk (s : SessionStore) (k : string) (sess : Session) : Prop :=
  k = ID sess /\ String.length k = 43%nat /\ String.length (AuditID sess) = 22%nat /\
  CSRFToken sess ≠ "" /\ ExpiresAt sess <= CreatedAt sess + ttl s.

Definition storeInv (s : SessionStore) : Prop := map_Forall (sessionOk s) (sessions s).

Lemma string_of_bytes_length l : String.length (String.string_of_list_byte l) = length l.
Proof. unfold String.string_of_list_byte. induction l as [|b l IH]; simpl; congruence. Qed.

Lemma b64encode_length s : length (b64encode s) = ((4 * length s + 2) / 3)%nat.
Proof.
  induction s as [|a|a b|a b c r IH] using triple_ind; [done..|].
  cbn [b64encode length]. rewrite IH.
  replace (4 * S (S (S (length r))) + 2)%nat with (4 * length r + 2 + 4 * 3)%nat by lia.
  rewrite Nat.div_add by lia. lia.
Qed.

Lemma randomToken_length rnd n t rnd' :
  randomToken rnd n = (Some t, rnd') -> String.length t = ((4 * n + 2) / 3)%nat.
Proof.
  unfold randomToken. destruct (readFull_cases rnd n) as [[E ->]|[E ->]]; [done|]. intros [= <- <-].
  rewrite string_of_bytes_length, b64encode_length, length_take.
  by rewrite Nat.min_l.
Qed.

Lemma storeInv_insert s k sess :
  storeInv s -> sessionOk s k sess -> storeInv (withSessions (<[k := sess]> (sessions s)) s).
Proof. intros H1 H2. unfold storeInv. simpl. by apply map_Forall_insert_2. Qed.

Lemma sessionOk_touch s k sess now : sessionOk s k sess -> sessionOk s k (touch now sess).
Proof. done. Qed.

Lemma storeInv_create s now id hard : storeInv s -> storeInv (Create s now id hard).1.
Proof.
  intros Hi. unfold Create.
  destruct (randomToken (entropy s) sessionIDBytes) as [[sid|] r1] eqn:E1; [|done].
  destruct (randomToken r1 csrfTokenBytes) as [[csrf|] r2] eqn:E2; [|done].
  destruct (randomToken r2 auditIDBytes) as [[aid|] r3] eqn:E3; [|done].
  apply randomToken_length in E1, E2, E3. unfold storeInv. simpl.
  apply map_Forall_insert_2; [|exact Hi]. unfold sessionOk; simpl. split_and!; auto.
  - intros ->. done.
  - destruct (_ && _) eqn:Eh; bool_hyps; lia.
Qed.

Lemma Create_none s now id hard :
  (Create s now id hard).2 = None -> sessions (Create s now id hard).1 = sessions s.
Proof. unfold Create. by repeat (destruct (randomToken _ _) as [[?|] ?]; [|done]). Qed.

Lemma Create_some s now id hard s' sess :
  Create s now id hard = (s', Some sess) ->
  sessions s' = <[ID sess := sess]> (sessions s) /\ s_Identity sess = id /\ ttl s' = ttl s /\
  CreatedAt sess = now /\
  ExpiresAt sess = (if isZero hard then now + ttl s else Z.min (now + ttl s) hard).
Proof.
  unfold Create. repeat (destruct (randomToken _ _) as [[?|] ?]; [|done]). intros [= <- <-].
  split_and!; try done. simpl. destruct (isZero hard); simpl; [done|].
  destruct (Z.ltb_spec hard (now + ttl s)); lia.
Qed.

Lemma storeInv_filter s now : storeInv s ->
  storeInv (withSessions (filter (fun kv => expiredLocked s kv.2 now = false) (sessions s)) s).
Proof. intros Hi k v H. simpl in H. apply map_lookup_filter_Some in H as [H _]. by apply Hi. Qed.

Lemma better_in key l best b :
  fold_left (better key) l best = Some b -> best = Some b \/ b ∈ l.
Proof.
  revert best. induction l as [|x l IH]; simpl; intros best H; [auto|].
  destruct (IH _ H) as [E|E]; [|set_solver].
  unfold better in E. case_bool_decide; [auto|].
  destruct best as [b'|]; [|simplify_eq; set_solver].
  destruct (_ || _); simplify_eq; set_solver.
Qed.

Lemma snd_elem (m : gmap string Session) b :
  b ∈ (map_to_list m).*2 -> exists k, m !! k = Some b.
Proof.
  intros H. apply list_elem_of_fmap in H as ([k v] & -> & H).
  exists k. by apply elem_of_map_to_list.
Qed.

Lemma storeInv_byIdentity s now id : storeInv s -> storeInv (GetByIdentity s now id).1.
Proof.
  intros Hi. unfold GetByIdentity. case_bool_decide; [done|].
  destruct (fold_left _ _ None) as [b|] eqn:E; [|by apply storeInv_filter].
  apply better_in in E as [E|E]; [done|]. apply snd_elem in E as [k E].
  pose proof (storeInv_filter s now Hi k b E) as Hb. simpl.
  unfold storeInv. simpl. apply map_Forall_insert_2; [|exact (storeInv_filter s now Hi)].
  destruct Hb as (-> & ? & ? & ? & ?). by unfold sessionOk; split_and!.
Qed.

Lemma storeInv_new ttl idle rnd : storeInv (NewSessionStore ttl idle rnd).
Proof. intros k v H. simpl in H. by rewrite lookup_empty in H. Qed.

#[export] Hint Resolve storeInv_new storeInv_create storeInv_filter storeInv_byIdentity : herdr.

Lemma storeInv_step s o : storeInv s -> storeInv (storeStep s o) /\ ttl (storeStep s o) = ttl s /\ idle (storeStep s o) = idle s.
Proof.
  intros Hi. destruct o as [now id hard|now id|now id|id|now]; simpl.
  - split; [auto with herdr|]. unfold Create.
    repeat (destruct (randomToken _ _) as [[?|] ?]; [|done]). done.
  - unfold Get. case_bool_decide; [done|]. destruct (sessions s !! id) as [sess|] eqn:E; [|done].
    destruct (expiredLocked s sess now); simpl; split; auto.
    + by apply map_Forall_delete.
    + apply storeInv_insert; [done|]. apply sessionOk_touch, Hi, E.
  - split; [auto with herdr|]. unfold GetByIdentity. case_bool_decide; [done|].
    by destruct (fold_left _ _ None).
  - split; [by apply map_Forall_delete|done].
  - split; [by apply storeInv_filter|done].
Qed.

Lemma storeInv_run s os : storeInv s ->
  storeInv (storeRun s os) /\ ttl (storeRun s os) = ttl s /\ idle (storeRun s os) = idle s.
Proof.
  unfold storeRun. revert s. induction os as [|o os IH]; intros s Hi; simpl; [done|].
  destruct (storeInv_step s o Hi) as (H1 & H2 & H3). destruct (IH _ H1) as (? & -> & ->). auto.
Qed.

(** ** Properties *)

Lemma not_expired s sess now :
  expiredLocked s sess now = false ->
  now < ExpiresAt sess /\ (0 < idle s -> timeSub now (LastSeen sess) <= idle s).
Proof.
  unfold expiredLocked. intros H. destruct (negb (now <? ExpiresAt sess)) eqn:E1; [done|].
  destruct (_ && _) eqn:E2; [done|]. bool_hyps. split; [lia|]. intros. lia.
Qed.

(** C21: A session is never honoured past its lifetime. In every history from an
    empty store, a successful [Get] happens before the session's expiry, which
    is at most the TTL after its creation, and within the idle timeout of its
    last use when one is configured; the returned copy is the stored session
    with its last use refreshed. *)
Theorem Get_live (ttl0 idle0 now : Z) (rnd : list byte) (os : list storeOp) (id : string)
  (sess : Session) (s' : SessionStore) :
  let s := storeRun (NewSessionStore ttl0 idle0 rnd) os in
  Get s now id = (s', Some sess) ->
  ID sess = id /\ now < ExpiresAt sess /\ ExpiresAt sess <= CreatedAt sess + ttl0 /\
  LastSeen sess = now /\ sessions s' !! id = Some sess /\
  exists old, sessions s !! id = Some old /\ sess = touch now old /\
    (0 < idle0 -> timeSub now (LastSeen old) <= idle0).
Proof.
  intros s. destruct (storeInv_run _ os (storeInv_new ttl0 idle0 rnd)) as (Hi & Et & Ei).
  fold s in Hi, Et, Ei. simpl in Et, Ei. unfold Get. case_bool_decide; [done|].
  destruct (sessions s !! id) as [old|] eqn:E; [|done].
  destruct (expiredLocked s old now) eqn:Ex; [done|]. intros [= <- <-].
  apply not_expired in Ex as [H1 H2]. destruct (Hi id old E) as (-> & _ & _ & _ & Hl).
  rewrite Et in Hl. rewrite Ei in H2. simpl. split_and!; auto.
  - by rewrite lookup_insert_eq.
  - exists old. auto.
Qed.

(** The creation draw for sample histories: 80 bytes of entropy. *)
Definition sampleEntropy : list byte := replicate 40 x07 ++ replicate 40 x2a.
Definition sampleIdentity : Identity := mkIdentity "op@example.com" "" false.
Definition sampleCreated : SessionStore * option Session :=
  Create (NewSessionStore 1000 100 sampleEntropy) 50 sampleIdentity 0.

Definition sampleSession : Session :=
  default (mkSession "" "" "" sampleIdentity 0 0 0) sampleCreated.2.

Lemma sampleCreated_get :
  Get sampleCreated.1 60 (ID sampleSession) =
  ((Get sampleCreated.1 60 (ID sampleSession)).1, Some (touch 60 sampleSession)).
Proof. rewrite (surjective_pairing (Get _ _ _)). f_equal. Qed.

Lemma Get_live_witness : 60 < ExpiresAt (touch 60 sampleSession).
Proof.
  apply (Get_live 1000 100 60 sampleEntropy [OpCreate 50 sampleIdentity 0]
           (ID sampleSession) _ _ sampleCreated_get).
Defined.

(** The audit label of a session is not a credential: in every history,
    presenting the audit id of any stored session as a cookie fails. *)
Theorem AuditID_not_credential (ttl0 idle0 now : Z) (rnd : list byte) (os : list storeOp)
  (k : string) (sess : Session) :
  let s := storeRun (NewSessionStore ttl0 idle0 rnd) os in
  sessions s !! k = Some sess -> (Get s now (AuditID sess)).2 = None.
Proof.
  intros s Hk. destruct (storeInv_run _ os (storeInv_new ttl0 idle0 rnd)) as (Hi & _ & _).
  fold s in Hi. destruct (Hi k sess Hk) as (_ & _ & Ha & _). unfold Get.
  case_bool_decide; [done|]. destruct (sessions s !! AuditID sess) as [x|] eqn:E; [|done].
  destruct (Hi _ x E) as (_ & Hl & _). lia.
Qed.

Lemma AuditID_not_credential_witness :
  (Get sampleCreated.1 60 (AuditID sampleSession)).2 = None.
Proof.
  apply (AuditID_not_credential 1000 100 60 sampleEntropy [OpCreate 50 sampleIdentity 0]
           (ID sampleSession)).
  vm_compute. reflexivity.
Defined.

(** A session id stays unknown as long as no [Create] issues it again. *)
Definition issues (o : storeOp) (s : SessionStore) (id : string) : Prop :=
  match o with
  | OpCreate now i hard => exists sess, (Create s now i hard).2 = Some sess /\ ID sess = id
  | _ => False
  end.

Fixpoint neverIssues (s : SessionStore) (os : list storeOp) (id : string) : Prop :=
  match os with
  | [] => True
  | o :: os' => ~ issues o s id /\ neverIssues (storeStep s o) os' id
  end.

Lemma step_unknown s o id :
  storeInv s -> sessions s !! id = None -> ~ issues o s id -> sessions (storeStep s o) !! id = None.
Proof.
  intros Hi Hn Ho. destruct o as [now i hard|now j|now i|j|now]; simpl in *.
  - unfold Create in *. repeat (destruct (randomToken _ _) as [[?|] ?]; [|done]). simpl in *.
    rewrite lookup_insert_ne; [done|]. intros ->. apply Ho. eexists. done.
  - unfold Get. case_bool_decide; [done|]. destruct (sessions s !! j) as [x|] eqn:E; [|done].
    assert (id ≠ j) by congruence.
    destruct (expiredLocked s x now); simpl; [by rewrite lookup_delete_ne|by rewrite lookup_insert_ne].
  - unfold GetByIdentity. case_bool_decide; [done|].
    assert (Hf : filter (fun kv => expiredLocked s kv.2 now = false) (sessions s) !! id = None)
      by (apply map_lookup_filter_None; auto).
    destruct (fold_left _ _ None) as [b|] eqn:E; [|done]. simpl.
    apply better_in in E as [E|E]; [done|]. apply snd_elem in E as [k E].
    pose proof (storeInv_filter s now Hi k b E) as [Hb _].
    rewrite lookup_insert_ne; [done|]. intros <-. congruence.
  - destruct (decide (j = id)) as [->|]; [by rewrite lookup_delete_eq|by rewrite lookup_delete_ne].
  - apply map_lookup_filter_None; auto.
Qed.

Lemma run_unknown s os id :
  storeInv s -> sessions s !! id = None -> neverIssues s os id -> sessions (storeRun s os) !! id = None.
Proof.
  unfold storeRun. revert s. induction os as [|o os IH]; intros s Hi Hn Ho; simpl in *; [done|].
  destruct Ho as [Ho Hos]. apply IH; auto; [by apply storeInv_step|by apply step_unknown].
Qed.

(** Revocation is final. After [Delete], and after a [Get] that found the
    session expired, the id is rejected at every later time and whatever else
    happens to the store, unless a later [Create] happens to draw the same
    256-bit identifier. *)
Theorem Delete_final (s : SessionStore) (id : string) (os : list storeOp) (t now : Z) :
  storeInv s ->
  (neverIssues (Delete s id) os id -> (Get (storeRun (Delete s id) os) now id).2 = None) /\
  ((Get s t id).2 = None -> neverIssues (Get s t id).1 os id ->
   (Get (storeRun (Get s t id).1 os) now id).2 = None).
Proof.
  intros Hi. assert (Hget : forall s', sessions s' !! id = None -> (Get s' now id).2 = None).
  { intros s' H. unfold Get. case_bool_decide; [done|]. by rewrite H. }
  split; intros H.
  - apply Hget, run_unknown; auto; [by apply (storeInv_step s (OpDelete id))|].
    simpl. apply lookup_delete_eq.
  - intros Hos. destruct (decide (id = "")) as [->|Hne].
    { unfold Get. by rewrite bool_decide_true. }
    apply Hget, run_unknown; auto; [by apply (storeInv_step s (OpGet t id))|].
    unfold Get in *. rewrite bool_decide_false in * by done.
    destruct (sessions s !! id) as [x|] eqn:E; [|done].
    destruct (expiredLocked s x t); simpl in *; [apply lookup_delete_eq|done].
Qed.

Lemma Delete_final_witness :
  (Get (storeRun (Delete sampleCreated.1 (ID sampleSession)) [OpGC 70]) 80 (ID sampleSession)).2 = None.
Proof.
  apply (Delete_final sampleCreated.1 (ID sampleSession) [OpGC 70] 0 80).
  - unfold sampleCreated. auto with herdr.
  - simpl. tauto.
Defined.

(** ** Reuse by identity *)

Definition newer (a b : Session) : Prop :=
  CreatedAt b < CreatedAt a \/ (CreatedAt a = CreatedAt b /\ String.le (ID b) (ID a)).

Lemma ltb_le a b : String.ltb a b = true -> String.le a b.
Proof. unfold String.le, String.ltb, String.leb. by destruct (String.compare a b). Qed.

Lemma not_ltb_le a b : String.ltb a b = false -> String.le b a.
Proof.
  unfold String.le, String.ltb, String.leb. rewrite (String.compare_antisym b a).
  by destruct (String.compare a b).
Qed.

Lemma newer_trans a b c : newer a b -> newer b c -> newer a c.
Proof.
  unfold newer. intros [H1|[H1 H1']] [H2|[H2 H2']]; [lia..|].
  right. split; [lia|]. by transitivity (ID b).
Qed.

(** The fold keeps a newest element among those with the right subject. *)
Lemma better_spec key l best :
  match fold_left (better key) l best with
  | None => best = None /\ Forall (fun x => IdentitySubject (s_Identity x) ≠ key) l
  | Some b =>
      (best = Some b \/ (b ∈ l /\ IdentitySubject (s_Identity b) = key)) /\
      (forall x, best = Some x \/ (x ∈ l /\ IdentitySubject (s_Identity x) = key) -> newer b x)
  end.
Proof.
  assert (Hrefl : forall x, newer x x) by (intros; right; split; [done|reflexivity]).
  revert best. induction l as [|y l IH]; intros best; simpl.
  { destruct best; [|done]. split; [auto|]. intros x [H|[H _]]; [by simplify_eq|set_solver]. }
  specialize (IH (better key best y)). unfold better in IH |- *. case_bool_decide as B.
  { destruct (fold_left _ l best) as [b|].
    - destruct IH as [H1 H2]. split; [set_solver|]. intros x Hx. apply H2. set_solver.
    - destruct IH as [-> H]. auto. }
  destruct best as [b0|].
  - destruct (_ || _) eqn:Et.
    + assert (newer y b0).
      { bool_hyps. destruct Et as [Et|Et]; bool_hyps; [left; lia|right; split; [lia|by apply ltb_le]]. }
      destruct (fold_left _ l (Some y)) as [b|]; [|by destruct IH].
      destruct IH as [H1 H2]. split; [right; set_solver|].
      intros x [Hx|[Hx Hk]]; simplify_eq; [eauto using newer_trans|].
      apply elem_of_cons in Hx as [->|Hx]; auto.
    + assert (newer b0 y).
      { bool_hyps. destruct (Z.eq_dec (CreatedAt b0) (CreatedAt y)) as [E|E]; [|left; lia].
        right. split; [done|]. apply not_ltb_le. rewrite E, Z.eqb_refl in *. by destruct_or!. }
      destruct (fold_left _ l (Some b0)) as [b|]; [|by destruct IH].
      destruct IH as [H1 H2]. split; [destruct H1; [auto|right; set_solver]|].
      intros x [Hx|[Hx Hk]]; simplify_eq; [auto|].
      apply elem_of_cons in Hx as [->|Hx]; eauto using newer_trans.
  - destruct (fold_left _ l (Some y)) as [b|]; [|by destruct IH].
    destruct IH as [H1 H2]. split.
    + right. destruct H1 as [H1|H1]; [simplify_eq; split; [set_solver|done]|set_solver].
    + intros x [Hx|[Hx Hk]]; [done|]. apply elem_of_cons in Hx as [->|Hx]; auto.
Qed.

(** The live sessions at [now] owned by [key], those [GetByIdentity] may pick. *)
Definition candidate (s : SessionStore) (now : Z) (key k : string) (x : Session) : Prop :=
  sessions s !! k = Some x /\ expiredLocked s x now = false /\ IdentitySubject (s_Identity x) = key.

Lemma candidate_live s now key x :
  (x ∈ (map_to_list (filter (fun kv => expiredLocked s kv.2 now = false) (sessions s))).*2 /\
   IdentitySubject (s_Identity x) = key) <-> exists k, candidate s now key k x.
Proof.
  unfold candidate. split.
  - intros [H E]. apply snd_elem in H as [k H]. apply map_lookup_filter_Some in H as [H1 H2]. eauto.
  - intros (k & H1 & H2 & H3). split; [|done]. apply list_elem_of_fmap. exists (k, x).
    split; [done|]. apply elem_of_map_to_list, map_lookup_filter_Some. done.
Qed.

(** What [GetByIdentity] hands back comes from the store. *)
Lemma GetByIdentity_found s now id s' b :
  storeInv s -> GetByIdentity s now id = (s', Some b) ->
  (exists b0, candidate s now (IdentitySubject id) (ID b) b0 /\ b = touch now b0) /\
  sessions s' !! ID b = Some b /\ ttl s' = ttl s.
Proof.
  intros Hi. unfold GetByIdentity. case_bool_decide; [done|].
  pose proof (better_spec (IdentitySubject id)
    (map_to_list (filter (fun kv => expiredLocked s kv.2 now = false) (sessions s))).*2 None) as Hb.
  destruct (fold_left _ _ None) as [b0|]; [|done]. destruct Hb as [[Hb|Hb] _]; [done|].
  apply candidate_live in Hb as (k & Hc). destruct (Hi k b0 (proj1 Hc)) as (-> & _).
  intros [= <- <-]. split_and!; [eauto|simpl; apply lookup_insert_eq|done].
Qed.

Lemma GetByIdentity_ttl s now id : ttl (GetByIdentity s now id).1 = ttl s.
Proof. unfold GetByIdentity. case_bool_decide; [done|]. by destruct (fold_left _ _ None). Qed.

Lemma GetByIdentity_shrinks s now id :
  sessions (GetByIdentity s now id).1 = sessions s \/
  ((GetByIdentity s now id).2 = None -> sessions (GetByIdentity s now id).1 ⊆ sessions s).
Proof.
  unfold GetByIdentity. case_bool_decide; [auto|]. right.
  destruct (fold_left _ _ None); [done|]. intros _. simpl. apply map_filter_subseteq.
Qed.

(** Reuse by identity is exact. [GetByIdentity] never answers for an
    identity without a subject (a Quick Tunnel session is never shared); for
    any other it returns a live session of exactly that subject, the newest one
    whatever the iteration order of the map, refreshed, and nothing only when
    there is no live session of that subject. Expired sessions are gone
    afterwards. *)
Theorem GetByIdentity_newest (s : SessionStore) (now : Z) (id : Identity) :
  storeInv s ->
  let key := IdentitySubject id in
  let '(s', r) := GetByIdentity s now id in
  (Quick id = true -> r = None) /\
  (key = "" -> s' = s) /\
  match r with
  | None => key = "" \/ forall k x, ~ candidate s now key k x
  | Some b =>
      (exists b0, candidate s now key (ID b) b0 /\ b = touch now b0) /\
      sessions s' !! ID b = Some b /\
      (forall k x, candidate s now key k x -> newer b x)
  end /\
  (key ≠ "" -> forall k x, sessions s' !! k = Some x ->
     exists x0, sessions s !! k = Some x0 /\ expiredLocked s x0 now = false).
Proof.
  intros Hi key. unfold GetByIdentity. fold key. case_bool_decide as Ek.
  { split_and!; auto. done. }
  pose proof (better_spec key
    (map_to_list (filter (fun kv => expiredLocked s kv.2 now = false) (sessions s))).*2 None) as Hb.
  assert (Hq : Quick id = true -> False).
  { intros Q. apply Ek. unfold key, IdentitySubject. by rewrite Q. }
  destruct (fold_left _ _ None) as [b|].
  - destruct Hb as [[Hb|Hb] Hmax]; [done|]. apply candidate_live in Hb as (k & Hc).
    destruct (Hi k b (proj1 Hc)) as (-> & _).
    split_and!; [done|done| |simpl; apply lookup_insert_eq| |].
    + exists b. auto.
    + intros k x Hx. change (newer b x). apply Hmax. right. apply candidate_live. eauto.
    + intros _ k x. simpl. rewrite lookup_insert_Some. intros [[<- _]|[_ H]].
      * destruct Hc as (? & ? & _). eauto.
      * apply map_lookup_filter_Some in H as [? ?]. eauto.
  - destruct Hb as [_ Hb]. split_and!; [done|done| |].
    + right. intros k x Hc. rewrite Forall_forall in Hb.
      assert (exists k, candidate s now key k x) as Hx by eauto.
      apply candidate_live in Hx as [H1 H2]. by apply (Hb x H1).
    + intros _ k x H. simpl in H. apply map_lookup_filter_Some in H as [? ?]. eauto.
Qed.

Lemma GetByIdentity_newest_witness :
  (GetByIdentity sampleCreated.1 60 sampleIdentity).2 = Some (touch 60 sampleSession) /\
  forall k x, candidate sampleCreated.1 60 "op@example.com" k x -> newer (touch 60 sampleSession) x.
Proof.
  pose proof (GetByIdentity_newest sampleCreated.1 60 sampleIdentity
                (storeInv_create _ 50 sampleIdentity 0 (storeInv_new 1000 100 sampleEntropy))) as H.
  assert (E : (GetByIdentity sampleCreated.1 60 sampleIdentity).2 = Some (touch 60 sampleSession))
    by (vm_compute; reflexivity).
  split; [exact E|]. destruct (GetByIdentity _ _ _) as [s' r]. cbn [snd] in E. subst r.
  apply H.
Defined.

(** A new session lives until the earlier of the store's TTL and the
    assertion's expiry when it has one, is stored under its own identifier,
    belongs to the identity it was made for, and leaves every other session
    alone; it fails exactly when the entropy source runs short, and then stores
    nothing. *)
Theorem Create_capped (s : SessionStore) (now hard : Z) (id : Identity) :
  let '(s', r) := Create s now id hard in
  match r with
  | None => (length (entropy s) < 80)%nat /\ sessions s' = sessions s
  | Some sess =>
      (80 <= length (entropy s))%nat /\
      sessions s' = <[ID sess := sess]> (sessions s) /\
      s_Identity sess = id /\ CreatedAt sess = now /\ LastSeen sess = now /\
      ExpiresAt sess = (if isZero hard then now + ttl s else Z.min (now + ttl s) hard) /\
      length (entropy s') = (length (entropy s) - 80)%nat
  end.
Proof.
  unfold Create, randomToken, readFull, sessionIDBytes, csrfTokenBytes, auditIDBytes.
  repeat (case_match; simplify_eq; simpl); rewrite ?length_drop in *;
    rewrite ?Nat.ltb_lt, ?Nat.ltb_ge in *; rewrite ?length_drop in *; split_and!; try done; try lia;
    destruct (isZero hard) eqn:Z0; simpl in *; bool_hyps; try done; lia.
Qed.

(** [GC] removes exactly the expired sessions and reports how many. *)
Theorem GC_exact (s : SessionStore) (now : Z) :
  (forall k x, sessions (GC s now).1 !! k = Some x <->
     sessions s !! k = Some x /\ expiredLocked s x now = false) /\
  (Len (GC s now).1 + (GC s now).2 = Len s)%nat.
Proof.
  split.
  - intros k x. simpl. rewrite map_lookup_filter_Some. done.
  - unfold Len. simpl.
    assert (size (filter (fun kv => expiredLocked s kv.2 now = false) (sessions s)) <= size (sessions s))%nat;
      [|lia].
    apply map_subseteq_size, map_filter_subseteq.
Qed.
