(* ===== verification/Pairing.v ===== *)
(** * Pairing: internal/auth/pairing.go

    The single-use pairing secret. Every method runs under the mutex, so an
    operation is a function on the state; [Verify] also returns its verdict. *)

From S2P Require Import Prelude GoStr.

Definition pairingSecretBytes : nat := 32.

Record Pairing := mkPairing {
  secret : list byte;
  prand : list byte;
  invalidated : bool
}.

(** The new state, and whether the draw succeeded. *)
Definition rotateLocked (p : Pairing) : Pairing * bool :=
  let '(buf, r) := readFull (prand p) pairingSecretBytes in
  match buf with
  | None => (mkPairing (secret p) r (invalidated p), false)
  | Some buf => (mkPairing buf r false, true)
  end.

Definition NewPairing (rnd : list byte) : option Pairing :=
  let '(p, ok) := rotateLocked (mkPairing [] rnd false) in
  if ok then Some p else None.

Definition Rotate (p : Pairing) : Pairing * bool := rotateLocked p.

Definition Token (p : Pairing) : list byte := b64encode (secret p).

(** [subtle.ConstantTimeCompare] is equality of the byte strings. *)
Definition Verify (p : Pairing) (provided : list byte) : Pairing * bool :=
  if invalidated p then (p, false)
  else match b64decode (TrimSpace provided) with
       | None => (p, false)
       | Some decoded =>
           if negb (bool_decide (decoded = secret p)) then (p, false)
           else let '(p', ok) := rotateLocked p in
                if negb ok then (mkPairing (secret p') (prand p') true, false)
                else (p', true)
       end.

(** [strings.TrimRight(s, "/")]. *)
Fixpoint dropSlashes (rev : list byte) : list byte :=
  match rev with
  | b :: r => if bz b =? 47 then dropSlashes r else rev
  | [] => []
  end.

Definition Link (baseURL token : list byte) : list byte :=
  reverse (dropSlashes (reverse (TrimSpace baseURL))) ++ bytesOf "/#pair=" ++ token.

Definition PairingLink (p : Pairing) (baseURL : list byte) : list byte := Link baseURL (Token p).

(** ** Histories *)

Inductive pairOp := PVerify (provided : list byte) | PRotate.

(** One operation, and what was presented to it when it was an accepted [Verify]: the
    bytes the text decodes to. *)
Definition pairStep (p : Pairing) (o : pairOp) : Pairing * option (list byte) :=
  match o with
  | PVerify provided =>
      let '(p', ok) := Verify p provided in
      (p', if ok then Some (default [] (b64decode (TrimSpace provided))) else None)
  | PRotate => ((Rotate p).1, None)
  end.

Fixpoint pairRun (p : Pairing) (os : list pairOp) : Pairing * list (list byte) :=
  match os with
  | [] => (p, [])
  | o :: os' =>
      let '(p', spent) := pairStep p o in
      let '(p'', rest) := pairRun p' os' in
      (p'', option_list spent ++ rest)
  end.

(** The first [n] secrets the entropy source will deliver. *)
Fixpoint draws (n : nat) (rnd : list byte) : list (list byte) :=
  match n with
  | O => []
  | S n' =>
      if (length rnd <? pairingSecretBytes)%nat then []
      else take pairingSecretBytes rnd :: draws n' (drop pairingSecretBytes rnd)
  end.

(** The secrets that can still be spent within [n] more operations. *)
Definition spendable (n : nat) (p : Pairing) : list (list byte) :=
  (if invalidated p then [] else [secret p]) ++ draws n (prand p).

(** ** Lemmas *)

Lemma rotate_cases p :
  ((length (prand p) < 32)%nat /\ rotateLocked p = (mkPairing (secret p) [] (invalidated p), false)) \/
  ((32 <= length (prand p))%nat /\
   rotateLocked p = (mkPairing (take 32 (prand p)) (drop 32 (prand p)) false, true)).
Proof.
  unfold rotateLocked, pairingSecretBytes.
  destruct (readFull_cases (prand p) 32) as [[E ->]|[E ->]]; auto.
Qed.

Lemma draws_nil n : draws n [] = [].
Proof. by destruct n. Qed.

Lemma draws_next n rnd : (32 <= length rnd)%nat ->
  draws (S n) rnd = take 32 rnd :: draws n (drop 32 rnd).
Proof.
  intros H. unfold draws; fold draws. unfold pairingSecretBytes.
  by destruct (Nat.ltb_spec (length rnd) 32); [lia|].
Qed.

Lemma draws_mono n rnd : draws n rnd `sublist_of` draws (S n) rnd.
Proof.
  revert rnd. induction n as [|n IH]; intros rnd; [apply sublist_nil_l|].
  remember (S n) as m. simpl. rewrite Heqm at 1. simpl.
  destruct (_ <? _)%nat; [done|]. apply sublist_skip. subst m. apply IH.
Qed.

(** A token presented as issued, or with surrounding whitespace removed by the
    browser, decodes to the secret. *)
Lemma token_decodes p : b64decode (TrimSpace (Token p)) = Some (secret p).
Proof. unfold Token. rewrite TrimSpace_plain by apply b64_plain. apply b64_roundtrip. Qed.

Lemma Verify_cases p provided :
  (Verify p provided = (p, false)) \/
  (invalidated p = false /\ b64decode (TrimSpace provided) = Some (secret p) /\
   (((length (prand p) < 32)%nat /\ Verify p provided = (mkPairing (secret p) [] true, false)) \/
    ((32 <= length (prand p))%nat /\
     Verify p provided = (mkPairing (take 32 (prand p)) (drop 32 (prand p)) false, true)))).
Proof.
  unfold Verify. destruct (invalidated p) eqn:Ei; [auto|].
  destruct (b64decode _) as [d|]; [|auto]. case_bool_decide as E; [|auto]. subst d. right.
  split_and!; [done|done|]. cbn [negb].
  destruct (rotate_cases p) as [[H ->]|[H ->]]; [left|right]; auto.
Qed.

(** What an operation spends and what stays spendable is, in order, part of
    what was spendable before. *)
Lemma pairStep_spendable n p o :
  let '(p', spent) := pairStep p o in
  option_list spent ++ spendable n p' `sublist_of` spendable (S n) p.
Proof.
  assert (Hkeep : spendable n p `sublist_of` spendable (S n) p).
  { unfold spendable. apply sublist_app; [done|apply draws_mono]. }
  destruct o as [provided|]; simpl.
  - destruct (Verify_cases p provided) as [->|(Ei & Ed & [[Hl ->]|[Hl ->]])]; simpl; [done|..].
    + unfold spendable. simpl. rewrite draws_nil. apply sublist_nil_l.
    + unfold spendable. rewrite draws_next by done. simpl. by rewrite Ei, Ed.
  - unfold Rotate. destruct (rotate_cases p) as [[Hl ->]|[Hl ->]]; simpl.
    + unfold spendable; simpl. rewrite draws_nil, app_nil_r.
      apply sublist_inserts_r. by destruct (invalidated p).
    + unfold spendable. rewrite draws_next by done. simpl. by apply sublist_inserts_l.
Qed.

Lemma pairRun_spendable os p : (pairRun p os).2 `sublist_of` spendable (length os) p.
Proof.
  revert p. induction os as [|o os IH]; intros p; simpl; [apply sublist_nil_l|].
  pose proof (pairStep_spendable (length os) p o) as H. destruct (pairStep p o) as [p' spent].
  specialize (IH p'). destruct (pairRun p' os) as [p'' rest]. simpl in *.
  etrans; [|exact H]. by apply sublist_app.
Qed.

(** ** Properties *)

(** C13: A pairing secret is spent at most once. Over any interleaving of
    exchanges and rotations, as long as the secrets drawn differ from each
    other, no two accepted exchanges presented the same secret; each presented the
    secret that was current at that moment, which is the first one or one drawn later. *)
Theorem pairing_single_use (p : Pairing) (os : list pairOp) :
  NoDup (spendable (length os) p) ->
  NoDup (pairRun p os).2 /\ (pairRun p os).2 ⊆ spendable (length os) p /\
  forall before provided after, os = before ++ PVerify provided :: after ->
    (Verify (pairRun p before).1 provided).2 = true ->
    b64decode (TrimSpace provided) = Some (secret (pairRun p before).1).
Proof.
  intros Hn. pose proof (pairRun_spendable os p) as Hs. split_and!.
  - eapply sublist_NoDup; eauto.
  - intros x Hx. eapply sublist_subseteq; eauto.
  - intros before provided after _ Hok.
    destruct (Verify_cases (pairRun p before).1 provided) as [E|(_ & E & _)]; [by rewrite E in Hok|done].
Qed.

Definition samplePairing : Pairing := mkPairing (replicate 32 x01) (replicate 32 x02) false.

Lemma pairing_single_use_witness :
  NoDup (pairRun samplePairing [PVerify (Token samplePairing); PVerify (Token samplePairing)]).2.
Proof.
  apply (pairing_single_use samplePairing [PVerify (Token samplePairing); PVerify (Token samplePairing)]).
  apply (bool_decide_unpack _). vm_compute. exact I.
Defined.

(** The exchange. The issued token is accepted exactly when the pairing is
    usable and fresh entropy can replace the secret; then the new secret is the
    one drawn. When entropy is short the exchange fails and the pairing stays
    closed to every token until a successful [Rotate]. *)
Theorem Verify_token (p : Pairing) (provided : list byte) :
  let '(p', ok) := Verify p (Token p) in
  (ok = true <-> invalidated p = false /\ (32 <= length (prand p))%nat) /\
  (ok = true -> secret p' = take 32 (prand p) /\ invalidated p' = false) /\
  (ok = false -> invalidated p' = true /\ Verify p' provided = (p', false)) /\
  ((Rotate p').2 = true -> invalidated (Rotate p').1 = false).
Proof.
  unfold Rotate.
  assert (Hr : forall q, (rotateLocked q).2 = true -> invalidated (rotateLocked q).1 = false).
  { intros q. by destruct (rotate_cases q) as [[_ ->]|[_ ->]]. }
  pose proof (token_decodes p) as Ht. unfold Verify at 1. rewrite Ht.
  destruct (invalidated p) eqn:Ei.
  - split_and!; [naive_solver|done| |apply Hr]. intros _. split; [done|].
    unfold Verify. by rewrite Ei.
  - rewrite bool_decide_true by done. cbn [negb].
    destruct (rotate_cases p) as [[Hl ->]|[Hl ->]]; cbn [negb]; split_and!; try apply Hr; try done.
    split; [done|]. intros [_ ?]. lia.
Qed.

(** A rejected exchange reveals and changes nothing: a string that does not
    decode to the current secret leaves the pairing as it was, so the issued
    token still works afterwards. *)
Theorem Verify_mismatch (p : Pairing) (provided : list byte) :
  b64decode (TrimSpace provided) ≠ Some (secret p) -> Verify p provided = (p, false).
Proof. intros H. destruct (Verify_cases p provided) as [->|(_ & E & _)]; [done|by destruct H]. Qed.

Lemma Verify_mismatch_witness : Verify samplePairing (bytesOf "AQ") = (samplePairing, false).
Proof. apply (Verify_mismatch samplePairing (bytesOf "AQ")). vm_compute. discriminate. Defined.
