(* ===== verification/Access.v ===== *)
(** * Access: internal/auth/jwt.go and jwks.go

    Verification of the Cloudflare Access assertion at the origin, and the
    cache of signing keys behind it. The RSA and SHA-256 primitives and the JSON
    decoder are parameters: nothing below depends on what they do. *)

From S2P Require Import Prelude GoStr Session Pairing.

(** ** Shared helpers *)

(** [time.Second] in nanoseconds, and the seconds from the zero [time.Time] to
    the Unix epoch; [time.Unix] adds the latter in 64-bit arithmetic. *)
Definition Second : Z := 10 ^ 9.
Definition unixToInternal : Z := 62135596800.
Definition Unix (t : Z) : Z := t / Second - unixToInternal.
Definition timeOfUnix (sec : Z) : Z := int64 (sec + unixToInternal) * Second.

(** [strings.TrimRight(s, "=")] and [big.Int.SetBytes]. *)
Fixpoint dropEquals (rev : list byte) : list byte :=
  match rev with
  | b :: r => if bz b =? 61 then dropEquals r else rev
  | [] => []
  end.
Definition trimEquals (s : list byte) : list byte := reverse (dropEquals (reverse s)).
Definition bigOfBytes (s : list byte) : Z := fold_left (fun acc b => acc * 256 + bz b) s 0.

(** ** Keys *)

Record RSAKey := mkKey { keyN : Z; keyE : Z }.

Definition minRSAModulusBits : Z := 2048.
Definition BitLen (n : Z) : Z := if n =? 0 then 0 else Z.log2 n + 1.

Definition rsaPublicKeyFromJWK (nB64 eB64 : list byte) : option RSAKey :=
  match b64decode (trimEquals nB64) with
  | None => None
  | Some nBytes =>
      match b64decode (trimEquals eB64) with
      | None => None
      | Some eBytes =>
          if (length nBytes =? 0)%nat || (length eBytes =? 0)%nat then None
          else
            let n := bigOfBytes nBytes in
            let e := bigOfBytes eBytes in
            if negb (e <? 2 ^ 63) || (e <? 2) then None
            else if BitLen n <? minRSAModulusBits then None
            else Some (mkKey n e)
      end
  end.

(** ** The key-source interface

    [PublicKey] returns a key or nil, or an error ([None]); a source may update
    its own state. *)
Class KeySource (S : Type) := PublicKey : S -> string -> S * option (option RSAKey).

(** ** The JWKS cache *)

Record jwk := mkJwk {
  Kty : list byte; Kid : string; jN : list byte; jE : list byte; Alg : list byte; Use : list byte
}.

Record JWKSCache := mkJWKS {
  keys : gmap string RSAKey;
  jttl : Z;
  minRefreshInterval : Z;
  fetchedAt : Z;
  lastAttempt : Z;
  loaded : bool
}.

Definition DefaultJWKSTTL : Z := 3600 * Second.
Definition defaultMinRefreshInterval : Z := 15 * Second.

Definition NewJWKSCache (ttl minRefresh : Z) : JWKSCache := mkJWKS ∅ ttl minRefresh 0 0 false.

(** A key of the document is used only when every filter of the loop passes. *)
Definition usable (k : jwk) : option (string * RSAKey) :=
  if negb (EqualFold (Kty k) (bytesOf "RSA")) then None
  else if negb (bool_decide (Alg k = [])) && negb (EqualFold (Alg k) (bytesOf "RS256")) then None
  else if negb (bool_decide (Use k = [])) && negb (EqualFold (Use k) (bytesOf "sig")) then None
  else if bool_decide (Kid k = "") then None
  else pub ← rsaPublicKeyFromJWK (jN k) (jE k); Some (Kid k, pub).

Definition collectKeys (ks : list jwk) : gmap string RSAKey :=
  fold_left (fun next k => match usable k with Some (kid, pub) => <[kid := pub]> next | None => next end)
    ks ∅.

(** What one fetch of the certificates endpoint produced: the parsed document,
    or nothing on any transport, status, read or parse error; with the clock
    readings at its start and at its end. *)
Record fetch := mkFetch { startedAt : Z; document : option (list jwk); finishedAt : Z }.

(** The state after [refresh], and whether it succeeded. *)
Definition refresh (j : JWKSCache) (f : fetch) : JWKSCache * bool :=
  let j1 := mkJWKS (keys j) (jttl j) (minRefreshInterval j) (fetchedAt j) (startedAt f) (loaded j) in
  match document f with
  | None => (j1, false)
  | Some ks =>
      let next := collectKeys ks in
      if (size next =? 0)%nat then (j1, false)
      else (mkJWKS next (jttl j) (minRefreshInterval j) (finishedAt f) (startedAt f) true, true)
  end.

Inductive keyError := EUnknownKID | EJWKSUnavailable.

(** The second half of [PublicKey], after the (coalesced) refresh. *)
Definition afterRefresh (j : JWKSCache) (kid : string) (ok : bool) (later : Z) : RSAKey + keyError :=
  let age := timeSub later (fetchedAt j) in
  match keys j !! kid with
  | Some key =>
      if ok then inl key
      else if loaded j && (age <=? int64 (2 * jttl j)) then inl key
      else inr EJWKSUnavailable
  | None => inr (if ok then EUnknownKID else EJWKSUnavailable)
  end.

Definition isPresent {A} (o : option A) : bool := match o with Some _ => true | None => false end.

(** [now] and [later] are the two clock readings of the call, [f] the fetch it
    makes if it makes one. The last component tells whether it did. *)
Definition cachePublicKey (j : JWKSCache) (kid : string) (now : Z) (f : fetch) (later : Z)
  : JWKSCache * (RSAKey + keyError) * bool :=
  let present := isPresent (keys j !! kid) in
  let fresh := loaded j && (timeSub now (fetchedAt j) <? jttl j) in
  let sinceAttempt := timeSub now (lastAttempt j) in
  if present && fresh then (j, from_option inl (inr EUnknownKID) (keys j !! kid), false)
  else if fresh && negb present && (sinceAttempt <? minRefreshInterval j)
  then (j, inr EUnknownKID, false)
  else
    let '(j', ok) := refresh j f in
    (j', afterRefresh j' kid ok later, true).

(** The cache as a key source: its state carries the clock readings and fetches
    the coming calls will see; with none left a call fails. *)
Definition jwksState : Type := JWKSCache * list (Z * fetch * Z).

#[global] Instance jwks_KeySource : KeySource jwksState := fun st kid =>
  let '(j, env) := st in
  match env with
  | [] => (st, None)
  | (now, f, later) :: env' =>
      let '(j', r, _) := cachePublicKey j kid now f later in
      ((j', env'), match r with inl k => Some (Some k) | inr _ => None end)
  end.

(** ** The verifier *)

Record jwtHeader := mkHeader { h_Alg : string; h_Kid : string }.

Record jwtClaims := mkRaw {
  Iss : string; Aud : list string; r_Email : string; r_CommonName : string; Sub : string;
  Type_ : string; Iat : Z; Nbf : Z; Exp : Z
}.

Record Claims := mkClaims {
  c_Issuer : string; c_Audience : list string; c_Email : string; c_CommonName : string;
  c_Subject : string; c_Type : string; c_IssuedAt : Z; c_NotBefore : Z; c_ExpiresAt : Z
}.

Definition claimsIdentity (c : Claims) : string :=
  if nonempty (c_Email c) then c_Email c else c_CommonName c.

Record Verifier := mkVerifier {
  issuer : string; audience : string; allowed : gset string; skew : Z
}.

Definition DefaultClockSkew : Z := 60 * Second.

(** Strings of bytes and back. *)
Definition strOf (s : list byte) : string := String.string_of_list_byte s.

(** The key source is required to be non-nil, as it is whenever it is present. *)
Definition NewVerifier (iss aud : list byte) (allow : list (list byte)) (skew : Z) : option Verifier :=
  let iss := TrimSpace iss in
  let aud := TrimSpace aud in
  if bool_decide (iss = []) then None
  else if bool_decide (aud = []) then None
  else
    let entries := List.filter (fun a => negb (bool_decide (a = []))) (TrimSpace <$> allow) in
    Some (mkVerifier (strOf iss) (strOf aud) (list_to_set (strOf <$> entries)) skew).

Inductive jwtError :=
| ErrMalformedToken | ErrUnsupportedAlg | ErrMissingKID | ErrUnknownKID | ErrBadSignature
| ErrExpired | ErrNotYetValid | ErrIssuedInFuture | ErrWrongIssuer | ErrWrongAudience
| ErrIdentityDenied | ErrNoIdentity.

Fixpoint containsExact (l : list string) (want : string) : bool :=
  match l with
  | [] => false
  | s :: l' => if bool_decide (s = want) then true else containsExact l' want
  end.

Definition inSet (x : string) (s : gset string) : bool := bool_decide (x ∈ s).

Section Verify.
Context {S : Type} `{KeySource S}.
Context (unmarshalHeader : list byte -> option jwtHeader).
Context (unmarshalClaims : list byte -> option jwtClaims).
Context (verifyPKCS1v15 : RSAKey -> list byte -> list byte -> bool).

(** The claim checks, after the signature. *)
Definition checkClaims (v : Verifier) (now : Z) (raw : jwtClaims) : Claims + jwtError :=
  let skewSecs := int64 (skew v ÷ Second) in
  if Exp raw =? 0 then inr ErrExpired
  else if int64 (Exp raw + skewSecs) <? Unix now then inr ErrExpired
  else if negb (Nbf raw =? 0) && (int64 (Unix now + skewSecs) <? Nbf raw) then inr ErrNotYetValid
  else if negb (Iat raw =? 0) && (int64 (Unix now + skewSecs) <? Iat raw) then inr ErrIssuedInFuture
  else if negb (bool_decide (Iss raw = issuer v)) then inr ErrWrongIssuer
  else if negb (containsExact (Aud raw) (audience v)) then inr ErrWrongAudience
  else
    let claims := mkClaims (Iss raw) (Aud raw) (r_Email raw) (r_CommonName raw) (Sub raw)
                    (Type_ raw) (Iat raw) (Nbf raw) (Exp raw) in
    if bool_decide (allowed v = ∅) then inl claims
    else if bool_decide (claimsIdentity claims = "") then inr ErrNoIdentity
    else if negb (nonempty (c_Email claims) && inSet (c_Email claims) (allowed v)) &&
            negb (nonempty (c_CommonName claims) && inSet (c_CommonName claims) (allowed v))
    then inr ErrIdentityDenied
    else inl claims.

(** [verifyPKCS1v15 pub msg sig] stands for the PKCS#1 v1.5 check of the SHA-256
    digest of [msg]. *)
Definition VerifyToken (v : Verifier) (src : S) (now : Z) (token : list byte)
  : S * (Claims + jwtError) :=
  match splitOn x2e token with
  | [p0; p1; p2] =>
      if bool_decide (p0 = []) || bool_decide (p1 = []) || bool_decide (p2 = [])
      then (src, inr ErrMalformedToken)
      else match b64decode p0 with
      | None => (src, inr ErrMalformedToken)
      | Some headerBytes =>
      match unmarshalHeader headerBytes with
      | None => (src, inr ErrMalformedToken)
      | Some hdr =>
      if negb (bool_decide (h_Alg hdr = "RS256")) then (src, inr ErrUnsupportedAlg)
      else if bool_decide (h_Kid hdr = "") then (src, inr ErrMissingKID)
      else
        let '(src', r) := PublicKey src (h_Kid hdr) in
        match r with
        | None | Some None => (src', inr ErrUnknownKID)
        | Some (Some pub) =>
        match b64decode p2 with
        | None => (src', inr ErrMalformedToken)
        | Some sig =>
        if negb (verifyPKCS1v15 pub (p0 ++ [x2e] ++ p1) sig) then (src', inr ErrBadSignature)
        else match b64decode p1 with
        | None => (src', inr ErrMalformedToken)
        | Some payloadBytes =>
        match unmarshalClaims payloadBytes with
        | None => (src', inr ErrMalformedToken)
        | Some raw => (src', checkClaims v now raw)
        end end end end end end
  | _ => (src, inr ErrMalformedToken)
  end.
End Verify.

(** ** Properties of the key cache *)

(** What the cache promises about every key it holds. *)
Definition strongKey (k : RSAKey) : Prop := 2 ^ 2047 <= keyN k /\ 2 <= keyE k < 2 ^ 63.

Definition jwksInv (j : JWKSCache) : Prop :=
  map_Forall (fun kid k => kid ≠ "" /\ strongKey k) (keys j) /\ (loaded j = false -> keys j = ∅).

Lemma rsaPublicKey_strong n e k : rsaPublicKeyFromJWK n e = Some k -> strongKey k.
Proof.
  unfold rsaPublicKeyFromJWK. destruct (b64decode (trimEquals n)) as [nb|]; [|done].
  destruct (b64decode (trimEquals e)) as [eb|]; [|done]. destruct (_ || _); [done|].
  cbv zeta. set (N := bigOfBytes nb). set (E := bigOfBytes eb).
  destruct (negb _ || _) eqn:E1; [done|]. destruct (_ <? minRSAModulusBits) eqn:E2; [done|].
  intros [= <-]. apply orb_false_iff in E1 as [E1 E1']. apply negb_false_iff in E1.
  bool_hyps. split; simpl; [|lia]. unfold BitLen, minRSAModulusBits in E2.
  destruct (N =? 0) eqn:EN; [lia|]. bool_hyps. destruct (Z.lt_ge_cases 0 N) as [Hp|Hp].
  - etrans; [|apply (Z.log2_spec N Hp)]. apply Z.pow_le_mono_r; lia.
  - rewrite Z.log2_nonpos in E2 by lia. lia.
Qed.

Lemma usable_strong k kid pub : usable k = Some (kid, pub) -> kid ≠ "" /\ strongKey pub.
Proof.
  unfold usable. destruct (negb _); [done|]. destruct (_ && _); [done|].
  destruct (_ && _); [done|]. case_bool_decide as E; [done|].
  destruct (rsaPublicKeyFromJWK _ _) as [p|] eqn:Ep; [|done]. intros [= <- <-].
  split; [done|]. by eapply rsaPublicKey_strong.
Qed.

Lemma collectKeys_strong ks :
  map_Forall (fun kid k => kid ≠ "" /\ strongKey k) (collectKeys ks).
Proof.
  unfold collectKeys. assert (H0 : map_Forall (fun kid k => kid ≠ "" /\ strongKey k) (∅ : gmap string RSAKey))
    by apply map_Forall_empty.
  revert H0. generalize (∅ : gmap string RSAKey). induction ks as [|k ks IH]; intros m Hm; [done|].
  simpl. apply IH. destruct (usable k) as [[kid pub]|] eqn:E; [|done].
  apply map_Forall_insert_2; [by eapply usable_strong|done].
Qed.

Lemma refresh_inv j f : jwksInv j -> jwksInv (refresh j f).1.
Proof.
  intros [H1 H2]. unfold refresh. destruct (document f) as [ks|]; [|done].
  destruct (_ =? _)%nat; [done|]. split; [apply collectKeys_strong|done].
Qed.

Lemma jwksInv_new ttl m : jwksInv (NewJWKSCache ttl m).
Proof. split; [apply map_Forall_empty|done]. Qed.

#[export] Hint Resolve refresh_inv jwksInv_new usable_strong : herdr.

Lemma refresh_config j f :
  jttl (refresh j f).1 = jttl j /\ minRefreshInterval (refresh j f).1 = minRefreshInterval j /\
  lastAttempt (refresh j f).1 = startedAt f /\
  ((refresh j f).2 = true -> fetchedAt (refresh j f).1 = finishedAt f) /\
  ((refresh j f).2 = false -> keys (refresh j f).1 = keys j /\ fetchedAt (refresh j f).1 = fetchedAt j).
Proof.
  unfold refresh. destruct (document f) as [ks|]; [|done]. by destruct (_ =? _)%nat.
Qed.

Lemma afterRefresh_key j kid ok later k :
  afterRefresh j kid ok later = inl k ->
  keys j !! kid = Some k /\
  (ok = true \/ timeSub later (fetchedAt j) <= int64 (2 * jttl j)).
Proof.
  unfold afterRefresh. destruct (keys j !! kid) as [k'|]; [|done].
  destruct ok; [intros [= <-]; auto|]. destruct (_ && _) eqn:E; [|done].
  intros [= <-]. bool_hyps. auto.
Qed.

(** Calls of the cache in sequence: key id, the clock readings and the fetch. *)
Definition cacheRun (j : JWKSCache) (cs : list (string * Z * fetch * Z)) : JWKSCache :=
  fold_left (fun j c => let '(kid, now, f, later) := c in (cachePublicKey j kid now f later).1.1) cs j.

Lemma cachePublicKey_inv j kid now f later :
  jwksInv j -> jwksInv (cachePublicKey j kid now f later).1.1 /\
  jttl (cachePublicKey j kid now f later).1.1 = jttl j.
Proof.
  intros Hj. unfold cachePublicKey. destruct (_ && _); [done|]. destruct (_ && _ && _); [done|].
  pose proof (refresh_config j f) as (Ht & _).
  assert (jwksInv (refresh j f).1) by auto with herdr. by destruct (refresh j f).
Qed.

Lemma cacheRun_inv cs j : jwksInv j -> jwksInv (cacheRun j cs) /\ jttl (cacheRun j cs) = jttl j.
Proof.
  unfold cacheRun. revert j. induction cs as [|[[[kid now] f] later] cs IH]; intros j Hj; [done|].
  simpl. destruct (cachePublicKey_inv j kid now f later Hj) as [H1 H2].
  destruct (IH _ H1) as [? ->]. auto.
Qed.

(** The key cache fails closed. After any sequence of lookups and fetches
    from an empty cache, a key that is handed out is a full-strength RSA key of
    the set fetched last, and that set is younger than the TTL, or was fetched
    by this very call, or is at most twice the TTL old. *)
Theorem cachePublicKey_bounded_age (ttl minRefresh : Z) (cs : list (string * Z * fetch * Z))
  (kid : string) (now later : Z) (f : fetch) (j' : JWKSCache) (k : RSAKey) (fetched : bool) :
  0 < ttl < 2 ^ 62 ->
  cachePublicKey (cacheRun (NewJWKSCache ttl minRefresh) cs) kid now f later = (j', inl k, fetched) ->
  strongKey k /\ keys j' !! kid = Some k /\
  (timeSub now (fetchedAt j') < ttl \/
   (fetched = true /\ fetchedAt j' = finishedAt f) \/
   timeSub later (fetchedAt j') <= 2 * ttl).
Proof.
  intros Ht. destruct (cacheRun_inv cs _ (jwksInv_new ttl minRefresh)) as [[Hs Hl] Et].
  simpl in Et. set (j := cacheRun _ cs) in *. intros E.
  pose proof (cachePublicKey_inv j kid now f later (conj Hs Hl)) as [[Hs' _] _].
  rewrite E in Hs'. simpl in Hs'. cut (keys j' !! kid = Some k /\
  (timeSub now (fetchedAt j') < ttl \/ (fetched = true /\ fetchedAt j' = finishedAt f) \/
   timeSub later (fetchedAt j') <= 2 * ttl)).
  { intros [H1 H2]. split_and!; auto. by apply (Hs' kid k). }
  unfold cachePublicKey in E. destruct (isPresent _ && _) eqn:Ep.
  - injection E as <- E <-. bool_hyps. destruct (keys j !! kid) as [k'|] eqn:Ek; [|done].
    simpl in *. simplify_eq. split; [done|]. left. lia.
  - destruct (_ && _ && _); [done|].
    pose proof (refresh_config j f) as (Etl & _ & _ & Hok & _).
    destruct (refresh j f) as [j1 ok] eqn:Er. simpl in *. injection E as <- E <-.
    apply afterRefresh_key in E as [Ek Ea]. split; [done|].
    destruct Ea as [->|Ea]; [right; left; auto|]. right; right.
    rewrite Etl, Et in Ea. rewrite int64_small in Ea by lia. done.
Qed.

(** Unknown key ids cannot make the cache storm the endpoint: while the
    cache is fresh a call fetches only for a missing id and only when the
    throttle window since the last attempt, successful or not, has passed; every
    fetch restarts the window, and a call that does not fetch changes nothing. *)
Theorem cachePublicKey_throttled (j : JWKSCache) (kid : string) (now later : Z) (f : fetch) :
  let '(j', r, fetched) := cachePublicKey j kid now f later in
  (fetched = false -> j' = j) /\
  (fetched = true -> lastAttempt j' = startedAt f) /\
  (fetched = true -> loaded j = true -> timeSub now (fetchedAt j) < jttl j ->
     keys j !! kid = None /\ minRefreshInterval j <= timeSub now (lastAttempt j)) /\
  (fetched = false -> loaded j = true /\ timeSub now (fetchedAt j) < jttl j /\
     match keys j !! kid with Some k => r = inl k | None => r = inr EUnknownKID end).
Proof.
  unfold cachePublicKey.
  destruct (isPresent (keys j !! kid) && _) eqn:Ep.
  { bool_hyps. destruct (keys j !! kid); [|done]. done. }
  destruct (_ && _ && (_ <? minRefreshInterval j)) eqn:Et.
  { bool_hyps. destruct (keys j !! kid); [done|]. done. }
  pose proof (refresh_config j f) as (_ & _ & Ha & _). destruct (refresh j f) as [j' ok].
  split_and!; [done|done| |done]. intros _ El Hf. rewrite El in *.
  apply Z.ltb_lt in Hf. rewrite Hf in *. simpl in *.
  destruct (keys j !! kid); simpl in *; [done|]. split; [done|]. by apply Z.ltb_ge.
Qed.

(** A sample document: one 2048-bit key. *)
Definition sampleModulus : list byte := replicate 256 x80.
Definition sampleJwk : jwk :=
  mkJwk (bytesOf "RSA") "k1" (b64encode sampleModulus) (b64encode [x01; x00; x01])
    (bytesOf "RS256") (bytesOf "sig").
Definition sampleKey : RSAKey := mkKey (bigOfBytes sampleModulus) 65537.
Definition sampleFetch : fetch := mkFetch 100 (Some [sampleJwk]) 110.
Definition sampleLookup : JWKSCache * (RSAKey + keyError) * bool :=
  cachePublicKey (NewJWKSCache 1000 10) "k1" 100 sampleFetch 120.

Lemma sampleLookup_result : sampleLookup = (sampleLookup.1.1, inl sampleKey, true).
Proof.
  assert (E : sampleLookup.1.2 = inl sampleKey /\ sampleLookup.2 = true) by (vm_compute; auto).
  destruct sampleLookup as [[j r] b]. simpl in *. by destruct E as [-> ->].
Qed.

Lemma cachePublicKey_bounded_age_witness : strongKey sampleKey.
Proof.
  apply (cachePublicKey_bounded_age 1000 10 [] "k1" 100 120 sampleFetch _ sampleKey true
           ltac:(lia) sampleLookup_result).
Defined.

(** ** Properties of the verifier *)

(** The acceptance condition on the claims, in unbounded integers. *)
Definition acceptable (v : Verifier) (now : Z) (raw : jwtClaims) : Prop :=
  let skewSecs := skew v / Second in
  Exp raw ≠ 0 /\ Unix now <= Exp raw + skewSecs /\
  (Nbf raw = 0 \/ Nbf raw <= Unix now + skewSecs) /\
  (Iat raw = 0 \/ Iat raw <= Unix now + skewSecs) /\
  Iss raw = issuer v /\ audience v ∈ Aud raw /\
  (allowed v = ∅ \/ (r_Email raw ≠ "" /\ r_Email raw ∈ allowed v) \/
   (r_CommonName raw ≠ "" /\ r_CommonName raw ∈ allowed v)).

Definition claimsOf (raw : jwtClaims) : Claims :=
  mkClaims (Iss raw) (Aud raw) (r_Email raw) (r_CommonName raw) (Sub raw) (Type_ raw)
    (Iat raw) (Nbf raw) (Exp raw).

Lemma containsExact_spec l w : containsExact l w = true <-> w ∈ l.
Proof.
  induction l as [|x l IH]; simpl; [split; [done|set_solver]|].
  case_bool_decide; [subst; set_solver|]. rewrite IH. set_solver.
Qed.

Lemma nonempty_spec s : nonempty s = true <-> s ≠ "".
Proof. unfold nonempty. case_bool_decide; naive_solver. Qed.

Lemma inSet_spec x s : inSet x s = true <-> x ∈ s.
Proof. apply bool_decide_eq_true. Qed.

(** The allowlist test on its own. *)
Lemma allow_spec (al : gset string) (e cn : string) :
  negb (nonempty e && inSet e al) && negb (nonempty cn && inSet cn al) = false <->
  (e ≠ "" /\ e ∈ al) \/ (cn ≠ "" /\ cn ∈ al).
Proof.
  rewrite andb_false_iff, !negb_false_iff, !andb_true_iff, !nonempty_spec, !inSet_spec. done.
Qed.

(** The clock and the skew are sane: the time is between the epoch and 2^61
    seconds after it, the skew is not negative and below 2^61 seconds. *)
Definition saneTime (v : Verifier) (now : Z) : Prop :=
  0 <= Unix now < 2 ^ 61 /\ 0 <= skew v < 2 ^ 61 * Second.

Definition int64Range (z : Z) : Prop := - 2 ^ 63 <= z < 2 ^ 63.

Lemma skew_secs v now : saneTime v now ->
  int64 (skew v ÷ Second) = skew v / Second /\ 0 <= skew v / Second < 2 ^ 61.
Proof.
  intros [_ Hs]. unfold Second in *. rewrite Z.quot_div_nonneg by lia.
  assert (0 <= skew v / 10 ^ 9 < 2 ^ 61) by (split; [apply Z.div_pos; lia|apply Z.div_lt_upper_bound; lia]).
  split; [apply int64_small; lia|done].
Qed.

(** The 64-bit comparison of the expiry is at least as strict as the exact one,
    and the same when the sum does not overflow. *)
Lemma expiry_check e k u : int64Range e -> 0 <= k < 2 ^ 61 -> 0 <= u ->
  (u <= int64 (e + k) -> u <= e + k) /\ (e + k < 2 ^ 63 -> int64 (e + k) = e + k).
Proof.
  unfold int64Range. intros He Hk Hu. split; [|intros; apply int64_small; lia].
  destruct (Z.lt_ge_cases (e + k) (2 ^ 63)) as [H|H].
  - rewrite int64_small by lia. done.
  - unfold int64. replace (e + k + 2 ^ 63) with (e + k - 2 ^ 63 + 1 * 2 ^ 64) by lia.
    rewrite Z.mod_add, Z.mod_small by lia. lia.
Qed.

Lemma checkClaims_cases v now raw :
  saneTime v now -> int64Range (Exp raw) ->
  (forall c, checkClaims v now raw = inl c -> acceptable v now raw /\ c = claimsOf raw) /\
  (acceptable v now raw -> Exp raw + skew v / Second < 2 ^ 63 ->
   checkClaims v now raw = inl (claimsOf raw)).
Proof.
  intros Hs He. destruct (skew_secs v now Hs) as [Ek Hk].
  destruct (expiry_check (Exp raw) (skew v / Second) (Unix now) He Hk ltac:(apply Hs)) as [Hx Hy].
  assert (Hn : int64 (Unix now + skew v / Second) = Unix now + skew v / Second).
  { destruct Hs. apply int64_small. lia. }
  unfold acceptable, checkClaims. rewrite Ek, Hn. cbn -[Z.pow Z.div bool_decide allowed]. split.
  - intros c. destruct (Exp raw =? 0) eqn:E0; [done|]. destruct (_ <? Unix now) eqn:E1; [done|].
    destruct (negb (Nbf raw =? 0) && _) eqn:E2; [done|].
    destruct (negb (Iat raw =? 0) && _) eqn:E3; [done|].
    destruct (bool_decide (Iss raw = _)) eqn:E4; [|done]. apply bool_decide_eq_true in E4. destruct (containsExact _ _) eqn:E5; [|done].
    apply containsExact_spec in E5. bool_hyps.
    assert (Hn' : forall x, negb (x =? 0) = false \/ (Unix now + skew v / Second <? x) = false ->
      x = 0 \/ x <= Unix now + skew v / Second) by (intros x [?|?]; bool_hyps; auto).
    apply Hn' in E2, E3.
    case_bool_decide as E6; [intros [= <-]; split_and!; auto; lia|].
    case_bool_decide as E7; [done|]. destruct (negb _ && negb _) eqn:E8; [done|].
    apply allow_spec in E8. intros [= <-]. split_and!; auto; lia.
  - intros (H0 & H1 & H2 & H3 & H4 & H5 & H6) Hov. rewrite Hy by done.
    apply Z.eqb_neq in H0. rewrite H0.
    destruct (Z.ltb_spec (Exp raw + skew v / Second) (Unix now)); [lia|].
    assert (Hn' : forall x, x = 0 \/ x <= Unix now + skew v / Second ->
      negb (x =? 0) && (Unix now + skew v / Second <? x) = false)
      by (intros x ?; destruct (Z.eqb_spec x 0); [done|]; apply Z.ltb_ge; lia).
    rewrite !Hn' by done. rewrite bool_decide_true by done.
    apply containsExact_spec in H5. rewrite H5. cbn [negb].
    case_bool_decide as E6; [done|]. destruct H6 as [H6|H6]; [done|].
    rewrite bool_decide_false.
    + apply allow_spec in H6. by rewrite H6.
    + unfold claimsIdentity; simpl. destruct (nonempty (r_Email raw)) eqn:En;
        [by apply nonempty_spec|]. destruct H6 as [[H6 _]|[H6 _]]; [|done].
      apply nonempty_spec in H6. congruence.
Qed.

Section VerifySpec.
Context {S : Type} `{KeySource S}.
Context (unmarshalHeader : list byte -> option jwtHeader).
Context (unmarshalClaims : list byte -> option jwtClaims).
Context (verifyPKCS1v15 : RSAKey -> list byte -> list byte -> bool).

(** What an accepted assertion is: three non-empty parts, an RS256 header naming
    a key the source knows, a signature of that key over the first two parts as
    received, and a payload whose claims are acceptable now. *)
Inductive Authentic (v : Verifier) (src : S) (now : Z) : list byte -> S -> Claims -> Prop :=
| authentic p0 p1 p2 headerBytes hdr src' pub sig payload raw :
    p0 ≠ [] -> p1 ≠ [] -> p2 ≠ [] ->
    Forall (fun b => b ≠ x2e) (p0 ++ p1 ++ p2) ->
    b64decode p0 = Some headerBytes -> unmarshalHeader headerBytes = Some hdr ->
    h_Alg hdr = "RS256" -> h_Kid hdr ≠ "" ->
    PublicKey src (h_Kid hdr) = (src', Some (Some pub)) ->
    b64decode p2 = Some sig -> verifyPKCS1v15 pub (p0 ++ [x2e] ++ p1) sig = true ->
    b64decode p1 = Some payload -> unmarshalClaims payload = Some raw ->
    acceptable v now raw ->
    Authentic v src now (p0 ++ [x2e] ++ p1 ++ [x2e] ++ p2) src' (claimsOf raw).

Lemma VerifyToken_Authentic v src now token src' c :
  saneTime v now ->
  (forall payload raw, unmarshalClaims payload = Some raw -> int64Range (Exp raw)) ->
  VerifyToken unmarshalHeader unmarshalClaims verifyPKCS1v15 v src now token = (src', inl c) ->
  Authentic v src now token src' c.
Proof.
  intros Hs Hdec. unfold VerifyToken. destruct (splitOn_spec x2e token) as [Hj Hf].
  destruct (splitOn x2e token) as [|p0 [|p1 [|p2 [|? ?]]]]; try done.
  destruct (_ || _ || _) eqn:En; [done|]. bool_hyps.
  rewrite !bool_decide_eq_false in *.
  destruct (b64decode p0) as [hb|] eqn:E0; [|done].
  destruct (unmarshalHeader hb) as [hdr|] eqn:E1; [|done].
  case_bool_decide as E2; [|done]. case_bool_decide as E3; [done|]. cbn [negb].
  destruct (PublicKey src (h_Kid hdr)) as [s1 [[pub|]|]] eqn:E4; [|done..].
  destruct (b64decode p2) as [sig|] eqn:E5; [|done].
  destruct (verifyPKCS1v15 pub _ sig) eqn:E6; [|done].
  destruct (b64decode p1) as [pl|] eqn:E7; [|done].
  destruct (unmarshalClaims pl) as [raw|] eqn:E8; [|done]. cbn [negb]. intros [= <- Hc].
  destruct (checkClaims_cases v now raw Hs (Hdec _ _ E8)) as [Hcc _].
  destruct (Hcc c Hc) as [Hacc ->]. rewrite <- Hj.
  change (joinWith x2e [p0; p1; p2]) with (p0 ++ [x2e] ++ p1 ++ [x2e] ++ p2).
  rewrite !Forall_cons in Hf. destruct Hf as (? & ? & ? & _).
  eapply authentic; eauto. rewrite !Forall_app. auto.
Qed.
End VerifySpec.

(** C6: The verifier accepts exactly the authentic assertions. Whatever the
    signature primitive, the JSON decoder and the key source are, an accepted
    token is authentic: RS256 only, signed by the key its header names over the
    bytes received, right issuer and audience, inside its validity window (the
    64-bit sums never extend it), allowed when an allowlist is configured.
    Conversely an authentic token is accepted unless its expiry plus the skew
    overflows. *)
Theorem VerifyToken_exact {S : Type} `{KeySource S} (unmarshalHeader : list byte -> option jwtHeader)
  (unmarshalClaims : list byte -> option jwtClaims)
  (verifyPKCS1v15 : RSAKey -> list byte -> list byte -> bool)
  (v : Verifier) (src : S) (now : Z) (token : list byte) (src' : S) (c : Claims) :
  saneTime v now ->
  (forall payload raw, unmarshalClaims payload = Some raw -> int64Range (Exp raw)) ->
  (VerifyToken unmarshalHeader unmarshalClaims verifyPKCS1v15 v src now token = (src', inl c) ->
   Authentic unmarshalHeader unmarshalClaims verifyPKCS1v15 v src now token src' c) /\
  (Authentic unmarshalHeader unmarshalClaims verifyPKCS1v15 v src now token src' c ->
   c_ExpiresAt c + skew v / Second < 2 ^ 63 ->
   VerifyToken unmarshalHeader unmarshalClaims verifyPKCS1v15 v src now token = (src', inl c)).
Proof.
  intros Hs Hdec. split; [by apply VerifyToken_Authentic|].
  intros [p0 p1 p2 hb hdr s1 pub sig pl raw N0 N1 N2 Hf E0 E1 E2 E3 E4 E5 E6 E7 E8 Hacc] Hov.
  rewrite !Forall_app in Hf. destruct Hf as (F0 & F1 & F2).
  unfold VerifyToken. rewrite splitOn_app, splitOn_app, splitOn_free by done.
  rewrite !bool_decide_false by done. cbn [orb]. rewrite E0, E1, bool_decide_true by done.
  cbn [negb]. rewrite bool_decide_false by done. rewrite E4, E5, E6. cbn [negb]. rewrite E7, E8.
  f_equal. destruct (checkClaims_cases v now raw Hs (Hdec _ _ E8)) as [_ Hcc]. by apply Hcc.
Qed.

(** A sample verifier, and decoders that return one fixed header and payload. *)
Definition sampleVerifier : Verifier := mkVerifier "iss" "aud" {["op@example.com"]} DefaultClockSkew.
Definition sampleRaw : jwtClaims := mkRaw "iss" ["aud"] "op@example.com" "" "" "" 0 0 2000.
Definition sampleNow : Z := timeOfUnix 1000.
Definition sampleToken : list byte := bytesOf "aGRy.cGF5.c2ln".
Definition sampleHeader (_ : list byte) : option jwtHeader := Some (mkHeader "RS256" "k1").
Definition sampleClaims (_ : list byte) : option jwtClaims := Some sampleRaw.
Definition sampleSource : jwksState := (NewJWKSCache 1000 10, [(100, sampleFetch, 120)]).
Definition sampleVerified : jwksState * (Claims + jwtError) :=
  VerifyToken sampleHeader sampleClaims (fun _ _ _ => true) sampleVerifier sampleSource sampleNow
    sampleToken.

Lemma sampleVerified_result : sampleVerified = (sampleVerified.1, inl (claimsOf sampleRaw)).
Proof.
  assert (E : sampleVerified.2 = inl (claimsOf sampleRaw)) by (vm_compute; reflexivity).
  destruct sampleVerified as [s r]. simpl in *. by rewrite E.
Qed.

Lemma VerifyToken_exact_witness :
  Authentic sampleHeader sampleClaims (fun _ _ _ => true) sampleVerifier sampleSource sampleNow
    sampleToken sampleVerified.1 (claimsOf sampleRaw).
Proof.
  apply (VerifyToken_exact sampleHeader sampleClaims (fun _ _ _ => true) sampleVerifier sampleSource
           sampleNow sampleToken sampleVerified.1 (claimsOf sampleRaw)).
  - vm_compute. repeat split; congruence.
  - intros payload raw [= <-]. vm_compute. split; congruence.
  - exact sampleVerified_result.
Defined.
