(* ===== verification/AuthAdapter.v ===== *)
(** * AuthAdapter: internal/integration/auth.go

    The authenticator the relay uses, composed from the pairing secret, the
    session store and the Access verifier, behind the interface of
    internal/server/interfaces.go. *)

From S2P Require Import Prelude GoStr Session Pairing Access.

(** ** The interface the server sees *)

Record ServerIdentity := mkSrvId {
  si_Subject : string; si_Display : string; si_SessionID : string; si_Quick : bool;
  si_CSRFToken : string; si_ExpiresAt : Z
}.

(** The cookie's fixed attributes are those of [NewSessionCookie]. *)
Record Cookie := mkCookie {
  ck_Name : string; ck_Value : string; ck_Path : string; ck_Expires : Z; ck_MaxAge : Z;
  ck_HttpOnly : bool; ck_Secure : bool; ck_SameSiteStrict : bool
}.

Definition CookieName : string := "__Host-herdr_phone".

Definition NewSessionCookie (value : string) (expires : Z) : Cookie :=
  mkCookie CookieName value "/" expires 0 true true true.

Definition ClearSessionCookie : Cookie := mkCookie CookieName "" "/" 0 (-1) true true true.

Record ServerSession := mkSrvSession {
  ss_Cookie : Cookie; ss_CSRFToken : string; ss_Identity : ServerIdentity; ss_ExpiresAt : Z
}.

Inductive authError :=
| errNoAccessToken
| errNoAccessIdentity
| ErrPairing
| ErrEntropy
| errAccess (e : jwtError).

(** [server.Authenticator]. The request is the value of the Access header ([""]
    when absent); each call gets the clock reading it takes. *)
Class Authenticator (A : Type) := {
  NamedMode : A -> bool;
  VerifyAccess : A -> Z -> list byte -> A * option authError;
  Pair : A -> Z -> list byte -> list byte -> A * (ServerSession + authError);
  EnsureSession : A -> Z -> list byte -> A * (option ServerSession + authError);
  SessionOf : A -> Z -> string -> A * option ServerIdentity;
  Revoke : A -> string -> A;
  ValidateCSRF : A -> Z -> string -> string -> A * bool
}.

(** ** The adapter *)

Section Adapter.
Context {S : Type} `{KeySource S}.
Context (unmarshalHeader : list byte -> option jwtHeader).
Context (unmarshalClaims : list byte -> option jwtClaims).
Context (verifyPKCS1v15 : RSAKey -> list byte -> list byte -> bool).

(** In quick mode the verifier is nil; it is used in named mode only. *)
Record authAdapter := mkAdapter {
  named : bool; pairing : Pairing; store : SessionStore; verifier : Verifier; source : S
}.

Definition withSource (a : authAdapter) (src : S) : authAdapter :=
  mkAdapter (named a) (pairing a) (store a) (verifier a) src.
Definition withPairing (a : authAdapter) (p : Pairing) : authAdapter :=
  mkAdapter (named a) p (store a) (verifier a) (source a).
Definition withStore (a : authAdapter) (st : SessionStore) : authAdapter :=
  mkAdapter (named a) (pairing a) st (verifier a) (source a).

Definition verifyToken (a : authAdapter) (now : Z) (tok : list byte)
  : authAdapter * (Claims + authError) :=
  if bool_decide (tok = []) then (a, inr errNoAccessToken)
  else
    let '(src, r) := VerifyToken unmarshalHeader unmarshalClaims verifyPKCS1v15
                       (verifier a) (source a) now tok in
    (withSource a src, match r with inl c => inl c | inr e => inr (errAccess e) end).

Definition verifyAccess (a : authAdapter) (now : Z) (tok : list byte) : authAdapter * option authError :=
  if negb (named a) then (a, None)
  else let '(a', r) := verifyToken a now tok in
       (a', match r with inl _ => None | inr e => Some e end).

Definition toServerIdentity (auditID csrf : string) (expiresAt : Z) (id : Identity) : ServerIdentity :=
  let subject := if negb (Quick id)
                 then (if nonempty (Email id) then Email id else CommonName id) else "" in
  mkSrvId subject (Display id) auditID (Quick id) csrf expiresAt.

Definition serverSession (sess : Session) (id : Identity) : ServerSession :=
  mkSrvSession (NewSessionCookie (ID sess) (ExpiresAt sess)) (CSRFToken sess)
    (toServerIdentity (AuditID sess) (CSRFToken sess) (ExpiresAt sess) id) (ExpiresAt sess).

Definition hardExpiryOf (c : Claims) : Z :=
  if 0 <? c_ExpiresAt c then timeOfUnix (c_ExpiresAt c) else 0.

Definition identityOf (c : Claims) : Identity := mkIdentity (c_Email c) (c_CommonName c) false.

Definition pair (a : authAdapter) (now : Z) (tok sec : list byte) : authAdapter * (ServerSession + authError) :=
  let '(a1, who) :=
    if named a then
      let '(a1, r) := verifyToken a now tok in
      (a1, match r with inl c => inl (identityOf c, hardExpiryOf c) | inr e => inr e end)
    else (a, inl (mkIdentity "" "" true, 0)) in
  match who with
  | inr e => (a1, inr e)
  | inl (id, hard) =>
      let '(p, ok) := Verify (pairing a1) sec in
      let a2 := withPairing a1 p in
      if negb ok then (a2, inr ErrPairing)
      else
        let '(st, r) := Create (store a2) now id hard in
        (withStore a2 st,
         match r with None => inr ErrEntropy | Some sess => inl (serverSession sess id) end)
  end.

Definition ensureSession (a : authAdapter) (now : Z) (tok : list byte)
  : authAdapter * (option ServerSession + authError) :=
  if negb (named a) then (a, inl None)
  else
    let '(a1, r) := verifyToken a now tok in
    match r with
    | inr e => (a1, inr e)
    | inl c =>
        let id := identityOf c in
        if bool_decide (IdentitySubject id = "") then (a1, inr errNoAccessIdentity)
        else
          let '(st, found) := GetByIdentity (store a1) now id in
          match found with
          | Some sess => (withStore a1 st, inl (Some (serverSession sess (s_Identity sess))))
          | None =>
              let '(st', made) := Create st now id (hardExpiryOf c) in
              (withStore a1 st',
               match made with
               | None => inr ErrEntropy
               | Some sess => inl (Some (serverSession sess (s_Identity sess)))
               end)
          end
    end.

Definition sessionOf (a : authAdapter) (now : Z) (cookie : string) : authAdapter * option ServerIdentity :=
  let '(st, r) := Get (store a) now cookie in
  (withStore a st,
   (fun sess => toServerIdentity (AuditID sess) (CSRFToken sess) (ExpiresAt sess) (s_Identity sess)) <$> r).

Definition revoke (a : authAdapter) (cookie : string) : authAdapter :=
  withStore a (Delete (store a) cookie).

Definition validateCSRF (a : authAdapter) (now : Z) (cookie csrf : string) : authAdapter * bool :=
  let '(st, r) := Get (store a) now cookie in
  (withStore a st, match r with None => false | Some sess => ValidCSRF (CSRFToken sess) csrf end).

Definition RotatePairing (a : authAdapter) (baseURL : list byte) : authAdapter * option (list byte) :=
  let '(p, ok) := Rotate (pairing a) in
  (withPairing a p, if ok then Some (PairingLink p baseURL) else None).

#[global] Instance adapter_Authenticator : Authenticator authAdapter := {
  NamedMode := named;
  VerifyAccess := verifyAccess;
  Pair := pair;
  EnsureSession := ensureSession;
  SessionOf := sessionOf;
  Revoke := revoke;
  ValidateCSRF := validateCSRF
}.
End Adapter.

Arguments authAdapter : clear implicits.

(** ** Properties *)

Section AdapterFacts.
Context {S : Type} `{KeySource S}.
Context (unmarshalHeader : list byte -> option jwtHeader).
Context (unmarshalClaims : list byte -> option jwtClaims).
Context (verifyPKCS1v15 : RSAKey -> list byte -> list byte -> bool).

Notation pair' := (pair unmarshalHeader unmarshalClaims verifyPKCS1v15).
Notation ensure' := (ensureSession unmarshalHeader unmarshalClaims verifyPKCS1v15).
Notation verify' := (verifyToken unmarshalHeader unmarshalClaims verifyPKCS1v15).
Notation Authentic' := (Authentic unmarshalHeader unmarshalClaims verifyPKCS1v15).

(** The decoder stores the expiry in an [int64] field. *)
Definition decoderRange : Prop :=
  forall payload raw, unmarshalClaims payload = Some raw -> int64Range (Exp raw).

Lemma verifyToken_frame a now tok :
  let a' := (verify' a now tok).1 in
  named a' = named a /\ pairing a' = pairing a /\ store a' = store a /\ verifier a' = verifier a.
Proof.
  unfold verifyToken. case_bool_decide; [done|]. by destruct (VerifyToken _ _ _ _ _ _ _).
Qed.

Lemma verifyToken_ok a now tok a' c :
  saneTime (verifier a) now -> decoderRange ->
  verify' a now tok = (a', inl c) ->
  exists src, Authentic' (verifier a) (source a) now tok src c /\ a' = withSource a src.
Proof.
  intros Hs Hd. unfold verifyToken. case_bool_decide; [done|].
  destruct (VerifyToken _ _ _ _ _ _ _) as [src [c'|e]] eqn:E; [|done]. intros [= <- <-].
  exists src. split; [|done]. by apply VerifyToken_Authentic.
Qed.

(** Who the edge says the caller is, and how long it vouches for it. *)
Definition vouched (a : authAdapter S) (now : Z) (tok : list byte) (id : Identity) (hard : Z) : Prop :=
  if named a
  then exists src c, Authentic' (verifier a) (source a) now tok src c /\
         id = identityOf c /\ hard = hardExpiryOf c
  else id = mkIdentity "" "" true /\ hard = 0.

Lemma pair_cases a now tok sec :
  saneTime (verifier a) now -> decoderRange ->
  (exists a1 e, pair' a now tok sec = (a1, inr e) /\ pairing a1 = pairing a /\ store a1 = store a /\
     e ≠ ErrPairing /\ e ≠ ErrEntropy) \/
  (exists id hard src, vouched a now tok id hard /\
     pair' a now tok sec =
       (let '(p, ok) := Verify (pairing a) sec in
        let a2 := withPairing (withSource a src) p in
        if negb ok then (a2, inr ErrPairing)
        else let '(st, r) := Create (store a) now id hard in
             (withStore a2 st,
              match r with None => inr ErrEntropy | Some sess => inl (serverSession sess id) end))).
Proof.
  intros Hs Hd. unfold pair, vouched. destruct (named a) eqn:En.
  - pose proof (verifyToken_frame a now tok) as Hf.
    destruct (verify' a now tok) as [a1 [c|e]] eqn:E; [right|left].
    + apply verifyToken_ok in E as (src & Ha & ->); [|done..].
      exists (identityOf c), (hardExpiryOf c), src. split; [eauto|]. simpl.
      by destruct (Verify _ _).
    + exists a1, e. simpl in Hf. split_and!; [done|apply Hf..| |];
        unfold verifyToken in E; case_bool_decide; simplify_eq; try done;
        destruct (VerifyToken _ _ _ _ _ _ _) as [? [?|?]]; by simplify_eq.
  - right. exists (mkIdentity "" "" true), 0, (source a). split; [done|]. simpl.
    destruct a; simpl in *. by destruct (Verify _ _).
Qed.

(** The pairing exchange. A session comes out only when the edge vouches
    for the caller (in named mode by an authentic assertion, whose identity and
    expiry the session takes) and the secret is the current one; it is the one
    new session of the store, its cookie carries the bearer id and everything
    shown carries the audit id. A caller the edge rejects neither consumes the
    pairing secret nor touches the store, and no failure adds a session. *)
Theorem pair_exchange (a : authAdapter S) (now : Z) (tok sec : list byte) :
  saneTime (verifier a) now -> decoderRange ->
  let '(a', r) := pair' a now tok sec in
  match r with
  | inl s =>
      exists id hard sess, vouched a now tok id hard /\
        Verify (pairing a) sec = (pairing a', true) /\
        Create (store a) now id hard = (store a', Some sess) /\
        ck_Value (ss_Cookie s) = ID sess /\ si_SessionID (ss_Identity s) = AuditID sess /\
        si_Subject (ss_Identity s) = IdentitySubject id /\ ss_ExpiresAt s = ExpiresAt sess
  | inr e =>
      sessions (store a') = sessions (store a) /\
      (e ≠ ErrPairing -> e ≠ ErrEntropy -> pairing a' = pairing a) /\
      (e = ErrPairing -> pairing a' = (Verify (pairing a) sec).1)
  end.
Proof.
  intros Hs Hd. destruct (pair_cases a now tok sec Hs Hd) as
    [(a1 & e & -> & Hp & Hst & He & _)|(id & hard & src & Hv & ->)].
  - rewrite Hp, Hst. by split_and!.
  - destruct (Verify (pairing a) sec) as [p ok] eqn:Ev. destruct ok; simpl; [|done].
    pose proof (Create_none (store a) now id hard) as Hc.
    destruct (Create (store a) now id hard) as [st [sess|]] eqn:Ec; simpl in *; [|by split; [apply Hc|]].
    exists id, hard, sess. split_and!; auto. unfold toServerIdentity, IdentitySubject. simpl.
    by destruct (Quick id).
Qed.

(** C15: Sessions without pairing exist in named mode only, and belong to the
    verified identity. In quick mode [EnsureSession] does nothing. In named mode
    what it returns is backed by an authentic assertion with an identity claim,
    is stored under the cookie's value for that subject, and is either a live
    session made earlier, or a new one capped by the TTL and by the assertion's
    expiry. It never touches the pairing secret, and a failure adds no session. *)
Theorem ensureSession_bound (a : authAdapter S) (now : Z) (tok : list byte) :
  saneTime (verifier a) now -> decoderRange -> storeInv (store a) ->
  let '(a', r) := ensure' a now tok in
  pairing a' = pairing a /\
  match r with
  | inl None => named a = false /\ a' = a
  | inl (Some s) =>
      named a = true /\
      exists src c sess, Authentic' (verifier a) (source a) now tok src c /\
        claimsIdentity c ≠ "" /\ IdentitySubject (s_Identity sess) = claimsIdentity c /\
        si_Subject (ss_Identity s) = claimsIdentity c /\
        sessions (store a') !! ck_Value (ss_Cookie s) = Some sess /\
        ss_ExpiresAt s = ExpiresAt sess /\ si_SessionID (ss_Identity s) = AuditID sess /\
        ((now < ExpiresAt sess /\ exists old, sessions (store a) !! ID sess = Some old /\ sess = touch now old) \/
         ExpiresAt sess = (if isZero (hardExpiryOf c) then now + ttl (store a)
                           else Z.min (now + ttl (store a)) (hardExpiryOf c)))
  | inr _ => sessions (store a') ⊆ sessions (store a)
  end.
Proof.
  intros Hs Hd Hi. unfold ensureSession. destruct (named a) eqn:En; [|done]. cbn [negb].
  pose proof (verifyToken_frame a now tok) as (_ & Hfp & Hfs & _).
  destruct (verify' a now tok) as [a1 [c|e]] eqn:E; simpl in Hfp, Hfs; [|by rewrite Hfs].
  apply verifyToken_ok in E as (src & Ha & ->); [|done..]. clear Hfp Hfs.
  assert (Hid : IdentitySubject (identityOf c) = claimsIdentity c) by done.
  case_bool_decide as Ek; [done|]. cbn [store withSource].
  pose proof (GetByIdentity_found (store a) now (identityOf c)) as Hg.
  pose proof (GetByIdentity_shrinks (store a) now (identityOf c)) as Hsh.
  pose proof (GetByIdentity_ttl (store a) now (identityOf c)) as Ht.
  destruct (GetByIdentity _ _ _) as [st [b|]]; cbn [fst snd] in *.
  - destruct (Hg st b Hi eq_refl) as ((b0 & (Hb1 & Hb2 & Hb3) & ->) & Hl & _).
    split; [done|]. split; [done|]. exists src, c, (touch now b0).
    apply not_expired in Hb2 as [Hlive _]. split_and!; try done.
    + simpl. unfold toServerIdentity; simpl. rewrite <- Hid, <- Hb3. unfold IdentitySubject.
      by destruct (Quick (s_Identity b0)).
    + left. split; [done|]. exists b0. done.
  - assert (Hsub : sessions st ⊆ sessions (store a)) by (destruct Hsh as [->|Hsh]; auto).
    pose proof (Create_none st now (identityOf c) (hardExpiryOf c)) as Hcn.
    destruct (Create st now _ _) as [st' [sess|]] eqn:Ec; simpl in *.
    + apply Create_some in Ec as (E1 & E2 & _ & _ & E5). split; [done|]. split; [done|].
      exists src, c, sess. rewrite E2. split_and!; try done.
      * rewrite E1. apply lookup_insert_eq.
      * right. by rewrite E5, Ht.
    + by rewrite Hcn.
Qed.
End AdapterFacts.

Definition sampleAdapter : authAdapter jwksState :=
  mkAdapter true samplePairing (NewSessionStore (1000 * Second) 0 sampleEntropy) sampleVerifier sampleSource.

Definition acceptAll (_ : RSAKey) (_ _ : list byte) : bool := true.

Lemma sample_sane : saneTime (verifier sampleAdapter) sampleNow.
Proof. vm_compute. repeat split; congruence. Qed.

Lemma sample_range : decoderRange sampleClaims.
Proof. intros payload raw [= <-]. vm_compute. split; congruence. Qed.

Lemma pair_exchange_witness :
  match pair sampleHeader sampleClaims acceptAll sampleAdapter sampleNow sampleToken (Token samplePairing) with
  | (a', inl s) => Verify samplePairing (Token samplePairing) = (pairing a', true)
  | (_, inr _) => False
  end.
Proof.
  pose proof (pair_exchange sampleHeader sampleClaims acceptAll sampleAdapter sampleNow sampleToken
                (Token samplePairing) sample_sane sample_range) as H.
  assert (E : match (pair sampleHeader sampleClaims acceptAll sampleAdapter sampleNow sampleToken
                       (Token samplePairing)).2 with inl _ => True | inr _ => False end)
    by (vm_compute; exact I).
  destruct (pair _ _ _ _ _ _ _) as [a' [s|e]]; [|done].
  destruct H as (id & hard & sess & _ & H & _). exact H.
Defined.

Lemma ensureSession_bound_witness :
  match ensureSession sampleHeader sampleClaims acceptAll sampleAdapter sampleNow sampleToken with
  | (a', inl (Some s)) => si_Subject (ss_Identity s) = "op@example.com"
  | _ => False
  end.
Proof.
  pose proof (ensureSession_bound sampleHeader sampleClaims acceptAll sampleAdapter sampleNow sampleToken
                sample_sane sample_range (storeInv_new _ _ _)) as H.
  assert (E : match (ensureSession sampleHeader sampleClaims acceptAll sampleAdapter sampleNow sampleToken).2
              with inl (Some _) => True | _ => False end) by (vm_compute; exact I).
  destruct (ensureSession _ _ _ _ _ _) as [a' [[s|]|e]]; [|done..].
  destruct H as (_ & _ & src & c & sess & Ha & _ & _ & -> & _).
  inversion Ha as [? ? ? ? ? ? ? ? ? raw]; subst.
  match goal with E : sampleClaims _ = Some _ |- _ => injection E as <- end. reflexivity.
Defined.
