(* ===== verification/Stores.v ===== *)
(** * Stores: internal/server/stores.go

    The confirmation nonces and the idempotency cache of the relay. Every method
    runs under the store's mutex; clock readings and random tokens are
    arguments. *)

From S2P Require Import Prelude.

(** ** Confirmation nonces *)

Record nonce := mkNonce {
  n_operation : string; n_resource : string; n_generation : Z; n_session : string;
  n_paramsHash : string; n_expiresAt : Z
}.

Notation nonceStore := (gmap string nonce).
Definition newNonceStore : nonceStore := ∅.

(** [now.After(expiresAt)]. *)
Definition nonceExpired (now : Z) (n : nonce) : bool := n_expiresAt n <? now.

Definition nonceGC (now : Z) (m : nonceStore) : nonceStore :=
  filter (fun kv => nonceExpired now kv.2 = false) m.

(** [token] is the random token drawn; [t1] is the clock reading for the expiry,
    [t2] the one of the sweep. *)
Definition issue (m : nonceStore) (token : string) (t1 t2 : Z)
  (operation resource : string) (generation : Z) (session paramsHash : string) (ttl : Z)
  : nonceStore * (string * Z) :=
  let exp := t1 + ttl in
  (<[token := mkNonce operation resource generation session paramsHash exp]> (nonceGC t2 m), (token, exp)).

Definition consume (m : nonceStore) (now : Z) (token operation resource : string) (generation : Z)
  (session paramsHash : string) : nonceStore * bool :=
  match m !! token with
  | None => (m, false)
  | Some n =>
      let m' := delete token m in
      if nonceExpired now n then (m', false)
      else if negb (bool_decide (n_operation n = operation)) || negb (bool_decide (n_resource n = resource))
              || negb (n_generation n =? generation) then (m', false)
      else if negb (bool_decide (n_session n = session)) then (m', false)
      else if negb (bool_decide (n_paramsHash n = paramsHash)) then (m', false)
      else (m', true)
  end.

(** ** The idempotency cache *)

Record idemEntry := mkEntry {
  e_status : Z; e_body : list byte; e_expiresAt : Z; e_pending : bool; e_fingerprint : string
}.

Inductive idemResult := idemReserved | idemInFlight | idemDone (e : idemEntry) | idemMismatch | idemMiss.

Notation idemStore := (gmap string idemEntry).
Definition newIdemStore : idemStore := ∅.

Definition idemKey (session requestID : string) : string := session +:+ NUL +:+ requestID.

Definition idemExpired (now : Z) (e : idemEntry) : bool := e_expiresAt e <? now.

Definition idemGC (now : Z) (m : idemStore) : idemStore :=
  filter (fun kv => idemExpired now kv.2 = false) m.

Definition peek (m : idemStore) (now : Z) (key fingerprint : string) : idemStore * idemResult :=
  match m !! key with
  | None => (m, idemMiss)
  | Some e =>
      if idemExpired now e then (delete key m, idemMiss)
      else if negb (bool_decide (e_fingerprint e = fingerprint)) then (m, idemMismatch)
      else if e_pending e then (m, idemMiss)
      else (m, idemDone e)
  end.

(** [t1] is the clock reading of the sweep, [t2] the one of the new entry. *)
Definition reserve (m : idemStore) (t1 t2 : Z) (key fingerprint : string) (reservationTTL : Z)
  : idemStore * idemResult :=
  let m := idemGC t1 m in
  match m !! key with
  | Some e =>
      if negb (bool_decide (e_fingerprint e = fingerprint)) then (m, idemMismatch)
      else if e_pending e then (m, idemInFlight)
      else (m, idemDone e)
  | None => (<[key := mkEntry 0 [] (t2 + reservationTTL) true fingerprint]> m, idemReserved)
  end.

Definition complete (m : idemStore) (now : Z) (key fingerprint : string) (status : Z) (body : list byte)
  (ttl : Z) : idemStore :=
  <[key := mkEntry status body (now + ttl) false fingerprint]> m.

Definition release (m : idemStore) (key : string) : idemStore :=
  match m !! key with
  | Some e => if e_pending e then delete key m else m
  | None => m
  end.

(** ** Histories of the nonce store *)

Record binding := mkBinding {
  b_operation : string; b_resource : string; b_generation : Z; b_session : string; b_params : string
}.

Inductive nonceOp :=
| NIssue (token : string) (t1 t2 : Z) (b : binding) (ttl : Z)
| NConsume (now : Z) (token : string) (b : binding).

(** One call, and the acceptance it produced. *)
Definition nonceStep (m : nonceStore) (o : nonceOp) : nonceStore * option (string * binding * Z) :=
  match o with
  | NIssue token t1 t2 b ttl =>
      ((issue m token t1 t2 (b_operation b) (b_resource b) (b_generation b) (b_session b) (b_params b) ttl).1,
       None)
  | NConsume now token b =>
      let '(m', ok) := consume m now token (b_operation b) (b_resource b) (b_generation b) (b_session b)
                         (b_params b) in
      (m', if ok then Some (token, b, now) else None)
  end.

Fixpoint nonceRun (m : nonceStore) (os : list nonceOp) : list (string * binding * Z) :=
  match os with
  | [] => []
  | o :: os' => let '(m', r) := nonceStep m o in option_list r ++ nonceRun m' os'
  end.

Definition issuedTokens (os : list nonceOp) : list string :=
  omap (fun o => match o with NIssue token _ _ _ _ => Some token | _ => None end) os.

Definition bindingOf (n : nonce) : binding :=
  mkBinding (n_operation n) (n_resource n) (n_generation n) (n_session n) (n_paramsHash n).

Lemma binding_eta n b :
  n_operation n = b_operation b -> n_resource n = b_resource b -> n_generation n = b_generation b ->
  n_session n = b_session b -> n_paramsHash n = b_params b -> bindingOf n = b.
Proof. destruct b, n. unfold bindingOf. simpl. by intros -> -> -> -> ->. Qed.

(** Every consumption removes the token; it succeeds exactly for an unexpired
    nonce with the same binding. *)
Lemma consume_cases m now token b :
  let '(m', ok) := consume m now token (b_operation b) (b_resource b) (b_generation b) (b_session b)
                     (b_params b) in
  m' = delete token m /\
  (ok = true <-> exists n, m !! token = Some n /\ now <= n_expiresAt n /\ bindingOf n = b).
Proof.
  assert (Hno : forall n, m !! token = Some n -> (now <= n_expiresAt n -> bindingOf n = b -> False) ->
    false = true <-> exists n, m !! token = Some n /\ now <= n_expiresAt n /\ bindingOf n = b).
  { intros n Hn Hf. split; [done|]. intros (n' & Hn' & H1 & H2). simplify_eq. by destruct Hf. }
  unfold consume. destruct (m !! token) as [n|] eqn:E.
  2: { split; [symmetry; by apply (delete_id (M:=gmap string))|]. split; [done|]. by intros (n & ? & _). }
  unfold nonceExpired. destruct (Z.ltb_spec (n_expiresAt n) now).
  { split; [done|]. apply (Hno n); [done|lia]. }
  case_bool_decide as E1; cbn [negb orb]; [|by split; [|apply (Hno n); [|intros _ <-]]].
  case_bool_decide as E2; cbn [negb orb]; [|by split; [|apply (Hno n); [|intros _ <-]]].
  destruct (Z.eqb_spec (n_generation n) (b_generation b)) as [E3|E3]; cbn [negb orb];
    [|by split; [|apply (Hno n); [|intros _ <-]]].
  case_bool_decide as E4; cbn [negb]; [|by split; [|apply (Hno n); [|intros _ <-]]].
  case_bool_decide as E5; cbn [negb]; [|by split; [|apply (Hno n); [|intros _ <-]]].
  split; [done|]. split; [|done]. intros _. exists n. split_and!; auto using binding_eta.
Qed.

(** The tokens that can still be accepted: those stored and those issued later.
    Accepted ones are among them, each at most once. *)
Lemma nonceRun_tokens os m :
  NoDup (issuedTokens os) -> (forall t, t ∈ issuedTokens os -> m !! t = None) ->
  NoDup (nonceRun m os).*1.*1 /\
  (forall t, t ∈ (nonceRun m os).*1.*1 -> is_Some (m !! t) \/ t ∈ issuedTokens os).
Proof.
  revert m. induction os as [|o os IH]; intros m Hn Hd.
  { split; [constructor|]. intros t Ht. simpl in Ht. set_solver. }
  destruct o as [token t1 t2 b ttl|now token b].
  - change (issuedTokens (NIssue token t1 t2 b ttl :: os)) with (token :: issuedTokens os) in *.
    apply NoDup_cons in Hn as [Hnot Hn]. simpl. destruct (IH (nonceStep m (NIssue token t1 t2 b ttl)).1 Hn) as [H1 H2].
    { intros t Ht. simpl. rewrite lookup_insert_ne by set_solver. apply map_lookup_filter_None. left.
      apply Hd. set_solver. }
    split; [exact H1|]. intros t Ht. destruct (H2 t Ht) as [[n Hs]|Ht']; [|set_solver].
    simpl in Hs. apply lookup_insert_Some in Hs as [[<- _]|[_ Hs]]; [set_solver|].
    apply map_lookup_filter_Some in Hs as [Hs _]. left. eauto.
  - change (issuedTokens (NConsume now token b :: os)) with (issuedTokens os) in *.
    simpl. pose proof (consume_cases m now token b) as Hc.
    destruct (consume _ _ _ _ _ _ _ _) as [m' ok]. destruct Hc as [-> Hok].
    destruct (IH (delete token m) Hn) as [H1 H2].
    { intros t Ht. apply lookup_delete_None. auto. }
    assert (H2' : forall t, t ∈ (nonceRun (delete token m) os).*1.*1 ->
      (t ≠ token /\ is_Some (m !! t)) \/ t ∈ issuedTokens os).
    { intros t Ht. destruct (H2 t Ht) as [[n Hs]|]; [|auto].
      apply lookup_delete_Some in Hs as [? ?]. left. eauto. }
    destruct ok; simpl.
    + destruct (proj1 Hok eq_refl) as (n & Hn' & _). split.
      * apply NoDup_cons. split; [|done]. intros Ht. destruct (H2' token Ht) as [[? _]|Hi]; [done|].
        rewrite (Hd token Hi) in Hn'. done.
      * intros t Ht. apply elem_of_cons in Ht as [->|Ht]; [eauto|]. naive_solver.
    + split; [done|]. naive_solver.
Qed.

(** What the store holds was issued with exactly that binding and expiry. *)
Definition issuedAs (os : list nonceOp) (token : string) (b : binding) (exp : Z) : Prop :=
  exists t1 t2 ttl, NIssue token t1 t2 b ttl ∈ os /\ exp = t1 + ttl.

Lemma nonceRun_bound os past m :
  (forall t n, m !! t = Some n -> issuedAs past t (bindingOf n) (n_expiresAt n)) ->
  forall token b now, (token, b, now) ∈ nonceRun m os ->
  exists exp, issuedAs (past ++ os) token b exp /\ now <= exp.
Proof.
  revert past m. induction os as [|o os IH]; intros past m Hm token b now Hin; [simpl in Hin; set_solver|].
  assert (Hstep : forall m', (forall t n, m' !! t = Some n -> issuedAs (past ++ [o]) t (bindingOf n) (n_expiresAt n)) ->
    (token, b, now) ∈ nonceRun m' os -> exists exp, issuedAs (past ++ o :: os) token b exp /\ now <= exp).
  { intros m' Hm' H. destruct (IH (past ++ [o]) m' Hm' _ _ _ H) as (exp & He & ?).
    rewrite <- app_assoc in He. eauto. }
  assert (Hmono : forall t b' e, issuedAs past t b' e -> issuedAs (past ++ [o]) t b' e).
  { intros t b' e (t1 & t2 & l & Hi & He). exists t1, t2, l. set_solver. }
  destruct o as [tok t1 t2 b0 l|nw tok b0]; simpl in Hin.
  - eapply Hstep; [|exact Hin]. intros t n Hl. apply lookup_insert_Some in Hl as [[<- <-]|[_ Hl]].
    + exists t1, t2, l. split; [|done]. destruct b0. set_solver.
    + apply map_lookup_filter_Some in Hl as [Hl _]. auto.
  - pose proof (consume_cases m nw tok b0) as Hc. destruct (consume _ _ _ _ _ _ _ _) as [m' ok].
    destruct Hc as [-> Hok]. apply elem_of_app in Hin as [Hin|Hin].
    + destruct ok; simpl in Hin; [|set_solver]. apply list_elem_of_singleton in Hin. simplify_eq.
      destruct (proj1 Hok eq_refl) as (n & Hn & Hle & <-).
      exists (n_expiresAt n). split; [|done]. destruct (Hm _ _ Hn) as (t1 & t2 & l & Hi & He).
      exists t1, t2, l. set_solver.
    + eapply Hstep; [|exact Hin]. intros t n Hl. apply lookup_delete_Some in Hl as [_ Hl]. auto.
Qed.

(** C12: A confirmation authorizes one action, once. In any interleaving of
    issuing and consuming, with tokens that do not repeat, no token is accepted
    twice, and every accepted one was issued for exactly the operation, resource,
    generation, session and parameters it was presented with, and no later than
    its expiry. Any attempt, even a mismatched one, burns the token. *)
Theorem nonce_single_use (os : list nonceOp) :
  NoDup (issuedTokens os) ->
  NoDup (nonceRun newNonceStore os).*1.*1 /\
  (forall token b now, (token, b, now) ∈ nonceRun newNonceStore os ->
     exists exp, issuedAs os token b exp /\ now <= exp) /\
  (forall m now token b, (nonceStep m (NConsume now token b)).1 !! token = None).
Proof.
  intros Hn. split_and!.
  - apply nonceRun_tokens; [done|]. intros. apply lookup_empty.
  - intros token b now Hin. apply (nonceRun_bound os [] ∅); [|done].
    intros t n Hl. by rewrite lookup_empty in Hl.
  - intros m now token b. simpl. pose proof (consume_cases m now token b) as Hc.
    destruct (consume _ _ _ _ _ _ _ _) as [m' ok]. destruct Hc as [-> _]. apply lookup_delete_eq.
Qed.

Definition sampleBinding : binding := mkBinding "pane.close" "p1" 3 "aud" "h".
Definition sampleNonceOps : list nonceOp :=
  [NIssue "t" 10 11 sampleBinding 60; NConsume 20 "t" sampleBinding; NConsume 21 "t" sampleBinding].

Lemma nonce_single_use_witness :
  nonceRun newNonceStore sampleNonceOps = [("t", sampleBinding, 20)] /\
  NoDup (nonceRun newNonceStore sampleNonceOps).*1.*1.
Proof.
  split; [vm_compute; reflexivity|].
  apply (nonce_single_use sampleNonceOps). apply NoDup_singleton.
Defined.

(** ** Histories of the idempotency cache *)

Inductive idemOp :=
| IPeek (now : Z) (key fp : string)
| IReserve (t1 t2 : Z) (key fp : string) (ttl : Z)
| IComplete (now : Z) (key fp : string) (status : Z) (body : list byte) (ttl : Z)
| IRelease (key : string).

Definition idemStep (m : idemStore) (o : idemOp) : idemStore :=
  match o with
  | IPeek now key fp => (peek m now key fp).1
  | IReserve t1 t2 key fp ttl => (reserve m t1 t2 key fp ttl).1
  | IComplete now key fp status body ttl => complete m now key fp status body ttl
  | IRelease key => release m key
  end.

Definition idemRun (m : idemStore) (os : list idemOp) : idemStore := fold_left idemStep os m.

(** Calls that cannot end the life of entry [e] of [key]: clock readings up to
    its expiry, and nobody completes the key or, while it is pending, releases it. *)
Definition undisturbed (key : string) (e : idemEntry) (o : idemOp) : Prop :=
  match o with
  | IPeek now _ _ => now <= e_expiresAt e
  | IReserve t1 _ _ _ _ => t1 <= e_expiresAt e
  | IComplete _ k _ _ _ _ => k ≠ key
  | IRelease k => k = key -> e_pending e = false
  end.

Lemma idemGC_live m now key e : m !! key = Some e -> now <= e_expiresAt e -> idemGC now m !! key = Some e.
Proof.
  intros H Hle. apply map_lookup_filter_Some. split; [done|]. unfold idemExpired. simpl. lia.
Qed.

Lemma idemStep_keeps m key e o : m !! key = Some e -> undisturbed key e o -> idemStep m o !! key = Some e.
Proof.
  intros Hm Hu. destruct o as [now k fp|t1 t2 k fp l|now k fp st body l|k]; simpl in *.
  - unfold peek. destruct (m !! k) as [e'|] eqn:E; [|done].
    destruct (idemExpired now e') eqn:Ex; [|repeat case_match; done].
    simpl. rewrite lookup_delete_ne; [done|]. intros ->. simplify_eq. unfold idemExpired in Ex. lia.
  - pose proof (idemGC_live m t1 key e Hm Hu) as Hg. unfold reserve.
    destruct (idemGC t1 m !! k) eqn:E; [repeat case_match; done|]. simpl.
    rewrite lookup_insert_ne; [done|]. intros ->. congruence.
  - unfold complete. by rewrite lookup_insert_ne.
  - unfold release. destruct (m !! k) as [e'|] eqn:E; [|done]. destruct (e_pending e') eqn:Ep; [|done].
    rewrite lookup_delete_ne; [done|]. intros ->. simplify_eq. rewrite Hu in Ep; done.
Qed.

Lemma idemRun_keeps m key e os :
  m !! key = Some e -> Forall (undisturbed key e) os -> idemRun m os !! key = Some e.
Proof.
  unfold idemRun. intros Hm Hos. revert m Hm. induction Hos as [|o os Ho _ IH]; intros m Hm; [done|].
  simpl. apply IH. by apply idemStep_keeps.
Qed.

(** What the two lookups answer on a live entry. *)
Definition answer (e : idemEntry) (fp : string) : idemResult :=
  if bool_decide (e_fingerprint e = fp) then (if e_pending e then idemInFlight else idemDone e)
  else idemMismatch.

Lemma reserve_live m key e fp t1 t2 l :
  m !! key = Some e -> t1 <= e_expiresAt e -> (reserve m t1 t2 key fp l).2 = answer e fp.
Proof.
  intros Hm Ht. unfold reserve, answer. rewrite (idemGC_live m t1 key e Hm Ht).
  case_bool_decide; simpl; [|done]. by destruct (e_pending e).
Qed.

Lemma reserve_new m t1 t2 key fp l :
  (reserve m t1 t2 key fp l).2 = idemReserved ->
  (reserve m t1 t2 key fp l).1 !! key = Some (mkEntry 0 [] (t2 + l) true fp).
Proof.
  unfold reserve. destruct (idemGC t1 m !! key); [repeat case_match; done|].
  intros _. apply lookup_insert_eq.
Qed.

(** A request executes once. From the moment a key is reserved until it is
    resolved or its reservation expires, whatever other calls interleave, every
    further reservation of that key is refused: as in progress for the same
    request, as a mismatch for a different one. *)
Theorem reserve_exclusive (m : idemStore) (t1 t2 l : Z) (key fp : string) (os : list idemOp)
  (u1 u2 l' : Z) (fp' : string) :
  (reserve m t1 t2 key fp l).2 = idemReserved ->
  Forall (undisturbed key (mkEntry 0 [] (t2 + l) true fp)) os -> u1 <= t2 + l ->
  (reserve (idemRun (reserve m t1 t2 key fp l).1 os) u1 u2 key fp' l').2 =
    if bool_decide (fp = fp') then idemInFlight else idemMismatch.
Proof.
  intros Hr Hos Hu. apply reserve_new in Hr.
  rewrite (reserve_live _ _ _ _ _ _ _ (idemRun_keeps _ _ _ _ Hr Hos) Hu). done.
Qed.

Lemma reserve_exclusive_witness :
  (reserve (idemRun (reserve newIdemStore 0 0 "k" "f" 30).1 [IPeek 5 "k" "f"; IReserve 6 6 "j" "f" 9])
     10 10 "k" "f" 30).2 = idemInFlight.
Proof.
  apply (reserve_exclusive newIdemStore 0 0 30 "k" "f" [IPeek 5 "k" "f"; IReserve 6 6 "j" "f" 9]
           10 10 30 "f").
  - reflexivity.
  - repeat constructor; simpl; lia.
  - lia.
Defined.

(** A retry gets the stored response. After [complete], whatever other calls
    interleave (even a release of the same key), until the entry expires every
    lookup of the key with the same fingerprint returns exactly the stored status
    and body, and every lookup with another fingerprint is refused. *)
Theorem complete_replayed (m : idemStore) (now status l : Z) (key fp : string) (body : list byte)
  (os : list idemOp) (t : Z) (fp' : string) (u2 l' : Z) :
  let e := mkEntry status body (now + l) false fp in
  Forall (undisturbed key e) os -> t <= now + l ->
  let m' := idemRun (complete m now key fp status body l) os in
  peek m' t key fp' = (m', if bool_decide (fp = fp') then idemDone e else idemMismatch) /\
  (reserve m' t u2 key fp' l').2 = if bool_decide (fp = fp') then idemDone e else idemMismatch.
Proof.
  intros e Hos Ht m'. assert (Hm : m' !! key = Some e)
    by (apply idemRun_keeps; [apply lookup_insert_eq|done]).
  split; [|by rewrite (reserve_live _ _ e)].
  unfold peek. rewrite Hm. unfold idemExpired. simpl.
  destruct (Z.ltb_spec (now + l) t); [lia|]. by case_bool_decide.
Qed.

Lemma complete_replayed_witness :
  (reserve (idemRun (complete newIdemStore 0 "k" "f" 200 [x7b] 60) [IRelease "k"; IPeek 5 "k" "g"])
     50 50 "k" "f" 30).2 = idemDone (mkEntry 200 [x7b] 60 false "f").
Proof.
  apply (complete_replayed newIdemStore 0 200 60 "k" "f" [x7b] [IRelease "k"; IPeek 5 "k" "g"] 50 "f" 50 30).
  - repeat constructor; simpl; lia.
  - lia.
Defined.

(** A reservation does not outlive its owner's right to it: [release] after
    the reservation expired drops the reservation another request has taken in
    the meantime, and a third request is then admitted while the second still
    runs. *)
Example release_drops_successor :
  let m1 := (reserve newIdemStore 0 0 "k" "f" 30).1 in
  let second := reserve m1 31 31 "k" "f" 30 in
  let third := reserve (release second.1 "k") 32 32 "k" "f" 30 in
  second.2 = idemReserved /\ third.2 = idemReserved.
Proof. vm_compute. split; reflexivity. Qed.

(** Keys of different sessions or requests never collide. *)
Theorem idemKey_inj (s1 r1 s2 r2 : string) :
  nulFree s1 -> nulFree s2 -> idemKey s1 r1 = idemKey s2 r2 -> s1 = s2 /\ r1 = r2.
Proof. apply nul_split. Qed.

Lemma idemKey_inj_witness : idemKey "a" "b" = idemKey "a" "b" -> "a" = "a" /\ "b" = "b".
Proof. apply (idemKey_inj "a" "b" "a" "b"); apply (bool_decide_unpack _); reflexivity. Defined.
