(* ===== verification/Json.v ===== *)
(** * Json: what the relay uses of encoding/json

    A JSON value as the decoder sees it, its members in the order they are
    written and with duplicates, and the two ways the relay reads an object: into
    a map (exact keys) and into a struct (keys matched without regard to case).
    The lexing of bytes into a value and back is the library's. *)

From S2P Require Import Prelude GoStr.

Inductive json :=
| JNull
| JBool (b : bool)
| JNum (literal : string)
| JStr (s : string)
| JArr (xs : list json)
| JObj (members : list (string * json)).

(** ** Into [map[string]json.RawMessage]: the last member with the key wins *)

Fixpoint mapLookup (members : list (string * json)) (field : string) : option json :=
  match members with
  | [] => None
  | (k, v) :: r =>
      match mapLookup r field with
      | Some v' => Some v'
      | None => if bool_decide (k = field) then Some v else None
      end
  end.

(** [paramString] (server/mutations.go) and [stringField] (integration/mutate.go),
    the same code: absent params, a value that is not an object, an absent field
    and a field that is not a string all read as the empty string; a null field
    leaves the variable empty. *)
Definition paramString (raw : option json) (field : string) : string :=
  match raw with
  | Some (JObj members) =>
      match mapLookup members field with
      | Some (JStr s) => s
      | _ => ""
      end
  | _ => ""
  end.

(** ** Into a struct, with [DisallowUnknownFields]

    Each member is matched to a field by its exact name, or else without regard
    to case; an unmatched member is an error, and so is a value of the wrong
    type. A null leaves the field as it is. Members are processed in order, so a
    later one overwrites an earlier one of the same field. *)

Inductive kind := KString | KBool | KInt | KFloat | KStrings | KStringMap | KStruct (fields : list (string * kind)).

Definition schema : Type := list (string * kind).

Definition foldEq (a b : string) : bool := EqualFold (bytesOf a) (bytesOf b).

Definition findField (sc : schema) (key : string) : option (string * kind) :=
  match List.find (fun f => bool_decide (f.1 = key)) sc with
  | Some f => Some f
  | None => List.find (fun f => foldEq f.1 key) sc
  end.

Section Decode.
(** Whether a number literal fits an [int] field (every literal fits a float
    field unless it is out of range). *)
Context (numOk : kind -> string -> bool).

Definition isStringOrNull (v : json) : bool := match v with JStr _ | JNull => true | _ => false end.

Fixpoint typeOk (k : kind) (v : json) {struct v} : bool :=
  match v with
  | JNull => true
  | JBool _ => match k with KBool => true | _ => false end
  | JNum n => match k with KInt | KFloat => numOk k n | _ => false end
  | JStr _ => match k with KString => true | _ => false end
  | JArr xs => match k with KStrings => forallb isStringOrNull xs | _ => false end
  | JObj ms =>
      match k with
      | KStringMap => forallb (fun kv => isStringOrNull kv.2) ms
      | KStruct sc =>
          forallb (fun kv => match findField sc kv.1 with
                             | Some (_, k') => typeOk k' kv.2
                             | None => false
                             end) ms
      | _ => false
      end
  end.

(** Decoding an object into a nested struct or map that already has entries
    adds to it; any other value replaces what was there. (A repeated array with
    null elements would keep the earlier elements; here they read as empty.) *)
Definition mergeValue (old : option json) (v : json) : json :=
  match old, v with
  | Some (JObj a), JObj b => JObj (a ++ b)
  | _, _ => v
  end.

(** The struct after decoding: the fields that were set, by name. *)
Definition structOf (sc : schema) (ms : list (string * json)) : gmap string json :=
  fold_left (fun st kv =>
    match findField sc kv.1, kv.2 with
    | Some (_, _), JNull => st
    | Some (name, _), v => <[name := mergeValue (st !! name) v]> st
    | None, _ => st
    end) ms ∅.

(** [decode]: absent params read as an empty object; a top-level null leaves
    the struct zero. *)
Definition decode (sc : schema) (raw : option json) : option (gmap string json) :=
  match raw with
  | None => Some ∅
  | Some JNull => Some ∅
  | Some (JObj ms) => if typeOk (KStruct sc) (JObj ms) then Some (structOf sc ms) else None
  | Some _ => None
  end.
End Decode.

(** Reading fields of a decoded struct; an unset field has the zero value. *)
Definition fstr (st : gmap string json) (name : string) : string :=
  match st !! name with Some (JStr s) => s | _ => "" end.
Definition fbool (st : gmap string json) (name : string) : bool :=
  match st !! name with Some (JBool b) => b | _ => false end.
Definition fnum (st : gmap string json) (name : string) : option string :=
  match st !! name with Some (JNum n) => Some n | _ => None end.
Definition fstrs (st : gmap string json) (name : string) : list string :=
  match st !! name with
  | Some (JArr xs) => (fun v => match v with JStr s => s | _ => "" end) <$> xs
  | _ => []
  end.
Definition fenv (st : gmap string json) (name : string) : gmap string string :=
  match st !! name with
  | Some (JObj ms) =>
      fold_left (fun e kv => <[kv.1 := match kv.2 with JStr s => s | _ => "" end]> e) ms ∅
  | _ => ∅
  end.

(** ** When the two readings agree *)

(** [field] is spelled exactly in every member that a struct with [sc] would
    match to it. *)
Definition unaliased (sc : schema) (field : string) (ms : list (string * json)) : Prop :=
  Forall (fun kv => forall k, findField sc kv.1 = Some (field, k) -> kv.1 = field) ms.

(** No explicit null for [field]. *)
Definition nonNull (field : string) (ms : list (string * json)) : Prop :=
  Forall (fun kv => kv.1 = field -> kv.2 ≠ JNull) ms.

Lemma mapLookup_snoc ms k v field :
  mapLookup (ms ++ [(k, v)]) field = if bool_decide (k = field) then Some v else mapLookup ms field.
Proof.
  induction ms as [|[k' v'] ms IH]; simpl; [done|]. rewrite IH. by case_bool_decide.
Qed.

Lemma structOf_snoc sc ms kv :
  structOf sc (ms ++ [kv]) =
    match findField sc kv.1, kv.2 with
    | Some (_, _), JNull => structOf sc ms
    | Some (name, _), v => <[name := mergeValue (structOf sc ms !! name) v]> (structOf sc ms)
    | None, _ => structOf sc ms
    end.
Proof. unfold structOf. by rewrite fold_left_app. Qed.

Lemma findField_exact sc field k :
  NoDup sc.*1 -> (field, k) ∈ sc -> findField sc field = Some (field, k).
Proof.
  intros Hn Hin. unfold findField.
  assert (E : List.find (fun f => bool_decide (f.1 = field)) sc = Some (field, k)); [|by rewrite E].
  induction sc as [|[n k'] sc IH]; [set_solver|]. apply NoDup_cons in Hn as [Hnot Hn].
  simpl. case_bool_decide as Ek; simpl in *.
  - subst. apply elem_of_cons in Hin as [Hin|Hin]; [by simplify_eq|].
    exfalso. apply Hnot. apply list_elem_of_fmap. by exists (field, k).
  - apply IH; [done|]. apply elem_of_cons in Hin as [Hin|Hin]; [by simplify_eq|done].
Qed.

Definition strOfJson (o : option json) : string := match o with Some (JStr s) => s | _ => "" end.

Lemma strOfJson_merge old v : strOfJson (Some (mergeValue old v)) = strOfJson (Some v).
Proof. destruct old as [[]|], v; done. Qed.

(** Under the two conditions the struct and the map read the same string. *)
Lemma decode_agrees sc field k ms :
  NoDup sc.*1 -> (field, k) ∈ sc -> unaliased sc field ms -> nonNull field ms ->
  fstr (structOf sc ms) field = paramString (Some (JObj ms)) field.
Proof.
  intros Hn Hin. change (fstr (structOf sc ms) field) with (strOfJson (structOf sc ms !! field)).
  change (paramString (Some (JObj ms)) field) with (strOfJson (mapLookup ms field)).
  induction ms as [|[key v] ms IH] using rev_ind; intros Hu Hv; [done|].
  apply Forall_app in Hu as [Hu Hu1], Hv as [Hv Hv1]. specialize (IH Hu Hv).
  rewrite Forall_singleton in Hu1, Hv1. simpl in Hu1, Hv1.
  rewrite structOf_snoc, mapLookup_snoc. cbn [fst snd]. case_bool_decide as Ek.
  - subst key. rewrite (findField_exact sc field k Hn Hin). specialize (Hv1 eq_refl).
    destruct v; [done|..]; rewrite lookup_insert_eq, strOfJson_merge; done.
  - destruct (findField sc key) as [[name k']|] eqn:Ef; [|done].
    assert (name ≠ field) by (intros ->; apply Ek; by eapply Hu1).
    destruct v; [done|..]; by rewrite lookup_insert_ne.
Qed.

(** ** The audience claim of an assertion (auth/jwt.go): a string or an array *)

(** [audienceValue.UnmarshalJSON]; a null element of an array is the empty string. *)
Definition audienceValue (j : json) : option (list string) :=
  match j with
  | JNull => Some []
  | JArr xs => mapM (fun x => match x with JStr s => Some s | JNull => Some "" | _ => None end) xs
  | JStr s => Some [s]
  | _ => None
  end.

(** Every audience read, other than the empty one, was written out in the claim. *)
Lemma audience_written j l a : audienceValue j = Some l -> a ∈ l -> a ≠ "" ->
  j = JStr a \/ exists xs, j = JArr xs /\ JStr a ∈ xs.
Proof.
  destruct j as [| | |s|xs|]; simpl; try done.
  - intros [= <-]. set_solver.
  - intros [= <-] ->%list_elem_of_singleton _. by left.
  - intros Hm Ha Hne. right. exists xs. split; [done|]. apply mapM_Some in Hm.
    apply list_elem_of_lookup in Ha as [i Hi]. destruct (Forall2_lookup_r _ _ _ _ _ Hm Hi) as (x & Hx & Hf).
    apply list_elem_of_lookup. exists i. destruct x; simplify_eq; done.
Qed.

Example audiences :
  (audienceValue (JStr "a"), audienceValue (JArr [JStr "a"; JNull]), audienceValue (JArr [JNum "1"]), audienceValue JNull) =
  (Some ["a"], Some ["a"; ""], None, Some []).
Proof. done. Qed.
