(* ===== verification/Keys.v ===== *)
(** * Keys: internal/herdr/keys.go and the identifier rule of agents.go

    Validation of logical keys before they reach Herdr, and of agent names. *)

From S2P Require Import Prelude GoStr.

(** [strings.ToLower] seen through comparison with ASCII words: ASCII capitals
    are lowered, and U+0130 and U+212A are the two other runes whose lower case
    is ASCII. Any other rune stays outside ASCII and is left as it is. *)
Definition lowerRune (r : Z) : Z :=
  if (65 <=? r) && (r <=? 90) then r + 32
  else if r =? 304 then 105 else if r =? 8490 then 107 else r.

Definition ToLower (s : list byte) : list Z := lowerRune <$> runes s.

Definition word (s : string) : list Z := runes (bytesOf s).

Definition namedKeys : list (list Z) := word <$>
  ["enter"; "return"; "tab"; "esc"; "escape"; "backspace"; "delete"; "del"; "insert";
   "space"; "up"; "down"; "left"; "right"; "home"; "end"; "pageup"; "pagedown"].

Definition modifiers : list (list Z) := word <$> ["ctrl"; "alt"; "shift"; "meta"; "super"].

Definition inWords (w : list Z) (ws : list (list Z)) : bool := bool_decide (w ∈ ws).

(** The loop of [isFunctionKey]: [n] is a 64-bit [int]. *)
Fixpoint functionNumber (n : Z) (rs : list Z) : option Z :=
  match rs with
  | [] => Some n
  | r :: rs' =>
      if (r <? 48) || (57 <? r) then None
      else functionNumber (int64 (n * 10 + (r - 48))) rs'
  end.

Definition isFunctionKey (s : list Z) : bool :=
  match s with
  | r :: ((_ :: _) as digits) =>
      if negb (r =? 102) then false
      else match functionNumber 0 digits with
           | Some n => (1 <=? n) && (n <=? 24)
           | None => false
           end
  | _ => false
  end.

Definition validBaseKey (base : list byte) : bool :=
  if bool_decide (base = []) then false
  else
    let lower := ToLower base in
    if inWords lower namedKeys then true
    else if isFunctionKey lower then true
    else match runes base with
         | [r] => (32 <=? r) && negb (r =? 127)
         | _ => false
         end.

(** All parts but the last must be modifiers. *)
Fixpoint validParts (parts : list (list byte)) : bool :=
  match parts with
  | [] => false
  | [base] => validBaseKey base
  | m :: rest => if inWords (ToLower m) modifiers then validParts rest else false
  end.

Definition ValidateKey (key : list byte) : bool :=
  if bool_decide (key = []) then false else validParts (splitOn x2b key).

(** The first invalid key, if any; an empty batch is invalid. *)
Fixpoint firstInvalid (keys : list (list byte)) : option (list byte) :=
  match keys with
  | [] => None
  | k :: r => if negb (ValidateKey k) then Some k else firstInvalid r
  end.

Definition ValidateKeys (keys : list (list byte)) : list byte * bool :=
  match keys with
  | [] => ([], false)
  | _ => match firstInvalid keys with Some k => (k, false) | None => ([], true) end
  end.

(** ** Agent names *)

Definition nameStart (b : byte) : bool := between 97 122 b.
Definition nameByte (b : byte) : bool :=
  between 97 122 b || between 48 57 b || (bz b =? 95) || (bz b =? 45).

Definition ValidAgentName (name : list byte) : bool :=
  match name with
  | [] => false
  | b :: rest => if (32 <? length name)%nat then false
                 else if negb (nameStart b) then false else forallb nameByte rest
  end.

(** ** Lemmas *)

Lemma second3_high b0 b1 : second3 b0 b1 = true -> 128 <= bz b1.
Proof.
  unfold second3. repeat case_match; intros Hs; apply between_spec in Hs; lia.
Qed.

Lemma second4_high b0 b1 : second4 b0 b1 = true -> 128 <= bz b1.
Proof.
  unfold second4. repeat case_match; intros Hs; apply between_spec in Hs; lia.
Qed.

(** An ASCII byte of a string is one of its runes. *)
Lemma ascii_rune b s : b ∈ s -> bz b < 128 -> bz b ∈ runes s.
Proof.
  intros Hin Hb. remember (length s) as n eqn:En. revert s En Hin.
  induction n as [n IH] using lt_wf_ind. intros [|b0 s1] -> Hin; [set_solver|].
  assert (Hnext : forall c rest r, b0 :: s1 = c ++ rest -> c ≠ [] -> Forall (fun x => 128 <= bz x) c ->
    bz b ∈ r :: runes rest).
  { intros c rest r E Hc Hhigh. rewrite E in Hin. apply elem_of_app in Hin as [Hin|Hin].
    - rewrite Forall_forall in Hhigh. apply Hhigh in Hin. lia.
    - apply elem_of_cons. right. apply (IH (length rest)); [|done|done].
      rewrite E, length_app. destruct c; simpl; [done|lia]. }
  cbn [runes]. destruct (bz b0 <? 128) eqn:E1.
  { apply elem_of_cons in Hin as [->|Hin]; [set_solver|]. apply elem_of_cons. right.
    apply (IH (length s1)); simpl; auto. }
  apply Z.ltb_ge in E1.
  assert (Hbad : bz b ∈ RuneError :: runes s1) by (by apply (Hnext [b0] s1); [| |constructor]).
  destruct s1 as [|b1 s2]; [done|].
  destruct (_ && _) eqn:E2.
  { bool_hyps. rewrite !between_spec in *. apply (Hnext [b0; b1] s2); [done|done|].
    repeat constructor; lia. }
  destruct s2 as [|b2 s3]; [done|]. destruct (_ && _ && _) eqn:E3.
  { bool_hyps. rewrite !between_spec in *. apply (Hnext [b0; b1; b2] s3); [done|done|].
    repeat constructor; try lia. by eapply second3_high. }
  destruct s3 as [|b3 s4]; [done|]. destruct (_ && _ && _ && _) eqn:E4; [|done].
  bool_hyps. rewrite !between_spec in *. apply (Hnext [b0; b1; b2; b3] s4); [done|done|].
  repeat constructor; try lia. by eapply second4_high.
Qed.

(** No C0 control character and no DEL. *)
Definition noControl (s : list byte) : Prop := Forall (fun b => 32 <= bz b /\ bz b ≠ 127) s.

Lemma noControl_runes s : Forall (fun r => 32 <= r /\ r ≠ 127) (runes s) -> noControl s.
Proof.
  unfold noControl. rewrite !Forall_forall. intros H b Hb. destruct (Z.lt_ge_cases (bz b) 128) as [Hl|Hl]; [|lia].
  by apply H, ascii_rune.
Qed.

Lemma lowerRune_control r : 0 <= r -> r < 32 \/ r = 127 -> lowerRune r = r.
Proof. unfold lowerRune. intros. repeat case_match; lia. Qed.

(** It is enough that the lowered runes are printable. *)
Lemma noControl_lower s : Forall (fun r => 32 <= r /\ r ≠ 127) (ToLower s) -> noControl s.
Proof.
  intros H. apply noControl_runes. unfold ToLower in H. rewrite Forall_fmap in H.
  pose proof (runes_valid s) as Hv. rewrite !Forall_forall in *. intros r Hr.
  specialize (H r Hr). specialize (Hv r Hr). simpl in H. unfold validRune in Hv.
  assert (0 <= r) by lia. pose proof (lowerRune_control r). lia.
Qed.

Lemma functionNumber_digits n rs v :
  functionNumber n rs = Some v -> Forall (fun r => 48 <= r <= 57) rs.
Proof.
  revert n. induction rs as [|r rs IH]; intros n; simpl; [constructor|].
  destruct (_ || _) eqn:E; [done|]. bool_hyps. intros Hf. constructor; [lia|]. eauto.
Qed.

Lemma isFunctionKey_shape s :
  isFunctionKey s = true -> exists ds, s = 102 :: ds /\ ds ≠ [] /\ Forall (fun r => 48 <= r <= 57) ds.
Proof.
  unfold isFunctionKey. destruct s as [|r [|d ds]]; [done..|].
  destruct (Z.eqb_spec r 102) as [->|]; [|done]. cbn [negb].
  destruct (functionNumber 0 (d :: ds)) as [n|] eqn:E; [|done]. intros _.
  exists (d :: ds). split_and!; [done|done|]. by eapply functionNumber_digits.
Qed.

(** Words of the tables are printable. *)
Lemma inWords_printable w ws :
  Forall (Forall (fun r => 32 <= r /\ r ≠ 127)) ws -> inWords w ws = true ->
  Forall (fun r => 32 <= r /\ r ≠ 127) w.
Proof.
  intros H Hw. apply bool_decide_eq_true in Hw. rewrite Forall_forall in H. auto.
Qed.

Lemma tables_printable :
  Forall (Forall (fun r => 32 <= r /\ r ≠ 127)) namedKeys /\
  Forall (Forall (fun r => 32 <= r /\ r ≠ 127)) modifiers.
Proof. split; apply (bool_decide_unpack _); vm_compute; exact I. Qed.

Lemma validBaseKey_printable base : validBaseKey base = true -> noControl base.
Proof.
  unfold validBaseKey. case_bool_decide; [done|]. destruct (inWords _ _) eqn:En.
  { intros _. apply noControl_lower, (inWords_printable _ namedKeys); [apply tables_printable|done]. }
  destruct (isFunctionKey _) eqn:Ef.
  { intros _. apply noControl_lower. apply isFunctionKey_shape in Ef as (ds & -> & _ & Hd).
    constructor; [lia|]. eapply Forall_impl; [exact Hd|]. simpl. lia. }
  destruct (runes base) as [|r [|? ?]] eqn:Er; [done| |done]. intros H1. bool_hyps.
  apply noControl_runes. rewrite Er. repeat constructor; lia.
Qed.

Lemma validParts_printable parts : validParts parts = true -> Forall noControl parts.
Proof.
  induction parts as [|p [|q ps] IH]; intros Hv; [done|..].
  - constructor; [by apply validBaseKey_printable|constructor].
  - change (validParts (p :: q :: ps)) with
      (if inWords (ToLower p) modifiers then validParts (q :: ps) else false) in Hv.
    destruct (inWords _ _) eqn:En; [|done]. constructor; [|auto].
    apply noControl_lower, (inWords_printable _ modifiers); [apply tables_printable|done].
Qed.

Lemma noControl_join ps : Forall noControl ps -> noControl (joinWith x2b ps).
Proof.
  induction 1 as [|p [|q ps] Hp _ IH]; simpl; [constructor|done|].
  unfold noControl in *. rewrite Forall_app. split; [done|]. constructor; [by vm_compute|]. apply IH.
Qed.

Lemma ValidateKeys_all keys :
  (ValidateKeys keys).2 = true -> keys ≠ [] /\ Forall (fun k => ValidateKey k = true) keys.
Proof.
  unfold ValidateKeys. destruct keys as [|k ks]; [done|].
  destruct (firstInvalid (k :: ks)) eqn:Ef; [done|]. intros _. split; [done|].
  revert Ef. generalize (k :: ks). intros l. induction l as [|x l IH]; simpl; [constructor|].
  destruct (ValidateKey x) eqn:Ex; [|done]. auto.
Qed.

(** ** Properties *)

(** An accepted batch of keys is not empty and carries no C0 control
    character and no DEL byte in any of its keys: no control string reaches
    Herdr through [agent.send_keys]. *)
Theorem ValidateKeys_no_control (keys : list (list byte)) (bad : list byte) :
  ValidateKeys keys = (bad, true) -> keys ≠ [] /\ Forall noControl keys.
Proof.
  intros H. assert (Hk : (ValidateKeys keys).2 = true) by (by rewrite H).
  apply ValidateKeys_all in Hk as [Hne Hf]. split; [done|].
  eapply Forall_impl; [exact Hf|]. intros x Hx. simpl in Hx.
  unfold ValidateKey in Hx. case_bool_decide; [done|].
  destruct (splitOn_spec x2b x) as [<- _]. by apply noControl_join, validParts_printable.
Qed.

Lemma ValidateKeys_no_control_witness :
  ValidateKeys [bytesOf "ctrl+c"; bytesOf "F12"] = ([], true) /\
  Forall noControl [bytesOf "ctrl+c"; bytesOf "F12"].
Proof.
  split; [vm_compute; reflexivity|].
  apply (ValidateKeys_no_control [bytesOf "ctrl+c"; bytesOf "F12"] []). vm_compute. reflexivity.
Defined.

(** A function-key number is accumulated in a 64-bit [int], so a long digit
    string wraps around: f18446744073709551617 passes as f1. *)
Example function_key_wraps :
  ValidateKey (bytesOf "f1") = true /\ ValidateKey (bytesOf "f25") = false /\
  ValidateKey (bytesOf "f18446744073709551617") = true.
Proof. vm_compute. auto. Qed.

(** The C1 control character U+009B (CSI), encoded or as a bare byte, passes
    as a printable character, and a literal plus sign does not pass. *)
Example key_literals :
  ValidateKey [xc2; x9b] = true /\ ValidateKey [x9b] = true /\ ValidateKey (bytesOf "+") = false.
Proof. vm_compute. auto. Qed.

(** An accepted agent name is one lower-case letter followed by at most 31
    lower-case letters, digits, underscores and hyphens, and every such name is
    accepted. *)
Theorem ValidAgentName_exact (name : list byte) :
  ValidAgentName name = true <->
  exists b rest, name = b :: rest /\ (length rest <= 31)%nat /\ 97 <= bz b <= 122 /\
    Forall (fun c => 97 <= bz c <= 122 \/ 48 <= bz c <= 57 \/ bz c = 95 \/ bz c = 45) rest.
Proof.
  assert (Hb : forall c, nameByte c = true <->
    97 <= bz c <= 122 \/ 48 <= bz c <= 57 \/ bz c = 95 \/ bz c = 45).
  { intros c. unfold nameByte. rewrite !orb_true_iff, !between_spec, !Z.eqb_eq. tauto. }
  unfold ValidAgentName. destruct name as [|b rest]; [split; [done|by intros (? & ? & ? & _)]|].
  destruct (Nat.ltb_spec 32 (length (b :: rest))) as [Hl|Hl]; simpl in Hl.
  { split; [done|]. intros (b' & rest' & [= <- <-] & ? & _). lia. }
  unfold nameStart. destruct (between 97 122 b) eqn:Es; simpl.
  - apply between_spec in Es. rewrite forallb_forall. split.
    + intros Hf. exists b, rest. split_and!; try done; try lia. apply Forall_forall. intros c Hc.
      apply Hb, Hf. by apply list_elem_of_In.
    + intros (b' & rest' & [= <- <-] & _ & _ & Hf) c Hc. apply Hb.
      rewrite Forall_forall in Hf. apply Hf. by apply list_elem_of_In.
  - split; [done|]. intros (b' & rest' & [= <- <-] & _ & Hr & _).
    apply between_spec in Hr. congruence.
Qed.
