(* ===== verification/Dispatch.v ===== *)
(** * Dispatch: internal/integration/mutate.go, internal/integration/agentkinds.go,
    internal/herdr/mutations.go and the agent operations of internal/herdr/agents.go

    From an allowlisted operation name and its JSON params to the typed Herdr
    call, and from the call to the request that goes over the socket. *)

From S2P Require Import Prelude GoStr Json Keys Session.

(** ** Typed calls

    A number is the literal that was sent ([None] for the zero value); an
    environment is a map. *)

Definition number : Type := option string.
Notation env := (gmap string string).

Inductive PaneMoveDestination :=
| MoveToTab (tabID split targetPane : string) (ratio : number)
| MoveToNewTab (workspaceID label : string)
| MoveToNewWorkspace (label tabLabel : string).

Inductive HerdrCall :=
| WorkspaceCreate (cwd label : string) (e : env) (focus : bool)
| WorkspaceFocus (workspaceID : string)
| WorkspaceRename (workspaceID label : string)
| WorkspaceClose (workspaceID : string)
| TabCreate (workspaceID cwd label : string) (e : env) (focus : bool)
| TabFocus (tabID : string)
| TabRename (tabID label : string)
| TabMove (tabID : string) (insertIndex : number)
| TabClose (tabID : string)
| PaneFocus (paneID : string)
| PaneSplit (paneID direction : string) (ratio : number) (cwd : string) (e : env) (focus : bool)
| PaneResize (paneID direction : string) (amount : number)
| PaneZoom (paneID mode : string)
| PaneSwap (sourcePaneID targetPaneID : string)
| PaneMove (paneID : string) (dest : PaneMoveDestination) (focus : bool)
| PaneRename (paneID label : string)
| PaneClose (paneID : string)
| AgentFocus (target : string)
| AgentPrompt (target text : string)
| AgentSendKeys (target : string) (keys : list string)
| AgentRename (target name : string)
| AgentStart (name knd paneID : string) (args : list string)
| WorktreeCreate (workspaceID cwd branch base path label : string) (focus : bool)
| WorktreeOpen (workspaceID cwd branch path label : string) (focus : bool)
| WorktreeRemove (workspaceID : string) (force : bool).

(** The identifier the call acts on; creations have none. *)
Definition callTarget (c : HerdrCall) : string :=
  match c with
  | WorkspaceCreate _ _ _ _ | TabCreate _ _ _ _ _ | WorktreeCreate _ _ _ _ _ _ _
  | WorktreeOpen _ _ _ _ _ _ => ""
  | WorkspaceFocus i | WorkspaceRename i _ | WorkspaceClose i
  | TabFocus i | TabRename i _ | TabMove i _ | TabClose i
  | PaneFocus i | PaneSplit i _ _ _ _ _ | PaneResize i _ _ | PaneZoom i _ | PaneSwap i _
  | PaneMove i _ _ | PaneRename i _ | PaneClose i
  | AgentFocus i | AgentPrompt i _ | AgentSendKeys i _ | AgentRename i _ | AgentStart _ _ i _
  | WorktreeRemove i _ => i
  end.

Inductive dispatchError := InvalidParams | NotImplemented | KindsUnavailable.

Section Dispatch.
(** Facts about number literals the source tests: whether one fits the field's
    type, and its sign. *)
Context (numOk : kind -> string -> bool) (positive negative : string -> bool).

Definition isPositive (n : number) : bool := match n with Some l => positive l | None => false end.
Definition isNegative (n : number) : bool := match n with Some l => negative l | None => false end.

(** ** The client: parameter checks and the request *)

Definition optField (name s : string) : list (string * json) :=
  if nonempty s then [(name, JStr s)] else [].
Definition numField (name : string) (n : number) : list (string * json) :=
  match n with Some l => if positive l then [(name, JNum l)] else [] | None => [] end.
(** [json.Marshal] sorts the keys of a map; an empty one is omitted. *)
Definition envField (e : env) : list (string * json) :=
  if (size e =? 0)%nat then []
  else [("env", JObj ((fun kv => (kv.1, JStr kv.2)) <$> sortBy (fun kv => (kv.1, "")) (map_to_list e)))].

Definition splitValid (d : string) : bool := bool_decide (d = "right") || bool_decide (d = "down").
Definition directionValid (d : string) : bool :=
  bool_decide (d = "left") || bool_decide (d = "right") || bool_decide (d = "up") || bool_decide (d = "down").
Definition zoomValid (z : string) : bool :=
  bool_decide (z = "toggle") || bool_decide (z = "on") || bool_decide (z = "off").

Definition destinationWire (d : PaneMoveDestination) : option json :=
  match d with
  | MoveToTab tabID split targetPane ratio =>
      if negb (nonempty tabID) then None
      else if negb (splitValid split) then None
      else Some (JObj ([("type", JStr "tab"); ("tab_id", JStr tabID); ("split", JStr split)] ++
                       optField "target_pane_id" targetPane ++ numField "ratio" ratio))
  | MoveToNewTab workspaceID label =>
      Some (JObj ([("type", JStr "new_tab")] ++ optField "workspace_id" workspaceID ++ optField "label" label))
  | MoveToNewWorkspace label tabLabel =>
      Some (JObj ([("type", JStr "new_workspace")] ++ optField "label" label ++ optField "tab_label" tabLabel))
  end.

Definition byID (method field id : string) (more : list (string * json)) : option (string * json) :=
  if negb (nonempty id) then None else Some (method, JObj ((field, JStr id) :: more)).

(** [optStr] as a nullable field. *)
Definition nullable (s : string) : json := if nonempty s then JStr s else JNull.

(** For each operation of the client, the method and params of the request, or
    nothing when the client rejects the call before touching the socket. *)

Definition workspaceCreate (cwd label : string) (e : env) (focus : bool) : option (string * json) :=
  Some ("workspace.create",
        JObj (optField "cwd" cwd ++ optField "label" label ++ envField e ++ [("focus", JBool focus)])).

Definition workspaceByID (method i : string) (more : list (string * json)) : option (string * json) :=
  byID method "workspace_id" i more.

Definition workspaceClose (i : string) : option (string * json) := byID "workspace.close" "workspace_id" i [].

Definition tabCreate (ws cwd label : string) (e : env) (focus : bool) : option (string * json) :=
  Some ("tab.create",
        JObj (optField "workspace_id" ws ++ optField "cwd" cwd ++ optField "label" label ++
              envField e ++ [("focus", JBool focus)])).

Definition tabByID (method i : string) (more : list (string * json)) : option (string * json) :=
  byID method "tab_id" i more.

Definition tabMove (i : string) (idx : number) : option (string * json) :=
  if isNegative idx then None
  else byID "tab.move" "tab_id" i [("insert_index", JNum (default "0" idx))].

Definition tabClose (i : string) : option (string * json) := byID "tab.close" "tab_id" i [].

Definition paneSplit (i dir : string) (ratio : number) (cwd : string) (e : env) (focus : bool)
  : option (string * json) :=
  if negb (splitValid dir) then None
  else byID "pane.split" "target_pane_id" i
         ([("direction", JStr dir)] ++ numField "ratio" ratio ++ optField "cwd" cwd ++ envField e ++
          [("focus", JBool focus)]).

Definition paneByID (method i : string) (more : list (string * json)) : option (string * json) :=
  byID method "pane_id" i more.

Definition paneResize (i dir : string) (amount : number) : option (string * json) :=
  if negb (directionValid dir) then None
  else byID "pane.resize" "pane_id" i ([("direction", JStr dir)] ++ numField "amount" amount).

Definition paneZoom (i mode : string) : option (string * json) :=
  if negb (zoomValid mode) then None else byID "pane.zoom" "pane_id" i [("mode", JStr mode)].

Definition paneSwap (src tgt : string) : option (string * json) :=
  if negb (nonempty tgt) then None
  else byID "pane.swap" "source_pane_id" src [("target_pane_id", JStr tgt)].

Definition paneMoveTo (i : string) (dest : PaneMoveDestination) (focus : bool) : option (string * json) :=
  match destinationWire dest with
  | None => None
  | Some d => byID "pane.move" "pane_id" i [("destination", d); ("focus", JBool focus)]
  end.

Definition paneClose (i : string) : option (string * json) := byID "pane.close" "pane_id" i [].

Definition agentFocus (i : string) : option (string * json) := byID "agent.focus" "target" i [].

(** The relay prompts without waiting. *)
Definition agentPrompt (i text : string) : option (string * json) :=
  byID "agent.prompt" "target" i [("text", JStr text)].

Definition agentSendKeys (i : string) (ks : list string) : option (string * json) :=
  if negb (ValidateKeys (bytesOf <$> ks)).2 then None
  else byID "agent.send_keys" "target" i [("keys", JArr (JStr <$> ks))].

Definition agentRename (i name : string) : option (string * json) :=
  if nonempty name && negb (ValidAgentName (bytesOf name)) then None
  else byID "agent.rename" "target" i [("name", nullable name)].

Definition agentStart (name knd i : string) (args : list string) : option (string * json) :=
  if negb (nonempty knd) then None
  else if negb (ValidAgentName (bytesOf name)) then None
  else if negb (nonempty i) then None
  else Some ("agent.start",
             JObj ([("name", JStr name); ("kind", JStr knd); ("pane_id", JStr i)] ++
                   (if bool_decide (args = []) then [] else [("args", JArr (JStr <$> args))]))).

Definition worktreeCreate (ws cwd branch base path label : string) (focus : bool) : option (string * json) :=
  if negb (nonempty ws) && negb (nonempty cwd) then None
  else Some ("worktree.create",
             JObj (optField "workspace_id" ws ++ optField "cwd" cwd ++ optField "branch" branch ++
                   optField "base" base ++ optField "path" path ++ optField "label" label ++
                   [("focus", JBool focus)])).

Definition worktreeOpen (ws cwd branch path label : string) (focus : bool) : option (string * json) :=
  if negb (nonempty path) && negb (nonempty branch) then None
  else Some ("worktree.open",
             JObj (optField "workspace_id" ws ++ optField "cwd" cwd ++ optField "branch" branch ++
                   optField "path" path ++ optField "label" label ++ [("focus", JBool focus)])).

Definition worktreeRemove (i : string) (force : bool) : option (string * json) :=
  byID "worktree.remove" "workspace_id" i [("force", JBool force)].

Definition request (c : HerdrCall) : option (string * json) :=
  match c with
  | WorkspaceCreate cwd label e focus => workspaceCreate cwd label e focus
  | WorkspaceFocus i => workspaceByID "workspace.focus" i []
  | WorkspaceRename i label => workspaceByID "workspace.rename" i [("label", JStr label)]
  | WorkspaceClose i => workspaceClose i
  | TabCreate ws cwd label e focus => tabCreate ws cwd label e focus
  | TabFocus i => tabByID "tab.focus" i []
  | TabRename i label => tabByID "tab.rename" i [("label", JStr label)]
  | TabMove i idx => tabMove i idx
  | TabClose i => tabClose i
  | PaneFocus i => paneByID "pane.focus" i []
  | PaneSplit i dir ratio cwd e focus => paneSplit i dir ratio cwd e focus
  | PaneResize i dir amount => paneResize i dir amount
  | PaneZoom i mode => paneZoom i mode
  | PaneSwap src tgt => paneSwap src tgt
  | PaneMove i dest focus => paneMoveTo i dest focus
  | PaneRename i label => paneByID "pane.rename" i [("label", nullable label)]
  | PaneClose i => paneClose i
  | AgentFocus i => agentFocus i
  | AgentPrompt i text => agentPrompt i text
  | AgentSendKeys i ks => agentSendKeys i ks
  | AgentRename i name => agentRename i name
  | AgentStart name knd i args => agentStart name knd i args
  | WorktreeCreate ws cwd branch base path label focus => worktreeCreate ws cwd branch base path label focus
  | WorktreeOpen ws cwd branch path label focus => worktreeOpen ws cwd branch path label focus
  | WorktreeRemove i force => worktreeRemove i force
  end.

(** ** The dispatcher: one branch per operation, each with its own struct *)

Definition destFields : schema :=
  [("type", KString); ("tab_id", KString); ("split", KString); ("target_pane_id", KString);
   ("ratio", KFloat); ("workspace_id", KString); ("label", KString); ("tab_label", KString)].

(** The nested struct of [pane.move]. *)
Definition destOf (st : gmap string json) : gmap string json :=
  match st !! "destination" with
  | Some (JObj ms) => structOf destFields ms
  | _ => ∅
  end.

Definition paneMove (st : gmap string json) : HerdrCall + dispatchError :=
  let d := destOf st in
  let typ := fstr d "type" in
  let move dest := inl (PaneMove (fstr st "pane_id") dest (fbool st "focus")) in
  if bool_decide (typ = "tab")
  then move (MoveToTab (fstr d "tab_id") (fstr d "split") (fstr d "target_pane_id") (fnum d "ratio"))
  else if bool_decide (typ = "new_tab") then move (MoveToNewTab (fstr d "workspace_id") (fstr d "label"))
  else if bool_decide (typ = "new_workspace")
  then move (MoveToNewWorkspace (fstr d "label") (fstr d "tab_label"))
  else inr InvalidParams.

Definition branch : Type := schema * (gmap string json -> HerdrCall + dispatchError).

Definition workspaceBranches : list (string * branch) :=
  [ ("workspace.create",
     ([("cwd", KString); ("label", KString); ("env", KStringMap); ("focus", KBool)],
      fun p => inl (WorkspaceCreate (fstr p "cwd") (fstr p "label") (fenv p "env") (fbool p "focus"))));
    ("workspace.focus", ([("workspace_id", KString)], fun p => inl (WorkspaceFocus (fstr p "workspace_id"))));
    ("workspace.rename",
     ([("workspace_id", KString); ("label", KString)],
      fun p => inl (WorkspaceRename (fstr p "workspace_id") (fstr p "label"))));
    ("workspace.close", ([("workspace_id", KString)], fun p => inl (WorkspaceClose (fstr p "workspace_id")))) ].

Definition tabBranches : list (string * branch) :=
  [ ("tab.create",
     ([("workspace_id", KString); ("cwd", KString); ("label", KString); ("env", KStringMap); ("focus", KBool)],
      fun p => inl (TabCreate (fstr p "workspace_id") (fstr p "cwd") (fstr p "label") (fenv p "env")
                      (fbool p "focus"))));
    ("tab.focus", ([("tab_id", KString)], fun p => inl (TabFocus (fstr p "tab_id"))));
    ("tab.rename",
     ([("tab_id", KString); ("label", KString)], fun p => inl (TabRename (fstr p "tab_id") (fstr p "label"))));
    ("tab.move",
     ([("tab_id", KString); ("insert_index", KInt)],
      fun p => inl (TabMove (fstr p "tab_id") (fnum p "insert_index"))));
    ("tab.close", ([("tab_id", KString)], fun p => inl (TabClose (fstr p "tab_id")))) ].

Definition paneBranches : list (string * branch) :=
  [ ("pane.focus", ([("pane_id", KString)], fun p => inl (PaneFocus (fstr p "pane_id"))));
    ("pane.split",
     ([("pane_id", KString); ("direction", KString); ("ratio", KFloat); ("cwd", KString);
       ("env", KStringMap); ("focus", KBool)],
      fun p => inl (PaneSplit (fstr p "pane_id") (fstr p "direction") (fnum p "ratio") (fstr p "cwd")
                      (fenv p "env") (fbool p "focus"))));
    ("pane.resize",
     ([("pane_id", KString); ("direction", KString); ("amount", KFloat)],
      fun p => inl (PaneResize (fstr p "pane_id") (fstr p "direction") (fnum p "amount"))));
    ("pane.zoom",
     ([("pane_id", KString); ("mode", KString)],
      fun p => inl (PaneZoom (fstr p "pane_id")
                      (if nonempty (fstr p "mode") then fstr p "mode" else "toggle"))));
    ("pane.swap",
     ([("pane_id", KString); ("target_pane_id", KString)],
      fun p => inl (PaneSwap (fstr p "pane_id") (fstr p "target_pane_id"))));
    ("pane.move", ([("pane_id", KString); ("focus", KBool); ("destination", KStruct destFields)], paneMove));
    ("pane.rename",
     ([("pane_id", KString); ("label", KString)], fun p => inl (PaneRename (fstr p "pane_id") (fstr p "label"))));
    ("pane.close", ([("pane_id", KString)], fun p => inl (PaneClose (fstr p "pane_id")))) ].

Definition agentBranches : list (string * branch) :=
  [ ("agent.focus", ([("pane_id", KString)], fun p => inl (AgentFocus (fstr p "pane_id"))));
    ("agent.prompt",
     ([("pane_id", KString); ("text", KString)], fun p => inl (AgentPrompt (fstr p "pane_id") (fstr p "text"))));
    ("agent.send_keys",
     ([("pane_id", KString); ("keys", KStrings)],
      fun p => inl (AgentSendKeys (fstr p "pane_id") (fstrs p "keys"))));
    ("agent.rename",
     ([("pane_id", KString); ("name", KString)], fun p => inl (AgentRename (fstr p "pane_id") (fstr p "name"))));
    ("agent.start",
     ([("pane_id", KString); ("kind", KString); ("name", KString); ("args", KStrings)],
      fun p => inl (AgentStart (fstr p "name") (fstr p "kind") (fstr p "pane_id") (fstrs p "args")))) ].

Definition worktreeRemovals (force : bool) : branch :=
  ([("worktree_id", KString)], fun p => inl (WorktreeRemove (fstr p "worktree_id") force)).

Definition worktreeBranches : list (string * branch) :=
  [ ("worktree.create",
     ([("workspace_id", KString); ("cwd", KString); ("branch", KString); ("base", KString);
       ("path", KString); ("label", KString); ("focus", KBool)],
      fun p => inl (WorktreeCreate (fstr p "workspace_id") (fstr p "cwd") (fstr p "branch") (fstr p "base")
                      (fstr p "path") (fstr p "label") (fbool p "focus"))));
    ("worktree.open",
     ([("workspace_id", KString); ("cwd", KString); ("branch", KString); ("path", KString);
       ("label", KString); ("focus", KBool)],
      fun p => inl (WorktreeOpen (fstr p "workspace_id") (fstr p "cwd") (fstr p "branch") (fstr p "path")
                      (fstr p "label") (fbool p "focus"))));
    ("worktree.remove", worktreeRemovals false);
    ("worktree.remove_force", worktreeRemovals true) ].

Definition dispatchTable : list (string * branch) :=
  workspaceBranches ++ tabBranches ++ paneBranches ++ agentBranches ++ worktreeBranches.

Definition dispatchMutation (op : string) (raw : option json) : HerdrCall + dispatchError :=
  match assoc op dispatchTable with
  | None => inr NotImplemented
  | Some (sc, build) =>
      match decode numOk sc raw with
      | None => inr InvalidParams
      | Some p => build p
      end
  end.

(** ** Startable agent kinds (agentkinds.go) *)

Record agentKinds := mkKinds { k_ttl : Z; cached : list string; k_fetchedAt : Z; k_loaded : bool }.

(** [t1], [t2], [t3] are the clock readings, [found] what discovery answers. *)
Definition listKinds (a : agentKinds) (t1 : Z) (found : option (list string)) (t2 t3 : Z)
  : agentKinds * option (list string) :=
  if k_loaded a && (timeSub t1 (k_fetchedAt a) <? k_ttl a) then (a, Some (cached a))
  else match found with
       | None =>
           if k_loaded a && (timeSub t2 (k_fetchedAt a) <=? int64 (2 * k_ttl a))
           then (a, Some (cached a)) else (a, None)
       | Some kinds => (mkKinds (k_ttl a) kinds t3 true, Some kinds)
       end.

Definition validateKind (a : agentKinds) (t1 : Z) (found : option (list string)) (t2 t3 : Z) (knd : string)
  : agentKinds * option dispatchError :=
  if negb (nonempty knd) then (a, Some InvalidParams)
  else
    let '(a', r) := listKinds a t1 found t2 t3 in
    match r with
    | None => (a', Some KindsUnavailable)
    | Some kinds => (a', if bool_decide (knd ∈ kinds) then None else Some InvalidParams)
    end.

(** [mutatorAdapter.Mutate], up to the socket: the kind of [agent.start] is
    validated on the params before dispatch. *)
Definition Mutate (a : agentKinds) (t1 : Z) (found : option (list string)) (t2 t3 : Z)
  (op : string) (raw : option json) : agentKinds * (HerdrCall + dispatchError) :=
  if bool_decide (op = "agent.start") then
    let '(a', e) := validateKind a t1 found t2 t3 (paramString raw "kind") in
    match e with
    | Some e => (a', inr e)
    | None => (a', dispatchMutation op raw)
    end
  else (a, dispatchMutation op raw).
End Dispatch.
