(* ===== verification/Mutations.v ===== *)
(** * Mutations: internal/server/mutations.go, upstream.go and errors.go

    The mutation and confirmation endpoints: the operation allowlist, the guards
    in the order the handler applies them, the idempotency protocol around the
    one Herdr call, and the classification of its failures.

    The handler is written as the stages between which other requests can run;
    [handleMutations] is their composition. *)

From stdpp Require Import pretty.
From S2P Require Import Prelude GoStr Json Session Stores Access.

(** ** The operation tables *)

Record opSpec := mkSpec {
  requiresConfirmation : bool; resourceField : string; altResourceField : string
}.

Definition generationChecked (s : opSpec) : bool := bool_decide (resourceField s = "pane_id").

Definition plain (field : string) : opSpec := mkSpec false field "".
Definition confirmed (field : string) : opSpec := mkSpec true field "".

Definition operations : list (string * opSpec) :=
  [ ("workspace.create", plain ""); ("workspace.focus", plain "workspace_id");
    ("workspace.rename", plain "workspace_id"); ("workspace.close", confirmed "workspace_id");
    ("tab.create", plain ""); ("tab.focus", plain "tab_id"); ("tab.rename", plain "tab_id");
    ("tab.move", plain "tab_id"); ("tab.close", confirmed "tab_id");
    ("pane.focus", plain "pane_id"); ("pane.split", plain "pane_id"); ("pane.resize", plain "pane_id");
    ("pane.zoom", plain "pane_id"); ("pane.swap", plain "pane_id"); ("pane.move", plain "pane_id");
    ("pane.rename", plain "pane_id"); ("pane.close", confirmed "pane_id");
    ("agent.focus", mkSpec false "pane_id" "target"); ("agent.prompt", mkSpec false "pane_id" "target");
    ("agent.send_keys", mkSpec false "pane_id" "target"); ("agent.rename", mkSpec false "pane_id" "target");
    ("agent.start", plain "pane_id");
    ("worktree.create", plain ""); ("worktree.open", plain "");
    ("worktree.remove", mkSpec true "worktree_id" "workspace_id");
    ("worktree.remove_force", mkSpec true "worktree_id" "workspace_id") ].

Definition opTakeover : string := "terminal.takeover".

(** [confirmSpec] is an [opSpec] that is confirmed. *)
Definition confirmable : list (string * opSpec) :=
  [ ("workspace.close", confirmed "workspace_id"); ("tab.close", confirmed "tab_id");
    ("pane.close", confirmed "pane_id"); ("worktree.remove", mkSpec true "worktree_id" "workspace_id");
    ("worktree.remove_force", mkSpec true "worktree_id" "workspace_id");
    (opTakeover, confirmed "pane_id") ].

Definition divergentAlt (raw : option json) (altField canonical : string) : bool :=
  if negb (nonempty altField) then false
  else
    let alt := paramString raw altField in
    nonempty alt && negb (bool_decide (alt = canonical)).

(** ** Error codes and messages *)

Inductive errCode :=
| codeBadRequest | codeNotFound | codeConflict | codeGenerationStale | codeConfirmationNeeded
| codeConfirmationInvalid | codeDeadlineExceeded | codeUnavailable | codeInternal | codeUnsupported.

#[global] Instance errCode_eq_dec : EqDecision errCode.
Proof. solve_decision. Defined.

(** Every code of this endpoint has an entry in the static table. *)
Definition mutationMessage (c : errCode) : string :=
  match c with
  | codeNotFound => "resource not found"
  | codeBadRequest => "operation rejected: invalid parameters"
  | codeUnsupported => "operation not supported by this herdr build"
  | codeConflict => "operation conflicts with another in progress"
  | codeDeadlineExceeded => "operation timed out"
  | codeUnavailable => "herdr unavailable"
  | codeInternal => "operation failed"
  | codeConfirmationNeeded => "operation outcome uncertain; obtain a fresh confirmation to retry"
  | codeGenerationStale => "resource changed; refresh and retry"
  | codeConfirmationInvalid => "confirmation invalid or expired"
  end.

Inductive ctxError := DeadlineExceeded | Canceled.

(** [err] is the structured upstream code, the empty string when there is none. *)
Definition classifyMutateErr (ctx : option ctxError) (err : string) : errCode * Z * bool :=
  let eqc c := bool_decide (err = c) in
  match ctx with
  | Some DeadlineExceeded => (codeDeadlineExceeded, 504, true)
  | Some Canceled => (codeUnavailable, 503, true)
  | None =>
      if eqc "not_found" then (codeNotFound, 404, false)
      else if eqc "invalid_params" || eqc "invalid_request" then (codeBadRequest, 400, false)
      else if eqc "feature_disabled" || eqc "platform_unsupported" || eqc "plugin_disabled" || eqc "incompatible"
      then (codeUnsupported, 501, false)
      else if eqc "stream_conflict" then (codeConflict, 409, false)
      else if eqc "timeout" then (codeDeadlineExceeded, 504, true)
      else if eqc "connect" || eqc "transport" || eqc "canceled" then (codeUnavailable, 503, true)
      else (codeInternal, 502, false)
  end.

(** ** Requests and responses *)

Record mutationRequest := mkReq {
  q_RequestID : string; q_Operation : string; q_DeadlineUnixMs : Z; q_ExpectedGeneration : Z;
  q_Confirmation : string; q_Params : option json
}.

Record errBody := mkErr { er_Code : errCode; er_Message : string; er_Retryable : bool }.

Record mutationResponse := mkResp {
  p_RequestID : string; p_Accepted : bool; p_Result : option json; p_Error : option errBody
}.

Inductive response :=
| RError (status : Z) (code : errCode) (message : string)
| RMutation (status : Z) (r : mutationResponse)
| RReplay (status : Z) (body : list byte)
| RConfirmation (token : string) (expires : Z).

Definition mutationErr (requestID : string) (status : Z) (code : errCode) (msg : string) (retryable : bool)
  : response := RMutation status (mkResp requestID false None (Some (mkErr code msg retryable))).

Definition replay (e : idemEntry) : response := RReplay (e_status e) (e_body e).

(** The settings the handlers read. *)
Record Config := mkConfig {
  ServerMutationDeadline : Z; DeadlineSkew : Z; IdempotencyTTL : Z; ConfirmationTTL : Z
}.

Definition reservationTTL (cfg : Config) : Z :=
  let ttl := int64 (2 * ServerMutationDeadline cfg) in
  if ttl <? 30 * Second then 30 * Second else ttl.

(** [time.UnixMilli] of a positive count. *)
Definition timeOfUnixMilli (ms : Z) : Z :=
  int64 (ms / 1000 + unixToInternal) * Second + (ms mod 1000) * 10 ^ 6.

Definition formatUint (z : Z) : string := pretty (Z.to_N z).

(** ** The mutation handler *)

Record AuditEntry := mkAudit {
  a_Event : string; a_Subject : string; a_SessionID : string; a_Operation : string;
  a_Resource : string; a_RequestID : string; a_Result : string
}.

(** The authenticated caller: its audit id and its subject. *)
Record caller := mkCaller { c_session : string; c_subject : string }.

(** A validated request on its way to dispatch. *)
Record job := mkJob {
  j_req : mutationRequest; j_spec : opSpec; j_resource : string; j_paramsHash : string;
  j_key : string; j_fingerprint : string; j_caller : caller
}.

Definition codeName (c : errCode) : string :=
  match c with
  | codeBadRequest => "bad_request" | codeNotFound => "not_found" | codeConflict => "conflict"
  | codeGenerationStale => "generation_stale" | codeConfirmationNeeded => "confirmation_required"
  | codeConfirmationInvalid => "confirmation_invalid" | codeDeadlineExceeded => "deadline_exceeded"
  | codeUnavailable => "unavailable" | codeInternal => "internal" | codeUnsupported => "unsupported"
  end.

Section Handler.
(** The canonical form of a JSON value, SHA-256 in hexadecimal, and the encoding
    of a response. *)
Context (canonical : json -> option (list byte)) (hash : list byte -> string)
        (marshal : mutationResponse -> list byte).

Definition normalizeParams (raw : option json) : option (list byte) :=
  match raw with None => Some (bytesOf "{}") | Some j => canonical j end.

Definition requestFingerprint (operation : string) (generation : Z) (norm : list byte) : string :=
  hash (bytesOf (operation +:+ NUL +:+ formatUint generation +:+ NUL) ++ norm).

(** The deadline computation: the time budget of the call, or nothing. *)
Definition budget (cfg : Config) (req : mutationRequest) (now : Z) : string + Z :=
  let cap := ServerMutationDeadline cfg in
  let check b := if b <=? 0 then inl "no time budget" else inr b in
  if 0 <? q_DeadlineUnixMs req then
    let clientRemaining := int64 (timeSub (timeOfUnixMilli (q_DeadlineUnixMs req)) now - DeadlineSkew cfg) in
    if clientRemaining <=? 0 then inl "client deadline already passed"
    else check (if clientRemaining <? cap then clientRemaining else cap)
  else check cap.

(** The generation guard of pane-scoped operations; [gens] is the state engine. *)
Definition generationGuard (spec : opSpec) (gens : string -> option Z) (req : mutationRequest)
  (resource : string) : option response :=
  if negb (generationChecked spec) then None
  else if q_ExpectedGeneration req =? 0
  then Some (mutationErr (q_RequestID req) 400 codeGenerationStale
               "expected_generation is required for this operation" false)
  else match gens resource with
       | None => Some (mutationErr (q_RequestID req) 409 codeGenerationStale "resource no longer exists" true)
       | Some gen =>
           if negb (gen =? q_ExpectedGeneration req)
           then Some (mutationErr (q_RequestID req) 409 codeGenerationStale
                        "resource changed; refresh and retry" true)
           else None
       end.

(** The checks between the replay lookup and the reservation, in order. *)
Definition guards (cfg : Config) (gens : string -> option Z) (now : Z) (req : mutationRequest)
  (spec : opSpec) (resource : string) : option response :=
  if divergentAlt (q_Params req) (altResourceField spec) resource
  then Some (RError 400 codeBadRequest "conflicting resource identifiers")
  else if requiresConfirmation spec && negb (nonempty (q_Confirmation req))
  then Some (mutationErr (q_RequestID req) 428 codeConfirmationNeeded "confirmation required" false)
  else match generationGuard spec gens req resource with
  | Some r => Some r
  | None =>
  match budget cfg req now with
  | inl msg => Some (mutationErr (q_RequestID req) 504 codeDeadlineExceeded msg true)
  | inr _ => None
  end end.

Definition resourceOf (spec : opSpec) (req : mutationRequest) : string :=
  if nonempty (resourceField spec) then paramString (q_Params req) (resourceField spec) else "".

(** From the decoded body to the point where the key is reserved. [None] is a
    body that does not decode; [tPeek] and [now] are clock readings. *)
Definition validate (cfg : Config) (who : caller) (gens : string -> option Z) (idem : idemStore)
  (tPeek now : Z) (body : option mutationRequest) : idemStore * (response + job) :=
  match body with
  | None => (idem, inl (RError 400 codeBadRequest "invalid request body"))
  | Some req =>
      if negb (nonempty (q_RequestID req))
      then (idem, inl (RError 400 codeBadRequest "missing request id"))
      else match assoc (q_Operation req) operations with
      | None => (idem, inl (RError 400 codeBadRequest "unknown operation"))
      | Some spec =>
      match normalizeParams (q_Params req) with
      | None => (idem, inl (RError 400 codeBadRequest "invalid params"))
      | Some norm =>
          let key := idemKey (c_session who) (q_RequestID req) in
          let fp := requestFingerprint (q_Operation req) (q_ExpectedGeneration req) norm in
          let '(idem, res) := peek idem tPeek key fp in
          match res with
          | idemDone e => (idem, inl (replay e))
          | idemMismatch =>
              (idem, inl (mutationErr (q_RequestID req) 409 codeConflict
                            "request id already used for a different request" false))
          | _ =>
              let resource := resourceOf spec req in
              match guards cfg gens now req spec resource with
              | Some r => (idem, inl r)
              | None => (idem, inr (mkJob req spec resource (hash norm) key fp who))
              end
          end
      end end
  end.

(** The reservation; no response means this request owns the execution. *)
Definition enter (cfg : Config) (idem : idemStore) (t1 t2 : Z) (j : job) : idemStore * option response :=
  match reserve idem t1 t2 (j_key j) (j_fingerprint j) (reservationTTL cfg) with
  | (idem, idemDone e) => (idem, Some (replay e))
  | (idem, idemInFlight) =>
      (idem, Some (mutationErr (q_RequestID (j_req j)) 409 codeConflict "request already in progress" true))
  | (idem, idemMismatch) =>
      (idem, Some (mutationErr (q_RequestID (j_req j)) 409 codeConflict
                     "request id already used for a different request" false))
  | (idem, _) => (idem, None)
  end.

(** The last check and the spending of the confirmation; a response means the
    reservation must be released. [expired] tells whether the context is done. *)
Definition confirm (nonces : nonceStore) (expired : bool) (now : Z) (j : job) : nonceStore * option response :=
  let req := j_req j in
  if expired
  then (nonces, Some (mutationErr (q_RequestID req) 504 codeDeadlineExceeded
                        "deadline exceeded before dispatch" true))
  else if requiresConfirmation (j_spec j) then
    let '(nonces, ok) := consume nonces now (q_Confirmation req) (q_Operation req) (j_resource j)
                           (q_ExpectedGeneration req) (c_session (j_caller j)) (j_paramsHash j) in
    (nonces, if ok then None
             else Some (mutationErr (q_RequestID req) 403 codeConfirmationInvalid
                          "confirmation invalid or expired" false))
  else (nonces, None).

(** What becomes of the Herdr call: the status and envelope, and whether the
    result is kept for replay. *)
Definition settle (j : job) (ctx : option ctxError) (result : json + string) : Z * mutationResponse * bool :=
  match result with
  | inl v => (200, mkResp (q_RequestID (j_req j)) true (Some v) None, true)
  | inr err =>
      let '(code, status, retryable) := classifyMutateErr ctx err in
      let '(code, status, retryable, message) :=
        if retryable && requiresConfirmation (j_spec j)
        then (codeConfirmationNeeded, 428, false, mutationMessage codeConfirmationNeeded)
        else (code, status, retryable, mutationMessage code) in
      (status, mkResp (q_RequestID (j_req j)) false None (Some (mkErr code message retryable)),
       negb (bool_decide (code = codeConfirmationNeeded)) && negb retryable)
  end.

Definition auditOf (j : job) (r : mutationResponse) : AuditEntry :=
  mkAudit "mutation" (c_subject (j_caller j)) (c_session (j_caller j)) (q_Operation (j_req j)) (j_resource j)
    (q_RequestID (j_req j))
    (match p_Error r with None => "ok" | Some e => "error:" +:+ codeName (er_Code e) end).

(** The resolution of the reservation. *)
Definition resolve (cfg : Config) (idem : idemStore) (now : Z) (j : job) (status : Z) (r : mutationResponse)
  (keep : bool) : idemStore :=
  if keep then complete idem now (j_key j) (j_fingerprint j) status (marshal r) (IdempotencyTTL cfg)
  else release idem (j_key j).

(** ** The whole handler *)

End Handler.

(** [server.HerdrMutator]: the result, or the structured code of the failure. *)
Class HerdrMutator (M : Type) := mutate : M -> string -> option json -> M * (json + string).

(** The relay's shared state; [r_calls] records the calls made to Herdr. *)
Record relay (M : Type) := mkRelay {
  r_idem : idemStore; r_nonces : nonceStore; r_mutator : M;
  r_audit : list AuditEntry; r_calls : list (string * option json)
}.
Arguments mkRelay {M}.
Arguments r_idem {M}.
Arguments r_nonces {M}.
Arguments r_mutator {M}.
Arguments r_audit {M}.
Arguments r_calls {M}.

(** The clock readings of one request, in order, and the state of its context
    before and after the call. *)
Record readings := mkReadings {
  tPeek : Z; tNow : Z; tSweep : Z; tReserve : Z; ctxExpired : bool; tConsume : Z;
  ctxAfter : option ctxError; tComplete : Z
}.

Section Relay.
Context {M : Type} `{HerdrMutator M}.
Context (canonical : json -> option (list byte)) (hash : list byte -> string)
        (marshal : mutationResponse -> list byte).

Definition withIdem (s : relay M) (i : idemStore) : relay M :=
  mkRelay i (r_nonces s) (r_mutator s) (r_audit s) (r_calls s).
Definition withNonces (s : relay M) (n : nonceStore) : relay M :=
  mkRelay (r_idem s) n (r_mutator s) (r_audit s) (r_calls s).

(** The call itself, recorded. *)
Definition execute (s : relay M) (j : job) : relay M * (json + string) :=
  let '(m, r) := mutate (r_mutator s) (q_Operation (j_req j)) (q_Params (j_req j)) in
  (mkRelay (r_idem s) (r_nonces s) m (r_audit s) (r_calls s ++ [(q_Operation (j_req j), q_Params (j_req j))]), r).

Definition finish (cfg : Config) (s : relay M) (now : Z) (j : job) (ctx : option ctxError)
  (result : json + string) : relay M * response :=
  let '(status, r, keep) := settle j ctx result in
  (mkRelay (resolve marshal cfg (r_idem s) now j status r keep) (r_nonces s) (r_mutator s)
     (r_audit s ++ [auditOf j r]) (r_calls s),
   RMutation status r).

Definition handleMutations (cfg : Config) (who : caller) (gens : string -> option Z) (rd : readings)
  (body : option mutationRequest) (s : relay M) : relay M * response :=
  let '(idem, v) := validate canonical hash cfg who gens (r_idem s) (tPeek rd) (tNow rd) body in
  let s := withIdem s idem in
  match v with
  | inl resp => (s, resp)
  | inr j =>
      let '(idem, stop) := enter cfg (r_idem s) (tSweep rd) (tReserve rd) j in
      let s := withIdem s idem in
      match stop with
      | Some resp => (s, resp)
      | None =>
          let '(nonces, stop) := confirm (r_nonces s) (ctxExpired rd) (tConsume rd) j in
          let s := withNonces s nonces in
          match stop with
          | Some resp => (withIdem s (release (r_idem s) (j_key j)), resp)
          | None =>
              let '(s, result) := execute s j in
              finish cfg s (tComplete rd) j (ctxAfter rd) result
          end
      end
  end.

(** ** The confirmation handler *)

Record confirmationRequest := mkConfReq {
  f_Operation : string; f_ResourceID : string; f_ExpectedGeneration : Z; f_Params : option json
}.

(** [token] is the random token; [t1], [t2] the clock readings of [issue]. *)
Definition handleConfirmations (cfg : Config) (who : caller) (gens : string -> option Z) (token : string)
  (t1 t2 : Z) (body : option confirmationRequest) (s : relay M) : relay M * response :=
  match body with
  | None => (s, RError 400 codeBadRequest "invalid request body")
  | Some req =>
      match assoc (f_Operation req) confirmable with
      | None => (s, RError 400 codeBadRequest "operation does not require confirmation")
      | Some spec =>
      if nonempty (resourceField spec) && negb (nonempty (f_ResourceID req))
      then (s, RError 400 codeBadRequest "missing resource id")
      else if nonempty (resourceField spec) &&
              (let got := paramString (f_Params req) (resourceField spec) in
               nonempty got && negb (bool_decide (got = f_ResourceID req)))
      then (s, RError 400 codeBadRequest "resource id mismatch")
      else if divergentAlt (f_Params req) (altResourceField spec) (f_ResourceID req)
      then (s, RError 400 codeBadRequest "conflicting resource identifiers")
      else
        let guard :=
          if generationChecked spec then
            match gens (f_ResourceID req) with
            | None => Some (RError 404 codeNotFound "resource not found")
            | Some gen =>
                if negb (f_ExpectedGeneration req =? gen)
                then Some (RError 409 codeGenerationStale "resource changed; refresh and retry") else None
            end
          else None in
        match guard with
        | Some r => (s, r)
        | None =>
            match normalizeParams canonical (f_Params req) with
            | None => (s, RError 400 codeBadRequest "invalid params")
            | Some norm =>
                let '(nonces, (tok, exp)) :=
                  issue (r_nonces s) token t1 t2 (f_Operation req) (f_ResourceID req)
                    (f_ExpectedGeneration req) (c_session who) (hash norm) (ConfirmationTTL cfg) in
                (mkRelay (r_idem s) nonces (r_mutator s)
                   (r_audit s ++ [mkAudit "confirmation.issue" (c_subject who) (c_session who)
                                    (f_Operation req) (f_ResourceID req) "" ""])
                   (r_calls s),
                 RConfirmation tok exp)
            end
        end
      end
  end.
End Relay.

(** ** Lemmas *)

Lemma budget_range cfg req now b :
  budget cfg req now = inr b -> 0 < b <= ServerMutationDeadline cfg.
Proof.
  unfold budget. repeat case_match; intros; simplify_eq; bool_hyps; lia.
Qed.

(** What the guards let through. *)
Lemma guards_ok cfg gens now req spec resource :
  guards cfg gens now req spec resource = None ->
  divergentAlt (q_Params req) (altResourceField spec) resource = false /\
  (requiresConfirmation spec = true -> nonempty (q_Confirmation req) = true) /\
  (generationChecked spec = true ->
     q_ExpectedGeneration req ≠ 0 /\ gens resource = Some (q_ExpectedGeneration req)) /\
  exists b, budget cfg req now = inr b /\ 0 < b <= ServerMutationDeadline cfg.
Proof.
  unfold guards. destruct (divergentAlt _ _ _) eqn:Ed; [done|]. destruct (_ && _) eqn:Ec; [done|].
  unfold generationGuard.
  destruct (generationChecked spec) eqn:Eg; cbn [negb]; [|].
  - destruct (Z.eqb_spec (q_ExpectedGeneration req) 0); [done|].
    destruct (gens resource) as [g|]; [|done]. destruct (Z.eqb_spec g (q_ExpectedGeneration req)); [|done].
    cbn [negb]. subst g. destruct (budget cfg req now) as [?|b] eqn:Eb; [done|]. intros _.
    split_and!; try done; [by destruct (requiresConfirmation spec), (nonempty _)|].
    exists b. split; [done|]. by apply budget_range in Eb.
  - destruct (budget cfg req now) as [?|b] eqn:Eb; [done|]. intros _.
    split_and!; try done; [by destruct (requiresConfirmation spec), (nonempty _)|].
    exists b. split; [done|]. by apply budget_range in Eb.
Qed.

Lemma validate_ok {canonical hash} cfg who gens idem t now body idem' j :
  validate canonical hash cfg who gens idem t now body = (idem', inr j) ->
  exists norm, body = Some (j_req j) /\ j_caller j = who /\
    assoc (q_Operation (j_req j)) operations = Some (j_spec j) /\
    normalizeParams canonical (q_Params (j_req j)) = Some norm /\ j_paramsHash j = hash norm /\
    j_key j = idemKey (c_session who) (q_RequestID (j_req j)) /\
    j_fingerprint j = requestFingerprint hash (q_Operation (j_req j)) (q_ExpectedGeneration (j_req j)) norm /\
    j_resource j = resourceOf (j_spec j) (j_req j) /\
    guards cfg gens now (j_req j) (j_spec j) (j_resource j) = None /\
    idem' = (peek idem t (j_key j) (j_fingerprint j)).1.
Proof.
  unfold validate. destruct body as [req|]; [|done].
  destruct (negb (nonempty (q_RequestID req))); [done|].
  destruct (assoc (q_Operation req) operations) as [spec|] eqn:Eo; [|done].
  destruct (normalizeParams canonical (q_Params req)) as [norm|] eqn:En; [|done].
  cbv zeta. destruct (peek _ _ _ _) as [i' r] eqn:Ep.
  destruct r; try done; destruct (guards _ _ _ _ _ _) eqn:Eg; try done; intros [= <- <-];
    exists norm; simpl; rewrite Ep; done.
Qed.

(** A reservation followed by its release leaves nothing behind. *)
Lemma reserve_release m t1 t2 key fp l :
  (reserve m t1 t2 key fp l).2 = idemReserved ->
  release (reserve m t1 t2 key fp l).1 key ⊆ m /\ release (reserve m t1 t2 key fp l).1 key !! key = None.
Proof.
  unfold reserve. destruct (idemGC t1 m !! key) as [e|] eqn:E; [repeat case_match; done|]. intros _.
  cbn [fst]. unfold release. rewrite lookup_insert_eq. cbn [e_pending].
  rewrite delete_insert_eq, delete_id by done. split; [apply map_filter_subseteq|done].
Qed.

Lemma peek_subseteq m t key fp : (peek m t key fp).1 ⊆ m.
Proof.
  unfold peek. destruct (m !! key); [|done]. destruct (idemExpired t i); [apply delete_subseteq|].
  by repeat case_match.
Qed.

Lemma reserve_subseteq m t1 t2 key fp l :
  (reserve m t1 t2 key fp l).2 ≠ idemReserved -> (reserve m t1 t2 key fp l).1 ⊆ m.
Proof.
  unfold reserve. destruct (idemGC t1 m !! key); [|done]. intros _.
  repeat case_match; apply map_filter_subseteq.
Qed.

Lemma enter_cases cfg m t1 t2 j :
  let r := reserve m t1 t2 (j_key j) (j_fingerprint j) (reservationTTL cfg) in
  (enter cfg m t1 t2 j = (r.1, None) /\ r.2 = idemReserved) \/
  (exists resp, enter cfg m t1 t2 j = (r.1, Some resp) /\ r.2 ≠ idemReserved).
Proof.
  unfold enter, reserve. destruct (idemGC t1 m !! j_key j) as [e|]; simpl; [|auto].
  right. repeat case_match; simpl in *; simplify_eq; eauto.
Qed.

Definition jobBinding (j : job) : binding :=
  mkBinding (q_Operation (j_req j)) (j_resource j) (q_ExpectedGeneration (j_req j))
    (c_session (j_caller j)) (j_paramsHash j).

Lemma confirm_cases n expired now j :
  (exists resp, confirm n expired now j = (n, Some resp) /\ expired = true) \/
  (expired = false /\ requiresConfirmation (j_spec j) = false /\ confirm n expired now j = (n, None)) \/
  (expired = false /\ requiresConfirmation (j_spec j) = true /\
   ((exists x, n !! q_Confirmation (j_req j) = Some x /\ now <= n_expiresAt x /\ bindingOf x = jobBinding j /\
       confirm n expired now j = (delete (q_Confirmation (j_req j)) n, None)) \/
    (exists r, confirm n expired now j = (delete (q_Confirmation (j_req j)) n,
       Some (RMutation 403 r)) /\ p_Error r = Some (mkErr codeConfirmationInvalid
                                    "confirmation invalid or expired" false)))).
Proof.
  unfold confirm. destruct expired; [left; eauto|]. right.
  destruct (requiresConfirmation (j_spec j)); [right|by left]. split_and!; [done|done|].
  pose proof (consume_cases n now (q_Confirmation (j_req j)) (jobBinding j)) as Hc. simpl in Hc.
  destruct (consume _ _ _ _ _ _ _ _) as [n' ok]. destruct Hc as [-> Hok]. destruct ok.
  - left. destruct (proj1 Hok eq_refl) as (x & H1 & H2 & H3). eauto 10.
  - right. unfold mutationErr. eauto.
Qed.

(** A response that says retryable never follows a spent confirmation, and is
    never kept for replay. *)
Lemma settle_retryable j ctx result status r keep e :
  settle j ctx result = (status, r, keep) -> p_Error r = Some e -> er_Retryable e = true ->
  requiresConfirmation (j_spec j) = false /\ keep = false.
Proof.
  unfold settle. destruct result as [v|err]; [by intros [= <- <- <-]|].
  destruct (classifyMutateErr ctx err) as [[code st] rt]. destruct rt; simpl.
  - destruct (requiresConfirmation (j_spec j)); intros [= <- <- <-] [= <-]; simpl; [done|].
    intros _. split; [done|]. by rewrite andb_false_r.
  - intros [= <- <- <-] [= <-]. done.
Qed.

Section RelayFacts.
Context {M : Type} `{HerdrMutator M}.
Context (canonical : json -> option (list byte)) (hash : list byte -> string)
        (marshal : mutationResponse -> list byte).

Notation handle := (handleMutations canonical hash marshal).

(** The possible courses of a request: stopped before the reservation or by it,
    stopped after it and released, or dispatched. *)
Lemma handle_courses cfg who gens rd body s :
  (exists resp idem, handle cfg who gens rd body s = (withIdem s idem, resp) /\ idem ⊆ r_idem s) \/
  (exists j idem0,
     validate canonical hash cfg who gens (r_idem s) (tPeek rd) (tNow rd) body = (idem0, inr j) /\
     idem0 ⊆ r_idem s /\
     let r := reserve idem0 (tSweep rd) (tReserve rd) (j_key j) (j_fingerprint j) (reservationTTL cfg) in
     r.2 = idemReserved /\
     let '(n, stop) := confirm (r_nonces s) (ctxExpired rd) (tConsume rd) j in
     match stop with
     | Some resp => handle cfg who gens rd body s = (withNonces (withIdem s (release r.1 (j_key j))) n, resp)
     | None =>
         handle cfg who gens rd body s =
           (let '(s1, result) := execute (withNonces (withIdem s r.1) n) j in
            finish marshal cfg s1 (tComplete rd) j (ctxAfter rd) result)
     end).
Proof.
  unfold handleMutations.
  destruct (validate _ _ _ _ _ _ _ _ _) as [idem0 [resp|j]] eqn:Ev.
  - left. exists resp, idem0. split; [done|]. revert Ev. unfold validate.
    repeat case_match; intros; simplify_eq; try done;
      match goal with E : peek ?m ?t ?k ?f = _ |- _ => pose proof (peek_subseteq m t k f) as Hs; rewrite E in Hs; done end.
  - pose proof (validate_ok _ _ _ _ _ _ _ _ _ Ev) as (norm & _ & _ & _ & _ & _ & _ & _ & _ & _ & Hp).
    assert (Hs : idem0 ⊆ r_idem s) by (rewrite Hp; apply peek_subseteq).
    cbn [withIdem r_idem]. destruct (enter_cases cfg idem0 (tSweep rd) (tReserve rd) j)
      as [[-> Hr]|(resp & -> & Hr)].
    + right. exists j, idem0. split_and!; [done|done|done|]. cbn [r_nonces].
      destruct (confirm _ _ _ _) as [n [resp|]]; done.
    + left. eexists resp, _. split; [done|]. etrans; [|exact Hs]. by apply reserve_subseteq.
Qed.

(** C4: Nothing reaches Herdr past the guards. A request that makes a call makes
    exactly one, of an allowlisted operation with the params it carried, and only
    when: the pane it names is at the expected, non-zero generation (for
    pane-scoped operations); for a destructive operation the confirmation it
    presents was issued for exactly this operation, resource, generation, session
    and params and has not expired, and is now spent; no alternate identifier
    diverges; there is time left; and no other live request or response holds its
    request id. *)
Theorem mutation_gate (cfg : Config) (who : caller) (gens : string -> option Z) (rd : readings)
  (body : option mutationRequest) (s s' : relay M) (resp : response) :
  handle cfg who gens rd body s = (s', resp) -> r_calls s' ≠ r_calls s ->
  exists req spec norm,
    body = Some req /\ assoc (q_Operation req) operations = Some spec /\
    r_calls s' = r_calls s ++ [(q_Operation req, q_Params req)] /\
    normalizeParams canonical (q_Params req) = Some norm /\
    (generationChecked spec = true ->
       q_ExpectedGeneration req ≠ 0 /\ gens (resourceOf spec req) = Some (q_ExpectedGeneration req)) /\
    (requiresConfirmation spec = true ->
       exists n, r_nonces s !! q_Confirmation req = Some n /\ tConsume rd <= n_expiresAt n /\
         bindingOf n = mkBinding (q_Operation req) (resourceOf spec req) (q_ExpectedGeneration req)
                         (c_session who) (hash norm) /\
         r_nonces s' !! q_Confirmation req = None) /\
    divergentAlt (q_Params req) (altResourceField spec) (resourceOf spec req) = false /\
    (exists b, budget cfg req (tNow rd) = inr b /\ 0 < b <= ServerMutationDeadline cfg) /\
    (forall e, r_idem s !! idemKey (c_session who) (q_RequestID req) = Some e ->
       e_expiresAt e < tPeek rd \/ e_expiresAt e < tSweep rd).
Proof.
  intros Hh Hc. destruct (handle_courses cfg who gens rd body s)
    as [(r & i & E & _)|(j & i0 & Ev & _ & Hr & Hx)].
  { rewrite E in Hh. injection Hh as <- <-. done. }
  pose proof (validate_ok _ _ _ _ _ _ _ _ _ Ev) as
    (norm & Hb & Hw & Ho & Hn & Hh1 & Hk & _ & Hres & Hg & Hi0).
  pose proof (guards_ok _ _ _ _ _ _ Hg) as (G1 & G2 & G3 & G4).
  pose proof (confirm_cases (r_nonces s) (ctxExpired rd) (tConsume rd) j) as Hcf.
  destruct (confirm _ _ _ _) as [n [stop|]].
  { rewrite Hx in Hh. injection Hh as <- <-. done. }
  rewrite Hx in Hh. unfold execute, finish in Hh. cbn [withNonces withIdem r_mutator] in Hh.
  destruct (mutate _ _ _) as [m res]. destruct (settle _ _ _) as [[st r] keep].
  injection Hh as <- <-. cbn [r_calls r_nonces withNonces withIdem].
  exists (j_req j), (j_spec j), norm. rewrite <- Hres, <- Hk. split_and!; try done.
  - intros Hreq. destruct Hcf as [(? & [= _ ?] & _)|[(_ & ? & _)|(_ & _ & [(x & X1 & X2 & X3 & X4)|(? & [=] & _)])]];
      [congruence..|]. injection X4 as ->. exists x. split_and!; try done.
    + rewrite X3. unfold jobBinding. by rewrite Hw, Hh1.
    + apply lookup_delete_eq.
  - intros e He. destruct (Z.lt_ge_cases (e_expiresAt e) (tPeek rd)) as [Hl|Hl]; [auto|]. right.
    destruct (Z.lt_ge_cases (e_expiresAt e) (tSweep rd)) as [Hl'|Hl']; [done|]. exfalso.
    assert (Hi : i0 !! j_key j = Some e).
    { rewrite Hi0. apply (idemStep_keeps (r_idem s) _ e (IPeek (tPeek rd) (j_key j) (j_fingerprint j))); done. }
    pose proof (reserve_live i0 _ e (j_fingerprint j) (tSweep rd) (tReserve rd) (reservationTTL cfg) Hi Hl') as Ha.
    rewrite Hr in Ha. unfold answer in Ha. by repeat case_match.
Qed.

(** C20: "retryable" is honest. When the relay tells the client it may retry the
    same request, no confirmation has been spent and nothing new is stored under
    any request id, so the retry is evaluated afresh. *)
Theorem retryable_intact (cfg : Config) (who : caller) (gens : string -> option Z) (rd : readings)
  (body : option mutationRequest) (s s' : relay M) (status : Z) (r : mutationResponse) (e : errBody) :
  handle cfg who gens rd body s = (s', RMutation status r) ->
  p_Error r = Some e -> er_Retryable e = true ->
  r_nonces s' = r_nonces s /\ r_idem s' ⊆ r_idem s.
Proof.
  intros Hh He Hr. destruct (handle_courses cfg who gens rd body s)
    as [(r' & i & E & Hi)|(j & i0 & Ev & Hi0 & Hres & Hx)].
  { rewrite E in Hh. injection Hh as <- _. done. }
  destruct (reserve_release _ _ _ _ _ _ Hres) as [Hrel _].
  pose proof (confirm_cases (r_nonces s) (ctxExpired rd) (tConsume rd) j) as Hcf.
  destruct (confirm _ _ _ _) as [n [stop|]].
  - rewrite Hx in Hh. injection Hh as <- ->. simpl. split; [|by etrans].
    destruct Hcf as [(? & [= -> _] & _)|[(_ & _ & [=])|(_ & _ & [(? & _ & _ & _ & [=])|(r0 & [= _ _ <-] & Hr0)])]];
      [done|]. rewrite He in Hr0. by injection Hr0 as ->.
  - rewrite Hx in Hh. unfold execute, finish in Hh. cbn [withNonces withIdem r_mutator] in Hh.
    destruct (mutate _ _ _) as [m res]. destruct (settle _ _ _) as [[st r0] keep] eqn:Es.
    injection Hh as <- <- <-. destruct (settle_retryable _ _ _ _ _ _ _ Es He Hr) as [Hq ->]. simpl.
    split; [|by etrans].
    destruct Hcf as [(? & [=] & _)|[(_ & _ & [= ->])|(_ & Hq' & _)]]; [done|congruence].
Qed.

(** Every dispatched request is resolved: its key ends up holding exactly
    the response that was written, for the idempotency TTL (a success or a final
    error), or is free again (an outcome the client may try again); no
    reservation is left behind. *)
Theorem dispatch_resolved (cfg : Config) (who : caller) (gens : string -> option Z) (rd : readings)
  (req : mutationRequest) (s s' : relay M) (resp : response) :
  handle cfg who gens rd (Some req) s = (s', resp) -> r_calls s' ≠ r_calls s ->
  exists status r norm, resp = RMutation status r /\ normalizeParams canonical (q_Params req) = Some norm /\
    let stored := r_idem s' !! idemKey (c_session who) (q_RequestID req) in
    let fp := requestFingerprint hash (q_Operation req) (q_ExpectedGeneration req) norm in
    stored = Some (mkEntry status (marshal r) (tComplete rd + IdempotencyTTL cfg) false fp) \/
    (stored = None /\ p_Accepted r = false).
Proof.
  intros Hh Hc. destruct (handle_courses cfg who gens rd (Some req) s)
    as [(r' & i & E & Hi)|(j & i0 & Ev & Hi0 & Hres & Hx)].
  { rewrite E in Hh. injection Hh as <- _. done. }
  pose proof (validate_ok _ _ _ _ _ _ _ _ _ Ev) as (norm & [= Hb] & _ & _ & Hn & _ & Hk & Hf & _).
  destruct (reserve_release _ _ _ _ _ _ Hres) as [_ Hrel].
  destruct (confirm _ _ _ _) as [n [stop|]]; [rewrite Hx in Hh; by injection Hh as <- <-|].
  rewrite Hx in Hh. unfold execute, finish in Hh. cbn [withNonces withIdem r_mutator r_idem] in Hh.
  destruct (mutate _ _ _) as [m res]. destruct (settle _ _ _) as [[st r0] keep] eqn:Es.
  injection Hh as <- <-. exists st, r0, norm. subst req. split_and!; [done|done|]. cbn [r_idem].
  rewrite <- Hk, <- Hf. unfold resolve. destruct keep.
  - left. unfold complete. by rewrite lookup_insert_eq.
  - right. split; [done|]. unfold settle in Es. destruct res as [v|err]; [by simplify_eq|].
    repeat case_match; by simplify_eq.
Qed.
End RelayFacts.

(** ** Sample requests *)

(** A Herdr that always succeeds, and one that always times out. *)
Record okHerdr := mkOk {}.
Record slowHerdr := mkSlow {}.
#[global] Instance ok_mutator : HerdrMutator okHerdr := fun m _ _ => (m, inl (JObj [("ok", JBool true)])).
#[global] Instance slow_mutator : HerdrMutator slowHerdr := fun m _ _ => (m, inr "timeout").

Definition sampleCanonical (_ : json) : option (list byte) := Some [x7b; x7d].
Definition sampleHash (b : list byte) : string := String.string_of_list_byte b.
Definition sampleMarshal (_ : mutationResponse) : list byte := [x7b; x7d].
Definition sampleCfg : Config := mkConfig (10 * Second) (Second / 2) (300 * Second) (30 * Second).
Definition sampleCaller : caller := mkCaller "aud" "op@example.com".
Definition sampleGens (pane : string) : option Z := if bool_decide (pane = "p1") then Some 3 else None.
Definition sampleReadings : readings := mkReadings 10 10 11 11 false 12 None 20.
Definition sampleParams : option json := Some (JObj [("pane_id", JStr "p1")]).
Definition sampleClose : mutationRequest := mkReq "r1" "pane.close" 0 3 "tok" sampleParams.
Definition sampleFocus : mutationRequest := mkReq "r2" "pane.focus" 0 3 "" sampleParams.
Definition sampleNonces : nonceStore := {[ "tok" := mkNonce "pane.close" "p1" 3 "aud" "{}" 40 ]}.

Definition sampleClosed : relay okHerdr * response :=
  handleMutations sampleCanonical sampleHash sampleMarshal sampleCfg sampleCaller sampleGens sampleReadings
    (Some sampleClose) (mkRelay ∅ sampleNonces mkOk [] []).

Definition sampleTimeout : relay slowHerdr * response :=
  handleMutations sampleCanonical sampleHash sampleMarshal sampleCfg sampleCaller sampleGens sampleReadings
    (Some sampleFocus) (mkRelay ∅ sampleNonces mkSlow [] []).

Lemma sampleClosed_calls : r_calls sampleClosed.1 ≠ [].
Proof. vm_compute. discriminate. Qed.

Lemma mutation_gate_witness : r_calls sampleClosed.1 = [("pane.close", sampleParams)].
Proof.
  destruct (mutation_gate sampleCanonical sampleHash sampleMarshal sampleCfg sampleCaller sampleGens
              sampleReadings (Some sampleClose) (mkRelay ∅ sampleNonces mkOk [] []) sampleClosed.1 sampleClosed.2
              (surjective_pairing sampleClosed) sampleClosed_calls)
    as (req & spec & norm & Hreq & _ & Hcalls & _).
  injection Hreq as <-. exact Hcalls.
Defined.

Definition timeoutBody : mutationResponse :=
  mkResp "r2" false None (Some (mkErr codeDeadlineExceeded "operation timed out" true)).

Lemma sampleTimeout_result : sampleTimeout = (sampleTimeout.1, RMutation 504 timeoutBody).
Proof. rewrite (surjective_pairing sampleTimeout) at 1. f_equal. Qed.

Lemma retryable_intact_witness :
  r_calls sampleTimeout.1 = [("pane.focus", sampleParams)] /\ r_nonces sampleTimeout.1 = sampleNonces.
Proof.
  split; [reflexivity|].
  apply (retryable_intact sampleCanonical sampleHash sampleMarshal sampleCfg sampleCaller sampleGens
           sampleReadings (Some sampleFocus) (mkRelay ∅ sampleNonces mkSlow [] []) sampleTimeout.1 504 timeoutBody
           (mkErr codeDeadlineExceeded "operation timed out" true) sampleTimeout_result); reflexivity.
Defined.

Lemma dispatch_resolved_witness :
  exists status r, sampleClosed.2 = RMutation status r.
Proof.
  destruct (dispatch_resolved sampleCanonical sampleHash sampleMarshal sampleCfg sampleCaller sampleGens
              sampleReadings sampleClose (mkRelay ∅ sampleNonces mkOk [] []) sampleClosed.1 sampleClosed.2
              (surjective_pairing sampleClosed) sampleClosed_calls)
    as (status & r & norm & H & _).
  exists status, r. exact H.
Defined.
