(* ===== verification/Guard.v ===== *)
(** * Guard: the relay's guards against what the dispatcher does

    The server reads the guarded resource out of the params with a map lookup;
    the dispatcher decodes the same params into a struct. These theorems say when
    the two name the same resource, and exhibit when they do not. *)

From S2P Require Import Prelude GoStr Json Session Stores Keys Dispatch Mutations.

(** The allowlist and the dispatcher agree: an operation is in the server's
    table exactly when the dispatcher implements it (whatever the params), and
    every confirmable operation other than the takeover is in the table as one
    that requires confirmation. *)
Theorem allowlist_exact (numOk : kind -> string -> bool) (op : string) :
  (is_Some (assoc op operations) <-> forall raw, dispatchMutation numOk op raw ≠ inr NotImplemented) /\
  (forall spec, assoc op confirmable = Some spec ->
     op = opTakeover \/ assoc op operations = Some spec).
Proof.
  split.
  - rewrite assoc_keys. replace (operations.*1) with ((dispatchTable).*1) by reflexivity.
    rewrite <- assoc_keys. unfold dispatchMutation. split.
    + intros [[sc build] E] raw. rewrite E. destruct (decode numOk sc raw) as [p|]; [|done].
      apply assoc_elem in E.
      unfold dispatchTable, workspaceBranches, tabBranches, paneBranches, agentBranches, worktreeBranches, worktreeRemovals in E.
      cbn [app] in E.
      repeat (apply elem_of_cons in E as [E|E]; [injection E as -> -> ->; try done|]); [|set_solver].
      unfold paneMove. repeat case_match; done.
    + intros H. specialize (H None). destruct (assoc op dispatchTable) as [b|]; [by eexists|done].
  - intros spec E. apply assoc_elem in E. unfold confirmable in E.
    repeat (apply elem_of_cons in E as [E|E]; [injection E as -> ->; auto|]). set_solver.
Qed.

(** The calls that act on one existing resource. *)
Definition targeted (c : HerdrCall) : bool :=
  match c with
  | WorkspaceCreate _ _ _ _ | TabCreate _ _ _ _ _ | WorktreeCreate _ _ _ _ _ _ _ | WorktreeOpen _ _ _ _ _ _ => false
  | _ => true
  end.

(** What a branch of the dispatcher acts on, for the operations with a resource: the
    resource field, and setting that field changes nothing but the target. *)
Definition branchSound (op : string) (spec : opSpec) (b : branch) : Prop :=
  resourceField spec ≠ "" ->
  (NoDup b.1.*1 /\ (resourceField spec, KString) ∈ b.1 /\
   forallb (fun f => negb (foldEq f.1 (resourceField spec)) || bool_decide (f.1 = resourceField spec)) b.1 = true) /\
  (forall p c, b.2 p = inl c -> callTarget c = fstr p (resourceField spec) /\ targeted c = true) /\
  forall p c y, b.2 p = inl c -> exists c', b.2 (<[resourceField spec := JStr y]> p) = inl c' /\ callTarget c' = y.

Lemma fstr_set p f y : fstr (<[f := JStr y]> p) f = y.
Proof. unfold fstr. by rewrite lookup_insert_eq. Qed.

Lemma paneMove_sound p c :
  paneMove p = inl c ->
  (callTarget c = fstr p "pane_id" /\ targeted c = true) /\
  forall y, exists c', paneMove (<["pane_id" := JStr y]> p) = inl c' /\ callTarget c' = y.
Proof.
  unfold paneMove. assert (Hd : forall y, destOf (<["pane_id" := JStr y]> p) = destOf p).
  { intros y. unfold destOf. by rewrite lookup_insert_ne. }
  intros Hp. split; [by repeat (case_match; simplify_eq; try done)|].
  intros y. rewrite Hd. repeat (case_match; simplify_eq; try done); eexists; (split; [done|]); simpl; apply fstr_set.
Qed.

Lemma branches_sound op spec b :
  assoc op operations = Some spec -> assoc op dispatchTable = Some b -> branchSound op spec b.
Proof.
  intros E. apply assoc_elem in E. unfold operations in E.
  repeat (apply elem_of_cons in E as [E|E]; [injection E as -> ->|]); [..|set_solver];
    cbn [assoc app dispatchTable workspaceBranches tabBranches paneBranches agentBranches worktreeBranches worktreeRemovals];
    rewrite ?bool_decide_true by done;
    rewrite ?bool_decide_false by done; intros [= <-]; intros Hf; try done;
    (split; [split_and!; [apply (bool_decide_unpack _); reflexivity|set_solver|by vm_compute]|]);
    (split; [intros p c|intros p c y]); cbn [snd]; try (intros [= <-]; simpl; try (eexists; split; [done|]); by rewrite ?fstr_set).
  1: by intros [H _]%paneMove_sound.
  intros [_ H]%paneMove_sound. apply H.
Qed.

(** No member of the params spells the resource field of the operation in another case,
    and none of that name is null. *)
Definition plainlyNamed (op field : string) (raw : option json) : Prop :=
  match raw with
  | Some (JObj ms) => forall b, assoc op dispatchTable = Some b -> unaliased b.1 field ms /\ nonNull field ms
  | _ => True
  end.

(** The call acts on the resource that the guard reads. *)
Lemma dispatch_addresses (numOk : kind -> string -> bool) op spec raw c :
  assoc op operations = Some spec -> resourceField spec ≠ "" -> dispatchMutation numOk op raw = inl c ->
  targeted c = true /\ (plainlyNamed op (resourceField spec) raw -> callTarget c = paramString raw (resourceField spec)).
Proof.
  intros Ho Hf. unfold dispatchMutation. destruct (assoc op dispatchTable) as [[sc build]|] eqn:Hb; [|done].
  destruct (branches_sound op spec _ Ho Hb Hf) as ((Hnd & Hin & _) & Ht & _). simpl in *.
  destruct (decode numOk sc raw) as [p|] eqn:Ed; [|done]. intros Hc. apply Ht in Hc as [-> Hc]. split; [done|].
  intros Hpl. destruct raw as [[| | | | |ms]|]; cbn in Ed; try discriminate Ed; try by injection Ed as <-.
  destruct (Hpl _ Hb) as [Hu Hn]. destruct (forallb _ ms); [|done]. injection Ed as <-. by eapply decode_agrees.
Qed.

(** A frame for such a call carries its target, which is not empty. *)
Lemma request_names (positive negative : string -> bool) c method params :
  request positive negative c = Some (method, params) -> targeted c = true ->
  callTarget c ≠ "" /\ exists members, params = JObj members /\ JStr (callTarget c) ∈ members.*2.
Proof.
  assert (Hid : forall m f i more, byID m f i more = Some (method, params) ->
    i ≠ "" /\ exists members, params = JObj members /\ JStr i ∈ members.*2).
  { intros m f i more. unfold byID, nonempty. case_bool_decide; [done|]. intros [= _ <-].
    split; [done|]. eexists. split; [done|]. by left. }
  unfold request, workspaceByID, workspaceClose, tabByID, tabMove, tabClose, paneSplit, paneByID, paneResize,
    paneZoom, paneSwap, paneMoveTo, paneClose, agentFocus, agentPrompt, agentSendKeys, agentRename, agentStart, worktreeRemove.
  destruct c; simpl; try done; try (intros H _; by apply Hid in H);
    try (intros H _; repeat case_match; try discriminate H; by apply Hid in H).
  intros H _. unfold nonempty in H. repeat (case_bool_decide; simplify_eq/=; try done); case_match; simplify_eq/=;
    (split; [done|]); eexists; (split; [done|]); simpl; set_solver.
Qed.

(** C17: The guard names what the dispatcher acts on, as long as no member of the
    params spells the resource field in a different case and none of that name is
    null: then the identifier the server checked, confirmed and audited is the
    identifier of the Herdr call. *)
Theorem guard_addresses_target (numOk : kind -> string -> bool) (op : string) (spec : opSpec) (b : branch)
  (ms : list (string * json)) (c : HerdrCall) :
  assoc op operations = Some spec -> resourceField spec ≠ "" -> assoc op dispatchTable = Some b ->
  dispatchMutation numOk op (Some (JObj ms)) = inl c ->
  unaliased b.1 (resourceField spec) ms -> nonNull (resourceField spec) ms ->
  callTarget c = paramString (Some (JObj ms)) (resourceField spec).
Proof.
  intros Ho Hf Hb Hd Hu Hn. eapply dispatch_addresses; [done..|].
  intros b' Hb'. rewrite Hb in Hb'. by injection Hb' as <-.
Qed.

Lemma guard_addresses_target_witness :
  callTarget (PaneClose "p1") = paramString (Some (JObj [("pane_id", JStr "p1")])) "pane_id".
Proof.
  apply (guard_addresses_target (fun _ _ => true) "pane.close" (confirmed "pane_id")
           ([("pane_id", KString)], fun p => inl (PaneClose (fstr p "pane_id")))
           [("pane_id", JStr "p1")] (PaneClose "p1")).
  - reflexivity.
  - discriminate.
  - reflexivity.
  - reflexivity.
  - apply Forall_singleton. reflexivity.
  - apply Forall_singleton. discriminate.
Defined.

(** A member that folds to a field is decoded into that field. *)
Lemma findField_alias sc field alias :
  NoDup sc.*1 -> (field, KString) ∈ sc ->
  forallb (fun f => negb (foldEq f.1 field) || bool_decide (f.1 = field)) sc = true ->
  foldEq field alias = true -> alias ≠ field -> findField sc alias = Some (field, KString).
Proof.
  intros Hnd Hin Huq Ha Hne. rewrite forallb_forall in Huq.
  assert (Hf : forall f, f ∈ sc -> foldEq f.1 alias = true -> f.1 = field).
  { intros f Hf Hfa. apply list_elem_of_In, Huq, orb_true_iff in Hf as [Hf|Hf]; [|by apply bool_decide_eq_true in Hf].
    apply negb_true_iff, bool_decide_eq_false in Hf. apply bool_decide_eq_true in Hfa, Ha. congruence. }
  unfold findField. destruct (List.find (fun f => bool_decide (f.1 = alias)) sc) as [f|] eqn:E1.
  - apply find_some in E1 as [Hm E1]. apply bool_decide_eq_true in E1. apply list_elem_of_In in Hm. exfalso. apply Hne.
    rewrite <- E1. apply Hf; [done|]. rewrite E1. unfold foldEq, EqualFold. by apply bool_decide_true.
  - destruct (List.find (fun f => foldEq f.1 alias) sc) as [f|] eqn:E2.
    + apply find_some in E2 as [Hm E2]. apply list_elem_of_In in Hm. f_equal. specialize (Hf f Hm E2).
      destruct f as [n k]. simpl in *. subst n. f_equal.
      pose proof (findField_exact sc field _ Hnd Hin) as H1. rewrite (findField_exact sc field _ Hnd Hm) in H1. by injection H1.
    + apply list_elem_of_In, (find_none _ _ E2) in Hin. simpl in Hin. congruence.
Qed.

Lemma mergeValue_str old y : mergeValue old (JStr y) = JStr y.
Proof. by destruct old as [[]|]. Qed.

(** C23: The guard and the dispatcher can be told two different things. Take any request
    that the dispatcher accepts, for any operation with a resource field, and append one
    more member whose name is that field in another case. Every reading the guards make
    of the params, the resource of the generation and of the confirmation and the
    alternate identifier included, is what it was; the request is still dispatched, and
    what it acts on is the value of the member that was appended. *)
Theorem guard_bypassed (numOk : kind -> string -> bool) (op : string) (spec : opSpec)
  (ms : list (string * json)) (c : HerdrCall) (alias y : string) :
  assoc op operations = Some spec -> resourceField spec ≠ "" ->
  dispatchMutation numOk op (Some (JObj ms)) = inl c ->
  foldEq (resourceField spec) alias = true -> alias ≠ resourceField spec ->
  let forged := Some (JObj (ms ++ [(alias, JStr y)])) in
  (forall field, field ≠ alias -> paramString forged field = paramString (Some (JObj ms)) field) /\
  (forall rid deadline gen tok, resourceOf spec (mkReq rid op deadline gen tok forged) = paramString (Some (JObj ms)) (resourceField spec)) /\
  exists c', dispatchMutation numOk op forged = inl c' /\ callTarget c' = y.
Proof.
  intros Ho Hf Hd Ha Hne forged.
  assert (Hp : forall field, field ≠ alias -> paramString forged field = paramString (Some (JObj ms)) field).
  { intros field Hfa. unfold forged, paramString. rewrite mapLookup_snoc. by rewrite bool_decide_false. }
  split_and!; [done| |].
  - intros. unfold resourceOf, nonempty. rewrite bool_decide_false by done. simpl. by apply Hp.
  - unfold dispatchMutation in *. destruct (assoc op dispatchTable) as [[sc build]|] eqn:Hb; [|done].
    destruct (branches_sound op spec _ Ho Hb Hf) as ((Hnd & Hin & Huq) & _ & Hset). cbn [fst snd] in *.
    assert (Hff : findField sc alias = Some (resourceField spec, KString)) by by apply findField_alias.
    unfold forged, decode in *. simpl typeOk in *. rewrite forallb_app. destruct (forallb _ ms); [|done]. cbn [forallb fst snd].
    rewrite Hff. cbn [typeOk andb].
    rewrite structOf_snoc. cbn [fst snd]. rewrite Hff. cbn iota beta.
    rewrite mergeValue_str. by eapply Hset.
Qed.

Lemma guard_bypassed_witness :
  exists c', dispatchMutation (fun _ _ => true) "pane.close" (Some (JObj [("pane_id", JStr "p1"); ("PANE_ID", JStr "p2")])) = inl c' /\
    callTarget c' = "p2".
Proof.
  refine (proj2 (proj2 (guard_bypassed (fun _ _ => true) "pane.close" (confirmed "pane_id") [("pane_id", JStr "p1")]
    (PaneClose "p1") "PANE_ID" "p2" _ _ _ _ _))); try reflexivity; discriminate.
Defined.

(** Params that name two panes, the second in capitals. *)
Definition aliasParams : option json := Some (JObj [("pane_id", JStr "p1"); ("PANE_ID", JStr "p2")]).

(** With such params the whole handler checks the generation and the confirmation of
    pane p1, and the dispatcher closes pane p2; in the same way the kind that
    [agent.start] validates is not the kind it starts. *)
Example alias_closes_other :
  let req := mkReq "r1" "pane.close" 0 3 "tok" aliasParams in
  let done := handleMutations (M:=okHerdr) sampleCanonical sampleHash sampleMarshal sampleCfg sampleCaller
                sampleGens sampleReadings (Some req) (mkRelay ∅ sampleNonces mkOk [] []) in
  resourceOf (confirmed "pane_id") req = "p1" /\
  r_calls done.1 = [("pane.close", aliasParams)] /\
  dispatchMutation (fun _ _ => true) "pane.close" aliasParams = inl (PaneClose "p2") /\
  (let start := Some (JObj [("pane_id", JStr "p1"); ("kind", JStr "claude"); ("KIND", JStr "other");
                            ("name", JStr "a")]) in
   (Mutate (fun _ _ => true) (mkKinds 60 ["claude"] 0 true) 10 None 10 10 "agent.start" start).2 =
     inl (AgentStart "a" "other" "p1" [])).
Proof. vm_compute. auto. Qed.

(** ** The request on the wire *)

(** The client never sends a request without an explicit target: what it
    sends for a call with a resource carries the call's non-empty identifier, and
    keys and names in it passed validation. *)
Theorem request_explicit (positive negative : string -> bool) (c : HerdrCall) (method : string) (params : json) :
  request positive negative c = Some (method, params) ->
  match c with
  | WorkspaceCreate _ _ _ _ | TabCreate _ _ _ _ _ => True
  | WorktreeCreate ws cwd _ _ _ _ _ => ws ≠ "" \/ cwd ≠ ""
  | WorktreeOpen _ _ branch path _ _ => path ≠ "" \/ branch ≠ ""
  | AgentSendKeys t ks => t ≠ "" /\ ks ≠ [] /\ Forall (fun k => ValidateKey (bytesOf k) = true) ks
  | AgentStart name knd i _ => i ≠ "" /\ knd ≠ "" /\ ValidAgentName (bytesOf name) = true
  | _ => callTarget c ≠ "" /\ exists more, params = JObj more /\ more.*2 !! 0%nat = Some (JStr (callTarget c))
  end.
Proof.
  assert (Hid : forall m f i more, byID m f i more = Some (method, params) ->
    i ≠ "" /\ exists more, params = JObj more /\ more.*2 !! 0%nat = Some (JStr i)).
  { intros m f i more. unfold byID, nonempty. case_bool_decide; [done|]. intros [= _ <-]. eauto. }
  unfold request, workspaceByID, workspaceClose, tabByID, tabMove, tabClose, paneSplit, paneByID, paneResize,
    paneZoom, paneSwap, paneMoveTo, paneClose, agentFocus, agentPrompt, agentSendKeys, agentRename, agentStart,
    worktreeCreate, worktreeOpen, worktreeRemove.
  destruct c; simpl; try done; try (by apply Hid);
    try (by (repeat case_match; [done..|]; apply Hid));
    try (by (repeat case_match; [apply Hid|done])).
  - destruct (ValidateKeys (bytesOf <$> keys)).2 eqn:Ek; [|done]. intros H. apply Hid in H as [H _].
    apply ValidateKeys_all in Ek as [Hne Hf]. rewrite Forall_fmap in Hf. split_and!; try done.
    by intros ->.
  - unfold nonempty. case_bool_decide; [done|]. destruct (ValidAgentName _); [|done].
    case_bool_decide; done.
  - unfold nonempty. repeat case_bool_decide; naive_solver.
  - unfold nonempty. repeat case_bool_decide; naive_solver.
Qed.

Lemma request_explicit_witness : callTarget (PaneClose "p1") ≠ "".
Proof.
  apply (request_explicit (fun _ => true) (fun _ => false) (PaneClose "p1") "pane.close"
           (JObj [("pane_id", JStr "p1")])).
  reflexivity.
Defined.
