(* ===== verification/Concurrent.v ===== *)
(** * Concurrent: many mutation requests at once

    The stages of the mutation handler (internal/server/mutations.go) interleaved
    over the shared stores. A step runs one stage of one request; between two
    stages any other request, the clock and the state engine may move. The clock is
    free: a request may be held up past the expiry of its reservation, which is then
    recorded as an overrun of its key. *)

From S2P Require Import Prelude GoStr Json Session Stores Access Mutations.

(** Where a request is in the handler. A request that owns a reservation carries
    the time it made it. *)
Inductive phase :=
| Arrived (who : caller) (body : option mutationRequest)
| Validated (j : job)
| Reserved (j : job) (since : Z)
| Ready (j : job) (since : Z)
| Called (j : job) (since : Z) (result : json + string)
| Refused (j : job) (since : Z) (resp : response)
| Finished (resp : response).

Definition owned (p : phase) : option (job * Z) :=
  match p with
  | Reserved j u | Ready j u | Called j u _ | Refused j u _ => Some (j, u)
  | _ => None
  end.

(** What is observed, under the request's key: a call to Herdr at a time, a response
    kept for replay until a time, and, at a time, a request that still holds a
    reservation made earlier that has expired. *)
Inductive event :=
| Call (key : string) (at_ : Z)
| Keep (key : string) (until : Z)
| Overran (key : string) (since at_ : Z).

(** The key has been overrun: some request held its reservation past the expiry. *)
Definition overran (ev : list event) (k : string) : Prop := exists s t, Overran k s t ∈ ev.

Definition overrunOf (k : string) (e : event) : Prop :=
  match e with Overran k' _ _ => k' = k | _ => False end.

#[global] Instance overrunOf_dec k e : Decision (overrunOf k e).
Proof. destruct e; simpl; apply _. Defined.

Lemma overran_Exists ev k : Exists (overrunOf k) ev <-> overran ev k.
Proof.
  rewrite Exists_exists. split; [intros ([] & Hin & E); try done; simpl in E; subst; by do 2 eexists|].
  intros (s & t & Hin). by eexists.
Qed.

#[global] Instance overran_dec ev k : Decision (overran ev k).
Proof. refine (cast_if (decide (Exists (overrunOf k) ev))); by rewrite <- overran_Exists. Defined.

Record world (M : Type) := mkWorld {
  clock : Z; shared : relay M; threads : gmap nat phase; events : list event
}.
Arguments mkWorld {M}.
Arguments clock {M}.
Arguments shared {M}.
Arguments threads {M}.
Arguments events {M}.

Section Concurrent.
Context {M : Type} `{HerdrMutator M}.
Context (canonical : json -> option (list byte)) (hash : list byte -> string)
        (marshal : mutationResponse -> list byte) (cfg : Config).

Implicit Types w : world M.

(** The owners whose reservation has expired by time [t]. *)
Definition overruns (ts : gmap nat phase) (t : Z) : list event :=
  omap (fun ip => match owned ip.2 with
                  | Some (j, since) => if since + reservationTTL cfg <? t then Some (Overran (j_key j) since t) else None
                  | None => None
                  end) (map_to_list ts).

Definition setThread w (i : nat) (p : phase) : gmap nat phase := <[i := p]> (threads w).

Inductive step : world M -> world M -> Prop :=
| step_arrive w i who body :
    threads w !! i = None ->
    step w (mkWorld (clock w) (shared w) (setThread w i (Arrived who body)) (events w))
| step_tick w t :
    clock w <= t ->
    step w (mkWorld t (shared w) (threads w) (events w ++ overruns (threads w) t))
| step_validate w i who body gens idem v :
    threads w !! i = Some (Arrived who body) ->
    validate canonical hash cfg who gens (r_idem (shared w)) (clock w) (clock w) body = (idem, v) ->
    step w (mkWorld (clock w) (withIdem (shared w) idem)
              (setThread w i (match v with inl resp => Finished resp | inr j => Validated j end)) (events w))
| step_reserve w i j idem stop :
    threads w !! i = Some (Validated j) ->
    enter cfg (r_idem (shared w)) (clock w) (clock w) j = (idem, stop) ->
    step w (mkWorld (clock w) (withIdem (shared w) idem)
              (setThread w i (match stop with
                              | Some resp => Finished resp
                              | None => Reserved j (clock w)
                              end)) (events w))
| step_confirm w i j u expired nonces stop :
    threads w !! i = Some (Reserved j u) ->
    confirm (r_nonces (shared w)) expired (clock w) j = (nonces, stop) ->
    step w (mkWorld (clock w) (withNonces (shared w) nonces)
              (setThread w i (match stop with Some resp => Refused j u resp | None => Ready j u end)) (events w))
| step_release w i j u resp :
    threads w !! i = Some (Refused j u resp) ->
    step w (mkWorld (clock w) (withIdem (shared w) (release (r_idem (shared w)) (j_key j)))
              (setThread w i (Finished resp)) (events w))
| step_execute w i j u s result :
    threads w !! i = Some (Ready j u) ->
    execute (shared w) j = (s, result) ->
    step w (mkWorld (clock w) s (setThread w i (Called j u result)) (events w ++ [Call (j_key j) (clock w)]))
| step_finish w i j u result ctx status r keep :
    threads w !! i = Some (Called j u result) ->
    settle j ctx result = (status, r, keep) ->
    step w (mkWorld (clock w)
              (withIdem (shared w) (resolve marshal cfg (r_idem (shared w)) (clock w) j status r keep))
              (setThread w i (Finished (RMutation status r)))
              (events w ++ (if keep then [Keep (j_key j) (clock w + IdempotencyTTL cfg)] else []))).

Inductive reachable : world M -> Prop :=
| reach_init t s : r_idem s = newIdemStore -> reachable (mkWorld t s ∅ [])
| reach_step w w' : reachable w -> step w w' -> reachable w'.

(** ** The invariant *)

Definition ownerEntry (j : job) (since : Z) : idemEntry :=
  mkEntry 0 [] (since + reservationTTL cfg) true (j_fingerprint j).

(** Every clause but the last is about the keys that have not been overrun. *)
Record inv w : Prop := mkInv {
  inv_owned : forall i p j u, threads w !! i = Some p -> owned p = Some (j, u) -> ~ overran (events w) (j_key j) ->
    clock w <= u + reservationTTL cfg /\ r_idem (shared w) !! j_key j = Some (ownerEntry j u);
  inv_distinct : forall i i' p p' j j' u u', threads w !! i = Some p -> threads w !! i' = Some p' ->
    owned p = Some (j, u) -> owned p' = Some (j', u') -> j_key j = j_key j' -> ~ overran (events w) (j_key j) -> i = i';
  inv_kept : forall k t, Keep k t ∈ events w -> clock w <= t -> ~ overran (events w) k ->
    exists e, r_idem (shared w) !! k = Some e /\ e_pending e = false /\ t <= e_expiresAt e;
  inv_order : forall k t t', [Keep k t; Call k t'] `sublist_of` events w -> ~ overran (events w) k -> t < t';
  inv_overran : forall k s t, Overran k s t ∈ events w -> s + reservationTTL cfg < t
}.

(** ** Preservation *)

(** A stage leaves every live entry alone unless it resolves that very key. *)
Lemma validate_keeps who gens m t body m' v k e :
  validate canonical hash cfg who gens m t t body = (m', v) ->
  m !! k = Some e -> t <= e_expiresAt e -> m' !! k = Some e.
Proof.
  intros Ev Hk Ht. revert Ev. unfold validate.
  repeat case_match; intros; simplify_eq; try done;
    match goal with E : peek ?m ?t ?kk ?f = (?m', _) |- _ =>
      replace m' with (idemStep m (IPeek t kk f)) by (simpl; by rewrite E);
      by apply idemStep_keeps end.
Qed.

Lemma reserve_keeps m t j k e :
  m !! k = Some e -> t <= e_expiresAt e ->
  (reserve m t t (j_key j) (j_fingerprint j) (reservationTTL cfg)).1 !! k = Some e.
Proof.
  intros Hk Ht.
  by apply (idemStep_keeps m k e (IReserve t t (j_key j) (j_fingerprint j) (reservationTTL cfg))).
Qed.

Lemma release_keeps m j k e :
  m !! k = Some e -> (j_key j = k -> e_pending e = false) -> release m (j_key j) !! k = Some e.
Proof. intros Hk Hp. by apply (idemStep_keeps m k e (IRelease (j_key j))). Qed.

Lemma resolve_keeps m t j status r keep k e :
  m !! k = Some e -> j_key j ≠ k -> resolve marshal cfg m t j status r keep !! k = Some e.
Proof.
  intros Hk Hne. unfold resolve. destruct keep; [|by apply release_keeps].
  unfold complete. by rewrite lookup_insert_ne.
Qed.

(** A reservation is held for at least thirty seconds, and for twice the deadline of
    the call. *)
Lemma reservationTTL_bounds :
  30 * Second <= reservationTTL cfg /\
  (0 <= ServerMutationDeadline cfg < 2 ^ 62 -> 2 * ServerMutationDeadline cfg <= reservationTTL cfg).
Proof.
  unfold reservationTTL. split; [case_match; bool_hyps; lia|]. intros Hd.
  rewrite int64_small by lia. case_match; bool_hyps; lia.
Qed.

Lemma reservationTTL_pos : 0 < reservationTTL cfg.
Proof. pose proof reservationTTL_bounds as [H1 _]. unfold Second in H1. lia. Qed.

Lemma overran_mono ev ev' k : ev ⊆ ev' -> overran ev k -> overran ev' k.
Proof. intros Hs (s & t & Hin). exists s, t. by apply Hs. Qed.

Lemma overran_app ev ev' k : ~ overran (ev ++ ev') k -> ~ overran ev k.
Proof. intros Hn Ho. apply Hn. eapply overran_mono; [|exact Ho]. intros x Hx. apply elem_of_app. by left. Qed.

Lemma elem_of_overruns ts t e : e ∈ overruns ts t <->
  exists i p j u, ts !! i = Some p /\ owned p = Some (j, u) /\ u + reservationTTL cfg < t /\ e = Overran (j_key j) u t.
Proof.
  unfold overruns. rewrite list_elem_of_omap. split.
  - intros ([i p] & Hin & E). apply elem_of_map_to_list in Hin. simpl in E.
    destruct (owned p) as [[j u]|] eqn:Ho; [|done]. case_match; [|done]. bool_hyps. injection E as <-. eauto 10.
  - intros (i & p & j & u & Hl & Ho & Hlt & ->). exists (i, p). split; [by apply elem_of_map_to_list|]. simpl.
    rewrite Ho. case_match; [done|]. bool_hyps. lia.
Qed.

(** A change of one thread, with the clock as it is: the other owners keep their
    entries, the new phase has its own, and kept responses stay. *)
Lemma inv_update w i p' s' new :
  inv w -> (forall k s t, Overran k s t ∉ new) ->
  (forall i' p j u, i' ≠ i -> threads w !! i' = Some p -> owned p = Some (j, u) -> ~ overran (events w) (j_key j) ->
     r_idem s' !! j_key j = Some (ownerEntry j u)) ->
  (forall j u, owned p' = Some (j, u) -> ~ overran (events w) (j_key j) ->
     clock w <= u + reservationTTL cfg /\ r_idem s' !! j_key j = Some (ownerEntry j u) /\
     forall i' p j' u', i' ≠ i -> threads w !! i' = Some p -> owned p = Some (j', u') -> j_key j ≠ j_key j') ->
  (forall k t, Keep k t ∈ events w ++ new -> clock w <= t -> ~ overran (events w) k ->
     exists e, r_idem s' !! k = Some e /\ e_pending e = false /\ t <= e_expiresAt e) ->
  (forall k t t', [Keep k t; Call k t'] `sublist_of` events w ++ new -> ~ overran (events w) k -> t < t') ->
  inv (mkWorld (clock w) s' (setThread w i p') (events w ++ new)).
Proof.
  intros Hi Hnew Ho Hp Hk Hord. constructor; simpl.
  - intros i0 p j u Hl Hw Hn%overran_app. unfold setThread in Hl. apply lookup_insert_Some in Hl as [[<- <-]|[Hne Hl]].
    + destruct (Hp j u Hw Hn) as (? & ? & _). done.
    + split; [by eapply inv_owned|]. by eapply Ho.
  - intros i1 i2 p1 p2 j1 j2 u1 u2 H1 H2 W1 W2 Ek Hn%overran_app. unfold setThread in *.
    apply lookup_insert_Some in H1 as [[<- <-]|[N1 H1]], H2 as [[<- <-]|[N2 H2]]; [done|..].
    + destruct (Hp _ _ W1 Hn) as (_ & _ & Hd). exfalso. by eapply Hd.
    + rewrite Ek in Hn. destruct (Hp _ _ W2 Hn) as (_ & _ & Hd). exfalso. by eapply Hd.
    + by eapply (inv_distinct w Hi).
  - intros k t Hin Ht Hn%overran_app. by apply Hk.
  - intros k t t' Hin Hn%overran_app. by eapply Hord.
  - intros k s t Hin. apply elem_of_app in Hin as [Hin|Hin]; [by apply (inv_overran w Hi) in Hin|by apply Hnew in Hin].
Qed.

(** The same, when nothing is observed. *)
Lemma inv_silent w i p' s' :
  inv w ->
  (forall i' p j u, i' ≠ i -> threads w !! i' = Some p -> owned p = Some (j, u) -> ~ overran (events w) (j_key j) ->
     r_idem s' !! j_key j = Some (ownerEntry j u)) ->
  (forall j u, owned p' = Some (j, u) -> ~ overran (events w) (j_key j) ->
     clock w <= u + reservationTTL cfg /\ r_idem s' !! j_key j = Some (ownerEntry j u) /\
     forall i' p j' u', i' ≠ i -> threads w !! i' = Some p -> owned p = Some (j', u') -> j_key j ≠ j_key j') ->
  (forall k t e, Keep k t ∈ events w -> clock w <= t -> ~ overran (events w) k -> r_idem (shared w) !! k = Some e ->
     e_pending e = false -> t <= e_expiresAt e -> r_idem s' !! k = Some e) ->
  inv (mkWorld (clock w) s' (setThread w i p') (events w)).
Proof.
  intros Hi Ho Hp Hk. rewrite <- (app_nil_r (events w)). apply inv_update; [done|set_solver|done|done|..]; rewrite app_nil_r.
  - intros k t Hin Ht Hn. destruct (inv_kept w Hi k t Hin Ht Hn) as (e & He & ? & ?). exists e. eauto.
  - by apply inv_order.
Qed.

(** When the store keeps every live entry. *)
Lemma inv_quiet w i p p' s' :
  inv w -> threads w !! i = Some p ->
  (forall k e, r_idem (shared w) !! k = Some e -> clock w <= e_expiresAt e -> r_idem s' !! k = Some e) ->
  owned p' = owned p \/ owned p' = None ->
  inv (mkWorld (clock w) s' (setThread w i p') (events w)).
Proof.
  intros Hi Hp Hs Ho. apply inv_silent; [done|..].
  - intros i' q j u _ Hq Hw Hn. destruct (inv_owned w Hi _ _ _ _ Hq Hw Hn) as [Hc He]. by apply Hs.
  - intros j u Hw Hn. destruct Ho as [Ho|Ho]; rewrite Ho in Hw; [|done].
    destruct (inv_owned w Hi _ _ _ _ Hp Hw Hn) as [Hc He]. split_and!; [done|by apply Hs|].
    intros i' q j' u' Hne Hq Hw' Ek. apply Hne. rewrite Ek in Hn. by eapply (inv_distinct w Hi).
  - intros k t e _ Ht _ He _ Hle. apply Hs; [done|lia].
Qed.

(** While a request owns a key, no response kept under the key is still live. *)
Lemma owned_not_kept w i p j u t :
  inv w -> threads w !! i = Some p -> owned p = Some (j, u) -> ~ overran (events w) (j_key j) ->
  Keep (j_key j) t ∈ events w -> t < clock w.
Proof.
  intros Hi Hp Hw Hn Hk. destruct (Z.lt_ge_cases t (clock w)) as [|Hge]; [done|]. exfalso.
  destruct (inv_owned w Hi _ _ _ _ Hp Hw Hn) as [_ He].
  destruct (inv_kept w Hi _ _ Hk Hge Hn) as (e & He' & Hpe & _). rewrite He in He'. by injection He' as <-.
Qed.

(** Another owner has another key. *)
Lemma owned_other w i i' p p' j j' u u' :
  inv w -> threads w !! i = Some p -> owned p = Some (j, u) -> i' ≠ i ->
  threads w !! i' = Some p' -> owned p' = Some (j', u') -> ~ overran (events w) (j_key j') -> j_key j ≠ j_key j'.
Proof. intros Hi Hp Hw Hne Hp' Hw' Hn Ek. apply Hne. by eapply (inv_distinct w Hi). Qed.

Lemma inv_reserve w i j idem stop :
  inv w -> threads w !! i = Some (Validated j) ->
  enter cfg (r_idem (shared w)) (clock w) (clock w) j = (idem, stop) ->
  inv (mkWorld (clock w) (withIdem (shared w) idem)
         (setThread w i (match stop with
                         | Some resp => Finished resp
                         | None => Reserved j (clock w) end)) (events w)).
Proof.
  intros Hi Hp E. pose proof reservationTTL_pos as Httl.
  destruct (enter_cases cfg (r_idem (shared w)) (clock w) (clock w) j) as [[E' Hr]|(resp & E' & Hr)];
    rewrite E' in E; injection E as <- <-.
  - apply inv_silent; [done|..]; simpl.
    + intros i' p j' u' _ Hp' Hw Hn. destruct (inv_owned w Hi _ _ _ _ Hp' Hw Hn) as [Hc He].
      by apply reserve_keeps.
    + intros j' u' [= <- <-] Hn. split_and!; [lia|by apply reserve_new|].
      intros i' p j' u' _ Hp' Hw Ek. rewrite Ek in Hn. destruct (inv_owned w Hi _ _ _ _ Hp' Hw Hn) as [Hc He].
      rewrite <- Ek in He. rewrite (reserve_live _ _ _ _ _ _ _ He Hc) in Hr.
      unfold answer in Hr. by repeat case_match.
    + intros k t e _ Ht _ He _ Hle. apply reserve_keeps; [done|lia].
  - eapply inv_quiet; [done|exact Hp| |by right]. simpl. intros. by apply reserve_keeps.
Qed.

Lemma inv_release w i j u resp :
  inv w -> threads w !! i = Some (Refused j u resp) ->
  inv (mkWorld (clock w) (withIdem (shared w) (release (r_idem (shared w)) (j_key j)))
         (setThread w i (Finished resp)) (events w)).
Proof.
  intros Hi Hp. apply inv_silent; [done|..]; simpl; [|done|].
  - intros i' p j' u' Hne Hp' Hw Hn. destruct (inv_owned w Hi _ _ _ _ Hp' Hw Hn) as [Hc He].
    apply release_keeps; [done|]. intros Ek. exfalso. by eapply (owned_other w i i').
  - intros k t e _ _ _ He Hpe _. by apply release_keeps.
Qed.

Lemma order_snoc (P : string -> Prop) (ev : list event) x :
  (forall k t t', [Keep k t; Call k t'] `sublist_of` ev -> P k -> t < t') ->
  (forall k t t', x = Call k t' -> Keep k t ∈ ev -> P k -> t < t') ->
  forall k t t', [Keep k t; Call k t'] `sublist_of` ev ++ [x] -> P k -> t < t'.
Proof.
  intros H1 H2 k t t' Hs. apply sublist_app_r in Hs as (l1 & l2 & E & S1 & S2).
  destruct l2 as [|y [|z l2]].
  - rewrite app_nil_r in E. subst l1. eauto.
  - destruct l1 as [|a [|? [|]]]; simplify_eq/=. apply sublist_subseteq in S1, S2.
    apply (H2 k t t'); [|apply S1; set_solver].
    assert (Hin : Call k t' ∈ [x]) by (apply S2; set_solver). by apply list_elem_of_singleton in Hin.
  - apply sublist_length in S2. simpl in S2. lia.
Qed.

Lemma inv_execute w i j u s result :
  inv w -> threads w !! i = Some (Ready j u) -> execute (shared w) j = (s, result) ->
  inv (mkWorld (clock w) s (setThread w i (Called j u result)) (events w ++ [Call (j_key j) (clock w)])).
Proof.
  intros Hi Hp E. assert (Hs : r_idem s = r_idem (shared w)).
  { unfold execute in E. destruct (mutate _ _ _). by injection E as <- <-. }
  apply inv_update; [done|set_solver|..]; rewrite ?Hs.
  - intros i' p j' u' _ Hp' Hw Hn. by eapply inv_owned.
  - intros j' u' [= <- <-] Hn. destruct (inv_owned w Hi i (Ready j u) j u Hp eq_refl Hn) as [? ?]. split_and!; [done..|].
    intros i' p j' u' Hne Hp' Hw Ek. rewrite Ek in Hn. by eapply (owned_other w i i').
  - intros k t Hin Ht. apply elem_of_app in Hin as [Hin|Hin]; [|set_solver]. by apply (inv_kept w Hi).
  - apply order_snoc; [apply inv_order, Hi|]. intros k t t' [= <- <-] Hin Hn.
    by apply (owned_not_kept w i (Ready j u) j u t Hi Hp).
Qed.

Lemma inv_finish w i j u result status r keep :
  inv w -> threads w !! i = Some (Called j u result) ->
  inv (mkWorld (clock w)
         (withIdem (shared w) (resolve marshal cfg (r_idem (shared w)) (clock w) j status r keep))
         (setThread w i (Finished (RMutation status r)))
         (events w ++ (if keep then [Keep (j_key j) (clock w + IdempotencyTTL cfg)] else []))).
Proof.
  intros Hi Hp. apply inv_update; [done|destruct keep; set_solver|..|]; simpl.
  - intros i' p j' u' Hne Hp' Hw Hn. destruct (inv_owned w Hi _ _ _ _ Hp' Hw Hn) as [Hc He].
    apply resolve_keeps; [done|]. by eapply (owned_other w i i').
  - done.
  - intros k t Hin Ht Hn. apply elem_of_app in Hin as [Hin|Hin].
    + destruct (inv_kept w Hi k t Hin Ht Hn) as (e & He & ? & ?). exists e. split; [|done].
      apply resolve_keeps; [done|]. intros <-.
      pose proof (owned_not_kept w i (Called j u result) j u t Hi Hp eq_refl Hn Hin). lia.
    + destruct keep; [|set_solver]. apply list_elem_of_singleton in Hin. injection Hin as -> ->.
      eexists. unfold resolve, complete. rewrite lookup_insert_eq. split_and!; [done|done|simpl; lia].
  - destruct keep; [|rewrite app_nil_r; apply inv_order, Hi].
    apply order_snoc; [apply inv_order, Hi|done].
Qed.

(** Time passes: an owner whose reservation has expired is recorded. *)
Lemma inv_tick w t :
  inv w -> clock w <= t -> inv (mkWorld t (shared w) (threads w) (events w ++ overruns (threads w) t)).
Proof.
  intros Hi Ht.
  assert (Hnew : forall x, x ∈ overruns (threads w) t -> exists k s, x = Overran k s t /\ s + reservationTTL cfg < t).
  { intros x Hin. apply elem_of_overruns in Hin as (i & p & j & u & _ & _ & Hlt & ->). eauto. }
  constructor; simpl.
  - intros i p j u Hp Hw Hn. split; [|eapply inv_owned; [done..|by eapply overran_app]].
    destruct (Z.le_gt_cases t (u + reservationTTL cfg)) as [|Hgt]; [done|]. exfalso. apply Hn. exists u, t.
    apply elem_of_app. right. apply elem_of_overruns. exists i, p, j, u. split_and!; [done..|lia|done].
  - intros i i' p p' j j' u u' H1 H2 W1 W2 Ek Hn%overran_app. by eapply (inv_distinct w Hi).
  - intros k t' Hin Hle Hn%overran_app. apply (inv_kept w Hi); [|lia|done].
    apply elem_of_app in Hin as [Hin|Hin]; [done|]. by apply Hnew in Hin as (? & ? & [=] & _).
  - intros k t1 t2 Hs Hn%overran_app. eapply (inv_order w Hi); [|done].
    apply sublist_app_r in Hs as (l1 & l2 & E & S1 & S2).
    assert (l2 = []) as ->; [|rewrite app_nil_r in E; by subst l1]. destruct l2 as [|x l _] using rev_ind; [done|].
    exfalso. rewrite app_assoc in E. change [Keep k t1; Call k t2] with ([Keep k t1] ++ [Call k t2]) in E.
    apply app_inj_tail in E as [_ <-]. apply sublist_subseteq in S2.
    by destruct (Hnew (Call k t2) ltac:(apply S2; set_solver)) as (? & ? & [=] & _).
  - intros k s t' Hin. apply elem_of_app in Hin as [Hin|Hin]; [by apply (inv_overran w Hi) in Hin|].
    apply Hnew in Hin as (k' & s' & [= -> -> ->] & Hlt). done.
Qed.

Lemma inv_step w w' : inv w -> step w w' -> inv w'.
Proof.
  intros Hi Hs. destruct Hs.
  - apply inv_silent; [done|..]; [|done|done].
    intros i' p j u _ Hp Hw Hn. by eapply inv_owned.
  - by apply inv_tick.
  - eapply inv_quiet; [done|eassumption| |right; by destruct v]. simpl. intros. by eapply validate_keeps.
  - by eapply inv_reserve.
  - eapply inv_quiet; [done|eassumption|done|left; by destruct stop].
  - by eapply inv_release.
  - by eapply inv_execute.
  - by eapply inv_finish.
Qed.

Lemma inv_reachable w : reachable w -> inv w.
Proof.
  induction 1 as [t s E|w w' _ IH Hs]; [|by eapply inv_step].
  constructor; simpl; intros; try set_solver; try (by rewrite lookup_empty in *; simplify_map_eq).
  exfalso. by match goal with E : _ `sublist_of` [] |- _ => apply sublist_nil_r in E end.
Qed.

(** The next stage of one request, run without interruption by its context. *)
Definition advance (gens : string -> option Z) w (i : nat) : option (world M) :=
  match threads w !! i with
  | Some (Arrived who body) =>
      let '(idem, v) := validate canonical hash cfg who gens (r_idem (shared w)) (clock w) (clock w) body in
      Some (mkWorld (clock w) (withIdem (shared w) idem)
              (setThread w i (match v with inl resp => Finished resp | inr j => Validated j end)) (events w))
  | Some (Validated j) =>
      let '(idem, stop) := enter cfg (r_idem (shared w)) (clock w) (clock w) j in
      Some (mkWorld (clock w) (withIdem (shared w) idem)
              (setThread w i (match stop with
                              | Some resp => Finished resp
                              | None => Reserved j (clock w) end)) (events w))
  | Some (Reserved j u) =>
      let '(nonces, stop) := confirm (r_nonces (shared w)) false (clock w) j in
      Some (mkWorld (clock w) (withNonces (shared w) nonces)
              (setThread w i (match stop with Some resp => Refused j u resp | None => Ready j u end)) (events w))
  | Some (Refused j u resp) =>
      Some (mkWorld (clock w) (withIdem (shared w) (release (r_idem (shared w)) (j_key j)))
              (setThread w i (Finished resp)) (events w))
  | Some (Ready j u) =>
      let '(s, result) := execute (shared w) j in
      Some (mkWorld (clock w) s (setThread w i (Called j u result)) (events w ++ [Call (j_key j) (clock w)]))
  | Some (Called j u result) =>
      let '(status, r, keep) := settle j None result in
      Some (mkWorld (clock w)
              (withIdem (shared w) (resolve marshal cfg (r_idem (shared w)) (clock w) j status r keep))
              (setThread w i (Finished (RMutation status r)))
              (events w ++ (if keep then [Keep (j_key j) (clock w + IdempotencyTTL cfg)] else [])))
  | _ => None
  end.

Lemma advance_step gens w i w' : advance gens w i = Some w' -> step w w'.
Proof.
  unfold advance. intros E.
  destruct (threads w !! i) as [[who body|j|j u|j u|j u result|j u resp|resp]|] eqn:Ei; [..|done|done].
  - destruct (validate _ _ _ _ _ _ _ _ _) as [idem v] eqn:Ev. injection E as <-. by eapply step_validate.
  - destruct (enter _ _ _ _ _) as [idem stop] eqn:Ev. injection E as <-. by eapply step_reserve.
  - destruct (confirm _ _ _ _) as [nonces stop] eqn:Ev. injection E as <-. by eapply step_confirm.
  - destruct (execute _ _) as [s result] eqn:Ev. injection E as <-. by eapply step_execute.
  - destruct (settle _ _ _) as [[status r] keep] eqn:Ev. injection E as <-. by eapply step_finish.
  - injection E as <-. by eapply step_release.
Qed.

(** A schedule: a request advances, or the clock moves to a time. *)
Inductive turn := Stage (i : nat) | Until (t : Z).

Definition takeTurn (gens : string -> option Z) w (c : turn) : option (world M) :=
  match c with
  | Stage i => advance gens w i
  | Until t =>
      if clock w <=? t then Some (mkWorld t (shared w) (threads w) (events w ++ overruns (threads w) t)) else None
  end.

Fixpoint schedule (gens : string -> option Z) w (turns : list turn) : option (world M) :=
  match turns with
  | [] => Some w
  | c :: turns' => match takeTurn gens w c with Some w' => schedule gens w' turns' | None => None end
  end.

Lemma schedule_reachable gens turns w w' : reachable w -> schedule gens w turns = Some w' -> reachable w'.
Proof.
  revert w. induction turns as [|c turns IH]; intros w Hr; simpl; [by intros [= <-]|].
  destruct (takeTurn gens w c) as [w1|] eqn:E; [|done]. apply IH. eapply reach_step; [exact Hr|].
  destruct c as [i|t]; simpl in E; [by eapply advance_step|].
  case_match; [|done]. bool_hyps. injection E as <-. by apply step_tick.
Qed.

(** C3: A request executes exactly once, under every interleaving with any other requests
    and with the clock, which is not constrained. For a session's request id of which no
    request has held the reservation past its expiry: no two requests are between
    reservation and resolution together; the one that is holds the pending entry of the
    key; and after a response has been kept, no further call for the key is made until
    that response has expired. And holding it past its expiry takes a request longer than
    thirty seconds and, the configured deadline being below half the largest duration,
    longer than twice the deadline that its call to Herdr is made under. *)
Theorem mutation_exactly_once (w : world M) :
  reachable w ->
  (forall k, ~ overran (events w) k ->
     (forall i i' p p' j j' u u', threads w !! i = Some p -> threads w !! i' = Some p' ->
        owned p = Some (j, u) -> owned p' = Some (j', u') -> j_key j = k -> j_key j' = k -> i = i') /\
     (forall i p j u, threads w !! i = Some p -> owned p = Some (j, u) -> j_key j = k ->
        clock w <= u + reservationTTL cfg /\ r_idem (shared w) !! k = Some (ownerEntry j u)) /\
     (forall t t', [Keep k t; Call k t'] `sublist_of` events w -> t < t')) /\
  (forall k s t, Overran k s t ∈ events w ->
     30 * Second < t - s /\
     (0 <= ServerMutationDeadline cfg < 2 ^ 62 -> 2 * ServerMutationDeadline cfg < t - s)).
Proof.
  intros Hr. apply inv_reachable in Hr as [H1 H2 _ H4 H5]. split.
  - intros k Hn. split_and!; [|intros i p j u Hp Ho <-; by eapply H1|eauto].
    intros i i' p p' j j' u u' Hp Hp' Ho Ho' E E'. eapply (H2 i i' p p' j j' u u'); congruence.
  - intros k s t Hin. apply H5 in Hin. pose proof reservationTTL_bounds as [Hb Hb'].
    split; [lia|]. intros Hd. specialize (Hb' Hd). lia.
Qed.
End Concurrent.

(** Two copies of one request, interleaved: both validate, the first reserves,
    the second is turned away, the first runs to its end. *)
Definition twinWorld : world okHerdr :=
  mkWorld 10 (mkRelay ∅ sampleNonces mkOk [] []) {[0%nat := Arrived sampleCaller (Some sampleClose)]} [].
Definition twinWorld2 : world okHerdr :=
  mkWorld 10 (shared twinWorld) (setThread twinWorld 1 (Arrived sampleCaller (Some sampleClose))) [].
Definition twinSchedule (turns : list turn) : world okHerdr :=
  default twinWorld2 (schedule sampleCanonical sampleHash sampleMarshal sampleCfg sampleGens twinWorld2 turns).
Definition twinEnd : world okHerdr := twinSchedule (Stage <$> [0; 1; 0; 1; 0; 0; 0]%nat).

Lemma twin_reachable turns : reachable sampleCanonical sampleHash sampleMarshal sampleCfg (twinSchedule turns).
Proof.
  assert (H2 : reachable sampleCanonical sampleHash sampleMarshal sampleCfg twinWorld2).
  { eapply reach_step; [|apply (step_arrive _ _ _ _ twinWorld 1); reflexivity].
    eapply reach_step; [apply (reach_init _ _ _ _ 10 (mkRelay ∅ sampleNonces mkOk [] [])); reflexivity|].
    apply (step_arrive _ _ _ _ (mkWorld 10 _ ∅ []) 0). reflexivity. }
  unfold twinSchedule. destruct (schedule _ _ _ _ _ _ _) as [w|] eqn:E; [|exact H2]. simpl.
  by eapply schedule_reachable.
Qed.

(** The first is held up for longer than its reservation lasts: the second reserves the
    key too, and both are in flight. *)
Definition twinOverrun : world okHerdr :=
  twinSchedule [Stage 0; Stage 0; Until (11 + reservationTTL sampleCfg); Stage 1; Stage 1].

Example overrun_two_owners :
  exists j j', threads twinOverrun !! 0%nat = Some (Reserved j 10) /\
    threads twinOverrun !! 1%nat = Some (Reserved j' (11 + reservationTTL sampleCfg)) /\ j_key j = j_key j' /\
    overran (events twinOverrun) (j_key j).
Proof.
  do 2 eexists. split_and!; [vm_compute; reflexivity..|]. exists 10, (11 + reservationTTL sampleCfg).
  vm_compute. by left.
Qed.

Lemma mutation_exactly_once_witness :
  length (events twinEnd) = 2%nat /\
  (forall t t', [Keep (idemKey (c_session sampleCaller) "r1") t; Call (idemKey (c_session sampleCaller) "r1") t'] `sublist_of` events twinEnd -> t < t') /\
  30 * Second < (11 + reservationTTL sampleCfg) - 10.
Proof.
  pose proof (mutation_exactly_once (M:=okHerdr) sampleCanonical sampleHash sampleMarshal sampleCfg) as H.
  split_and!; [vm_compute; reflexivity|..].
  - intros t t'. apply (H twinEnd (twin_reachable _)). apply (bool_decide_unpack _). vm_compute. exact I.
  - eapply (H twinOverrun (twin_reachable _)). vm_compute. by left.
Defined.
