(* ===== verification/Routes.v ===== *)
(** * Routes: internal/server/routes.go, the host and origin checks of server.go
    and the handlers of pairing.go

    The central middleware in its order, against the authenticator interface,
    and the route table it is applied to. *)

From S2P Require Import Prelude GoStr Session Pairing Access AuthAdapter.

(** ** The route table *)

Inductive authLevel := authNone | authPair | authSession.

Inductive httpMethod := GET | POST | DELETE.

Inductive routeHandler :=
| hHealth | hPair | hGetSession | hDeleteSession | hSnapshot | hPaneRead | hRuns | hRun
| hDirectories | hCapabilities | hEvents | hTerminal | hConfirmations | hMutations.

Record routeSpec := mkRoute {
  rt_method : httpMethod; rt_pattern : string; rt_auth : authLevel; rt_mutating : bool;
  rt_websocket : bool; rt_handler : routeHandler
}.

Definition apiPrefix : string := "/api/v1".

Definition routes : list routeSpec :=
  [ mkRoute GET "/health" authNone false false hHealth;
    mkRoute POST (apiPrefix +:+ "/pair") authPair true false hPair;
    mkRoute GET (apiPrefix +:+ "/session") authSession false false hGetSession;
    mkRoute DELETE (apiPrefix +:+ "/session") authSession true false hDeleteSession;
    mkRoute GET (apiPrefix +:+ "/snapshot") authSession false false hSnapshot;
    mkRoute GET (apiPrefix +:+ "/panes/{pane_id}/read") authSession false false hPaneRead;
    mkRoute GET (apiPrefix +:+ "/runs") authSession false false hRuns;
    mkRoute GET (apiPrefix +:+ "/runs/{pane_id}") authSession false false hRun;
    mkRoute GET (apiPrefix +:+ "/directories") authSession false false hDirectories;
    mkRoute GET (apiPrefix +:+ "/capabilities") authSession false false hCapabilities;
    mkRoute GET (apiPrefix +:+ "/events") authSession false true hEvents;
    mkRoute GET (apiPrefix +:+ "/terminals/{pane_id}") authSession false true hTerminal;
    mkRoute POST (apiPrefix +:+ "/confirmations") authSession true false hConfirmations;
    mkRoute POST (apiPrefix +:+ "/mutations") authSession true false hMutations ].

(** ** Requests *)

(** The parts of a request the middleware reads; an absent header is empty, an
    absent cookie is [None]. *)
Record httpRequest := mkHttp {
  rq_Host : string; rq_Origin : list byte; rq_ContentType : list byte; rq_Cookie : option string;
  rq_Access : list byte; rq_CSRF : string; rq_RemoteAddr : list byte; rq_Probe : string
}.

Record hostConfig := mkHosts { PublicHost : string; DevHosts : list string; AllowedOrigins : list (list byte) }.

Definition hostAllowed (c : hostConfig) (host : string) : bool :=
  if negb (nonempty host) then false
  else if nonempty (PublicHost c) && bool_decide (host = PublicHost c) then true
  else bool_decide (host ∈ DevHosts c).

(** [strings.EqualFold] of two arbitrary strings is a parameter; it is
    reflexive. *)
Definition originAllowed (equalFold : list byte -> list byte -> bool) (c : hostConfig) (r : httpRequest) : bool :=
  if bool_decide (rq_Origin r = []) then false
  else existsb (fun o => equalFold (rq_Origin r) o) (AllowedOrigins c).

(** [strings.Cut(ct, ";")]. *)
Fixpoint beforeSemicolon (s : list byte) : list byte :=
  match s with
  | [] => []
  | b :: r => if bz b =? 59 then [] else b :: beforeSemicolon r
  end.

Definition hasJSONContentType (r : httpRequest) : bool :=
  if bool_decide (rq_ContentType r = []) then false
  else EqualFold (TrimSpace (beforeSemicolon (rq_ContentType r))) (bytesOf "application/json").

(** The prefix before the last colon. *)
Fixpoint afterFirstColon (rev : list byte) : option (list byte) :=
  match rev with
  | [] => None
  | b :: r => if bz b =? 58 then Some r else afterFirstColon r
  end.

Definition clientIP (r : httpRequest) : list byte :=
  let host := match afterFirstColon (reverse (rq_RemoteAddr r)) with
              | Some p => reverse p | None => rq_RemoteAddr r end in
  if bool_decide (host = []) then bytesOf "unknown" else host.

(** [handleHealth]: the instance id only for the exact probe token. *)
Definition handleHealth (probeToken instanceID : string) (r : httpRequest) : string :=
  if nonempty probeToken && nonempty (rq_Probe r) && bool_decide (rq_Probe r = probeToken)
  then instanceID else "ok".

(** ** The middleware *)

(** The rate limiter as the middleware uses it. *)
Class Limiter (L : Type) := allow : L -> string -> L * bool.

Inductive denial :=
| dHost | dAccess | dSession | dOrigin | dCrossOrigin | dCSRF | dContentType | dRate.

Definition denialStatus (d : denial) : Z :=
  match d with
  | dHost => 421 | dAccess => 401 | dSession => 401 | dOrigin => 403 | dCrossOrigin => 403
  | dCSRF => 403 | dContentType => 415 | dRate => 429
  end.

(** The outcome: a denial, or the handler run for an identity (empty on routes
    without a session). *)
Inductive outcome := Deny (d : denial) | Serve (cookie : string) (ident : option ServerIdentity).

Section Wrap.
Context {A L : Type} `{Authenticator A} `{Limiter L}.
Context (equalFold : list byte -> list byte -> bool).
(** [http.CrossOriginProtection.Check]. *)
Context (crossOriginOk : httpRequest -> bool).

Record server := mkServer { s_auth : A; s_limiter : L; s_cookies : list Cookie; s_audit : list (string * string) }.

Definition withAuth (s : server) (a : A) : server := mkServer a (s_limiter s) (s_cookies s) (s_audit s).

Definition sessionFromRequest (s : server) (now : Z) (r : httpRequest)
  : server * option (string * ServerIdentity) :=
  match rq_Cookie r with
  | None => (s, None)
  | Some v =>
      if negb (nonempty v) then (s, None)
      else let '(a, id) := SessionOf (s_auth s) now v in (withAuth s a, (fun id => (v, id)) <$> id)
  end.

Definition provisionSession (s : server) (now : Z) (r : httpRequest)
  : server * option (string * ServerIdentity) :=
  let '(a, res) := EnsureSession (s_auth s) now (rq_Access r) in
  match res with
  | inl (Some sess) =>
      if negb (nonempty (ck_Value (ss_Cookie sess))) then (withAuth s a, None)
      else (mkServer a (s_limiter s) (s_cookies s ++ [ss_Cookie sess])
              (s_audit s ++ [("session.auto", si_SessionID (ss_Identity sess))]),
            Some (ck_Value (ss_Cookie sess), ss_Identity sess))
  | _ => (withAuth s a, None)
  end.

(** Step 3: the session of the request, provisioned in named mode when the
    request has none. *)
Definition resolveSession (s : server) (now : Z) (r : httpRequest)
  : server * option (string * ServerIdentity) :=
  let '(s1, found) := sessionFromRequest s now r in
  match found with
  | Some x => (s1, Some x)
  | None => if NamedMode (s_auth s1) then provisionSession s1 now r else (s1, None)
  end.

Definition unauthKey (rt : routeSpec) (r : httpRequest) : string :=
  "u:" +:+ rt_pattern rt +:+ "|" +:+ String.string_of_list_byte (clientIP r).

(** Steps 4 to 6, once the caller is known. *)
Definition afterSession (cfg : hostConfig) (rt : routeSpec) (s : server) (now : Z) (r : httpRequest)
  (cookieVal rateKey : string) (ident : option ServerIdentity) : server * outcome :=
  if (rt_websocket rt || rt_mutating rt) && negb (originAllowed equalFold cfg r) then (s, Deny dOrigin)
  else if (rt_websocket rt || rt_mutating rt) && negb (crossOriginOk r) then (s, Deny dCrossOrigin)
  else
    let '(s, csrfOk) :=
      match rt_auth rt with
      | authSession =>
          if rt_mutating rt then
            let '(a, ok) := ValidateCSRF (s_auth s) now cookieVal (rq_CSRF r) in (withAuth s a, ok)
          else (s, true)
      | _ => (s, true)
      end in
    if negb csrfOk then (s, Deny dCSRF)
    else if rt_mutating rt && match rt_method rt with POST => true | _ => false end &&
            negb (hasJSONContentType r) then (s, Deny dContentType)
    else
      let '(l, ok) := allow (s_limiter s) rateKey in
      let s := mkServer (s_auth s) l (s_cookies s) (s_audit s) in
      if negb ok then (s, Deny dRate) else (s, Serve cookieVal ident).

Definition wrap (cfg : hostConfig) (rt : routeSpec) (s : server) (now : Z) (r : httpRequest)
  : server * outcome :=
  if negb (hostAllowed cfg (rq_Host r)) then (s, Deny dHost)
  else
    let '(s, err) :=
      match rt_auth rt with
      | authNone => (s, None)
      | _ => let '(a, e) := VerifyAccess (s_auth s) now (rq_Access r) in (withAuth s a, e)
      end in
    match err with
    | Some _ => (s, Deny dAccess)
    | None =>
        match rt_auth rt with
        | authSession =>
            let '(s, found) := resolveSession s now r in
            match found with
            | None => (s, Deny dSession)
            | Some (cv, id) => afterSession cfg rt s now r cv ("s:" +:+ si_SessionID id) (Some id)
            end
        | _ => afterSession cfg rt s now r "" (unauthKey rt r) None
        end
    end.
End Wrap.

Arguments server : clear implicits.

(** ** The handlers of pairing.go *)

Inductive pairReply := PairOk (csrf : string) (expires : Z) (ident : ServerIdentity) | PairErr (status : Z).

Section Handlers.
Context {A L : Type} `{Authenticator A}.

(** [body] is the decoded secret, [None] when the body does not decode. *)
Definition handlePair (s : server A L) (now : Z) (r : httpRequest) (body : option (list byte))
  : server A L * pairReply :=
  match body with
  | None => (s, PairErr 400)
  | Some sec =>
      if bool_decide (sec = []) then (s, PairErr 400)
      else
        let '(a, res) := Pair (s_auth s) now (rq_Access r) sec in
        match res with
        | inr ErrPairing =>
            (mkServer a (s_limiter s) (s_cookies s) (s_audit s ++ [("pair.reject", "")]), PairErr 401)
        | inr _ => (withAuth s a, PairErr 503)
        | inl sess =>
            (mkServer a (s_limiter s) (s_cookies s ++ [ss_Cookie sess])
               (s_audit s ++ [("pair.success", si_SessionID (ss_Identity sess))]),
             PairOk (ss_CSRFToken sess) (ss_ExpiresAt sess) (ss_Identity sess))
        end
  end.

Definition handleDeleteSession (s : server A L) (ident : ServerIdentity) (r : httpRequest) : server A L :=
  let s := match rq_Cookie r with
           | Some v => if nonempty v then withAuth s (Revoke (s_auth s) v) else s
           | None => s
           end in
  mkServer (s_auth s) (s_limiter s) (s_cookies s ++ [ClearSessionCookie])
    (s_audit s ++ [("session.revoke", si_SessionID ident)]).
End Handlers.

(** ** What the middleware needs of an authenticator *)

Class AuthenticatorLaws (A : Type) `{Authenticator A} := {
  (** a CSRF token is accepted only for a live session, and is its token *)
  csrf_session : forall a a' now c t, ValidateCSRF a now c t = (a', true) ->
    t ≠ "" /\ exists id, (SessionOf a now c).2 = Some id /\ si_CSRFToken id = t;
  (** without an edge identity no session is provisioned *)
  quick_none : forall a now tok, NamedMode a = false -> EnsureSession a now tok = (a, inl None);
  (** the mode never changes *)
  mode_access : forall a now tok, NamedMode (VerifyAccess a now tok).1 = NamedMode a;
  mode_session : forall a now c, NamedMode (SessionOf a now c).1 = NamedMode a
}.

#[global] Instance adapter_laws {S : Type} `{KeySource S} uh uc vf :
  @AuthenticatorLaws (authAdapter S) (adapter_Authenticator uh uc vf).
Proof.
  split; simpl.
  - intros a a' now c t. unfold validateCSRF, sessionOf. destruct (Get (store a) now c) as [st [sess|]]; [|done].
    intros [= _ Hv]. unfold ValidCSRF in Hv. case_bool_decide as E1; [done|].
    case_bool_decide as E2; [done|]. simpl in Hv. case_bool_decide as E3; [|done].
    split; [done|]. eexists. split; [done|]. done.
  - intros a now tok E. unfold ensureSession. by rewrite E.
  - intros a now tok. unfold verifyAccess. destruct (named a) eqn:E; [|done]. simpl.
    pose proof (verifyToken_frame uh uc vf a now tok) as Hf. destruct (verifyToken _ _ _ _ _ _). simpl in *.
    destruct Hf as [-> _]. done.
  - intros a now c. unfold sessionOf. by destruct (Get _ _ _).
Qed.

(** ** Properties *)

Section WrapFacts.
Context {A L : Type} `{Authenticator A} `{!AuthenticatorLaws A} `{Limiter L}.
Context (equalFold : list byte -> list byte -> bool) (crossOriginOk : httpRequest -> bool).

Lemma afterSession_serves cfg rt (s : server A L) now r cv key ident s' cv' ident' :
  afterSession equalFold crossOriginOk cfg rt s now r cv key ident = (s', Serve cv' ident') ->
  cv' = cv /\ ident' = ident /\
  (rt_websocket rt || rt_mutating rt = true -> originAllowed equalFold cfg r = true /\ crossOriginOk r = true) /\
  (rt_auth rt = authSession -> rt_mutating rt = true ->
     rq_CSRF r ≠ "" /\ exists id, (SessionOf (s_auth s) now cv).2 = Some id /\ si_CSRFToken id = rq_CSRF r) /\
  (rt_mutating rt = true -> rt_method rt = POST -> hasJSONContentType r = true) /\
  allow (s_limiter s) key = (s_limiter s', true).
Proof.
  unfold afterSession. destruct (_ && negb (originAllowed _ _ _)) eqn:E1; [done|].
  destruct (_ && negb (crossOriginOk r)) eqn:E2; [done|].
  destruct (match rt_auth rt with authSession => _ | _ => _ end) as [s1 ok] eqn:E3.
  destruct ok; [|done]. cbn [negb]. destruct (_ && negb (hasJSONContentType r)) eqn:E4; [done|].
  assert (Hl : s_limiter s1 = s_limiter s).
  { destruct (rt_auth rt); simplify_eq; [done..|]. destruct (rt_mutating rt); [|by simplify_eq].
    destruct (ValidateCSRF _ _ _ _). by simplify_eq. }
  rewrite Hl. destruct (allow (s_limiter s) key) as [l okl] eqn:E5. destruct okl; [|done].
  cbn [negb]. intros [= <- <- <-]. split_and!; try done.
  - intros E. rewrite E in *. simpl in *. by destruct (originAllowed _ _ _), (crossOriginOk r).
  - intros Ea Em. rewrite Ea, Em in E3. destruct (ValidateCSRF (s_auth s) now cv (rq_CSRF r)) as [a ok] eqn:Ev.
    injection E3 as _ ->. by eapply csrf_session.
  - intros Em Ep. rewrite Em, Ep in E4. simpl in E4. by destruct (hasJSONContentType r).
Qed.

Lemma provisionSession_spec (s : server A L) now r s2 cv id :
  provisionSession s now r = (s2, Some (cv, id)) ->
  exists sess, (EnsureSession (s_auth s) now (rq_Access r)).2 = inl (Some sess) /\
    ck_Value (ss_Cookie sess) = cv /\ ss_Identity sess = id.
Proof.
  unfold provisionSession. destruct (EnsureSession _ _ _) as [a [[sess|]|e]]; [|done..].
  destruct (negb _); [done|]. intros [= _ <- <-]. eauto.
Qed.

Lemma resolveSession_spec (s : server A L) now r s2 cv id :
  resolveSession s now r = (s2, Some (cv, id)) ->
  (rq_Cookie r = Some cv /\ cv ≠ "" /\ (SessionOf (s_auth s) now cv).2 = Some id) \/
  (NamedMode (s_auth s) = true /\
   exists a' sess, (EnsureSession a' now (rq_Access r)).2 = inl (Some sess) /\
     ck_Value (ss_Cookie sess) = cv /\ ss_Identity sess = id).
Proof.
  unfold resolveSession, sessionFromRequest.
  assert (Hp : forall s1, NamedMode (s_auth s1) = NamedMode (s_auth s) ->
    (if NamedMode (s_auth s1) then provisionSession s1 now r else (s1, None)) = (s2, Some (cv, id)) ->
    NamedMode (s_auth s) = true /\
    exists a' sess, (EnsureSession a' now (rq_Access r)).2 = inl (Some sess) /\
      ck_Value (ss_Cookie sess) = cv /\ ss_Identity sess = id).
  { intros s1 Em E. rewrite Em in E. destruct (NamedMode (s_auth s)); [|done]. split; [done|].
    apply provisionSession_spec in E. eauto. }
  destruct (rq_Cookie r) as [v|]; [|intros E; right; by eapply Hp].
  unfold nonempty. case_bool_decide as Ev; cbn [negb]; [intros E; right; by eapply Hp|].
  pose proof (mode_session (s_auth s) now v) as Hm.
  destruct (SessionOf (s_auth s) now v) as [a [id0|]] eqn:Es; simpl in *.
  - intros [= _ <- <-]. left. by rewrite Es.
  - intros E. right. by apply (Hp (withAuth s a)).
Qed.

(** Finding the session does not touch the limiter. *)
Lemma resolveSession_limiter (s : server A L) now r : s_limiter (resolveSession s now r).1 = s_limiter s.
Proof.
  unfold resolveSession, sessionFromRequest, provisionSession.
  repeat case_match; by simplify_eq/=.
Qed.

(** C5: A handler runs only behind every check of its route. Whatever the
    authenticator is, if the middleware serves a request then its host is
    allowed; on an authenticated route the Access check passed; on a session route
    the caller is identified by its own live session cookie, or, in named mode
    only, by the session provisioned for its verified identity; WebSocket and
    mutating routes come from an allowed origin; a mutating session request
    carries the CSRF token of that very session; a POST carries JSON; and the
    rate limiter admitted it, and was charged for it, under the key of the identified
    session or, on the other routes, the key of the route and the client's address. *)
Theorem wrap_serves (cfg : hostConfig) (rt : routeSpec) (s s' : server A L) (now : Z) (r : httpRequest)
  (cv : string) (ident : option ServerIdentity) :
  wrap equalFold crossOriginOk cfg rt s now r = (s', Serve cv ident) ->
  hostAllowed cfg (rq_Host r) = true /\
  (rt_auth rt ≠ authNone -> (VerifyAccess (s_auth s) now (rq_Access r)).2 = None) /\
  (rt_websocket rt || rt_mutating rt = true -> originAllowed equalFold cfg r = true /\ crossOriginOk r = true) /\
  (rt_mutating rt = true -> rt_method rt = POST -> hasJSONContentType r = true) /\
  (rt_auth rt = authSession ->
     let a := (VerifyAccess (s_auth s) now (rq_Access r)).1 in
     exists id, ident = Some id /\
       ((rq_Cookie r = Some cv /\ cv ≠ "" /\ (SessionOf a now cv).2 = Some id) \/
        (NamedMode (s_auth s) = true /\
         exists a' sess, (EnsureSession a' now (rq_Access r)).2 = inl (Some sess) /\
           ck_Value (ss_Cookie sess) = cv /\ ss_Identity sess = id)) /\
       (rt_mutating rt = true -> rq_CSRF r ≠ "" /\
          exists a'' id'', (SessionOf a'' now cv).2 = Some id'' /\ si_CSRFToken id'' = rq_CSRF r)) /\
  let key := match rt_auth rt, ident with
             | authSession, Some id => "s:" +:+ si_SessionID id
             | _, _ => unauthKey rt r
             end in
  allow (s_limiter s) key = (s_limiter s', true).
Proof.
  unfold wrap. destruct (hostAllowed cfg (rq_Host r)); [|done]. cbn [negb].
  destruct (match rt_auth rt with authNone => _ | _ => _ end) as [s1 err] eqn:E1.
  destruct err as [e|]; [done|]. intros Hw.
  assert (Hv : rt_auth rt ≠ authNone -> (VerifyAccess (s_auth s) now (rq_Access r)).2 = None /\
    s1 = withAuth s (VerifyAccess (s_auth s) now (rq_Access r)).1).
  { intros Hn. destruct (rt_auth rt); [done|..]; destruct (VerifyAccess _ _ _); by simplify_eq. }
  destruct (rt_auth rt) eqn:Ea.
  - apply afterSession_serves in Hw as (_ & _ & Ho & _ & Hj & Hl). simplify_eq. by split_and!.
  - apply afterSession_serves in Hw as (_ & _ & Ho & _ & Hj & Hl).
    destruct (Hv ltac:(done)) as [? ->]. split_and!; done.
  - destruct (Hv ltac:(done)) as [Hv1 ->]. set (a := (VerifyAccess (s_auth s) now (rq_Access r)).1) in *.
    destruct (resolveSession _ _ _) as [s2 [[cv0 id]|]] eqn:Er; [|done].
    apply afterSession_serves in Hw as (-> & -> & Ho & Hc & Hj & Hl).
    pose proof (resolveSession_limiter (withAuth s a) now r) as Hlim. rewrite Er in Hlim. simpl in Hlim. rewrite Hlim in Hl.
    split_and!; try done.
    intros _. exists id. split_and!; [done| |].
    + apply resolveSession_spec in Er as [Er|[Hm Er]]; [left; done|right]. split; [|done].
      simpl in Hm. unfold a in Hm. by rewrite mode_access in Hm.
    + intros Hm. destruct (Hc Ea Hm) as [? (id'' & ? & ?)]. eauto.
Qed.
End WrapFacts.

(** In quick mode pairing is the only way in: a session route serves a
    request only for the live session its own cookie names in the store. *)
Theorem quick_needs_paired_session {S L : Type} `{KeySource S} `{Limiter L}
  (uh : list byte -> option jwtHeader) (uc : list byte -> option jwtClaims)
  (vf : RSAKey -> list byte -> list byte -> bool)
  (equalFold : list byte -> list byte -> bool) (crossOriginOk : httpRequest -> bool)
  (cfg : hostConfig) (rt : routeSpec) (s s' : server (authAdapter S) L) (now : Z) (r : httpRequest)
  (cv : string) (ident : option ServerIdentity) :
  named (s_auth s) = false -> rt_auth rt = authSession ->
  wrap (H:=adapter_Authenticator uh uc vf) equalFold crossOriginOk cfg rt s now r = (s', Serve cv ident) ->
  rq_Cookie r = Some cv /\
  exists sess, sessions (store (s_auth s)) !! cv = Some sess /\ now < ExpiresAt sess /\
    ident = Some (toServerIdentity (AuditID sess) (CSRFToken sess) (ExpiresAt sess) (s_Identity sess)).
Proof.
  intros Hq Ha. unfold wrap. destruct (hostAllowed cfg (rq_Host r)); [|done]. rewrite Ha. cbn [negb].
  simpl (VerifyAccess _ _ _). unfold verifyAccess at 1. rewrite Hq. cbn [negb].
  destruct (resolveSession _ _ _) as [s2 [[cv0 id]|]] eqn:Er; [|done]. intros Hw.
  apply afterSession_serves in Hw as (<- & -> & _).
  apply resolveSession_spec in Er as [(Hc & Hne & Hs)|[Hm _]]; [|simpl in Hm; congruence].
  split; [done|]. simpl in Hs. unfold sessionOf in Hs. destruct (Get _ _ _) as [st [x|]] eqn:Eg; [|done].
  simpl in Hs. injection Hs as <-. unfold Get in Eg. rewrite bool_decide_false in Eg by done.
  destruct (sessions _ !! cv) as [old|] eqn:El; [|done].
  destruct (expiredLocked _ old now) eqn:Ex; [done|]. injection Eg as _ <-.
  apply not_expired in Ex as [Hlive _]. exists old. done.
Qed.

(** The route table leaves no gap: only the health probe is open; only the
    pairing endpoint is reachable without a session; every route that is not a
    GET is marked mutating, and so goes through the origin and (with a session)
    the CSRF checks; a WebSocket route is never mutating; patterns with the same
    method are distinct. *)
Theorem routes_covered (rt : routeSpec) :
  rt ∈ routes ->
  (rt_auth rt = authNone <-> rt_handler rt = hHealth) /\
  (rt_auth rt = authPair <-> rt_handler rt = hPair) /\
  (rt_method rt = GET <-> rt_mutating rt = false) /\
  (rt_websocket rt = true -> rt_mutating rt = false /\ rt_auth rt = authSession) /\
  (forall rt', rt' ∈ routes -> rt_method rt' = rt_method rt -> rt_pattern rt' = rt_pattern rt -> rt' = rt).
Proof.
  intros Hin. unfold routes in *.
  assert (Hall : forall rt', rt' ∈ routes -> rt_method rt' = rt_method rt -> rt_pattern rt' = rt_pattern rt -> rt' = rt).
  { intros rt' Hin' Em Ep. assert (Hk : NoDup ((fun x => (match rt_method x with GET => 0 | POST => 1 | DELETE => 2 end, rt_pattern x)) <$> routes)).
    { apply (bool_decide_unpack _). vm_compute. exact I. }
    eapply (NoDup_key_inj _ _ _ _ Hk); eauto. simpl. by rewrite Em, Ep. }
  split_and!; [..|exact Hall];
    repeat (apply elem_of_cons in Hin as [->|Hin]; [by simpl|]); set_solver.
Qed.

(** ** Sample request *)

Record openLimiter := mkOpen {}.
#[global] Instance open_Limiter : Limiter openLimiter := fun l _ => (l, true).

Definition sampleHosts : hostConfig := mkHosts "herdr.example.com" [] [bytesOf "https://herdr.example.com"].
Definition sampleRequest : httpRequest :=
  mkHttp "herdr.example.com" (bytesOf "https://herdr.example.com") (bytesOf "application/json; charset=utf-8")
    (Some (ID sampleSession)) [] (CSRFToken sampleSession) (bytesOf "127.0.0.1:5000") "".
Definition quickAdapter : authAdapter jwksState :=
  mkAdapter false samplePairing sampleCreated.1 sampleVerifier sampleSource.
Definition sampleServer : server (authAdapter jwksState) openLimiter := mkServer quickAdapter mkOpen [] [].
Definition sampleRoute : routeSpec := mkRoute POST (apiPrefix +:+ "/mutations") authSession true false hMutations.
Definition sampleIdentityView : ServerIdentity :=
  toServerIdentity (AuditID sampleSession) (CSRFToken sampleSession) (ExpiresAt sampleSession)
    (s_Identity sampleSession).

Definition sampleServed : server (authAdapter jwksState) openLimiter * outcome :=
  wrap (H:=adapter_Authenticator sampleHeader sampleClaims acceptAll) EqualFold (fun _ => true) sampleHosts
    sampleRoute sampleServer 60 sampleRequest.

Lemma sampleServed_result : sampleServed = (sampleServed.1, Serve (ID sampleSession) (Some sampleIdentityView)).
Proof.
  assert (E : sampleServed.2 = Serve (ID sampleSession) (Some sampleIdentityView)) by (vm_compute; reflexivity).
  destruct sampleServed as [s o]. simpl in *. by rewrite E.
Qed.

Lemma wrap_serves_witness :
  hostAllowed sampleHosts (rq_Host sampleRequest) = true /\ originAllowed EqualFold sampleHosts sampleRequest = true.
Proof.
  destruct (wrap_serves (H:=adapter_Authenticator sampleHeader sampleClaims acceptAll) EqualFold (fun _ => true)
              sampleHosts sampleRoute sampleServer sampleServed.1 60 sampleRequest (ID sampleSession)
              (Some sampleIdentityView) sampleServed_result) as (H1 & _ & H2 & _).
  split; [exact H1|]. apply H2. reflexivity.
Defined.

Lemma quick_needs_paired_session_witness :
  exists sess, sessions sampleCreated.1 !! ID sampleSession = Some sess /\ 60 < ExpiresAt sess.
Proof.
  destruct (quick_needs_paired_session sampleHeader sampleClaims acceptAll EqualFold (fun _ => true) sampleHosts
              sampleRoute sampleServer sampleServed.1 60 sampleRequest (ID sampleSession)
              (Some sampleIdentityView) eq_refl eq_refl sampleServed_result) as [_ (sess & H1 & H2 & _)].
  exists sess. split; [exact H1|exact H2].
Defined.

Lemma routes_covered_witness :
  sampleRoute ∈ routes /\ (rt_method sampleRoute = GET <-> rt_mutating sampleRoute = false).
Proof.
  assert (Hin : sampleRoute ∈ routes) by (unfold routes, sampleRoute; set_solver).
  split; [exact Hin|]. apply (routes_covered sampleRoute Hin).
Defined.
