(* ===== verification/GoText.v ===== *)
(** * GoText: the functions of Go's strings package that the text matchers use,
    and [base64.StdEncoding]

    Strings are byte lists. Case mapping is modelled as far as the callers can
    observe it: they compare the lower-cased text with ASCII (or caseless)
    needles only, and besides the ASCII letters exactly two runes lower-case
    into ASCII, U+0130 and U+212A; every other rune is left as it is. *)

From S2P Require Import Prelude GoStr.

(** ** Searching *)

Fixpoint hasPrefix (s pre : list byte) {struct pre} : bool :=
  match pre, s with
  | [], _ => true
  | b :: pre', c :: s' => (b =b c) && hasPrefix s' pre'
  | _ :: _, [] => false
  end.

Definition hasSuffix (s suf : list byte) : bool := hasPrefix (reverse s) (reverse suf).

Fixpoint contains (s needle : list byte) : bool :=
  hasPrefix s needle || match s with [] => false | _ :: s' => contains s' needle end.

(** [strings.IndexByte]: the text before and after the first occurrence. *)
Fixpoint cutAt (c : byte) (s : list byte) : option (list byte * list byte) :=
  match s with
  | [] => None
  | b :: s' => if b =b c then Some ([], s') else (fun '(x, y) => (b :: x, y)) <$> cutAt c s'
  end.

(** ** Cut sets of ASCII bytes *)

Definition isOneOf (set : list byte) (b : byte) : bool := existsb (fun c => c =b b) set.

Fixpoint dropWhile (f : byte -> bool) (s : list byte) : list byte :=
  match s with
  | [] => []
  | b :: s' => if f b then dropWhile f s' else s
  end.

(** [strings.TrimLeft] and [strings.TrimRight] with an ASCII cut set. *)
Definition trimLeftSet (set : list byte) (s : list byte) : list byte := dropWhile (isOneOf set) s.
Definition trimRightSet (set : list byte) (s : list byte) : list byte :=
  reverse (dropWhile (isOneOf set) (reverse s)).

(** ** Case *)

Definition lowerRune (r : Z) : Z :=
  if (65 <=? r) && (r <=? 90) then r + 32
  else if r =? 304 then 105 else if r =? 8490 then 107 else r.

Definition toLower (s : list byte) : list byte := encodeRunes (lowerRune <$> runes s).

(** ** [base64.StdEncoding] *)

Definition stdOfUrl (b : byte) : byte :=
  if bz b =? 45 then x2b else if bz b =? 95 then x2f else b.
Definition stdValue (b : byte) : option Z :=
  if bz b =? 43 then Some 62 else if bz b =? 47 then Some 63
  else if (bz b =? 45) || (bz b =? 95) then None else b64value b.

Definition padByte : byte := x3d.

Definition stdEncode (s : list byte) : list byte :=
  (stdOfUrl <$> b64encode s) ++
  replicate (match (length s mod 3)%nat with O => 0 | S O => 2 | _ => 1 end)%nat padByte.

(** Line breaks are skipped; what is left is whole groups of four, the last one
    ended by at most two padding characters. *)
Definition stdDecode (s : list byte) : option (list byte) :=
  let t := List.filter (fun b => negb ((bz b =? 10) || (bz b =? 13))) s in
  let body := reverse (dropWhile (fun b => b =b padByte) (reverse t)) in
  if (length t - length body <=? 2)%nat && (length t mod 4 =? 0)%nat
  then mapM stdValue body ≫= b64join
  else None.

(** ** Facts *)

Lemma hasPrefix_spec s pre : hasPrefix s pre = true <-> pre `prefix_of` s.
Proof.
  revert s. induction pre as [|b pre IH]; intros s; simpl.
  - split; [intros _; apply prefix_nil|done].
  - destruct s as [|c s]; [split; [done|intros H; by apply prefix_nil_not in H]|].
    rewrite andb_true_iff, IH, byte_eqb_eq. split.
    + intros [-> H]. by apply prefix_cons.
    + intros H. pose proof (prefix_cons_inv_1 _ _ _ _ H) as ->.
      split; [done|]. by apply prefix_cons_inv_2 in H.
Qed.

Lemma contains_spec s needle : contains s needle = true <-> exists a b, s = a ++ needle ++ b.
Proof.
  induction s as [|c s IH]; simpl; rewrite orb_true_iff, hasPrefix_spec.
  - split.
    + intros [[b Hb]|?]; [|done]. exists [], b. done.
    + intros (a & b & H). left. destruct a; [|done]. by exists b.
  - rewrite IH. split.
    + intros [[b Hb]|(a & b & ->)]; [by exists [], b|by exists (c :: a), b].
    + intros ([|x a] & b & H); simplify_eq/=; [left; by exists b|right; eauto].
Qed.

Lemma stdValue_url v : 0 <= v < 64 -> stdValue (stdOfUrl (b64char v)) = Some v.
Proof.
  intros Hv. apply (sextet_check (fun v => bool_decide (stdValue (stdOfUrl (b64char v)) = Some v))) in Hv;
    [by apply bool_decide_eq_true in Hv|vm_compute; reflexivity].
Qed.

Lemma std_plain v : 0 <= v < 64 ->
  (bz (stdOfUrl (b64char v)) =? 10) || (bz (stdOfUrl (b64char v)) =? 13) = false /\
  (stdOfUrl (b64char v) =b padByte) = false.
Proof.
  intros Hv. apply (sextet_check (fun v => let c := stdOfUrl (b64char v) in
    negb ((bz c =? 10) || (bz c =? 13)) && negb (c =b padByte))) in Hv; [|vm_compute; reflexivity].
  apply andb_true_iff in Hv as [H1 H2]. by rewrite negb_true_iff in H1, H2.
Qed.

Lemma filter_all {A} (f : A -> bool) l : Forall (fun x => f x = true) l -> List.filter f l = l.
Proof. induction 1 as [|x l Hx _ IH]; simpl; [done|]. rewrite Hx. by f_equal. Qed.

Lemma dropWhile_replicate f b n s : f b = true -> dropWhile f (replicate n b ++ s) = dropWhile f s.
Proof. intros Hf. induction n as [|n IH]; simpl; [done|]. by rewrite Hf. Qed.

Lemma dropWhile_none f s : Forall (fun b => f b = false) s -> dropWhile f s = s.
Proof. destruct 1 as [|b s Hb _]; simpl; [done|]. by rewrite Hb. Qed.

Definition padOf (n : nat) : nat := match (n mod 3)%nat with O => 0 | S O => 2 | _ => 1 end.

Lemma padOf_3 n : padOf (3 + n) = padOf n.
Proof. unfold padOf. replace (3 + n)%nat with (n + 1 * 3)%nat by lia. by rewrite Nat.Div0.mod_add. Qed.

Lemma sextets_padded s : ((length (sextets s) + padOf (length s)) mod 4 = 0)%nat.
Proof.
  induction s as [|a|a b|a b c r IH] using triple_ind; [done..|].
  change (length (a :: b :: c :: r)) with (3 + length r)%nat. rewrite padOf_3.
  cbn [sextets length].
  replace (S (S (S (S (length (sextets r))))) + padOf (length r))%nat
    with (length (sextets r) + padOf (length r) + 1 * 4)%nat by lia.
  by rewrite Nat.Div0.mod_add.
Qed.

Lemma std_roundtrip s : stdDecode (stdEncode s) = Some s.
Proof.
  unfold stdDecode, stdEncode. rewrite b64encode_map, <- list_fmap_compose.
  change (match (length s mod 3)%nat with O => 0 | S O => 2 | _ => 1 end)%nat with (padOf (length s)).
  set (body := (stdOfUrl ∘ b64char) <$> sextets s).
  assert (Hb : Forall (fun b => (bz b =? 10) || (bz b =? 13) = false /\ (b =b padByte) = false) body).
  { apply Forall_fmap. eapply Forall_impl; [apply sextets_range|]. intros v Hv. by apply std_plain. }
  rewrite filter_all; [|apply Forall_app; split].
  2: { eapply Forall_impl; [apply Hb|]. simpl. by intros b [-> _]. }
  2: { by apply Forall_replicate. }
  rewrite reverse_app, reverse_replicate, dropWhile_replicate by apply byte_eqb_refl.
  rewrite dropWhile_none, reverse_involutive.
  2: { apply Forall_reverse. eapply Forall_impl; [apply Hb|]. simpl. by intros b [_ ?]. }
  rewrite length_app, length_replicate. replace (length body) with (length (sextets s)) by (unfold body; by rewrite length_fmap).
  rewrite sextets_padded, andb_true_r.
  replace (_ <=? 2)%nat with true.
  2: { symmetry. apply Nat.leb_le. rewrite Nat.add_comm, Nat.add_sub. unfold padOf. repeat case_match; lia. }
  replace (mapM stdValue body) with (Some (sextets s)); [apply b64join_sextets|].
  symmetry. apply mapM_Some, Forall2_fmap_l, Forall_Forall2_diag.
  eapply Forall_impl; [apply sextets_range|]. intros v Hv. by apply stdValue_url.
Qed.
