(* ===== verification/Interpret.v ===== *)
(** * Interpret: the experimental reading of agent output of
    internal/interpret/interpret.go

    The screen grammars ([parseClaude] and [parseOpenCode], modelled in Grammar.v) are
    arguments of [Parse]: what the package promises about its output is enforced by [bound],
    the last step, for whatever a grammar returns, so the theorems here hold for
    every grammar. Text is a list of bytes. *)

From S2P Require Import Prelude GoStr Sanitize.

(** ** Data *)

Definition Kind := string.
Definition KindClaude : Kind := "claude".
Definition KindOpenCode : Kind := "opencode".

Definition ParserKinds : list Kind := [KindClaude; KindOpenCode].
Definition Supported (s : string) : bool := existsb (fun k => bool_decide (k = s)) ParserKinds.

Inductive TurnKind := TurnAgentText | TurnToolCall | TurnToolResult | TurnStatus.

Record Turn := mkTurn { tn_Kind : TurnKind; tn_Tool : list byte; tn_Text : list byte }.

Inductive DiffOp := DiffContext | DiffAdd | DiffRemove.

Record DiffLine := mkDiffLine { d_Line : Z; d_Op : DiffOp; d_Text : list byte }.

Record IOption := mkOption { Label : list byte; SendKey : list byte }.

Inductive InteractionKind := InteractionApproval | InteractionQuestion.

Record Interaction := mkInteraction {
  in_Kind : InteractionKind; Title : list byte; Detail : list (list byte);
  Question : list byte; Answerable : bool; Options : list IOption; Diff : list DiffLine
}.

Record Result := mkResult {
  Parser : Kind; Turns : list Turn; DroppedTurns : Z; DroppedLines : Z;
  PartialLead : bool; res_Interaction : option Interaction
}.

Definition Empty (r : Result) : bool :=
  match Turns r, res_Interaction r with [], None => true | _, _ => false end.

Record Limits := mkLimits {
  MaxTurns : Z; MaxOptions : Z; MaxDetail : Z; MaxDiffLines : Z; MaxTextLen : Z; MaxLines : Z
}.

Definition DefaultLimits : Limits := mkLimits 60 12 12 60 2000 2000.

Definition orDefault (x d : Z) : Z := if x <=? 0 then d else x.

Definition withDefaults (l : Limits) : Limits :=
  let d := DefaultLimits in
  mkLimits (orDefault (MaxTurns l) (MaxTurns d)) (orDefault (MaxOptions l) (MaxOptions d))
    (orDefault (MaxDetail l) (MaxDetail d)) (orDefault (MaxDiffLines l) (MaxDiffLines d))
    (orDefault (MaxTextLen l) (MaxTextLen d)) (orDefault (MaxLines l) (MaxLines d)).

(** ** Bounding *)

(** [xs[len(xs)-n:]] and [xs[:n]] where the list is longer than [n]. *)
Definition keepTail {A} (n : Z) (xs : list A) : list A :=
  if n <? Z.of_nat (length xs) then drop (length xs - Z.to_nat n) xs else xs.
Definition keepHead {A} (n : Z) (xs : list A) : list A :=
  if n <? Z.of_nat (length xs) then take (Z.to_nat n) xs else xs.

Definition splitLines (text : list byte) (maxLines : Z) : list (list byte) :=
  match text with
  | [] => []
  | _ => keepTail maxLines (splitOn nl text)
  end.

Definition maxToolNameLen : Z := 64.
Definition maxOptionLabelLen : Z := 200.

Definition clamp (s : list byte) (maxBytes : Z) : list byte :=
  match s with
  | [] => []
  | _ =>
      let s := TrimSpace (SanitizeLogLine s) in
      if Z.of_nat (length s) <=? maxBytes then s
      else TrimSpace (take (cutBack s (Z.to_nat maxBytes)) s)
  end.

Definition validSendKey (s : list byte) : bool :=
  match s with [b] => (49 <=? bz b) && (bz b <=? 57) | _ => false end.

Definition isNil {A} (l : list A) : bool := match l with [] => true | _ => false end.

Definition boundTurn (lim : Limits) (t : Turn) : option Turn :=
  let t := mkTurn (tn_Kind t) (clamp (tn_Tool t) maxToolNameLen) (clamp (tn_Text t) (MaxTextLen lim)) in
  if isNil (tn_Text t) && isNil (tn_Tool t) then None else Some t.

Definition boundDetail (lim : Limits) (d : list byte) : option (list byte) :=
  let d := clamp d (MaxTextLen lim) in if isNil d then None else Some d.

Definition boundOption (o : IOption) : option IOption :=
  let label := clamp (Label o) maxOptionLabelLen in
  let key := if validSendKey (SendKey o) then SendKey o else [] in
  if isNil label then None else Some (mkOption label key).

Definition boundDiff (lim : Limits) (d : DiffLine) : DiffLine :=
  mkDiffLine (d_Line d) (d_Op d) (clamp (d_Text d) (MaxTextLen lim)).

Definition answerable (opts : list IOption) : bool :=
  negb (isNil opts) && forallb (fun o => negb (isNil (SendKey o))) opts.

Definition boundInteraction (lim : Limits) (i : Interaction) : option Interaction :=
  let title := clamp (Title i) (MaxTextLen lim) in
  let question := clamp (Question i) (MaxTextLen lim) in
  let detail := omap (boundDetail lim) (keepHead (MaxDetail lim) (Detail i)) in
  let opts := omap boundOption (keepHead (MaxOptions lim) (Options i)) in
  let diff := boundDiff lim <$> keepTail (MaxDiffLines lim) (Diff i) in
  if isNil title && isNil question && isNil opts then None
  else Some (mkInteraction (in_Kind i) title detail question (answerable opts) opts diff).

Definition bound (res : Result) (lim : Limits) : Result :=
  let n := Z.of_nat (length (Turns res)) in
  let dropped := if MaxTurns lim <? n then DroppedTurns res + (n - MaxTurns lim) else DroppedTurns res in
  mkResult (Parser res) (omap (boundTurn lim) (keepTail (MaxTurns lim) (Turns res)))
    dropped (DroppedLines res) (PartialLead res)
    (res_Interaction res ≫= boundInteraction lim).

(** ** Parsing *)

Section Parse.
Variables parseClaude parseOpenCode : list (list byte) -> Limits -> Result.

Definition withParser (k : Kind) (r : Result) : Result :=
  mkResult k (Turns r) (DroppedTurns r) (DroppedLines r) (PartialLead r) (res_Interaction r).

Definition grammar (kind : Kind) : option (list (list byte) -> Limits -> Result) :=
  if bool_decide (kind = KindClaude) then Some parseClaude
  else if bool_decide (kind = KindOpenCode) then Some parseOpenCode
  else None.

Definition Parse (kind : Kind) (text : list byte) (lim : Limits) : option Result :=
  let lim := withDefaults lim in
  match splitLines text (MaxLines lim), grammar kind with
  | [], _ | _, None => None
  | lines, Some parse =>
      let res := bound (withParser kind (parse lines lim)) lim in
      if Empty res then None else Some res
  end.
End Parse.

(** ** Trimming valid text is trimming runes *)

Fixpoint dropSpaces (rs : list Z) : list Z :=
  match rs with
  | [] => []
  | r :: rs' => if isSpace r then dropSpaces rs' else rs
  end.

Definition trimRunes (rs : list Z) : list Z := reverse (dropSpaces (reverse (dropSpaces rs))).

Definition validRunes (rs : list Z) : Prop := Forall (fun r => validRune r = true) rs.

(** The four shapes of an encoded rune, with the facts the space tests need. *)
Inductive encoding (r : Z) : list byte -> Prop :=
| Enc1 b0 : bz b0 < 128 -> r = bz b0 -> encoding r [b0]
| Enc2 b0 b1 : 194 <= bz b0 <= 223 -> 128 <= bz b1 <= 191 -> r = rune2 b0 b1 -> encoding r [b0; b1]
| Enc3 b0 b1 b2 : 224 <= bz b0 <= 239 -> second3 b0 b1 = true -> 128 <= bz b1 <= 191 ->
    128 <= bz b2 <= 191 -> r = rune3 b0 b1 b2 -> encoding r [b0; b1; b2]
| Enc4 b0 b1 b2 b3 : 240 <= bz b0 -> 128 <= bz b1 <= 191 -> 128 <= bz b2 <= 191 ->
    128 <= bz b3 <= 191 -> isSpace r = false -> encoding r [b0; b1; b2; b3].

Lemma isSpace_small r : 65536 <= r -> isSpace r = false.
Proof. unfold isSpace. lia. Qed.

Lemma encoding_rune r : validRune r = true -> encoding r (encodeRune r).
Proof.
  intros Hv. unfold encodeRune. rewrite Hv. simpl negb. cbv iota.
  assert (0 <= r <= 1114111) as Hr by (unfold validRune in Hv; lia).
  assert (0 <= r mod 64 < 64) by (apply Z.mod_pos_bound; lia).
  assert (0 <= (r / 64) mod 64 < 64) by (apply Z.mod_pos_bound; lia).
  assert (0 <= (r / 4096) mod 64 < 64) by (apply Z.mod_pos_bound; lia).
  destruct (r <? 128) eqn:E1; [|destruct (r <? 2048) eqn:E2; [|destruct (r <? 65536) eqn:E3]]; bool_hyps.
  - apply Enc1; rewrite bz_zb by lia; lia.
  - assert (2 <= r / 64 < 32) by (Z.div_mod_to_equations; lia).
    apply Enc2; unfold rune2; rewrite ?bz_zb by lia; Z.div_mod_to_equations; lia.
  - assert (0 <= r / 4096 < 16) by (Z.div_mod_to_equations; lia).
    apply Enc3; unfold second3, rune3, between; unfold validRune in Hv; rewrite ?bz_zb by lia;
      repeat case_match; Z.div_mod_to_equations; lia.
  - assert (0 <= r / 262144 < 5) by (Z.div_mod_to_equations; lia).
    apply Enc4; [rewrite bz_zb by lia; lia..|by apply isSpace_small].
Qed.

Lemma trimLeft_step r rest : validRune r = true ->
  trimLeft (encodeRune r ++ rest) = if isSpace r then trimLeft rest else encodeRune r ++ rest.
Proof.
  intros Hv. destruct (encoding_rune r Hv) as [b0|b0 b1|b0 b1 b2|b0 b1 b2 b3]; subst; cbn [app trimLeft];
    unfold space1, space2, space3, between.
  - replace (bz b0 <? 128) with true by lia. cbn [andb]. destruct (isSpace (bz b0)); [done|].
    destruct rest as [|b1 [|b2 rest]]; [done|..];
      replace (194 <=? bz b0) with false by lia; cbn [andb]; [done|].
    by replace (224 <=? bz b0) with false by lia.
  - replace (bz b0 <? 128) with false by lia. cbn [andb].
    replace ((194 <=? bz b0) && (bz b0 <=? 223)) with true by lia.
    replace ((128 <=? bz b1) && (bz b1 <=? 191)) with true by lia. cbn [andb].
    destruct (isSpace _); [done|]. destruct rest; [done|].
    by replace (224 <=? bz b0) with false by lia.
  - replace (bz b0 <? 128) with false by lia. cbn [andb].
    replace (bz b0 <=? 223) with false by lia. rewrite andb_false_r. cbn [andb].
    replace ((224 <=? bz b0) && (bz b0 <=? 239)) with true by lia.
    replace ((128 <=? bz b2) && (bz b2 <=? 191)) with true by lia.
    match goal with H : second3 _ _ = true |- _ => rewrite H end. cbn [andb].
    by destruct (isSpace _).
  - match goal with H : isSpace r = false |- _ => rewrite H end.
    replace (bz b0 <? 128) with false by lia. replace (bz b0 <=? 223) with false by lia.
    replace (bz b0 <=? 239) with false by lia. by rewrite !andb_false_r.
Qed.

Lemma second3_lead b x : 194 <= bz x -> second3 b x = false.
Proof. unfold second3, between. intros H. repeat case_match; lia. Qed.

Lemma trimRightRev_step r rest : validRune r = true ->
  trimRightRev (reverse (encodeRune r) ++ rest) =
  if isSpace r then trimRightRev rest else reverse (encodeRune r) ++ rest.
Proof.
  intros Hv. destruct (encoding_rune r Hv) as [b0|b0 b1|b0 b1 b2|b0 b1 b2 b3]; subst;
    unfold reverse; cbn [rev_append app trimRightRev]; unfold space1, space2, space3, between.
  - replace (bz b0 <? 128) with true by lia. cbn [andb]. destruct (isSpace (bz b0)); [done|].
    destruct rest as [|b1 [|b2 rest]]; [done|..];
      replace (128 <=? bz b0) with false by lia; rewrite andb_false_r; [done|]. cbn [andb].
    by rewrite andb_false_r.
  - replace (bz b1 <? 128) with false by lia. cbn [andb].
    replace ((194 <=? bz b0) && (bz b0 <=? 223)) with true by lia.
    replace ((128 <=? bz b1) && (bz b1 <=? 191)) with true by lia. cbn [andb].
    destruct (isSpace _); [done|]. destruct rest; [done|].
    by rewrite second3_lead, andb_false_r by lia.
  - replace (bz b2 <? 128) with false by lia. cbn [andb].
    replace (194 <=? bz b1) with false by lia. cbn [andb].
    replace ((224 <=? bz b0) && (bz b0 <=? 239)) with true by lia.
    replace ((128 <=? bz b2) && (bz b2 <=? 191)) with true by lia.
    match goal with H : second3 _ _ = true |- _ => rewrite H end. cbn [andb].
    by destruct (isSpace _).
  - match goal with H : isSpace r = false |- _ => rewrite H end.
    replace (bz b3 <? 128) with false by lia. replace (194 <=? bz b2) with false by lia.
    replace (224 <=? bz b1) with false by lia. done.
Qed.

Lemma trimLeft_runes rs : validRunes rs -> trimLeft (encodeRunes rs) = encodeRunes (dropSpaces rs).
Proof.
  induction 1 as [|r rs Hr _ IH]; [done|]. rewrite encodeRunes_cons, trimLeft_step by done. simpl.
  destruct (isSpace r); [done|]. by rewrite encodeRunes_cons.
Qed.

Lemma encodeRunes_app rs rs' : encodeRunes (rs ++ rs') = encodeRunes rs ++ encodeRunes rs'.
Proof. apply bind_app. Qed.

Lemma trimRight_runes rs : validRunes rs ->
  trimRightRev (reverse (encodeRunes rs)) = reverse (encodeRunes (reverse (dropSpaces (reverse rs)))).
Proof.
  induction rs as [|r rs IH] using rev_ind; intros H; [done|].
  apply Forall_app in H as [H Hr]. apply Forall_cons in Hr as [Hr _].
  rewrite encodeRunes_app, encodeRunes_cons, app_nil_r, reverse_app, trimRightRev_step by done.
  rewrite reverse_app. simpl. destruct (isSpace r); [by apply IH|].
  rewrite reverse_cons, reverse_involutive, encodeRunes_app, reverse_app. simpl.
  by rewrite app_nil_r.
Qed.

Lemma dropSpaces_suffix rs : dropSpaces rs `suffix_of` rs.
Proof.
  induction rs as [|r rs IH]; simpl; [done|]. destruct (isSpace r); [by apply suffix_cons_r|done].
Qed.

Lemma dropSpaces_head rs : match dropSpaces rs with [] => True | r :: _ => isSpace r = false end.
Proof. induction rs as [|r rs IH]; simpl; [done|]. by destruct (isSpace r) eqn:E. Qed.

Lemma dropSpaces_Forall P rs : Forall P rs -> Forall P (dropSpaces rs).
Proof. intros H. destruct (dropSpaces_suffix rs) as [u Hu]. rewrite Hu in H. by apply Forall_app in H as [_ H]. Qed.

Lemma trimRunes_Forall P rs : Forall P rs -> Forall P (trimRunes rs).
Proof.
  intros H. unfold trimRunes. apply Forall_reverse, dropSpaces_Forall, Forall_reverse.
  by apply dropSpaces_Forall.
Qed.

(** [strings.TrimSpace] of valid text encodes the trimmed runes. *)
Lemma TrimSpace_runes rs : validRunes rs -> TrimSpace (encodeRunes rs) = encodeRunes (trimRunes rs).
Proof.
  intros H. unfold TrimSpace, trimRunes. rewrite trimLeft_runes by done.
  rewrite trimRight_runes by (by apply dropSpaces_Forall).
  by rewrite reverse_involutive.
Qed.

(** ** What is emitted *)

(** A display string: the encoding of printable runes with no space at either
    end, of at most [n] bytes. *)
Definition displayText (n : Z) (s : list byte) : Prop :=
  Z.of_nat (length s) <= n /\
  exists rs, s = encodeRunes rs /\ Forall printableRune rs /\
    match rs with [] => True | r :: _ => isSpace r = false end /\
    match last rs with None => True | Some r => isSpace r = false end.

Lemma printable_valid rs : Forall printableRune rs -> validRunes rs.
Proof. intros H. eapply Forall_impl; [exact H|]. by intros r [? _]. Qed.

Lemma dropSpaces_last rs : dropSpaces rs = [] \/ last (dropSpaces rs) = last rs.
Proof.
  destruct (dropSpaces_suffix rs) as [u Hu]. destruct (dropSpaces rs) as [|r t] eqn:E; [by left|right].
  by rewrite Hu, last_app_cons.
Qed.

Lemma trimRunes_ends rs :
  match trimRunes rs with [] => True | r :: _ => isSpace r = false end /\
  match last (trimRunes rs) with None => True | Some r => isSpace r = false end.
Proof.
  unfold trimRunes. set (l := dropSpaces rs). split.
  - destruct (reverse (dropSpaces (reverse l))) as [|r t] eqn:Er; [done|].
    apply (f_equal reverse) in Er. rewrite reverse_involutive, reverse_cons in Er.
    destruct (dropSpaces_last (reverse l)) as [E|E]; rewrite Er in E.
    + by destruct (reverse t).
    + rewrite last_snoc, last_reverse in E. unfold l in E.
      pose proof (dropSpaces_head rs) as H. destruct (dropSpaces rs); by simplify_eq/=.
  - rewrite last_reverse. pose proof (dropSpaces_head (reverse l)) as H.
    by destruct (dropSpaces (reverse l)).
Qed.

Lemma cut_encoded rs n :
  validRunes rs -> (n <= length (encodeRunes rs))%nat ->
  exists rs', rs' `prefix_of` rs /\
    take (cutBack (encodeRunes rs) n) (encodeRunes rs) = encodeRunes rs'.
Proof.
  intros Hv Hn. destruct (cutBack_spec (encodeRunes rs) n) as [Hle Hst].
  destruct Hst as [Hz|Hs].
  - rewrite Hz. exists []. split; [apply prefix_nil|done].
  - apply take_encoded; [done|lia|]. intros b Eb. by rewrite Eb in Hs.
Qed.

Lemma trim_display n rs :
  Forall printableRune rs -> Z.of_nat (length (encodeRunes (trimRunes rs))) <= n ->
  displayText n (encodeRunes (trimRunes rs)).
Proof.
  intros Hp Hl. split; [done|]. exists (trimRunes rs). split; [done|].
  split; [by apply trimRunes_Forall|apply trimRunes_ends].
Qed.

Lemma clamp_display s n : 0 <= n -> displayText n (clamp s n).
Proof.
  intros Hn. destruct s as [|b s']; [split; [simpl; lia|by exists []]|].
  unfold clamp. set (s := b :: s'). destruct (log_runes s) as [_ Hp].
  unfold SanitizeLogLine. set (rs := omap logRune (runes s)) in *.
  rewrite (TrimSpace_runes rs) by (by apply printable_valid). cbv zeta.
  case_match; bool_hyps; [by apply trim_display|].
  destruct (cut_encoded (trimRunes rs) (Z.to_nat n)) as (rs' & [k Hk] & Et).
  - by apply printable_valid, trimRunes_Forall.
  - lia.
  - pose proof (TrimSpace_shrinks (encodeRunes rs')) as [Hs _].
    pose proof (cutBack_spec (encodeRunes (trimRunes rs)) (Z.to_nat n)) as [Hc _].
    pose proof (f_equal length Et) as El. rewrite length_take in El. rewrite Et.
    apply (trimRunes_Forall _ rs) in Hp. rewrite Hk in Hp. apply Forall_app in Hp as [Hp _].
    rewrite TrimSpace_runes in * by (by apply printable_valid). apply trim_display; [done|lia].
Qed.

Lemma keepTail_split {A} n (xs : list A) : 0 <= n ->
  exists old, xs = old ++ keepTail n xs /\ Z.of_nat (length (keepTail n xs)) <= n /\
    Z.of_nat (length old) = if n <? Z.of_nat (length xs) then Z.of_nat (length xs) - n else 0.
Proof.
  intros Hn. unfold keepTail. case_match; bool_hyps.
  - exists (take (length xs - Z.to_nat n) xs). rewrite take_drop, length_take, length_drop. split_and!; [done|lia..].
  - exists []. simpl. split_and!; [done|lia|done].
Qed.

Lemma keepHead_length {A} n (xs : list A) : 0 <= n -> Z.of_nat (length (keepHead n xs)) <= n.
Proof. intros Hn. unfold keepHead. destruct (n <? _) eqn:E; rewrite ?length_take; lia. Qed.

Lemma omap_length_le {A B} (f : A -> option B) l : (length (omap f l) <= length l)%nat.
Proof.
  induction l as [|x l IH]; [done|].
  change (omap f (x :: l)) with (match f x with Some y => y :: omap f l | None => omap f l end).
  destruct (f x); simpl length; lia.
Qed.

Lemma omap_all {A B} (f : A -> option B) (Q : B -> Prop) l :
  (forall x y, f x = Some y -> Q y) -> Forall Q (omap f l).
Proof. intros Hf. apply (omap_Forall f (fun _ => True)); [eauto|]. by apply Forall_true. Qed.

Definition sendable (k : list byte) : Prop := exists b, k = [b] /\ 49 <= bz b <= 57.

Lemma validSendKey_spec k : validSendKey k = true <-> sendable k.
Proof.
  unfold sendable. destruct k as [|b [|c k]]; simpl; split; try done; try (by intros (x & [=] & _)).
  - intros H. exists b. split; [done|lia].
  - intros (x & [= ->] & H). lia.
Qed.

Definition safeTurn (l : Limits) (t : Turn) : Prop :=
  displayText (MaxTextLen l) (tn_Text t) /\ displayText maxToolNameLen (tn_Tool t) /\
  (tn_Text t ≠ [] \/ tn_Tool t ≠ []).

Definition safeOption (o : IOption) : Prop :=
  displayText maxOptionLabelLen (Label o) /\ Label o ≠ [] /\ (SendKey o = [] \/ sendable (SendKey o)).

Record safeInteraction (l : Limits) (i : Interaction) : Prop := {
  si_title : displayText (MaxTextLen l) (Title i);
  si_question : displayText (MaxTextLen l) (Question i);
  si_details : Z.of_nat (length (Detail i)) <= MaxDetail l;
  si_detail : Forall (fun d => displayText (MaxTextLen l) d /\ d ≠ []) (Detail i);
  si_options : Z.of_nat (length (Options i)) <= MaxOptions l;
  si_option : Forall safeOption (Options i);
  si_diffs : Z.of_nat (length (Diff i)) <= MaxDiffLines l;
  si_diff : Forall (fun d => displayText (MaxTextLen l) (d_Text d)) (Diff i);
  si_answerable : Answerable i = true <->
    Options i ≠ [] /\ Forall (fun o => sendable (SendKey o)) (Options i);
  si_says : Title i ≠ [] \/ Question i ≠ [] \/ Options i ≠ []
}.

Lemma isNil_spec {A} (l : list A) : isNil l = true <-> l = [].
Proof. by destruct l. Qed.

Lemma boundTurn_safe l t t' : 0 <= MaxTextLen l -> boundTurn l t = Some t' -> safeTurn l t'.
Proof.
  unfold boundTurn. intros Hl. simpl. case_match eqn:E; intros [= <-].
  split; [by apply clamp_display|]. split; [by apply clamp_display|]. simpl.
  destruct (clamp (tn_Text t) _); [|by left]. destruct (clamp (tn_Tool t) _); [done|by right].
Qed.

Lemma boundOption_safe o o' : boundOption o = Some o' -> safeOption o'.
Proof.
  unfold boundOption. cbv zeta. case_match eqn:E; intros [= <-]. unfold safeOption. simpl.
  split; [by apply clamp_display|]. split; [intros H; by rewrite H in E|].
  destruct (validSendKey (SendKey o)) eqn:Ek; [right; by apply validSendKey_spec|by left].
Qed.

Lemma answerable_spec opts : Forall safeOption opts ->
  answerable opts = true <-> opts ≠ [] /\ Forall (fun o => sendable (SendKey o)) opts.
Proof.
  intros Hs. unfold answerable. rewrite andb_true_iff, negb_true_iff, <- not_true_iff_false, isNil_spec.
  rewrite forallb_forall, <- List.Forall_forall. split; intros [Hn H]; (split; [done|]);
    apply List.Forall_forall; intros o Ho;
    rewrite List.Forall_forall in H, Hs; specialize (H o Ho); destruct (Hs o Ho) as (_ & _ & Hk).
  - destruct Hk as [Hk|Hk]; [by rewrite Hk in H|done].
  - destruct H as (b & -> & _). done.
Qed.

Definition limitsOk (l : Limits) : Prop :=
  0 < MaxTurns l /\ 0 < MaxOptions l /\ 0 < MaxDetail l /\ 0 < MaxDiffLines l /\
  0 < MaxTextLen l /\ 0 < MaxLines l.

Lemma withDefaults_ok lim : limitsOk (withDefaults lim).
Proof. unfold limitsOk, withDefaults, orDefault. simpl. split_and!; case_match; bool_hyps; lia. Qed.

Lemma boundInteraction_safe l i i' :
  limitsOk l -> boundInteraction l i = Some i' -> safeInteraction l i'.
Proof.
  intros (_ & Ho & Hd & Hf & Ht & _). unfold boundInteraction. cbv zeta. case_match eqn:E; intros [= <-].
  assert (Hopt : Forall safeOption (omap boundOption (keepHead (MaxOptions l) (Options i)))).
  { apply omap_all. intros. by eapply boundOption_safe. }
  constructor; simpl; try (apply clamp_display; lia).
  - etransitivity; [|apply (keepHead_length (MaxDetail l) (Detail i)); lia].
    apply inj_le, omap_length_le.
  - apply omap_all. intros x y. unfold boundDetail. cbv zeta. case_match eqn:En; intros [= <-].
    split; [apply clamp_display; lia|]. intros H. by rewrite H in En.
  - etransitivity; [|apply (keepHead_length (MaxOptions l) (Options i)); lia].
    apply inj_le, omap_length_le.
  - done.
  - rewrite length_fmap. destruct (keepTail_split (MaxDiffLines l) (Diff i)) as (_ & _ & H & _); lia.
  - apply Forall_fmap, Forall_true. intros d. simpl. apply clamp_display. lia.
  - by apply answerable_spec.
  - destruct (clamp (Title i) _); [|by left]. destruct (clamp (Question i) _); [|by right; left].
    destruct (omap boundOption _); [done|by right; right].
Qed.

(** Whatever a screen grammar makes of a hostile pane, what [Parse]
    publishes is bounded and inert: only the two known agent kinds parse, the
    result is not empty, every string is printable, trimmed and within its byte
    limit, every list is within its limit, an answer key is absent or exactly one
    digit from 1 to 9, and an interaction is answerable exactly when it has
    options and all of them carry such a key. The turns are those of the newest
    part of the grammar's turns, and the count of dropped turns grows by the
    number of older ones. *)
Theorem Parse_safe (parseClaude parseOpenCode : list (list byte) -> Limits -> Result)
    (kind : Kind) (text : list byte) (lim : Limits) (res : Result) :
  Parse parseClaude parseOpenCode kind text lim = Some res ->
  let l := withDefaults lim in
  Supported kind = true /\ Parser res = kind /\ Empty res = false /\
  Z.of_nat (length (Turns res)) <= MaxTurns l /\ Forall (safeTurn l) (Turns res) /\
  (forall i, res_Interaction res = Some i -> safeInteraction l i) /\
  exists parse old recent,
    grammar parseClaude parseOpenCode kind = Some parse /\
    let raw := parse (splitLines text (MaxLines l)) l in
    Turns raw = old ++ recent /\ Turns res = omap (boundTurn l) recent /\
    DroppedTurns res = DroppedTurns raw + Z.of_nat (length old).
Proof.
  unfold Parse. cbv zeta. pose proof (withDefaults_ok lim) as Hok. set (l := withDefaults lim) in *.
  destruct (splitLines text _) as [|ln lns] eqn:El; [done|].
  destruct (grammar _ _ kind) as [parse|] eqn:Eg; [|done].
  destruct (Empty _) eqn:Ee; intros [= <-].
  set (raw := parse (ln :: lns) l) in *. pose proof Hok as (Ht & _ & _ & _ & Hx & _).
  destruct (keepTail_split (MaxTurns l) (Turns raw)) as (old & Ho & Hk & Hn); [lia|].
  split_and!.
  - unfold grammar in Eg. repeat case_bool_decide; subst; done.
  - done.
  - done.
  - simpl. etransitivity; [apply inj_le, omap_length_le|done].
  - apply omap_all. intros x y E. eapply boundTurn_safe; [|done]. lia.
  - intros i E. simpl in E. apply bind_Some in E as (i0 & _ & E). by eapply boundInteraction_safe.
  - exists parse, old, (keepTail (MaxTurns l) (Turns raw)). split; [done|]. split; [done|].
    split; [done|]. rewrite Hn. unfold bound, withParser. cbn [DroppedTurns Turns].
    fold raw. destruct (_ <? _); lia.
Qed.

(** A grammar that reads the first line as an option label and copies the second
    into its key, the mistake the last gate catches. *)
Definition leakyGrammar (lines : list (list byte)) (_ : Limits) : Result :=
  match lines with
  | l :: k :: _ =>
      mkResult "" [mkTurn TurnAgentText [] l] 0 0 false
        (Some (mkInteraction InteractionApproval l [] [] true [mkOption l k] []))
  | _ => mkResult "" [] 0 0 false None
  end.

Lemma Parse_safe_witness :
  exists res, Parse leakyGrammar leakyGrammar KindClaude [x41; x0a; x1b; x5b] DefaultLimits = Some res /\
  (forall i, res_Interaction res = Some i -> safeInteraction DefaultLimits i) /\
  (Answerable <$> res_Interaction res) = Some false.
Proof.
  eexists. split; [vm_compute; reflexivity|]. split; [|reflexivity].
  change DefaultLimits with (withDefaults DefaultLimits).
  apply (Parse_safe leakyGrammar leakyGrammar KindClaude [x41; x0a; x1b; x5b] DefaultLimits).
  vm_compute. reflexivity.
Defined.
