(* ===== verification/Grammar.v ===== *)
(** * Grammar: the screen grammars of internal/interpret (clean.go, options.go,
    claude.go, opencode.go)

    A pane's text is split into rows; the frame is stripped, and what is left is read
    as turns and at most one interaction. Rows are bytes and are decoded into runes
    where the code does. The digits of [unicode.IsDigit] above Latin-1 are a
    parameter. *)

From S2P Require Import Prelude GoStr GoText Sanitize Interpret.

#[local] Open Scope Z_scope.

Definition blanks : list byte := [x20; x09].
Definition isBlankRune (r : Z) : bool := (r =? 32) || (r =? 9).
Definition runeIn (r : Z) (set : string) : bool := existsb (fun c => c =? r) (runes (bytesOf set)).

(** ** Rows (clean.go) *)

Definition gutterRunes := "┃│┆┇┊┋║▌▐".

(** [stripGutter]: the row without its gutter, and whether it had one. *)
Definition stripGutter (l : list byte) : list byte * bool :=
  match runes (trimLeftSet blanks l) with
  | [] => ([], false)
  | r :: rs => if runeIn r gutterRunes then (trimRightSet blanks (encodeRunes rs), true) else (l, false)
  end.

Definition isBoxRune (r : Z) : bool :=
  ((9472 <=? r) && (r <=? 9599)) || ((9600 <=? r) && (r <=? 9631)).

Fixpoint firstVisible (rs : list Z) : option Z :=
  match rs with [] => None | r :: rs' => if isBlankRune r then firstVisible rs' else Some r end.

Definition startsWithBoxGlyph (l : list byte) : bool :=
  match firstVisible (runes l) with Some r => isBoxRune r | None => false end.

Definition isRuleLine (l : list byte) : bool :=
  forallb (fun r => isBlankRune r || isBoxRune r) (runes l) && existsb isBoxRune (runes l).

Definition isBlank (l : list byte) : bool := isNil (TrimSpace l).

Fixpoint leading (rs : list Z) : nat :=
  match rs with [] => O | r :: rs' => if isBlankRune r then S (leading rs') else O end.
Definition indentOf (l : list byte) : nat := leading (runes l).

Definition hintTokens : list string :=
  ["esc to"; "enter to"; "tab to"; "ctrl+"; "shift+tab"; "⇆"; "↵"; "to cancel"; "to confirm"; "to amend";
   "to explain"; "to interrupt"; "select"; "fullscreen"; "for more"; "to cycle"; "to expand"; "to toggle"].

Definition looksLikeHint (l : list byte) : bool :=
  match toLower (TrimSpace l) with
  | [] => false
  | low => existsb (fun t => contains low (bytesOf t)) hintTokens
  end.

Definition trimMarker (l : list byte) (marker : Z) : option (list byte) :=
  match runes (trimLeftSet blanks l) with
  | [] => None
  | r :: rs => if r =? marker then Some (TrimSpace (encodeRunes rs)) else None
  end.

Definition hasMarker (l : list byte) (marker : Z) : bool := match trimMarker l marker with Some _ => true | None => false end.

Record screenLine := mkLine { sl_text : list byte; sl_framed : bool }.

(** [collapseBlanks]: the rows so far and whether a blank is pending. *)
Definition collapseStep (st : list screenLine * bool) (l : screenLine) : list screenLine * bool :=
  let '(out, pending) := st in
  if isBlank (sl_text l) then (out, pending || negb (isNil out))
  else ((if pending then out ++ [mkLine [] false] else out) ++ [l], false).

Definition collapseBlanks (ls : list screenLine) : list screenLine := (foldl collapseStep ([], false) ls).1.

Definition endsWithWord (s word : list byte) : bool := hasSuffix (trimRightSet [x20; x2e] s) word.

Section Digits.
Context (otherDigit : Z -> bool).

Definition startsWithNumber (s : list byte) : bool :=
  match runes s with [] => false | r :: _ => if r <=? 255 then (48 <=? r) && (r <=? 57) else otherDigit r end.

Definition isStatusNoise (l : list byte) : bool :=
  match TrimSpace l with
  | [] => false
  | t =>
      let low := toLower t in
      (endsWithWord low (bytesOf "tokens") && startsWithNumber low) || contains low (bytesOf "ctx:") ||
      contains low (bytesOf "mode on") || contains low (bytesOf "mode off") ||
      (contains t (bytesOf "$") && contains t (bytesOf "·"))
  end.

(** [stripFrame]: the rows that stay and how many were dropped. *)
Definition stripFrame (lines : list (list byte)) : list screenLine * Z :=
  let rows := (fun raw => let '(t, framed) := stripGutter raw in mkLine t framed) <$> lines in
  let kept := List.filter (fun l => negb (isRuleLine (sl_text l) || isStatusNoise (sl_text l))) rows in
  (collapseBlanks kept, Z.of_nat (length rows - length kept)).
End Digits.

Definition texts (ls : list screenLine) : list (list byte) := sl_text <$> ls.

(** ** Numbered options (options.go) *)

Definition selectionMarkers := "❯>▶►•*→".

Record numberedOption := mkNumbered { no_ordinal : Z; no_label : list byte; no_at : nat }.

Fixpoint skipBlank (rs : list Z) : list Z :=
  match rs with [] => [] | r :: rs' => if isBlankRune r then skipBlank rs' else rs end.

Definition isDigitRune (r : Z) : bool := (48 <=? r) && (r <=? 57).

(** At most two digits: the ordinal and what follows. *)
Definition ordinalOf (rs : list Z) : option (Z * list Z) :=
  match rs with
  | d :: e :: rs' =>
      if negb (isDigitRune d) then None
      else if isDigitRune e then Some ((d - 48) * 10 + (e - 48), rs') else Some (d - 48, e :: rs')
  | [d] => if isDigitRune d then Some (d - 48, []) else None
  | [] => None
  end.

Definition parseNumberedOption (l : list byte) : option (Z * list byte) :=
  match runes (trimLeftSet blanks l) with
  | [] => None
  | r :: rs =>
      let body := if runeIn r selectionMarkers then skipBlank rs else r :: rs in
      match ordinalOf body with
      | Some (ordinal, p :: s :: rest) =>
          if negb ((p =? 46) || (p =? 41)) then None
          else if negb (isBlankRune s) then None
          else match TrimSpace (encodeRunes (s :: rest)) with [] => None | label => Some (ordinal, label) end
      | _ => None
      end
  end.

Definition minNumberedOptions : nat := 2.

(** The rows from here numbered [want], [want + 1], and so on. *)
Fixpoint optionRun (want : Z) (at_ : nat) (lines : list (list byte)) : list numberedOption :=
  match lines with
  | [] => []
  | l :: lines' =>
      match parseNumberedOption l with
      | Some (ord, label) => if ord =? want then mkNumbered ord label at_ :: optionRun (want + 1) (S at_) lines' else []
      | None => []
      end
  end.

(** The last row that starts a run from 1 of at least two: its index and the run. *)
Fixpoint blockBelow (lines : list (list byte)) (i : nat) : option (nat * list numberedOption) :=
  match i with
  | O => None
  | S i' =>
      let run := optionRun 1 i' (drop i' lines) in
      if (minNumberedOptions <=? length run)%nat then Some (i', run) else blockBelow lines i'
  end.

Definition findNumberedBlock (lines : list (list byte)) : option (nat * list numberedOption) := blockBelow lines (length lines).

Definition toOption (o : numberedOption) : IOption :=
  let key := if (1 <=? no_ordinal o) && (no_ordinal o <=? 9) then [zb (48 + no_ordinal o)] else [] in
  mkOption (no_label o) (if validSendKey key then key else []).

Definition toOptions (run : list numberedOption) : list IOption := toOption <$> run.

Definition approvalPrefixes : list (list byte) :=
  bytesOf <$> ["yes"; "no"; "allow"; "deny"; "reject"; "approve"; "always"].

(** The text before the first space or tab of the trimmed text. *)
Fixpoint untilBlank (s : list byte) : list byte :=
  match s with [] => [] | b :: s' => if isOneOf blanks b then [] else b :: untilBlank s' end.
Definition firstWord (s : list byte) : list byte := untilBlank (TrimSpace s).

Definition classifyInteraction (opts : list IOption) : InteractionKind :=
  if existsb (fun o => bool_decide (trimRightSet [x2c; x2e; x3a; x3b] (toLower (firstWord (Label o))) ∈ approvalPrefixes)) opts
  then InteractionApproval else InteractionQuestion.

(** ** Claude Code (claude.go) *)

Definition claudeBullet : Z := 9210.
Definition claudeToolResult : Z := 9151.
Definition claudeInput : Z := 10095.
Definition claudeSpinners := "✻✽✢✳✶✷✸✹✺✱∗⋆·".
Definition claudeContinuationIndent : nat := 2.

Definition isInputRow (l : list byte) : bool :=
  hasMarker l claudeInput && match parseNumberedOption l with Some _ => false | None => true end.

Definition dropBannerRows (ls : list screenLine) : list screenLine :=
  List.filter (fun l => sl_framed l || negb (startsWithBoxGlyph (sl_text l))) ls.

(** The rows before the last input row, or all of them. *)
Fixpoint untilLastInput (ls : list screenLine) : option (list screenLine) :=
  match ls with
  | [] => None
  | l :: ls' =>
      match untilLastInput ls' with
      | Some before => Some (l :: before)
      | None => if isInputRow (sl_text l) then Some [] else None
      end
  end.
Definition truncateAtLastInput (ls : list screenLine) : list screenLine := default ls (untilLastInput ls).

(** The walk back from a prompt: rows above it, nearest first, with their index. *)
Definition above (start : nat) (lines : list (list byte)) : list (nat * list byte) :=
  reverse (zip (seq 0 start) (take start lines)).

Fixpoint skipBlankRows (rows : list (nat * list byte)) : list (nat * list byte) :=
  match rows with [] => [] | (i, l) :: rows' => if isBlank l then skipBlankRows rows' else rows end.

Definition maxBack : nat := 40.

(** Details and the title: at most [steps] rows. The result is the title, the
    details newest first and where the heading begins. *)
Fixpoint walkBack (questionIndent : option nat) (steps : nat) (rows : list (nat * list byte)) (detail : list (list byte))
    (headStart : nat) : list byte * list (list byte) * nat :=
  match steps, rows with
  | O, _ | _, [] => ([], detail, headStart)
  | S steps', (i, l) :: rows' =>
      if isBlank l then walkBack questionIndent steps' rows' detail headStart
      else if looksLikeHint l then ([], detail, headStart)
      else
        match questionIndent with
        | None => (TrimSpace l, detail, i)
        | Some q =>
            if (indentOf l <=? q)%nat then (TrimSpace l, detail, i)
            else walkBack questionIndent steps' rows' (detail ++ [TrimSpace l]) i
        end
  end.

(** The interaction and the row its heading begins at. *)
Definition claudeInteraction (lines : list (list byte)) (start : nat) (run : list numberedOption) : Interaction * nat :=
  let opts := toOptions run in
  let rows := skipBlankRows (above start lines) in
  let '(question, questionIndent, headStart, rows) :=
    match rows with
    | (i, l) :: rows' =>
        if hasSuffix (TrimSpace l) (bytesOf "?") && negb (looksLikeHint l)
        then (TrimSpace l, Some (indentOf l), i, rows')
        else ([], None, start, rows)
    | [] => ([], None, start, rows)
    end in
  let '(title, detail, headStart) := walkBack questionIndent maxBack rows [] headStart in
  (mkInteraction (classifyInteraction opts) title (reverse detail) question false opts [], headStart).

Definition isToolName (s : list byte) : bool :=
  let letter r := ((97 <=? r) && (r <=? 122)) || ((65 <=? r) && (r <=? 90)) || ((48 <=? r) && (r <=? 57)) || (r =? 95) || (r =? 45) in
  match runes s with
  | [] => false
  | r :: rs => (Z.of_nat (length s) <=? maxToolNameLen) && ((65 <=? r) && (r <=? 90)) && forallb letter rs
  end.

Definition claudeToolCall (text : list byte) : option (list byte * list byte) :=
  match cutAt x28 text with
  | None | Some ([], _) => None
  | Some (name, rest) =>
      if negb (hasSuffix text [x29]) then None
      else if negb (isToolName name) then None
      else Some (name, TrimSpace (take (length rest - 1) rest))
  end.

Definition claudeStatus (l : list byte) : option (list byte) :=
  match runes (trimLeftSet blanks l) with
  | [] => None
  | r :: rs =>
      if negb (runeIn r claudeSpinners) then None
      else match TrimSpace (encodeRunes rs) with [] => None | t => Some t end
  end.

(** The state of the turn pass: the turns, newest first, the indentation of the open
    turn, whether a marker was seen, whether the first turn is a tail, and the rows
    dropped. *)
Record turning := mkTurning {
  t_turns : list Turn; t_open : option nat; t_marker : bool; t_partial : bool; t_dropped : Z
}.

Definition isStatus (k : TurnKind) : bool := match k with TurnStatus => true | _ => false end.

Definition addTurn (k : TurnKind) (tool text : list byte) (indent : nat) (s : turning) : turning :=
  mkTurning (mkTurn k tool text :: t_turns s) (if isStatus k then None else Some indent) true (t_partial s) (t_dropped s).
Definition dropRow (s : turning) : turning :=
  mkTurning (t_turns s) (t_open s) (t_marker s) (t_partial s) (t_dropped s + 1).
Definition closeTurn (s : turning) : turning :=
  mkTurning (t_turns s) None (t_marker s) (t_partial s) (t_dropped s).

(** The row joins the newest turn when it fits, and is dropped otherwise. *)
Definition continueTurn (maxText : Z) (l : list byte) (s : turning) : turning :=
  match t_turns s with
  | [] => s
  | last :: older =>
      if Z.of_nat (length (tn_Text last)) + Z.of_nat (length l) + 1 <=? maxText
      then mkTurning (mkTurn (tn_Kind last) (tn_Tool last) (TrimSpace (tn_Text last ++ [x20] ++ TrimSpace l)) :: older)
             (t_open s) (t_marker s) (t_partial s) (t_dropped s)
      else dropRow s
  end.

Definition partialLead (s : turning) : turning :=
  mkTurning (t_turns s) (t_open s) (t_marker s) true (t_dropped s).

(** A row without a marker: it continues the open turn, or is the tail of a turn above
    the window, or is frame. *)
Definition unmarked (maxText : Z) (l : list byte) (s : turning) : turning :=
  let indent := indentOf l in
  let continues := match t_open s with Some o => (o <=? indent)%nat && negb (isNil (t_turns s)) | None => false end in
  if continues then continueTurn maxText l s
  else if negb (t_marker s) && (claudeContinuationIndent <=? indent)%nat then
    match t_turns s with
    | [] => mkTurning [mkTurn TurnAgentText [] (TrimSpace l)] (Some indent) (t_marker s) true (t_dropped s)
    | _ => continueTurn maxText l (partialLead s)
    end
  else dropRow s.

Definition claudeTurn (maxText : Z) (s : turning) (row : screenLine) : turning :=
  let l := sl_text row in
  let indent := indentOf l in
  if isBlank l then closeTurn s
  else
    match trimMarker l claudeBullet with
    | Some text =>
        match claudeToolCall text with
        | Some (tool, arg) => addTurn TurnToolCall tool arg indent s
        | None => addTurn TurnAgentText [] text indent s
        end
    | None =>
        match trimMarker l claudeToolResult with
        | Some text => addTurn TurnToolResult [] text indent s
        | None =>
            match claudeStatus l with
            | Some text => addTurn TurnStatus [] text indent s
            | None => if isInputRow l then closeTurn (dropRow s) else unmarked maxText l s
            end
        end
    end.

Definition claudeTurns (rows : list screenLine) (maxText : Z) : turning :=
  foldl (claudeTurn maxText) (mkTurning [] None false false 0) rows.

Definition lengthZ {A} (l : list A) : Z := Z.of_nat (length l).

Definition parseClaude (otherDigit : Z -> bool) (lines : list (list byte)) (lim : Limits) : Result :=
  let '(framed, dropped) := stripFrame otherDigit lines in
  let plain := dropBannerRows framed in
  let clean := truncateAtLastInput plain in
  let dropped := dropped + (lengthZ framed - lengthZ plain) + (lengthZ plain - lengthZ clean) in
  let '(interaction, body) :=
    match findNumberedBlock (texts clean) with
    | None => (None, clean)
    | Some (start, run) =>
        let '(i, headStart) := claudeInteraction (texts clean) start run in
        (Some i, take (Nat.min start headStart) clean)
    end in
  let s := claudeTurns body (MaxTextLen lim) in
  mkResult "" (reverse (t_turns s)) 0 (dropped + t_dropped s) (t_partial s) interaction.

(** ** OpenCode (opencode.go) *)

Definition openCodeToolCall : Z := 8594.
Definition openCodeSearch : Z := 10033.
Definition openCodeToolResult : Z := 8592.
Definition openCodeWorking : Z := 126.
Definition openCodeStatus : Z := 9635.
Definition openCodeWarning : Z := 9651.
Definition openCodeThought : Z := 43.

Definition openCodePermissionHeading : list byte := bytesOf "permission required".
Definition openCodeButtons : list (list byte) := bytesOf <$> ["Allow once"; "Allow always"; "Allow"; "Reject"; "Deny"].

Definition isPermission (l : list byte) : bool :=
  match trimMarker l openCodeWarning with
  | Some text => hasPrefix (toLower text) openCodePermissionHeading
  | None => false
  end.

(** The index of the last permission heading. *)
Fixpoint openCodePermissionAt (lines : list (list byte)) : option nat :=
  match lines with
  | [] => None
  | l :: lines' =>
      match openCodePermissionAt lines' with
      | Some i => Some (S i)
      | None => if isPermission l then Some O else None
      end
  end.

(** The leading ASCII digits and the rest. *)
Fixpoint digitSpan (s : list byte) : list byte * list byte :=
  match s with
  | b :: s' => if between 48 57 b then let '(ds, rest) := digitSpan s' in (b :: ds, rest) else ([], s)
  | [] => ([], [])
  end.

Definition digitsValue (ds : list byte) : Z := foldl (fun n b => n * 10 + (bz b - 48)) 0 ds.

Definition parseOpenCodeDiffLine (l : list byte) : option DiffLine :=
  let '(ds, rest) := digitSpan (trimLeftSet blanks l) in
  if (7 <? length ds)%nat then None
  else
    match ds, rest with
    | [], _ | _, [] => None
    | _, b :: _ =>
        if negb (isOneOf blanks b) then None
        else
          let num := digitsValue ds in
          let trimmed := trimLeftSet blanks rest in
          if hasPrefix trimmed (bytesOf "+ ") then Some (mkDiffLine num DiffAdd (TrimSpace (drop 2 trimmed)))
          else if hasPrefix trimmed (bytesOf "- ") then Some (mkDiffLine num DiffRemove (TrimSpace (drop 2 trimmed)))
          else if hasPrefix rest [x20; x20] then Some (mkDiffLine num DiffContext (TrimSpace rest))
          else None
    end.

Definition isOpenCodeButton (field : list byte) : bool := existsb (EqualFold field) openCodeButtons.

(** [splitOnDoubleSpace]: the current field and whether spaces are being skipped. *)
Fixpoint splitFields (cur : list byte) (skipping : bool) (s : list byte) : list (list byte) :=
  match s with
  | [] => if isNil cur then [] else [cur]
  | b :: s' =>
      if skipping && (b =b x20) then splitFields [] true s'
      else if (b =b x20) && match s' with c :: _ => c =b x20 | [] => false end
      then (if isNil cur then [] else [cur]) ++ splitFields [] true s'
      else splitFields (cur ++ [b]) false s'
  end.
Definition splitOnDoubleSpace (s : list byte) : list (list byte) := splitFields [] false s.

(** The distinct button fields, in order. *)
Fixpoint buttonFields (seen : list (list byte)) (fields : list (list byte)) : list (list byte) :=
  match fields with
  | [] => []
  | f :: fields' =>
      let f := TrimSpace f in
      if isNil f || looksLikeHint f then buttonFields seen fields'
      else if negb (isOpenCodeButton f) || bool_decide (f ∈ seen) then buttonFields seen fields'
      else f :: buttonFields (f :: seen) fields'
  end.

Definition parseOpenCodeButtons (l : list byte) : option (list IOption) :=
  match TrimSpace l with
  | [] => None
  | t =>
      if (length (List.filter (contains t) openCodeButtons) <? 2)%nat then None
      else
        let opts := (fun f => mkOption f []) <$> buttonFields [] (splitOnDoubleSpace t) in
        if (length opts <? 2)%nat then None else Some opts
  end.

(** One row under the heading; [true] when the prompt has ended. *)
Definition promptRow (lim : Limits) (st : Interaction * bool) (l : list byte) : Interaction * bool :=
  let '(i, ended) := st in
  let asDetail :=
    match parseOpenCodeDiffLine l with
    | Some d =>
        (if lengthZ (Diff i) <? MaxDiffLines lim
         then mkInteraction (in_Kind i) (Title i) (Detail i) (Question i) false (Options i) (Diff i ++ [d]) else i, false)
    | None =>
        match parseOpenCodeButtons l with
        | Some opts => (mkInteraction (in_Kind i) (Title i) (Detail i) (Question i) false (Options i ++ opts) (Diff i), true)
        | None =>
            if looksLikeHint l then (i, false)
            else (if lengthZ (Detail i) <? MaxDetail lim
                  then mkInteraction (in_Kind i) (Title i) (Detail i ++ [TrimSpace l]) (Question i) false (Options i) (Diff i)
                  else i, false)
        end
    end in
  if ended then st
  else if isBlank l then (i, false)
  else
    match (if isNil (Title i) then trimMarker l openCodeToolCall else None) with
    | Some text => (mkInteraction (in_Kind i) (TrimSpace text) (Detail i) (Question i) false (Options i) (Diff i), false)
    | None => asDetail
    end.

Definition openCodeInteraction (lines : list (list byte)) (at_ : nat) (lim : Limits) : Interaction :=
  let question := match lines !! at_ with
                  | Some l => match trimMarker l openCodeWarning with Some text => TrimSpace text | None => [] end
                  | None => []
                  end in
  (foldl (promptRow lim) (mkInteraction InteractionApproval [] [] question false [] [], false) (drop (S at_) lines)).1.

Definition splitOpenCodeTool (text : list byte) : list byte * list byte :=
  let first := firstWord text in
  if isNil first || negb (isToolName first) then ([], TrimSpace text)
  else (first, TrimSpace (if hasPrefix text first then drop (length first) text else text)).

(** The turns, newest first, whether prose is open, and the rows dropped. *)
Record prosing := mkProsing { p_turns : list Turn; p_open : bool; p_dropped : Z }.

Definition emit (k : TurnKind) (tool text : list byte) (s : prosing) : prosing :=
  mkProsing (mkTurn k tool text :: p_turns s) false (p_dropped s).

Definition prose (maxText : Z) (text : list byte) (s : prosing) : prosing :=
  match p_open s, p_turns s with
  | true, last :: older =>
      if Z.of_nat (length (tn_Text last)) + Z.of_nat (length text) + 1 <=? maxText
      then mkProsing (mkTurn (tn_Kind last) (tn_Tool last) (TrimSpace (tn_Text last ++ [x20] ++ text)) :: older) true (p_dropped s)
      else mkProsing (p_turns s) true (p_dropped s + 1)
  | _, _ => mkProsing (mkTurn TurnAgentText [] text :: p_turns s) true (p_dropped s)
  end.

Definition openCodeTurn (maxText : Z) (s : prosing) (row : screenLine) : prosing :=
  let l := sl_text row in
  let tool text := let '(name, arg) := splitOpenCodeTool text in emit TurnToolCall name arg s in
  if isBlank l then mkProsing (p_turns s) false (p_dropped s)
  else if looksLikeHint l then mkProsing (p_turns s) false (p_dropped s + 1)
  else if sl_framed row then emit TurnToolResult [] (TrimSpace l) s
  else
    match trimMarker l openCodeThought with Some text => emit TurnStatus [] text s | None =>
    match trimMarker l openCodeToolCall with Some text => tool text | None =>
    match trimMarker l openCodeSearch with Some text => tool text | None =>
    match trimMarker l openCodeToolResult with Some text => emit TurnToolResult [] text s | None =>
    match trimMarker l openCodeWorking with Some text => emit TurnStatus [] text s | None =>
    match trimMarker l openCodeStatus with Some text => emit TurnStatus [] text s | None =>
    match parseOpenCodeDiffLine l with Some d => emit TurnToolResult [] (d_Text d) s | None =>
    prose maxText (TrimSpace l) s
    end end end end end end end.

Definition openCodeTurns (rows : list screenLine) (maxText : Z) : prosing :=
  foldl (openCodeTurn maxText) (mkProsing [] false 0) rows.

Definition parseOpenCode (otherDigit : Z -> bool) (lines : list (list byte)) (lim : Limits) : Result :=
  let '(clean, dropped) := stripFrame otherDigit lines in
  let '(interaction, body) :=
    match openCodePermissionAt (texts clean) with
    | None => (None, clean)
    | Some at_ => (Some (openCodeInteraction (texts clean) at_ lim), take at_ clean)
    end in
  let s := openCodeTurns body (MaxTextLen lim) in
  mkResult "" (reverse (p_turns s)) 0 (dropped + p_dropped s) false interaction.

(** ** Sample panes *)

Definition digitsOnly (_ : Z) : bool := false.
Definition pane (rows : list string) : list byte := bytesOf (String.concat (String.String (Ascii.ascii_of_nat 10) "") rows).

Definition claudePane : list byte := pane
  ["⏺ I'll append it."; "  Then check."; "⏺ Bash(echo hi)"; "  ⎿  done"; "✻ Worked for 4s"; "──────"; "Bash command"; "";
   "  echo x >> notes.txt"; ""; "Do you want to proceed?"; "❯ 1. Yes"; "  2. No"; "Esc to cancel"].

Example claude_pane_read :
  Parse (parseClaude digitsOnly) (parseOpenCode digitsOnly) KindClaude claudePane DefaultLimits =
  Some (mkResult KindClaude
    [mkTurn TurnAgentText [] (bytesOf "I'll append it. Then check."); mkTurn TurnToolCall (bytesOf "Bash") (bytesOf "echo hi");
     mkTurn TurnToolResult [] (bytesOf "done"); mkTurn TurnStatus [] (bytesOf "Worked for 4s")] 0 1 false
    (Some (mkInteraction InteractionApproval (bytesOf "Bash command") [bytesOf "echo x >> notes.txt"]
       (bytesOf "Do you want to proceed?") true
       [mkOption (bytesOf "Yes") (bytesOf "1"); mkOption (bytesOf "No") (bytesOf "2")] []))).
Proof. by vm_compute. Qed.

Definition openCodePane : list byte := pane
  ["I will patch it."; "→ Read notes.txt"; "┃ $ kubectl get"; "┃  △ Permission required"; "┃   → Edit notes.txt"; "┃ 1   sample"; "┃ 2 + hello";
   "┃  Allow once   Allow always   Reject  ctrl+f fullscreen"].

Example openCode_pane_read :
  Parse (parseClaude digitsOnly) (parseOpenCode digitsOnly) KindOpenCode openCodePane DefaultLimits =
  Some (mkResult KindOpenCode
    [mkTurn TurnAgentText [] (bytesOf "I will patch it."); mkTurn TurnToolCall (bytesOf "Read") (bytesOf "notes.txt");
     mkTurn TurnToolResult [] (bytesOf "$ kubectl get")] 0 0 false
    (Some (mkInteraction InteractionApproval (bytesOf "Edit notes.txt") [] (bytesOf "Permission required") false
       [mkOption (bytesOf "Allow once") []; mkOption (bytesOf "Allow always") []; mkOption (bytesOf "Reject") []]
       [mkDiffLine 1 DiffContext (bytesOf "sample"); mkDiffLine 2 DiffAdd (bytesOf "hello")]))).
Proof. by vm_compute. Qed.
