(* ===== verification/GrammarFacts.v ===== *)
(** * GrammarFacts: what the screen grammars make of a pane

    Where an answer key comes from, that OpenCode prompts are never answerable, and
    that framed output is never attributed to the agent. *)

From S2P Require Import Prelude GoStr GoText Sanitize Interpret Grammar.

#[local] Open Scope Z_scope.

(** ** Rows *)

Lemma collapseStep_rows out pending l : forall x, x ∈ (collapseStep (out, pending) l).1 -> x ∈ out \/ x = mkLine [] false \/ x = l.
Proof. intros x. unfold collapseStep. destruct (isBlank _); [by left|]. destruct pending; set_solver. Qed.

Lemma collapseBlanks_rows ls x : x ∈ collapseBlanks ls -> x ∈ ls \/ x = mkLine [] false.
Proof.
  unfold collapseBlanks. assert (H : forall ls st, x ∈ (foldl collapseStep st ls).1 -> x ∈ st.1 \/ x ∈ ls \/ x = mkLine [] false).
  { clear ls. induction ls as [|l ls IH]; intros [out p] H; [by left|]. simpl in H. apply IH in H as [H|[H|H]]; [|set_solver..].
    apply collapseStep_rows in H. set_solver. }
  intros Hx. apply H in Hx. simpl in Hx. set_solver.
Qed.

(** A row that stays is a row of the pane without its gutter, or an inserted blank. *)
Lemma stripFrame_rows d lines x : x ∈ (stripFrame d lines).1 ->
  x = mkLine [] false \/ exists raw, raw ∈ lines /\ x = mkLine (stripGutter raw).1 (stripGutter raw).2.
Proof.
  unfold stripFrame. intros H. apply collapseBlanks_rows in H as [H|H]; [right|by left].
  apply list_elem_of_In, filter_In in H as [H _]. apply list_elem_of_In, list_elem_of_fmap in H as (raw & -> & Hr).
  exists raw. destruct (stripGutter raw). done.
Qed.

Lemma truncate_rows ls x : x ∈ truncateAtLastInput ls -> x ∈ ls.
Proof.
  unfold truncateAtLastInput. destruct (untilLastInput ls) as [before|] eqn:E; [|done]. simpl. revert before E.
  induction ls as [|l ls IH]; intros before E Hx; [done|]. simpl in E. destruct (untilLastInput ls) as [b|].
  - injection E as <-. apply elem_of_cons in Hx as [->|Hx]; [by left|right]. by eapply IH.
  - destruct (isInputRow _); [|done]. injection E as <-. by apply elem_of_nil in Hx.
Qed.

Lemma dropBanner_rows ls x : x ∈ dropBannerRows ls -> x ∈ ls.
Proof. unfold dropBannerRows. intros H. by apply list_elem_of_In, filter_In in H as [H%list_elem_of_In _]. Qed.

(** ** The option block *)

Lemma optionRun_row lines : forall want at_ k o, optionRun want at_ lines !! k = Some o ->
  no_ordinal o = want + Z.of_nat k /\ exists l, lines !! k = Some l /\ parseNumberedOption l = Some (no_ordinal o, no_label o).
Proof.
  induction lines as [|l lines IH]; intros want at_ k o H; [done|]. simpl in H.
  destruct (parseNumberedOption l) as [[ord label]|] eqn:E; [|done]. destruct (Z.eqb_spec ord want) as [->|]; [|done].
  destruct k as [|k]; simpl in H.
  - injection H as <-. simpl. split; [lia|]. by exists l.
  - apply IH in H as [Ho (l' & Hl & Hp)]. split; [lia|]. by exists l'.
Qed.

Lemma findNumberedBlock_run lines start run : findNumberedBlock lines = Some (start, run) -> run = optionRun 1 start (drop start lines).
Proof.
  unfold findNumberedBlock. generalize (length lines). intros n. induction n as [|n IH]; cbn [blockBelow]; [done|].
  destruct (minNumberedOptions <=? _)%nat; [by intros [= <- <-]|done].
Qed.

(** Each option of the block: its position is its number, which is written on a row. *)
Lemma block_row lines start run k o : findNumberedBlock lines = Some (start, run) -> run !! k = Some o ->
  no_ordinal o = Z.of_nat k + 1 /\ exists l, l ∈ lines /\ parseNumberedOption l = Some (no_ordinal o, no_label o).
Proof.
  intros ->%findNumberedBlock_run H. apply optionRun_row in H as [Ho (l & Hl & Hp)]. split; [lia|].
  exists l. split; [|done]. rewrite lookup_drop in Hl. by apply list_elem_of_lookup_2 in Hl.
Qed.

Lemma toOption_key o : SendKey (toOption o) ≠ [] -> 1 <= no_ordinal o <= 9 /\ SendKey (toOption o) = [zb (48 + no_ordinal o)].
Proof.
  unfold toOption. cbn. destruct ((1 <=? no_ordinal o) && (no_ordinal o <=? 9)) eqn:E; [|done].
  destruct (validSendKey _); [|done]. intros _. split; [lia|done].
Qed.

(** ** What [bound] keeps of the options *)

Lemma boundOption_key o o' : boundOption o = Some o' -> Label o' = clamp (Label o) maxOptionLabelLen /\
  (SendKey o' = [] \/ SendKey o' = SendKey o).
Proof. unfold boundOption. cbv zeta. case_match; intros [= <-]. cbn. split; [done|]. destruct (validSendKey _); auto. Qed.

Lemma bound_options res lim i : res_Interaction (bound res lim) = Some i ->
  Answerable i = answerable (Options i) /\
  exists raw, res_Interaction res = Some raw /\ Options i = omap boundOption (keepHead (MaxOptions lim) (Options raw)).
Proof.
  intros H. simpl in H. apply bind_Some in H as (raw & Hr & H).
  unfold boundInteraction in H. cbv zeta in H. case_match; [done|]. injection H as <-. split; [done|]. by exists raw.
Qed.

Lemma keepHead_prefix {A} n (xs : list A) : exists rest, xs = keepHead n xs ++ rest.
Proof. unfold keepHead. case_match; [eexists; by rewrite take_drop|exists []; by rewrite app_nil_r]. Qed.

(** The raw options of a pane are those of a numbered block, or carry no key. *)
Lemma claude_options d lines lim i : res_Interaction (parseClaude d lines lim) = Some i ->
  exists run, Options i = toOptions run /\
    forall k o, run !! k = Some o -> no_ordinal o = Z.of_nat k + 1 /\
      exists raw, raw ∈ lines /\ parseNumberedOption (stripGutter raw).1 = Some (no_ordinal o, no_label o).
Proof.
  unfold parseClaude. destruct (stripFrame d lines) as [framed dropped] eqn:Ef.
  set (clean := truncateAtLastInput (dropBannerRows framed)).
  destruct (findNumberedBlock (texts clean)) as [[start run]|] eqn:Eb; [|done].
  destruct (claudeInteraction (texts clean) start run) as [it headStart] eqn:Ei. intros [= <-].
  exists run. split.
  - unfold claudeInteraction in Ei. repeat case_match; by injection Ei as <- _.
  - intros k o Hk. destruct (block_row _ _ _ _ _ Eb Hk) as [Ho (l & Hl & Hp)]. split; [done|].
    apply list_elem_of_fmap in Hl as (x & -> & Hx).
    apply truncate_rows, dropBanner_rows in Hx. assert (Hs : x ∈ (stripFrame d lines).1) by by rewrite Ef.
    apply stripFrame_rows in Hs as [->|(raw & Hraw & ->)]; [done|]. by exists raw.
Qed.

(** ** Answer keys *)

Definition keyOf (o : IOption) : option (list byte) := match SendKey o with [] => None | k => Some k end.
Definition keysOf (opts : list IOption) : list (list byte) := omap keyOf opts.

Lemma keysOf_bound opts : keysOf (omap boundOption opts) `sublist_of` keysOf opts.
Proof.
  induction opts as [|o opts IH]; [done|]. unfold keysOf in *.
  change (omap keyOf (o :: opts)) with (match keyOf o with Some k => k :: omap keyOf opts | None => omap keyOf opts end).
  change (omap boundOption (o :: opts)) with (match boundOption o with Some o' => o' :: omap boundOption opts | None => omap boundOption opts end).
  destruct (boundOption o) as [o'|] eqn:E; [|destruct (keyOf o); [by apply sublist_cons|done]].
  apply boundOption_key in E as [_ E].
  change (omap keyOf (o' :: omap boundOption opts)) with
    (match keyOf o' with Some k => k :: omap keyOf (omap boundOption opts) | None => omap keyOf (omap boundOption opts) end).
  assert (Hk : keyOf o' = None \/ keyOf o' = keyOf o) by (unfold keyOf; destruct E as [-> | ->]; auto).
  destruct Hk as [-> | ->], (keyOf o); try done; [by apply sublist_cons|by apply sublist_skip].
Qed.

Lemma keysOf_take n opts : keysOf (keepHead n opts) `sublist_of` keysOf opts.
Proof.
  destruct (keepHead_prefix n opts) as [rest E]. unfold keysOf. rewrite E at 2. rewrite omap_app. by apply sublist_inserts_r.
Qed.

Lemma key_elem run k : k ∈ keysOf (toOptions run) -> exists o, o ∈ run /\ 1 <= no_ordinal o <= 9 /\ k = [zb (48 + no_ordinal o)].
Proof.
  unfold keysOf, toOptions. intros (x & Hx & Hk)%list_elem_of_omap. apply list_elem_of_fmap in Hx as (o & -> & Ho).
  exists o. split; [done|]. unfold keyOf in Hk. destruct (SendKey (toOption o)) as [|b s] eqn:E; [done|].
  destruct (toOption_key o) as [H1 H2]; [by rewrite E|]. split; [done|]. congruence.
Qed.

Lemma keys_distinct run : forall want, (forall k o, run !! k = Some o -> no_ordinal o = want + Z.of_nat k) -> NoDup (keysOf (toOptions run)).
Proof.
  induction run as [|o run IH]; intros want H; [constructor|].
  assert (Ho : no_ordinal o = want) by (rewrite (H O o eq_refl); lia).
  assert (Hrun : forall k o', run !! k = Some o' -> no_ordinal o' = want + 1 + Z.of_nat k).
  { intros k o' Hk. rewrite (H (S k) o' Hk). lia. }
  unfold keysOf, toOptions. rewrite fmap_cons.
  change (omap keyOf (toOption o :: (toOption <$> run))) with
    (match keyOf (toOption o) with Some k => k :: keysOf (toOptions run) | None => keysOf (toOptions run) end).
  specialize (IH _ Hrun). unfold keyOf. destruct (SendKey (toOption o)) as [|b s] eqn:E; [done|].
  destruct (toOption_key o) as [H1 H2]; [by rewrite E|]. rewrite E in H2. constructor; [|done].
  intros (o' & Ho' & H3 & H4)%key_elem. apply list_elem_of_lookup in Ho' as [k Hk]. apply Hrun in Hk.
  rewrite H2 in H4. injection H4 as H4. apply (f_equal bz) in H4. rewrite !bz_zb in H4 by lia. lia.
Qed.

Lemma keysOf_nil opts : Forall (fun o => SendKey o = []) opts -> keysOf opts = [].
Proof.
  induction 1 as [|o opts H _ IH]; [done|]. unfold keysOf in *.
  change (omap keyOf (o :: opts)) with (match keyOf o with Some k => k :: omap keyOf opts | None => omap keyOf opts end).
  unfold keyOf at 1. by rewrite H.
Qed.

(** ** OpenCode prompts *)

Lemma parseOpenCodeButtons_nokey l opts : parseOpenCodeButtons l = Some opts -> Forall (fun o => SendKey o = []) opts.
Proof.
  unfold parseOpenCodeButtons. repeat case_match; try done. intros [= <-]. by apply Forall_fmap, Forall_true.
Qed.

Lemma promptRow_nokey lim i ended l : Forall (fun o => SendKey o = []) (Options i) ->
  Forall (fun o => SendKey o = []) (Options (promptRow lim (i, ended) l).1).
Proof.
  intros H. unfold promptRow. destruct ended; [done|]. destruct (isBlank l); [done|].
  destruct (if isNil (Title i) then _ else _); [done|].
  destruct (parseOpenCodeDiffLine l); [by case_match|]. destruct (parseOpenCodeButtons l) as [opts|] eqn:E.
  - apply Forall_app. split; [done|]. by eapply parseOpenCodeButtons_nokey.
  - repeat case_match; done.
Qed.

Lemma promptRows_nokey lim rows : forall st, Forall (fun o => SendKey o = []) (Options st.1) ->
  Forall (fun o => SendKey o = []) (Options (foldl (promptRow lim) st rows).1).
Proof. induction rows as [|l rows IH]; intros [i ended] H; [done|]. cbn [foldl]. by apply IH, promptRow_nokey. Qed.

Lemma openCode_nokey d lines lim i : res_Interaction (parseOpenCode d lines lim) = Some i ->
  Forall (fun o => SendKey o = []) (Options i).
Proof.
  unfold parseOpenCode. destruct (stripFrame d lines) as [clean dropped].
  destruct (openCodePermissionAt (texts clean)) as [at_|]; [|done]. intros [= <-]. unfold openCodeInteraction.
  apply promptRows_nokey. constructor.
Qed.

(** ** The answers the phone may send *)


(** ** Who said what *)

(** Two states of a turn pass that differ at most in the count of dropped rows. *)
Definition sameTurns (s s' : turning) : Prop :=
  t_turns s = t_turns s' /\ t_open s = t_open s' /\ t_marker s = t_marker s' /\ t_partial s = t_partial s'.

#[export] Instance sameTurns_equiv : Equivalence sameTurns.
Proof. split; unfold sameTurns; [intros ?|intros ? ? ?|intros ? ? ?]; naive_solver congruence. Qed.

#[export] Instance continueTurn_proper m l : Proper (sameTurns ==> sameTurns) (continueTurn m l).
Proof.
  intros [] [] (H1 & H2 & H3 & H4). simpl in *. subst. unfold continueTurn, sameTurns. simpl. repeat (case_match; simpl); done.
Qed.

#[export] Instance unmarked_proper m l : Proper (sameTurns ==> sameTurns) (unmarked m l).
Proof.
  intros s s' H. unfold unmarked. pose proof H as (H1 & H2 & H3 & H4). rewrite H1, H2, H3.
  destruct (match t_open s' with Some _ => _ | None => _ end); [by rewrite H|].
  destruct (_ && _); [|by split_and!].
  destruct (t_turns s') eqn:E; [by split_and!|]. apply continueTurn_proper. split_and!; simpl; congruence.
Qed.

#[export] Instance claudeTurn_proper m : Proper (sameTurns ==> eq ==> sameTurns) (claudeTurn m).
Proof.
  intros s s' H row ? <-. pose proof H as (H1 & H2 & H3 & H4). unfold claudeTurn.
  destruct (isBlank _); [by split_and!|].
  destruct (trimMarker _ _); [destruct (claudeToolCall _) as [[]|]; split_and!; simpl; congruence|].
  destruct (trimMarker _ _); [split_and!; simpl; congruence|].
  destruct (claudeStatus _); [split_and!; simpl; congruence|].
  destruct (isInputRow _); [split_and!; simpl; congruence|]. by rewrite H.
Qed.

(** An input row carries no other marker. *)
Lemma input_closes m s row : isInputRow (sl_text row) = true -> sameTurns (claudeTurn m s row) (closeTurn s).
Proof.
  intros H0. pose proof H0 as H. unfold isInputRow, hasMarker, trimMarker in H. unfold claudeTurn, claudeStatus, trimMarker.
  destruct (isBlank (sl_text row)); [done|].
  destruct (runes (trimLeftSet blanks (sl_text row))) as [|r rs] eqn:E; [done|].
  destruct (Z.eqb_spec r claudeInput) as [->|]; [|done].
  change (claudeInput =? claudeBullet) with false. change (claudeInput =? claudeToolResult) with false.
  replace (runeIn claudeInput claudeSpinners) with false by (symmetry; by vm_compute). cbn [negb].
  by rewrite H0.
Qed.

(** The turns that are the agent's own words. *)
Definition isAgentText (t : Turn) : bool := match tn_Kind t with TurnAgentText => true | _ => false end.
Definition agentTexts (ts : list Turn) : list Turn := List.filter isAgentText ts.

(** Two states of the OpenCode pass with the same words of the agent; an open prose
    turn is the newest turn and is the agent's. *)
Definition sameWords (s s' : prosing) : Prop :=
  agentTexts (p_turns s) = agentTexts (p_turns s') /\ p_open s = p_open s' /\
  (p_open s = true -> exists t ts ts', p_turns s = t :: ts /\ p_turns s' = t :: ts' /\ isAgentText t = true).

Lemma sameWords_closed s s' : agentTexts (p_turns s) = agentTexts (p_turns s') -> p_open s = false -> p_open s' = false -> sameWords s s'.
Proof. intros H1 H2 H3. split_and!; [done|congruence|congruence]. Qed.

Lemma emit_words k tool text s s' : sameWords s s' -> k ≠ TurnAgentText -> sameWords (emit k tool text s) (emit k tool text s').
Proof. intros (H & _) Hk. apply sameWords_closed; [|done..]. by destruct k. Qed.

Lemma prose_words m text s s' : sameWords s s' -> sameWords (prose m text s) (prose m text s').
Proof.
  intros (H & Ho & Hl). unfold prose. rewrite <- Ho. destruct (p_open s) eqn:E.
  - destruct Hl as (t & ts & ts' & E1 & E2 & Ht); [done|]. rewrite E1, E2 in H |- *.
    unfold agentTexts in H. cbn [List.filter] in H. rewrite Ht in H. injection H as H.
    destruct (_ <=? m).
    + split_and!; [|done|]; simpl; [|intros _; eexists _, _, _; by split_and!]. unfold agentTexts. cbn [List.filter].
      unfold isAgentText in *. cbn [tn_Kind]. rewrite Ht. by f_equal.
    + split_and!; [|done|]; simpl; [|intros _; by eexists _, _, _]. unfold agentTexts. cbn [List.filter]. rewrite Ht. by f_equal.
  - split_and!; [|done|]; simpl; [|intros _; by eexists _, _, _]. unfold agentTexts in *. simpl. by rewrite H.
Qed.

Lemma framed_closes m s row : sl_framed row = true ->
  p_open (openCodeTurn m s row) = false /\ agentTexts (p_turns (openCodeTurn m s row)) = agentTexts (p_turns s).
Proof. intros H. unfold openCodeTurn. rewrite H. destruct (isBlank _); [done|]. by destruct (looksLikeHint _). Qed.

Lemma openCodeTurn_words m s s' row : sameWords s s' -> sameWords (openCodeTurn m s row) (openCodeTurn m s' row).
Proof.
  intros H. pose proof H as (Ha & _). unfold openCodeTurn.
  destruct (isBlank _); [by apply sameWords_closed|]. destruct (looksLikeHint _); [by apply sameWords_closed|].
  destruct (sl_framed row); [by apply emit_words|].
  destruct (trimMarker _ _); [by apply emit_words|].
  destruct (trimMarker _ _) as [text|]; [destruct (splitOpenCodeTool text); by apply emit_words|].
  destruct (trimMarker _ _) as [text|]; [destruct (splitOpenCodeTool text); by apply emit_words|].
  do 3 (destruct (trimMarker _ _); [by apply emit_words|]).
  destruct (parseOpenCodeDiffLine _); [by apply emit_words|by apply prose_words].
Qed.

(** Rows that agree except in the text of framed rows. *)
Definition sameProse (a b : screenLine) : Prop := sl_framed a = sl_framed b /\ (sl_framed a = false -> a = b).
(** Rows that agree except where both are input rows. *)
Definition sameButInput (a b : screenLine) : Prop := a = b \/ isInputRow (sl_text a) = true /\ isInputRow (sl_text b) = true.

Lemma openCode_words m rows rows' : Forall2 sameProse rows rows' -> forall s s', sameWords s s' ->
  sameWords (foldl (openCodeTurn m) s rows) (foldl (openCodeTurn m) s' rows').
Proof.
  induction 1 as [|a b rows rows' [Hf Hab] _ IH]; intros s s' H; [done|]. simpl. apply IH.
  destruct (sl_framed a) eqn:E; [|rewrite (Hab eq_refl); by apply openCodeTurn_words].
  destruct (framed_closes m s a E) as [H1 H2]. destruct (framed_closes m s' b (eq_sym Hf)) as [H3 H4]. destruct H as (H & _).
  apply sameWords_closed; congruence.
Qed.

Lemma claude_words m rows rows' : Forall2 sameButInput rows rows' -> forall s s', sameTurns s s' ->
  sameTurns (foldl (claudeTurn m) s rows) (foldl (claudeTurn m) s' rows').
Proof.
  induction 1 as [|a b rows rows' Hab _ IH]; intros s s' H; [done|]. simpl. apply IH.
  destruct Hab as [-> | [Ha Hb]]; [by rewrite H|].
  rewrite (input_closes m s a Ha), (input_closes m s' b Hb). destruct H as (H1 & H2 & H3 & H4). split_and!; simpl; congruence.
Qed.

(** No words are put into the agent's mouth. What OpenCode shows in a frame, the
    output of commands it ran, has no influence on the agent's words: replacing the
    text of framed rows by any other leaves the agent's turns as they are. What the
    operator typed at Claude Code's prompt has no influence on any turn: replacing
    input rows by other input rows leaves all of them as they are. *)
Theorem words_attributed (rows rows' : list screenLine) (maxText : Z) :
  (Forall2 sameProse rows rows' ->
     agentTexts (p_turns (openCodeTurns rows maxText)) = agentTexts (p_turns (openCodeTurns rows' maxText))) /\
  (Forall2 sameButInput rows rows' ->
     t_turns (claudeTurns rows maxText) = t_turns (claudeTurns rows' maxText) /\
     t_partial (claudeTurns rows maxText) = t_partial (claudeTurns rows' maxText)).
Proof.
  split; intros H.
  - by apply (openCode_words maxText rows rows' H), sameWords_closed.
  - by destruct (claude_words maxText rows rows' H (mkTurning [] None false false 0) (mkTurning [] None false false 0))
      as (H1 & _ & _ & H4).
Qed.

(** ** Witnesses *)

