(* ===== verification/Runs.v ===== *)
(** * Runs: the run projection of internal/state/runs.go, its wire mapping in
    internal/integration/adapters.go, and the run and pane-read endpoints of
    internal/server/runs.go and internal/server/snapshot.go

    A run is an agent occupying a pane at a lifecycle generation. The projection
    is computed from one snapshot of the engine; the read endpoint reads the
    engine twice and then Herdr, so the model takes the engine as it is at each
    of the two reads and the outcome of the Herdr call.

    SHA-256 is the parameter [sha256]; the screen grammars of the experimental
    interpretation are the parameters of [Parse]. *)

From S2P Require Import Prelude Topology Subscriber Engine EngineFacts GoStr Sanitize Mutations Interpret.

(** ** Run identity *)

Definition hexDigit (n : Z) : byte := if n <? 10 then zb (48 + n) else zb (87 + n).
Definition hexEncode (s : list byte) : list byte :=
  s ≫= fun b => [hexDigit (bz b / 16); hexDigit (bz b mod 16)].

Definition incarnationDigestLen : nat := 16.

Definition normalizeStatus (s : AgentStatus) : AgentStatus :=
  if bool_decide (s = StatusIdle) || bool_decide (s = StatusWorking) ||
     bool_decide (s = StatusBlocked) || bool_decide (s = StatusDone)
  then s else StatusUnknown.

Definition runID (paneID : string) (gen : Z) (incarnation : string) : string :=
  let id := paneID +:+ "@" +:+ formatUint gen in
  if bool_decide (incarnation = "") then id else id +:+ "#" +:+ incarnation.

Record RunWorktree := mkRunWorktree {
  rw_RepoName : string; rw_RepoRoot : string; rw_CheckoutPath : string; rw_IsLinkedWorktree : bool
}.

Record Run := mkRun {
  RunID : string; r_PaneID : string; PaneGeneration : Z; AgentIncarnation : string;
  r_WorkspaceID : string; WorkspaceLabel : string; r_TabID : string; TabLabel : string;
  r_TerminalID : string; AgentKind : string; AgentName : string; DisplayAgent : string;
  r_Title : string; Status : AgentStatus; InteractiveReady : bool; LaunchPending : bool;
  r_Focused : bool; r_CWD : string; r_ForegroundCWD : string; Worktree : option RunWorktree;
  Revision : Z; StateChangeSeq : Z
}.

Definition orElse (s t : string) : string := if bool_decide (s = "") then t else s.

(** ** The projection *)

(** The first agent entry of a pane wins; the last workspace or tab of an id. *)
Definition firstBy {A} (key : A -> string) (l : list A) : gmap string A :=
  fold_left (fun m x => match m !! key x with Some _ => m | None => <[key x := x]> m end) l ∅.
Definition lastBy {A} (key : A -> string) (l : list A) : gmap string A :=
  fold_left (fun m x => <[key x := x]> m) l ∅.

Section Projection.
Variable sha256 : list byte -> list byte.

Definition incarnation (fingerprint : string) : string :=
  if bool_decide (fingerprint = "") then ""
  else String.string_of_list_byte (take incarnationDigestLen (hexEncode (sha256 (bytesOf fingerprint)))).

Definition runWorktree (wt : WorkspaceWorktree) : RunWorktree :=
  mkRunWorktree (wt_RepoName wt) (wt_RepoRoot wt) (wt_CheckoutPath wt) (wt_IsLinkedWorktree wt).

(** One pane with its live generation, agent entry, workspace and tab. *)
Definition projectRun (p : Pane) (gen : Z) (occupant : string) (agent : option Agent)
    (ws : option Workspace) (tab : option Tab) : Run :=
  let inc := incarnation occupant in
  let fromAgent {A} (f : Agent -> A) (d : A) := match agent with Some a => f a | None => d end in
  mkRun (runID (p_PaneID p) gen inc) (p_PaneID p) gen inc
    (p_WorkspaceID p) (match ws with Some w => w_Label w | None => "" end)
    (p_TabID p) (match tab with Some t => t_Label t | None => "" end) (p_TerminalID p)
    (fromAgent (fun a => orElse (p_Agent p) (a_Agent a)) (p_Agent p))
    (fromAgent a_Name "")
    (fromAgent (fun a => orElse (p_DisplayAgent p) (a_DisplayAgent a)) (p_DisplayAgent p))
    (fromAgent (fun a => orElse (p_Title p) (a_Title a)) (p_Title p))
    (fromAgent (fun a => if bool_decide (p_AgentStatus p = "") then normalizeStatus (a_AgentStatus a)
                         else normalizeStatus (p_AgentStatus p))
       (normalizeStatus (p_AgentStatus p)))
    (fromAgent a_InteractiveReady false) (fromAgent a_LaunchPending false)
    (p_Focused p) (p_CWD p) (p_ForegroundCWD p)
    (ws ≫= fun w => runWorktree <$> w_Worktree w)
    (p_Revision p) (fromAgent a_StateChangeSeq 0).

Definition projectRuns (topo : HerdrSnapshot) (gens : gmap string Z) (occupants : gmap string string) : list Run :=
  let agents := firstBy a_PaneID (Agents topo) in
  let workspaces := lastBy w_WorkspaceID (Workspaces topo) in
  let tabs := lastBy t_TabID (Tabs topo) in
  let one (p : Pane) : option Run :=
    let agent := agents !! p_PaneID p in
    if bool_decide (p_Agent p = "") && bool_decide (agent = None) then None
    else
      gen ← gens !! p_PaneID p;
      Some (projectRun p gen (default "" (occupants !! p_PaneID p)) agent
              (workspaces !! p_WorkspaceID p) (tabs !! p_TabID p)) in
  sortBy (single r_PaneID) (omap one (Panes topo)).

Record RunSet {Digest : Type} := mkRunSet { SnapshotHash : option Digest; rs_Runs : list Run }.
Arguments RunSet : clear implicits.
Arguments mkRunSet {Digest}.

(** No snapshot yet: the zero set, whose hash is the empty string. *)
Definition Runs {Digest Err} (e : Engine Digest Err) : RunSet Digest :=
  match current e with
  | None => mkRunSet None []
  | Some snap => mkRunSet (Some (Hash snap)) (projectRuns (Topology snap) (generations e) (occupants e))
  end.
End Projection.
Arguments RunSet : clear implicits.
Arguments mkRunSet {Digest}.

(** ** The wire type and the adapter's mapping *)

Record RunSummary := mkSummary {
  s_RunID : string; s_PaneID : string; s_PaneGeneration : Z; s_AgentIncarnation : string;
  s_WorkspaceID : string; s_WorkspaceLabel : string; s_TabID : string; s_TabLabel : string;
  s_TerminalID : string; s_AgentKind : string; s_AgentName : string; s_DisplayAgent : string;
  s_Title : string; s_Status : string; s_InteractiveReady : bool; s_LaunchPending : bool;
  s_Focused : bool; s_CWD : string; s_ForegroundCWD : string; s_Worktree : option RunWorktree;
  s_Revision : Z; s_StateChangeSeq : Z
}.

Record RunProjection {Digest : Type} := mkProjection {
  pj_SnapshotHash : option Digest; pj_Runs : list RunSummary
}.
Arguments RunProjection : clear implicits.
Arguments mkProjection {Digest}.

Definition toSummary (r : Run) : RunSummary :=
  mkSummary (RunID r) (r_PaneID r) (PaneGeneration r) (AgentIncarnation r) (r_WorkspaceID r)
    (WorkspaceLabel r) (r_TabID r) (TabLabel r) (r_TerminalID r) (AgentKind r) (AgentName r)
    (DisplayAgent r) (r_Title r) (Status r) (InteractiveReady r) (LaunchPending r) (r_Focused r)
    (r_CWD r) (r_ForegroundCWD r) (Worktree r) (Revision r) (StateChangeSeq r).

Definition adapterRuns {Digest} (set : RunSet Digest) : RunProjection Digest :=
  match rs_Runs set with
  | [] => mkProjection (SnapshotHash set) []
  | runs => mkProjection (SnapshotHash set) (toSummary <$> runs)
  end.

(** ** Sanitising and bounding the list *)

Definition cleanField (s : string) : string := String.string_of_list_byte (sanitizeRunField (bytesOf s)).

Definition cleanWorktree (wt : RunWorktree) : RunWorktree :=
  mkRunWorktree (cleanField (rw_RepoName wt)) (cleanField (rw_RepoRoot wt))
    (cleanField (rw_CheckoutPath wt)) (rw_IsLinkedWorktree wt).

Definition sanitizeRun (r : RunSummary) : RunSummary :=
  mkSummary (s_RunID r) (s_PaneID r) (s_PaneGeneration r) (s_AgentIncarnation r) (s_WorkspaceID r)
    (cleanField (s_WorkspaceLabel r)) (s_TabID r) (cleanField (s_TabLabel r)) (s_TerminalID r)
    (s_AgentKind r) (cleanField (s_AgentName r)) (cleanField (s_DisplayAgent r)) (cleanField (s_Title r))
    (s_Status r) (s_InteractiveReady r) (s_LaunchPending r) (s_Focused r)
    (cleanField (s_CWD r)) (cleanField (s_ForegroundCWD r)) (cleanWorktree <$> s_Worktree r)
    (s_Revision r) (s_StateChangeSeq r).

Record Interpretation := mkInterpretation {
  ip_Enabled : bool; ip_Parsers : list string; ip_MaxTurns : Z
}.

Record RunConfig := mkRunConfig {
  MaxPaneReadLines : Z; MaxRunOutputLines : Z; MaxRunOutputBytes : Z; MaxRuns : Z;
  cfg_Interpretation : Interpretation
}.

(** [Config.applyDefaults], the fields the run endpoints read. *)
Definition applyDefaults (c : RunConfig) : RunConfig :=
  let i := cfg_Interpretation c in
  mkRunConfig (orDefault (MaxPaneReadLines c) 2000) (orDefault (MaxRunOutputLines c) 400)
    (orDefault (MaxRunOutputBytes c) (64 * 1024)) (orDefault (MaxRuns c) 200)
    (mkInterpretation (ip_Enabled i) (ip_Parsers i) (orDefault (ip_MaxTurns i) (MaxTurns DefaultLimits))).

(** [None] is the panic of slicing to a negative length. *)
Definition boundedRuns (cfg : RunConfig) (projected : list RunSummary) : option (list RunSummary * bool) :=
  if MaxRuns cfg <? Z.of_nat (length projected) then
    if MaxRuns cfg <? 0 then None
    else Some (sanitizeRun <$> take (Z.to_nat (MaxRuns cfg)) projected, true)
  else Some (sanitizeRun <$> projected, false).

Definition findRun (paneID : string) (projected : list RunSummary) : option RunSummary :=
  sanitizeRun <$> List.find (fun r => bool_decide (s_PaneID r = paneID)) projected.

(** ** Advertised capabilities *)

Definition runContractVersion : Z := 1.
Definition partObservedTerminalOutput := "observed_terminal_output".
Definition partInterpretedTranscript := "interpreted_transcript".
Definition partInterpretedInteraction := "interpreted_interaction".

Record runCapabilities := mkCapabilities {
  ContractVersion : Z; RunsSupported : bool;
  StructuredMessages : bool; StructuredToolCalls : bool; StructuredInteractions : bool;
  StructuredDiffs : bool; StructuredTests : bool; StructuredPlans : bool;
  ObservedTerminalOutput : bool; HeuristicInterpretation : bool;
  InterpretationParsers : list string; PartTypes : list string; OutputSources : list string;
  cap_MaxOutputBytes : Z; cap_MaxOutputLines : Z; cap_MaxRuns : Z
}.

Definition runPartTypes (cfg : RunConfig) : list string :=
  partObservedTerminalOutput ::
  if ip_Enabled (cfg_Interpretation cfg) then [partInterpretedTranscript; partInterpretedInteraction] else [].

Definition interpretationParsers (cfg : RunConfig) : list string :=
  if ip_Enabled (cfg_Interpretation cfg)
  then sortBy (fun s => (s, "")) (ip_Parsers (cfg_Interpretation cfg)) else [].

Definition runOutputSources : list string := ["recent"; "recent-unwrapped"; "visible"].

Definition capabilitiesOf (cfg : RunConfig) : runCapabilities :=
  mkCapabilities runContractVersion true false false false false false false true
    (ip_Enabled (cfg_Interpretation cfg)) (interpretationParsers cfg) (runPartTypes cfg) runOutputSources
    (MaxRunOutputBytes cfg) (MaxRunOutputLines cfg) (MaxRuns cfg).

Record runsResponse {Digest : Type} := mkRunsResponse {
  rr_Version : Z; rr_Capabilities : runCapabilities; rr_Hash : option Digest;
  rr_Runs : list RunSummary; rr_Truncated : bool
}.
Arguments runsResponse : clear implicits.
Arguments mkRunsResponse {Digest}.

Definition handleRuns {Digest} (cfg : RunConfig) (projection : RunProjection Digest)
    : option (runsResponse Digest) :=
  '(runs, truncated) ← boundedRuns cfg (pj_Runs projection);
  Some (mkRunsResponse runContractVersion (capabilitiesOf cfg) (pj_SnapshotHash projection) runs truncated).

(** ** Decimal numbers of a query ([strconv.ParseUint], [strconv.Atoi]) *)

Definition digitOf (c : Ascii.ascii) : option Z :=
  let n := Z.of_N (Ascii.N_of_ascii c) in
  if (48 <=? n) && (n <=? 57) then Some (n - 48) else None.

Fixpoint digitsValue (acc : Z) (s : string) : option Z :=
  match s with
  | EmptyString => Some acc
  | String c s' => match digitOf c with Some d => digitsValue (10 * acc + d) s' | None => None end
  end.

Definition decimal (s : string) : option Z :=
  match s with EmptyString => None | _ => digitsValue 0 s end.

Definition ParseUint (s : string) : option Z :=
  v ← decimal s; if v <? 2 ^ 64 then Some v else None.

Definition Atoi (s : string) : option Z :=
  v ← match s with
      | EmptyString => None
      | String c s' =>
          let n := Ascii.N_of_ascii c in
          if (n =? 45)%N then Z.opp <$> decimal s' else if (n =? 43)%N then decimal s' else decimal s
      end;
  if (- 2 ^ 63 <=? v) && (v <? 2 ^ 63) then Some v else None.

(** ** Reading a pane (adapters.go, herdr/reads.go) *)

Inductive ReadSource := SourceVisible | SourceRecent | SourceRecentUnwrapped | SourceDetection.

Definition ParseReadSource (s : string) : option ReadSource :=
  if bool_decide (s = "") || bool_decide (s = "visible") then Some SourceVisible
  else if bool_decide (s = "recent") then Some SourceRecent
  else if bool_decide (s = "recent_unwrapped") || bool_decide (s = "recent-unwrapped")
  then Some SourceRecentUnwrapped
  else if bool_decide (s = "detection") then Some SourceDetection
  else None.

(** The [pane.read] request; the format is always text and no line count is sent
    for a count that is not positive. *)
Record paneReadParams := mkPaneRead { pr_PaneID : string; pr_Source : ReadSource; pr_Lines : option Z }.

Definition linesPtr (n : Z) : option Z := if n <=? 0 then None else Some n.

(** The outcome of the Herdr call: the text, or the upstream error code. *)
Definition readOutcome : Type := list byte + string.

(** The requests sent to Herdr and the outcome. *)
Definition ReadPane (call : paneReadParams -> readOutcome) (paneID source : string) (lines : Z)
    : list paneReadParams * readOutcome :=
  match ParseReadSource source with
  | None => ([], inr "invalid_params")
  | Some src => let req := mkPaneRead paneID src (linesPtr lines) in ([req], call req)
  end.

Definition paneReadSources (s : string) : bool :=
  bool_decide (s = "visible") || bool_decide (s = "recent") || bool_decide (s = "recent-unwrapped").

(** [q.Get]: the first value of a query key, empty when absent. *)
Definition query := string -> string.

(** The [lines] parameter: its default, the number, or a rejection. *)
Definition queryLines (q : query) (dflt max : Z) : option Z :=
  let v := q "lines" in
  n ← (if bool_decide (v = "") then Some dflt
       else n ← Atoi v; if n <=? 0 then None else Some n);
  Some (if max <? n then max else n).

Inductive reply (A : Type) := Reject (status : Z) (code message : string) | Reply (body : A).
Arguments Reject {A}.
Arguments Reply {A}.

Record paneReadResponse := mkPaneReadResponse {
  pn_PaneID : string; pn_Source : string; pn_Lines : Z; pn_Content : list byte
}.

Definition handlePaneRead (cfg : RunConfig) (call : paneReadParams -> readOutcome) (paneID : string) (q : query)
    : reply paneReadResponse * list paneReadParams :=
  if bool_decide (paneID = "") then (Reject 400 "bad_request" "missing pane id", [])
  else
    let source := orElse (q "source") "visible" in
    if negb (paneReadSources source) then (Reject 400 "bad_request" "invalid source", [])
    else match queryLines q 100 (MaxPaneReadLines cfg) with
    | None => (Reject 400 "bad_request" "invalid lines", [])
    | Some lines =>
        let '(reqs, res) := ReadPane call paneID source lines in
        match res with
        | inr _ => (Reject 404 "not_found" "pane read failed", reqs)
        | inl content => (Reply (mkPaneReadResponse paneID source lines content), reqs)
        end
    end.

(** ** The run endpoint *)

Definition classifyReadErr (ctx : option ctxError) (err : string) : string * Z :=
  let eqc c := bool_decide (err = c) in
  match ctx with
  | Some DeadlineExceeded => ("deadline_exceeded", 504)
  | Some Canceled => ("unavailable", 503)
  | None =>
      if eqc "not_found" then ("run_unavailable", 404)
      else if eqc "invalid_params" || eqc "invalid_request" then ("bad_request", 400)
      else if eqc "feature_disabled" || eqc "platform_unsupported" || eqc "plugin_disabled" || eqc "incompatible"
      then ("unsupported", 501)
      else if eqc "timeout" then ("deadline_exceeded", 504)
      else if eqc "connect" || eqc "transport" || eqc "canceled" then ("unavailable", 503)
      else ("run_read_failed", 502)
  end.

Record observedOutputPart := mkObserved {
  op_Source : string; op_Lines : Z; op_Bytes : Z; op_Truncated : bool; op_Text : list byte
}.

Record transcriptPart := mkTranscript {
  tp_Parser : string; tp_Turns : list Turn; tp_DroppedTurns : Z; tp_DroppedLines : Z; tp_StartsMidTurn : bool
}.

(** The heterogeneous parts; every interpreted part is marked experimental on
    the wire. *)
Inductive part :=
| PartObserved (o : observedOutputPart)
| PartTranscript (t : transcriptPart)
| PartInteraction (parser : string) (i : Interaction).

Definition parses (i : Interpretation) (agentKind : string) : bool :=
  ip_Enabled i && negb (bool_decide (agentKind = "")) && bool_decide (agentKind ∈ ip_Parsers i).

Record runResponse := mkRunResponse {
  rp_Version : Z; rp_Capabilities : runCapabilities; rp_Run : RunSummary; rp_Parts : list part
}.

Record runAudit := mkRunAudit {
  ra_Subject : string; ra_SessionID : string; ra_Resource : string; ra_Result : string; ra_Bytes : Z
}.

Section Handler.
Variables parseClaude parseOpenCode : list (list byte) -> Limits -> Result.
Variable cfg : RunConfig.

Definition interpretedParts (agentKind : string) (text : list byte) : list part :=
  let i := cfg_Interpretation cfg in
  if negb (parses i agentKind) then []
  else
    let d := DefaultLimits in
    let lim := mkLimits (ip_MaxTurns i) (MaxOptions d) (MaxDetail d) (MaxDiffLines d) (MaxTextLen d) (MaxLines d) in
    match Parse parseClaude parseOpenCode agentKind text lim with
    | None => []
    | Some res =>
        (if isNil (Turns res) then []
         else [PartTranscript (mkTranscript (Parser res) (Turns res) (DroppedTurns res) (DroppedLines res)
                 (PartialLead res))]) ++
        match res_Interaction res with Some i => [PartInteraction (Parser res) i] | None => [] end
    end.

Definition defaultRunOutputLines : Z := 200.

Definition observe (source : string) (content : list byte) : observedOutputPart :=
  let '(text, truncated) := boundObservedText content (MaxRunOutputBytes cfg) in
  mkObserved source (Z.of_nat (countLines text)) (Z.of_nat (length text)) truncated text.

(** The reads that follow the guards, with the run the guards established. *)
Definition readRun (who : caller) (paneID source : string) (lines : Z) (run : RunSummary)
    (call : paneReadParams -> readOutcome) (ctx : option ctxError)
    : reply runResponse * list paneReadParams * list runAudit :=
  let audit := mkRunAudit (c_subject who) (c_session who) paneID in
  let '(reqs, res) := ReadPane call paneID source lines in
  match res with
  | inr err =>
      let '(code, status) := classifyReadErr ctx err in
      (Reject status code "run output unavailable", reqs, [audit ("error:" +:+ code) 0])
  | inl content =>
      let part := observe source content in
      (Reply (mkRunResponse runContractVersion (capabilitiesOf cfg) run
                (PartObserved part :: interpretedParts (s_AgentKind run) (op_Text part))),
       reqs, [audit "ok" (op_Bytes part)])
  end.

Definition stale {A} (message : string) : reply A := Reject 409 "generation_stale" message.

(** [gen] is the engine's answer to [Generation], [projected] its later answer
    to [Runs]; [ctx] is the request context's error when the read has failed. *)
Definition handleRun (who : caller) (paneID : string) (q : query) (gen : option Z)
    (projected : list RunSummary) (call : paneReadParams -> readOutcome) (ctx : option ctxError)
    : reply runResponse * list paneReadParams * list runAudit :=
  let reject r := (r, [], []) in
  if bool_decide (paneID = "") then reject (Reject 400 "bad_request" "missing pane id")
  else
    let required := Reject 400 "generation_stale" "expected_generation is required to read a run" in
    match ParseUint (q "expected_generation") with
    | None => reject required
    | Some expectedGen =>
        if expectedGen =? 0 then reject required
        else
          let source := orElse (q "source") "recent-unwrapped" in
          if negb (paneReadSources source) then reject (Reject 400 "bad_request" "invalid source")
          else match queryLines q defaultRunOutputLines (MaxRunOutputLines cfg) with
          | None => reject (Reject 400 "bad_request" "invalid lines")
          | Some lines =>
              match gen with
              | None => reject (stale "pane no longer exists")
              | Some gen =>
                  if negb (gen =? expectedGen) then reject (stale "pane changed; refresh and retry")
                  else match findRun paneID projected with
                  | None => reject (Reject 404 "run_unavailable" "no agent run occupies this pane")
                  | Some run =>
                      if negb (s_PaneGeneration run =? expectedGen)
                      then reject (stale "pane changed; refresh and retry")
                      else readRun who paneID source lines run call ctx
                  end
              end
          end
    end.
End Handler.
