(* ===== verification/RunsFacts.v ===== *)
(** * RunsFacts: correctness of the run projection and the run endpoint *)

From stdpp Require Import pretty.
From S2P Require Import Prelude Topology Subscriber Engine EngineFacts GoStr Sanitize Mutations Interpret Runs.
#[local] Open Scope Z_scope.

(** ** The lookup tables *)

Lemma firstBy_go {A} (key : A -> string) l (m : gmap string A) k :
  fold_left (fun m x => match m !! key x with Some _ => m | None => <[key x := x]> m end) l m !! k =
  match m !! k with Some x => Some x | None => List.find (fun x => bool_decide (key x = k)) l end.
Proof.
  revert m. induction l as [|x l IH]; intros m; simpl; [by destruct (m !! k)|]. rewrite IH.
  destruct (decide (key x = k)) as [<-|Hne].
  - rewrite bool_decide_true by done. destruct (m !! key x) eqn:E; [by rewrite E|].
    by rewrite lookup_insert_eq.
  - rewrite bool_decide_false by done. destruct (m !! key x); [done|].
    by rewrite lookup_insert_ne.
Qed.

Lemma firstBy_lookup {A} (key : A -> string) l k :
  firstBy key l !! k = List.find (fun x => bool_decide (key x = k)) l.
Proof. unfold firstBy. by rewrite firstBy_go, lookup_empty. Qed.

Lemma find_none {A} (key : A -> string) l k :
  List.find (fun x => bool_decide (key x = k)) l = None <-> k ∉ key <$> l.
Proof.
  induction l as [|x l IH]; simpl; [split; [intros _; apply not_elem_of_nil|done]|].
  rewrite not_elem_of_cons. case_bool_decide; [split; [done|by intros [? _]]|].
  rewrite IH. naive_solver.
Qed.

(** ** Run identifiers *)

Lemma last_split {A} (c : A) xs ys xs' ys' :
  c ∉ ys -> c ∉ ys' -> xs ++ c :: ys = xs' ++ c :: ys' -> xs = xs' /\ ys = ys'.
Proof.
  intros Hy Hy'. revert xs'. induction xs as [|x xs IH]; intros [|x' xs'] H; simplify_eq/=.
  - done.
  - exfalso. apply Hy. set_solver.
  - exfalso. apply Hy'. set_solver.
  - destruct (IH xs') as [-> ->]; auto.
Qed.

#[local] Abbreviation chars := String.list_ascii_of_string.

Lemma chars_app s t : chars (s +:+ t) = chars s ++ chars t.
Proof. induction s as [|c s IH]; [done|]. rewrite append_cons. simpl. by rewrite IH. Qed.

Lemma chars_inj s t : chars s = chars t -> s = t.
Proof.
  intros H. rewrite <- (String.string_of_list_ascii_of_string s), H.
  apply String.string_of_list_ascii_of_string.
Qed.

Definition charCode (c : Ascii.ascii) : N := Ascii.N_of_ascii c.
Definition at_ : Ascii.ascii := Ascii.ascii_of_N 64.
Definition hash_ : Ascii.ascii := Ascii.ascii_of_N 35.

(** No character of the text is one of the separators of a run id. *)
Definition sepFree (s : string) : Prop := at_ ∉ chars s /\ hash_ ∉ chars s.

Definition isDecimal (c : Ascii.ascii) : Prop := (48 <= charCode c <= 57)%N.

Lemma pretty_char_digit n : isDecimal (pretty_N_char n).
Proof. unfold isDecimal, charCode, pretty_N_char. repeat case_match; vm_compute; done. Qed.

Lemma pretty_digits_go n s :
  Forall isDecimal (chars s) -> Forall isDecimal (chars (pretty_N_go n s)).
Proof.
  revert s. induction (N.lt_wf_0 n) as [n _ IH]. intros s Hs.
  assert (n = 0 \/ 0 < n)%N as [->|Hn] by lia; [by rewrite pretty_N_go_0|].
  rewrite pretty_N_go_step by done. apply IH; [by apply N.div_lt|].
  simpl. constructor; [apply pretty_char_digit|done].
Qed.

Lemma formatUint_digits n : Forall isDecimal (chars (formatUint n)).
Proof.
  unfold formatUint, pretty, pretty_N. case_decide; [by repeat constructor|]. by apply pretty_digits_go.
Qed.

Lemma digits_free (c : Ascii.ascii) s : ~ isDecimal c -> Forall isDecimal (chars s) -> c ∉ chars s.
Proof. intros Hc Hs Hin. rewrite Forall_forall in Hs. by apply Hc, Hs. Qed.

Lemma formatUint_sepFree n : sepFree (formatUint n).
Proof.
  split; (apply digits_free; [unfold isDecimal; vm_compute; by intros []|apply formatUint_digits]).
Qed.

Lemma formatUint_inj m n : 0 <= m -> 0 <= n -> formatUint m = formatUint n -> m = n.
Proof. unfold formatUint. intros Hm Hn H. apply (inj pretty) in H. lia. Qed.

Lemma sepFree_app s t : sepFree s -> at_ ∉ chars t -> at_ ∉ chars (s +:+ t).
Proof. intros [H _] Ht. rewrite chars_app, elem_of_app. tauto. Qed.

(** The tail of a run id after the pane: the generation and the incarnation. *)
Definition runTail (gen : Z) (inc : string) : string :=
  if bool_decide (inc = "") then formatUint gen else formatUint gen +:+ "#" +:+ inc.

Lemma runID_tail p g i : runID p g i = p +:+ "@" +:+ runTail g i.
Proof. unfold runID, runTail. case_bool_decide; [done|]. by rewrite !append_assoc. Qed.

Lemma runTail_at g i : sepFree i -> at_ ∉ chars (runTail g i).
Proof.
  intros [Hi _]. destruct (formatUint_sepFree g) as [Hg _]. unfold runTail.
  case_bool_decide; [done|]. rewrite !chars_app, !elem_of_app. intros [?|[H'|?]]; [done| |done].
  apply list_elem_of_singleton in H'. by vm_compute in H'.
Qed.

Lemma runTail_inj g i g' i' : 0 <= g -> 0 <= g' -> sepFree i -> sepFree i' ->
  runTail g i = runTail g' i' -> g = g' /\ i = i'.
Proof.
  intros Hg Hg' [_ Hi] [_ Hi'] H. unfold runTail in H.
  destruct (formatUint_sepFree g) as [_ Fg], (formatUint_sepFree g') as [_ Fg'].
  assert (Hh : forall s t : string, hash_ ∈ chars (s +:+ "#" +:+ t)).
  { intros s t. rewrite !chars_app, !elem_of_app. right; left. by apply list_elem_of_singleton. }
  repeat case_bool_decide; subst.
  - split; [by apply formatUint_inj|done].
  - exfalso. apply Fg. rewrite H. apply Hh.
  - exfalso. apply Fg'. rewrite <- H. apply Hh.
  - apply (f_equal chars) in H. rewrite !chars_app in H. apply last_split in H as [E1 E2]; [|done..].
    split; [|by apply chars_inj]. apply formatUint_inj; [done..|]. by apply chars_inj.
Qed.

Lemma chars_of_bytes l : chars (String.string_of_list_byte l) = Ascii.ascii_of_byte <$> l.
Proof.
  unfold String.string_of_list_byte.
  by rewrite String.list_ascii_of_string_of_list_ascii.
Qed.

Lemma hexDigit_sep n : 0 <= n < 16 ->
  Ascii.ascii_of_byte (hexDigit n) ≠ at_ /\ Ascii.ascii_of_byte (hexDigit n) ≠ hash_.
Proof.
  intros H. assert (Hin : n ∈ seqZ 0 16) by (apply elem_of_seqZ; lia).
  vm_compute in Hin. repeat (apply elem_of_cons in Hin as [->|Hin]; [by vm_compute|]).
  by apply not_elem_of_nil in Hin.
Qed.

Lemma hexEncode_sep s :
  Forall (fun b => Ascii.ascii_of_byte b ≠ at_ /\ Ascii.ascii_of_byte b ≠ hash_) (hexEncode s).
Proof.
  induction s as [|b s IH]; [constructor|]. unfold hexEncode in *. simpl.
  pose proof (bz_range b).
  repeat constructor; try apply hexDigit_sep; try done; Z.div_mod_to_equations; lia.
Qed.

Lemma incarnation_sepFree sha256 fp : sepFree (incarnation sha256 fp).
Proof.
  unfold incarnation. case_bool_decide; [split; apply not_elem_of_nil|].
  pose proof (hexEncode_sep (sha256 (bytesOf fp))) as Hs.
  apply (Forall_take _ incarnationDigestLen) in Hs.
  split; rewrite chars_of_bytes; intros Hin; apply list_elem_of_fmap in Hin as (b & E & Hb);
    rewrite Forall_forall in Hs; destruct (Hs b Hb); congruence.
Qed.

(** A run id identifies the run. Whatever the pane ids are (even ones that
    contain the separators), two runs with the same id have the same pane, the
    same generation and the same occupant digest. *)
Theorem runID_inj (sha256 : list byte -> list byte) (p p' fp fp' : string) (g g' : Z) :
  0 <= g -> 0 <= g' ->
  runID p g (incarnation sha256 fp) = runID p' g' (incarnation sha256 fp') ->
  p = p' /\ g = g' /\ incarnation sha256 fp = incarnation sha256 fp'.
Proof.
  intros Hg Hg'. rewrite !runID_tail. intros H. apply (f_equal chars) in H.
  rewrite !chars_app in H. apply last_split in H as [H1 H2].
  - split; [by apply chars_inj|]. apply runTail_inj; auto using incarnation_sepFree.
    by apply chars_inj.
  - apply runTail_at, incarnation_sepFree.
  - apply runTail_at, incarnation_sepFree.
Qed.

Lemma runID_inj_witness :
  let sha (b : list byte) := b in
  runID "p@1" 2 (incarnation sha "claude") = runID "p@1" 2 (incarnation sha "claude") /\
  "p@1" = "p@1" /\ 2 = 2 /\ incarnation sha "claude" = incarnation sha "claude".
Proof.
  intros sha. split; [reflexivity|].
  apply (runID_inj sha "p@1" "p@1" "claude" "claude" 2 2); [lia|lia|reflexivity].
Defined.

(** ** The projection *)

(** A pane an agent occupies: its own entry names an agent, or an entry of the
    agent list names the pane. *)
Definition occupied (topo : HerdrSnapshot) (p : Pane) : Prop :=
  p_Agent p ≠ "" \/ p_PaneID p ∈ a_PaneID <$> Agents topo.

Definition lifecycle : list AgentStatus :=
  [StatusIdle; StatusWorking; StatusBlocked; StatusDone; StatusUnknown].

Lemma normalizeStatus_closed s : normalizeStatus s ∈ lifecycle.
Proof.
  unfold normalizeStatus, lifecycle. case_match eqn:E; [|set_solver].
  rewrite !orb_true_iff, !bool_decide_eq_true in E. set_solver.
Qed.

(** The run of a pane is built from that pane. *)
Definition runOf sha256 (gens : gmap string Z) (occ : gmap string string) (p : Pane) (r : Run) : Prop :=
  r_PaneID r = p_PaneID p /\ r_TerminalID r = p_TerminalID p /\
  gens !! p_PaneID p = Some (PaneGeneration r) /\
  AgentIncarnation r = incarnation sha256 (default "" (occ !! p_PaneID p)) /\
  RunID r = runID (p_PaneID p) (PaneGeneration r) (AgentIncarnation r) /\ Status r ∈ lifecycle.

Lemma projectRun_runOf sha256 (gens : gmap string Z) (occ : gmap string string) p gen agent ws tab :
  gens !! p_PaneID p = Some gen ->
  runOf sha256 gens occ p (projectRun sha256 p gen (default "" (occ !! p_PaneID p)) agent ws tab).
Proof.
  intros Hg. unfold runOf, projectRun. simpl. split_and!; try done.
  destruct agent as [a|]; [case_bool_decide|]; apply normalizeStatus_closed.
Qed.

Lemma projectRuns_elem sha256 topo gens occ r :
  r ∈ projectRuns sha256 topo gens occ ->
  exists p, p ∈ Panes topo /\ occupied topo p /\ runOf sha256 gens occ p r.
Proof.
  unfold projectRuns. rewrite sortBy_perm, list_elem_of_omap. intros (p & Hp & H). exists p.
  split; [done|]. case_match eqn:E; [done|]. apply bind_Some in H as (gen & Hg & [= <-]).
  split; [|by apply projectRun_runOf].
  apply andb_false_iff in E as [E|E]; apply bool_decide_eq_false in E; [by left|right].
  rewrite firstBy_lookup in E. destruct (decide (p_PaneID p ∈ a_PaneID <$> Agents topo)); [done|].
  by apply find_none in n.
Qed.

Lemma projectRuns_complete sha256 topo gens occ p :
  p ∈ Panes topo -> occupied topo p -> is_Some (gens !! p_PaneID p) ->
  exists r, r ∈ projectRuns sha256 topo gens occ /\ runOf sha256 gens occ p r.
Proof.
  intros Hp Ho [gen Hg]. eexists. split; [|by eapply projectRun_runOf].
  unfold projectRuns. rewrite sortBy_perm, list_elem_of_omap. exists p. split; [done|].
  rewrite Hg. case_match eqn:E; [|reflexivity]. exfalso.
  apply andb_true_iff in E as [E1 E2]. apply bool_decide_eq_true in E1, E2.
  destruct Ho as [Ho|Ho]; [done|]. rewrite firstBy_lookup in E2. by apply find_none in E2.
Qed.

Lemma omap_sublist_key {A B} (f : A -> option B) (ka : A -> string) (kb : B -> string) l :
  (forall x y, f x = Some y -> kb y = ka x) -> kb <$> omap f l `sublist_of` ka <$> l.
Proof.
  intros Hf. induction l as [|x l IH]; [done|].
  change (omap f (x :: l)) with (match f x with Some y => y :: omap f l | None => omap f l end).
  destruct (f x) as [y|] eqn:E; simpl; [rewrite (Hf x y E)|]; by constructor.
Qed.

Lemma projectRuns_nodup sha256 topo gens occ :
  NoDup (p_PaneID <$> Panes topo) -> NoDup (r_PaneID <$> projectRuns sha256 topo gens occ).
Proof.
  intros Hn. unfold projectRuns. rewrite sortBy_perm.
  eapply sublist_NoDup; [done|]. apply omap_sublist_key. intros p r H.
  case_match; [done|]. by apply bind_Some in H as (gen & _ & [= <-]).
Qed.

Lemma sortBy_single_sorted {A} (f : A -> string) l :
  StronglySorted String.le (f <$> sortBy (single f) l).
Proof.
  induction (sortBy_sorted (single f) l) as [|x t _ IH Hx]; simpl; constructor; [done|].
  apply Forall_fmap. eapply Forall_impl; [exact Hx|]. intros y H. by apply (keyLe_le (single f)).
Qed.

Section Live.
Context {Digest Err : Type} `{EqDecision Digest}.
Context (hash : hashProjection -> Digest) `{!Inj (=) (=) hash}.
Context (wireSize : Z -> Digest -> HerdrSnapshot -> gmap string Z -> option Z).
Context (sha256 : list byte -> list byte).

(** Every pane of the current snapshot has a generation, and the recorded
    occupant is its fingerprint. *)
Lemma inv_pane (e : Engine Digest Err) snap p :
  engineInv hash e -> current e = Some snap -> p ∈ Panes (Topology snap) ->
  is_Some (generations e !! p_PaneID p) /\ occupants e !! p_PaneID p = Some (OccupantFingerprint p).
Proof.
  intros (_ & _ & Hc) E Hp. rewrite E in Hc. destruct Hc as (_ & Hn & _ & g & Hg & Eg).
  destruct (update_present _ g p Hg Hn Hp) as [H1 H2]. rewrite <- Eg in H1, H2. simpl in H1, H2. eauto.
Qed.

(** C28: The run list is exactly the live agents of the current snapshot. Provided that
    the topology hash has no collisions and that the panes of each polled snapshot have
    distinct ids, after any history of polls, wake-ups and subscriptions: every run is
    that of a pane in the snapshot which an agent occupies, its generation is the one
    the mutation guard checks, its incarnation digests that pane's occupant and its
    status is one of the five lifecycle states; conversely every occupied pane has a
    run; and there is one run per pane, in pane-id order. Before the first poll there
    is none. *)
Theorem Runs_exact (cfg : Engine.Config) (e : Engine Digest Err) (os : list (engineOp (Err:=Err))) :
  New cfg = Some e -> Forall opOk os ->
  let e' := engineRun hash wireSize e os in
  let runs := rs_Runs (Runs sha256 e') in
  NoDup (r_PaneID <$> runs) /\ StronglySorted String.le (r_PaneID <$> runs) /\
  match current e' with
  | None => runs = []
  | Some snap =>
      (forall r, r ∈ runs -> exists p, p ∈ Panes (Topology snap) /\ occupied (Topology snap) p /\
         r_PaneID r = p_PaneID p /\ Generation e' (p_PaneID p) = Some (PaneGeneration r) /\
         AgentIncarnation r = incarnation sha256 (OccupantFingerprint p) /\
         RunID r = runID (p_PaneID p) (PaneGeneration r) (AgentIncarnation r) /\ Status r ∈ lifecycle) /\
      (forall p, p ∈ Panes (Topology snap) -> occupied (Topology snap) p ->
         exists r, r ∈ runs /\ r_PaneID r = p_PaneID p)
  end.
Proof.
  intros Hnew Hos e' runs. unfold runs, Runs.
  pose proof (engineInv_run hash wireSize e os Hos (engineInv_new hash cfg e Hnew)) as Hinv. fold e' in Hinv.
  destruct (current e') as [snap|] eqn:E; simpl; [|split_and!; constructor].
  pose proof Hinv as (_ & _ & Hc). rewrite E in Hc. destruct Hc as (_ & Hn & _).
  split; [by apply projectRuns_nodup|]. split; [apply sortBy_single_sorted|]. split.
  - intros r Hr. apply projectRuns_elem in Hr as (p & Hp & Ho & H1 & _ & H3 & H4 & H5 & H6).
    destruct (inv_pane e' snap p Hinv E Hp) as [_ Hocc]. rewrite Hocc in H4. simpl in H4. eauto 10.
  - intros p Hp Ho. destruct (inv_pane e' snap p Hinv E Hp) as [Hg _].
    destruct (projectRuns_complete sha256 (Topology snap) (generations e') (occupants e') p Hp Ho Hg)
      as (r & Hr & H & _). eauto.
Qed.
End Live.

Lemma Runs_exact_witness :
  let e' := engineRun id sampleSize sampleEngine [OpPoll 5 (okOutcome [claudePane])] in
  NoDup (r_PaneID <$> rs_Runs (Runs id e')).
Proof.
  apply (Runs_exact id sampleSize id sampleConfig sampleEngine [OpPoll 5 (okOutcome [claudePane])]).
  - reflexivity.
  - repeat constructor; simpl; set_solver.
Defined.

(** ** The inbox *)

(** A display field: at most 512 bytes of printable runes. *)
Definition cleanText (s : string) : Prop :=
  (length (bytesOf s) <= maxRunTextFieldLen)%nat /\ Forall printableRune (runes (bytesOf s)).

Lemma bytesOf_string l : bytesOf (String.string_of_list_byte l) = l.
Proof. apply String.list_byte_of_string_of_list_byte. Qed.

Lemma cleanField_clean s : cleanText (cleanField s).
Proof.
  unfold cleanText, cleanField. rewrite bytesOf_string.
  destruct (sanitizeRunField_bounded (bytesOf s)) as (? & ? & _). done.
Qed.

(** Every string of a run that is only displayed. *)
Definition displayFields (r : RunSummary) : list string :=
  [s_WorkspaceLabel r; s_TabLabel r; s_AgentName r; s_DisplayAgent r; s_Title r; s_CWD r;
   s_ForegroundCWD r] ++
  match s_Worktree r with
  | Some w => [rw_RepoName w; rw_RepoRoot w; rw_CheckoutPath w]
  | None => []
  end.

(** What sanitising must leave alone: what a client addresses the run by, and
    its status. *)
Definition identityOf (r : RunSummary) : string * string * Z * string * string * string * string * string * string :=
  (s_RunID r, s_PaneID r, s_PaneGeneration r, s_AgentIncarnation r, s_WorkspaceID r, s_TabID r,
   s_TerminalID r, s_AgentKind r, s_Status r).

Lemma sanitizeRun_clean r : Forall cleanText (displayFields (sanitizeRun r)).
Proof.
  unfold displayFields, sanitizeRun. simpl.
  destruct (s_Worktree r); simpl; repeat apply Forall_cons_2;
    auto using cleanField_clean, Forall_nil_2.
Qed.

(** The run inbox is bounded and inert. With the server's defaults applied it
    never panics: it lists the first [MaxRuns] projected runs, says whether any
    were left out, keeps each run's identity and status, and every display string
    on the wire is at most 512 bytes and free of controls. *)
Theorem handleRuns_bounded {Digest} (cfg : RunConfig) (set : RunSet Digest) :
  let cfg := applyDefaults cfg in
  exists resp, handleRuns cfg (adapterRuns set) = Some resp /\
    rr_Hash resp = SnapshotHash set /\
    Z.of_nat (length (rr_Runs resp)) <= MaxRuns cfg /\
    rr_Truncated resp = bool_decide (MaxRuns cfg < Z.of_nat (length (rs_Runs set))) /\
    identityOf <$> rr_Runs resp =
      identityOf <$> (toSummary <$> take (Z.to_nat (MaxRuns cfg)) (rs_Runs set)) /\
    Forall (fun r => Forall cleanText (displayFields r)) (rr_Runs resp).
Proof.
  intros c. assert (Hm : 0 < MaxRuns c).
  { unfold c, applyDefaults, orDefault. simpl. case_match; lia. }
  assert (Ea : pj_Runs (adapterRuns set) = toSummary <$> rs_Runs set /\
               pj_SnapshotHash (adapterRuns set) = SnapshotHash set).
  { unfold adapterRuns. by destruct (rs_Runs set). }
  destruct Ea as [E1 E2]. unfold handleRuns, boundedRuns. rewrite E1, E2, length_fmap.
  destruct (MaxRuns c <? Z.of_nat (length (rs_Runs set))) eqn:El;
    [replace (MaxRuns c <? 0) with false by lia|]; eexists; split; [reflexivity| |reflexivity|];
    cbn [rr_Hash rr_Runs rr_Truncated]; (split; [done|]); rewrite length_fmap.
  - rewrite length_take. split; [lia|]. rewrite bool_decide_true by lia. split; [done|].
    rewrite <- fmap_take, <- !list_fmap_compose. split; [done|].
    apply Forall_fmap, Forall_true. intros r. apply sanitizeRun_clean.
  - rewrite length_fmap. split; [lia|]. rewrite bool_decide_false by lia. split; [done|].
    rewrite take_ge by lia. rewrite <- !list_fmap_compose. split; [done|].
    apply Forall_fmap, Forall_true. intros r. apply sanitizeRun_clean.
Qed.

(** ** The run endpoint *)

Lemma applyDefaults_pos cfg :
  0 < MaxRunOutputLines (applyDefaults cfg) /\ 0 < MaxRunOutputBytes (applyDefaults cfg) /\
  0 < MaxPaneReadLines (applyDefaults cfg).
Proof. unfold applyDefaults, orDefault. simpl. split_and!; case_match; lia. Qed.

Lemma queryLines_range q d m n : 0 < d -> 0 < m -> queryLines q d m = Some n -> 0 < n <= m.
Proof.
  intros Hd Hm H. unfold queryLines in H. apply bind_Some in H as (k & Hk & [= <-]).
  assert (0 < k).
  { case_bool_decide; [by simplify_eq|]. apply bind_Some in Hk as (j & _ & Hj).
    destruct (j <=? 0) eqn:E; simplify_eq. lia. }
  destruct (m <? k) eqn:E; lia.
Qed.

Lemma readSource_parses s : paneReadSources s = true ->
  exists src, ParseReadSource s = Some src /\ src ≠ SourceDetection.
Proof.
  unfold paneReadSources. rewrite !orb_true_iff, !bool_decide_eq_true.
  intros [[->| ->]| ->]; eexists; (split; [reflexivity|done]).
Qed.

Lemma findRun_spec paneID rs run :
  findRun paneID (toSummary <$> rs) = Some run ->
  exists r, r ∈ rs /\ r_PaneID r = paneID /\ run = sanitizeRun (toSummary r).
Proof.
  unfold findRun. intros H. apply fmap_Some in H as (s & Hf & ->).
  apply List.find_some in Hf as [Hin Hs]. apply list_elem_of_In in Hin. apply bool_decide_eq_true in Hs.
  apply list_elem_of_fmap in Hin as (r & -> & Hr). eauto.
Qed.

Section Endpoint.
Context (parseClaude parseOpenCode : list (list byte) -> Limits -> Result).
Context (sha256 : list byte -> list byte).
Context {Digest Err : Type}.

(** What a read that passed the guards answers, for the outcome of its one
    Herdr call. *)
Definition readAnswer (cfg : RunConfig) (who : caller) (paneID : string) (run : RunSummary)
    (ctx : option ctxError) (outcome : readOutcome)
    (rep : reply runResponse) (audits : list runAudit) : Prop :=
  match outcome with
  | inr err =>
      rep = Reject (classifyReadErr ctx err).2 (classifyReadErr ctx err).1 "run output unavailable" /\
      audits = [mkRunAudit (c_subject who) (c_session who) paneID ("error:" +:+ (classifyReadErr ctx err).1) 0]
  | inl content =>
      exists o parts,
        rep = Reply (mkRunResponse runContractVersion (capabilitiesOf cfg) run (PartObserved o :: parts)) /\
        audits = [mkRunAudit (c_subject who) (c_session who) paneID "ok" (op_Bytes o)] /\
        op_Text o = (boundObservedText content (MaxRunOutputBytes cfg)).1 /\
        op_Bytes o = Z.of_nat (length (op_Text o)) /\ op_Bytes o <= MaxRunOutputBytes cfg /\
        Forall blockSafe (runes (op_Text o)) /\
        (ip_Enabled (cfg_Interpretation cfg) = false -> parts = [])
  end.

Lemma readRun_answer cfg who paneID source src lines run call ctx :
  0 < MaxRunOutputBytes cfg -> 0 < lines -> ParseReadSource source = Some src ->
  let '(rep, reqs, audits) := readRun parseClaude parseOpenCode cfg who paneID source lines run call ctx in
  let req := mkPaneRead paneID src (Some lines) in
  reqs = [req] /\ readAnswer cfg who paneID run ctx (call req) rep audits.
Proof.
  intros Hb Hl Hs. unfold readRun, ReadPane, linesPtr. rewrite Hs.
  replace (lines <=? 0) with false by lia.
  destruct (call _) as [content|err]; simpl.
  - split; [done|]. eexists _, _. split; [reflexivity|]. split; [reflexivity|]. unfold observe.
    pose proof (boundObservedText_tail content (MaxRunOutputBytes cfg) Hb) as H.
    destruct (boundObservedText content _) as [text tr]. simpl. destruct H as (H1 & _ & H2 & _).
    split_and!; try done. intros Hoff. unfold interpretedParts, parses. by rewrite Hoff.
  - by destruct (classifyReadErr ctx err) as [code status].
Qed.

(** A run is read only at the generation the client asserts. The endpoint reads
    the engine twice; unless the asserted generation is a positive number that is
    the pane's generation at the first read, and the second read shows an agent in
    that pane at that very generation, it rejects without calling Herdr and without
    an audit record. Otherwise it makes exactly one call, for that pane, for an
    allowed source (never the classifier's buffer) and a positive number of lines
    within the configured bound; a failure is reported by a code and never by the
    upstream message; a success carries that run, the bounded control-free text
    first, and no interpreted part when interpretation is off; the audit record
    holds the byte count and never the text. *)
Theorem handleRun_guarded (cfg : RunConfig) (who : caller) (paneID : string) (q : query)
    (e1 e2 : Engine Digest Err) (call : paneReadParams -> readOutcome) (ctx : option ctxError) :
  let cfg := applyDefaults cfg in
  let '(rep, reqs, audits) :=
    handleRun parseClaude parseOpenCode cfg who paneID q (Generation e1 paneID)
      (pj_Runs (adapterRuns (Runs sha256 e2))) call ctx in
  (reqs = [] /\ audits = [] /\ exists status code message, rep = Reject status code message) \/
  exists n r src lines,
    ParseUint (q "expected_generation") = Some n /\ n ≠ 0 /\ Generation e1 paneID = Some n /\
    r ∈ rs_Runs (Runs sha256 e2) /\ r_PaneID r = paneID /\ PaneGeneration r = n /\
    src ≠ SourceDetection /\ 0 < lines <= MaxRunOutputLines cfg /\
    let req := mkPaneRead paneID src (Some lines) in
    reqs = [req] /\ readAnswer cfg who paneID (sanitizeRun (toSummary r)) ctx (call req) rep audits.
Proof.
  intros c. destruct (applyDefaults_pos cfg) as (Hl & Hb & _). fold c in Hl, Hb.
  assert (E : pj_Runs (adapterRuns (Runs sha256 e2)) = toSummary <$> rs_Runs (Runs sha256 e2)).
  { unfold adapterRuns. by destruct (rs_Runs _). }
  rewrite E. unfold handleRun, stale.
  case_bool_decide; [left; eauto 10|].
  destruct (ParseUint _) as [n|] eqn:En; [|left; eauto 10].
  destruct (n =? 0) eqn:E0; [left; eauto 10|].
  destruct (paneReadSources _) eqn:Es; [|left; eauto 10]. cbn [negb].
  destruct (queryLines _ _ _) as [lines|] eqn:Eq; [|left; eauto 10].
  destruct (Generation e1 paneID) as [gen|] eqn:Eg; [|left; eauto 10].
  destruct (gen =? n) eqn:Egn; [|left; eauto 10]. cbn [negb].
  destruct (findRun _ _) as [run|] eqn:Ef; [|left; eauto 10].
  destruct (s_PaneGeneration run =? n) eqn:Er; [|left; eauto 10]. cbn [negb].
  apply Z.eqb_eq in Egn as ->. apply Z.eqb_eq in Er.
  apply findRun_spec in Ef as (r & Hr & Hp & ->).
  destruct (readSource_parses _ Es) as (src & Hsrc & Hd).
  pose proof (queryLines_range q defaultRunOutputLines _ _ ltac:(reflexivity) Hl Eq) as Hlines.
  pose proof (readRun_answer c who paneID _ src lines (sanitizeRun (toSummary r)) call ctx Hb ltac:(lia) Hsrc) as Ha.
  destruct (readRun _ _ _ _ _ _ _ _ _ _) as [[rep reqs] audits].
  destruct Ha as [-> Ha]. right. exists n, r, src, lines. cbv zeta. split_and!; try done; lia.
Qed.
End Endpoint.
