(* ===== verification/Redact.v ===== *)
(** * Redact: removing secrets from text (internal/security/redact.go)

    The four patterns of [RedactSecrets] as functions that say how long a match at
    the head of the text is, and the left-to-right replacement of all matches. The
    patterns are deterministic: in each, what follows a repeated class is not in
    the class, so the greedy match is the only one.

    The text is a list of bytes. Every class of the patterns is ASCII or excludes
    only ASCII bytes, so matching byte by byte agrees with matching rune by rune;
    under case folding the letters k and s also match U+212A and U+017F, whose
    encodings are written out. *)

From S2P Require Import Prelude GoStr GoText Sanitize.

(** ** Classes *)

Definition isDigitB (b : byte) : bool := between 48 57 b.
Definition isAlphaB (b : byte) : bool := between 65 90 b || between 97 122 b.
(** [[A-Za-z0-9_]], the ASCII word bytes of [\b]. *)
Definition isWordB (b : byte) : bool := isAlphaB b || isDigitB b || (bz b =? 95).
(** [[A-Za-z0-9_\-]] *)
Definition isURL64 (b : byte) : bool := isWordB b || (bz b =? 45).
(** [[A-Za-z0-9_\-+/=]] *)
Definition isToken (b : byte) : bool := isURL64 b || (bz b =? 43) || (bz b =? 47) || (bz b =? 61).

Fixpoint span (f : byte -> bool) (s : list byte) : nat :=
  match s with b :: s' => if f b then S (span f s') else O | [] => O end.

(** [\b] between the byte before the text and the text. *)
Definition boundary (prev : option byte) (s : list byte) : bool :=
  negb (Bool.eqb (match prev with Some b => isWordB b | None => false end)
                 (match s with b :: _ => isWordB b | [] => false end)).

(** One letter under [(?i)]: the bytes it takes, if it matches. *)
Definition foldLetter (c : byte) (s : list byte) : option nat :=
  match s with
  | b :: s' =>
      if (bz b =? bz c) || (between 97 122 c && (bz b =? bz c - 32)) then Some 1%nat
      else match s' with
           | b' :: s'' =>
               if (bz c =? 115) && (bz b =? 197) && (bz b' =? 191) then Some 2%nat
               else match s'' with
                    | b'' :: _ => if (bz c =? 107) && (bz b =? 226) && (bz b' =? 132) && (bz b'' =? 170) then Some 3%nat else None
                    | [] => None
                    end
           | [] => None
           end
  | [] => None
  end.

(** A lower-case word under [(?i)]. *)
Fixpoint foldWord (w s : list byte) : option nat :=
  match w with
  | [] => Some O
  | c :: w' => n ← foldLetter c s; k ← foldWord w' (drop n s); Some (n + k)%nat
  end.

(** ** The patterns *)

Definition marker : list byte := bytesOf "eyJ".

(** A nonempty run of [f] at the head. *)
Definition run (f : byte -> bool) (s : list byte) : option nat :=
  match span f s with O => None | n => Some n end.

Definition dotAt (s : list byte) : option nat :=
  match s with b :: _ => if bz b =? 46 then Some 1%nat else None | [] => None end.

(** [jwtPattern] *)
Definition jwtAt (prev : option byte) (s : list byte) : option nat :=
  if hasPrefix s marker then
    let s1 := drop 3 s in
    a ← run isURL64 s1; let s2 := drop a s1 in
    d1 ← dotAt s2; let s3 := drop d1 s2 in
    b ← run isURL64 s3; let s4 := drop b s3 in
    d2 ← dotAt s4; let s5 := drop d2 s4 in
    c ← run isURL64 s5;
    Some (3 + a + d1 + b + d2 + c)%nat
  else None.

(** [tunnelTokenPattern] *)
Definition tokenAt (prev : option byte) (s : list byte) : option nat :=
  if hasPrefix s marker then
    let n := span isToken (drop 3 s) in if (n <? 20)%nat then None else Some (3 + n)%nat
  else None.

(** [pairPattern] *)
Definition pairAt (prev : option byte) (s : list byte) : option nat :=
  if boundary prev s then
    w ← foldWord (bytesOf "pair=") s;
    n ← run isURL64 (drop w s);
    Some (w + n)%nat
  else None.

Definition headerNames : list (list byte) :=
  map bytesOf ["cf-access-jwt-assertion"; "cf-access-client-secret"; "cf-access-client-id"; "cf_authorization";
    "authorization"; "cookie"; "set-cookie"; "x-csrf-token"].

Definition isBlank (b : byte) : bool := (bz b =? 32) || (bz b =? 9).
Definition isSep (b : byte) : bool := (bz b =? 58) || (bz b =? 61).
Definition notEOL (b : byte) : bool := negb ((bz b =? 13) || (bz b =? 10)).

(** A name, blanks and a separator: the length up to and with the separator. *)
Definition nameSep (w s : list byte) : option nat :=
  n ← foldWord w s;
  let k := span isBlank (drop n s) in
  match drop (n + k) s with
  | b :: _ => if isSep b then Some (n + k + 1)%nat else None
  | [] => None
  end.

(** The alternatives in their order. *)
Fixpoint firstName (ws : list (list byte)) (s : list byte) : option nat :=
  match ws with
  | [] => None
  | w :: ws' => match nameSep w s with Some n => Some n | None => firstName ws' s end
  end.

(** [headerPattern] *)
Definition headerAt (prev : option byte) (s : list byte) : option nat :=
  if boundary prev s then
    n ← firstName headerNames s; Some (n + span notEOL (drop n s))%nat
  else None.

(** ** Replacement *)

(** [ReplaceAllStringFunc] for a pattern whose matches are not empty. [skip]
    counts the bytes of the match just replaced. *)
Fixpoint replaceAll (at_ : option byte -> list byte -> option nat) (repl : list byte -> list byte)
    (skip : nat) (prev : option byte) (s : list byte) : list byte :=
  match s with
  | [] => []
  | b :: s' =>
      match skip with
      | S n => replaceAll at_ repl n (Some b) s'
      | O =>
          match at_ prev s with
          | Some (S n) => repl (take (S n) s) ++ replaceAll at_ repl n (Some b) s'
          | _ => b :: replaceAll at_ repl O (Some b) s'
          end
      end
  end.

Definition redacted : list byte := bytesOf "[REDACTED]".

(** [m[:i+1] + " " + redacted] for the first separator [i]. *)
Definition redactHeader (m : list byte) : list byte :=
  let i := span (fun b => negb (isSep b)) m in
  if (i =? length m)%nat then redacted else take (i + 1) m ++ bytesOf " " ++ redacted.

Definition RedactSecrets (s : list byte) : list byte :=
  let s := replaceAll headerAt redactHeader O None s in
  let s := replaceAll jwtAt (fun _ => redacted) O None s in
  let s := replaceAll tokenAt (fun _ => redacted) O None s in
  replaceAll pairAt (fun _ => bytesOf "pair=" ++ redacted) O None s.

Definition SanitizeForLog (s : list byte) : list byte := SanitizeLogLine (RedactSecrets s).

Definition show (s : list byte) : string := String.string_of_list_byte s.

Example redact_values :
  show <$> (RedactSecrets <$> [bytesOf "Authorization: Bearer x y"; bytesOf "a eyJab.cd.ef- z";
    bytesOf "t=eyJaaaaaaaaaaaaaaaaaaaaaaaa+/= end"; bytesOf "https://h/#PAIR=abc_-d&x"; bytesOf "mycookie: 1; set-cookie =v"]) =
  ["Authorization: [REDACTED]"; "a [REDACTED] z"; "t=[REDACTED] end"; "https://h/#pair=[REDACTED]&x";
   "mycookie: 1; set-cookie = [REDACTED]"].
Proof. by vm_compute. Qed.

(** Redaction runs before control bytes are dropped, so a control byte inside a
    token hides it from the patterns and is then removed. *)
Example SanitizeForLog_reassembles :
  show (SanitizeForLog (bytesOf "eyJhbGci" ++ [x00] ++ bytesOf "OiJ9.eyJzdWIiOiJ4In0" ++ [x1b] ++ bytesOf ".c2ln")) =
  show (bytesOf "eyJhbGciOiJ9.eyJzdWIiOiJ4In0.c2ln").
Proof. by vm_compute. Qed.
