(* ===== verification/RedactFacts.v ===== *)
(** * RedactFacts: what survives redaction

    A pattern is described by its words: the shortest texts it matches. A pass
    that replaces the matches of one pattern cannot create a word of another,
    because every replacement puts a bracket where the match was and no word has a
    bracket. *)

From S2P Require Import Prelude GoStr GoText Sanitize Redact.

Definition bracket : byte := x5b.

(** ** Places of a text *)

(** [P] holds of every place of the text: the byte before it and what follows. *)
Fixpoint everywhere (P : option byte -> list byte -> Prop) (prev : option byte) (s : list byte) : Prop :=
  match s with [] => True | b :: s' => P prev s /\ everywhere P (Some b) s' end.

Definition lastOr (prev : option byte) (l : list byte) : option byte :=
  match last l with Some b => Some b | None => prev end.

Lemma lastOr_cons prev b l : lastOr prev (b :: l) = lastOr (Some b) l.
Proof. unfold lastOr. rewrite last_cons. by destruct (last l). Qed.

Lemma everywhere_at P s : forall prev p t, everywhere P prev s -> s = p ++ t -> t ≠ [] -> P (lastOr prev p) t.
Proof.
  induction s as [|b s IH]; intros prev p t H E Ht; [by destruct p, t|].
  destruct p as [|c p]; simpl in E.
  - subst t. apply H.
  - injection E as <- ->. rewrite lastOr_cons. apply (IH (Some b) p t); [apply H|done|done].
Qed.

Lemma everywhere_impl (P Q : option byte -> list byte -> Prop) s : (forall q t, P q t -> Q q t) ->
  forall prev, everywhere P prev s -> everywhere Q prev s.
Proof. intros Himp. induction s as [|b s IH]; intros prev H; [done|]. split; [apply Himp, H|apply IH, H]. Qed.

Lemma everywhere_app P p : forall prev s, everywhere P prev (p ++ s) -> everywhere P (lastOr prev p) s.
Proof.
  induction p as [|b p IH]; intros prev s H; [done|]. rewrite lastOr_cons. apply IH, H.
Qed.

(** A word that avoids [x] and starts a text ends before the first [x]. *)
Lemma prefix_barrier (M u t : list byte) x : M `prefix_of` u ++ x :: t -> x ∉ M -> M `prefix_of` u.
Proof.
  intros [r E] Hx. revert u E. induction M as [|b M IH]; intros u E; [apply prefix_nil|].
  destruct u as [|c u]; simpl in E; injection E as <- E.
  - destruct Hx. apply list_elem_of_here.
  - apply prefix_cons. apply IH; [|done]. intros ?. apply Hx. by right.
Qed.

(** ** Passes *)

Section Pass.
Context (at_ : option byte -> list byte -> option nat) (keep : list byte -> list byte).
Context (at_size : forall prev s n, at_ prev s = Some n -> (0 < n <= length s)%nat).

Definition out : nat -> option byte -> list byte -> list byte := replaceAll at_ (fun m => keep m ++ redacted).

Lemma out_skip n : forall prev s, out n prev s = out 0 (lastOr prev (take n s)) (drop n s).
Proof.
  induction n as [|n IH]; intros prev s; [done|]. destruct s as [|b s]; [done|].
  simpl take. rewrite lastOr_cons. change (out (S n) prev (b :: s)) with (out n (Some b) s). apply IH.
Qed.

Lemma out_match prev s n : at_ prev s = Some n ->
  out 0 prev s = keep (take n s) ++ redacted ++ out 0 (lastOr prev (take n s)) (drop n s).
Proof.
  intros H. pose proof (at_size _ _ _ H) as Hn. destruct s as [|b s]; simpl in Hn; [lia|].
  destruct n as [|n]; [lia|]. simpl take. rewrite lastOr_cons. simpl drop. rewrite <- out_skip, app_assoc.
  unfold out. cbn [replaceAll]. by rewrite H.
Qed.

Lemma out_copy prev b s : at_ prev (b :: s) = None -> out 0 prev (b :: s) = b :: out 0 (Some b) s.
Proof. intros H. unfold out. cbn [replaceAll]. by rewrite H. Qed.

(** What a word at an output place that is copied was in the input: the same
    word, or a word cut by the kept part of a replacement. *)
Lemma gap_copy s : forall prev M, bracket ∉ M -> M `prefix_of` out 0 prev s ->
  (exists s2, s = M ++ s2 /\ out 0 prev s = M ++ out 0 (lastOr prev M) s2) \/
  (exists u k s1 n, M = u ++ k /\ k ≠ [] /\ s = u ++ s1 /\ at_ (lastOr prev u) s1 = Some n /\ k `prefix_of` keep (take n s1)).
Proof.
  induction s as [|b s IH]; intros prev M Hb Hp.
  { apply prefix_nil_inv in Hp as ->. left. by exists []. }
  destruct M as [|c M]; [left; by exists (b :: s)|].
  destruct (at_ prev (b :: s)) as [n|] eqn:Ea.
  - right. exists [], (c :: M), (b :: s), n. split_and!; try done.
    rewrite (out_match _ _ _ Ea) in Hp. by apply prefix_barrier in Hp.
  - rewrite (out_copy _ _ _ Ea) in *. assert (c = b) as -> by (destruct Hp as [r E]; by injection E as ->).
    apply prefix_cons_inv_2 in Hp. destruct (IH (Some b) M ltac:(set_solver) Hp) as [(s2 & -> & E)|(u & k & s1 & n & -> & ? & -> & ? & ?)].
    + left. exists s2. by rewrite lastOr_cons, E.
    + right. exists (b :: u), k, s1, n. by rewrite lastOr_cons.
Qed.

(** ** Preservation of a property of words *)

(** After a word of [L] comes an [R], at places that are word boundaries when
    [c] asks for it. *)
Definition after (c : bool) (L R : list byte -> Prop) (q : option byte) (t : list byte) : Prop :=
  (c = true -> boundary q t = true) -> forall M rest, L M -> t = M ++ rest -> R rest.

Lemma after_boundary c L R q q' t : after c L R q t -> (c = true -> boundary q' t = true -> boundary q t = true) ->
  after c L R q' t.
Proof. unfold after. naive_solver. Qed.

Context (c : bool) (L Rin Rout : list byte -> Prop).
Context (at_end : forall prev s n b r, at_ prev s = Some n -> drop n s = b :: r -> isWordB b = false).
Context (L_word : forall M, L M -> M ≠ [] /\ bracket ∉ M).
Context (keep_cross : forall prev u k s1 n, L (u ++ k) -> k ≠ [] -> u ≠ [] -> k `prefix_of` keep (take n s1) ->
  at_ (lastOr prev u) s1 = Some n -> after c L Rin prev (u ++ s1) -> (c = true -> boundary prev (u ++ s1) = true) -> False).
Context (R_out : forall prev s, Rin s -> Rout (out 0 prev s)).
Context (in_repl : forall prev s n, at_ prev s = Some n -> forall q r', r' ≠ [] ->
  r' `suffix_of` keep (take n s) ++ redacted -> after c L Rout q (r' ++ out 0 (lastOr prev (take n s)) (drop n s))).

Definition unmatched (q : option byte) (t : list byte) : Prop := at_ q t = None -> after c L Rin q t.

(** A place that is copied. *)
Lemma gap_after prev b s : at_ prev (b :: s) = None -> unmatched prev (b :: s) ->
  after c L Rout prev (b :: out 0 (Some b) s).
Proof.
  intros Ea Hu Hb M rest HM E. specialize (Hu Ea). destruct (L_word M HM) as [Hne Hbr].
  rewrite <- (out_copy _ _ _ Ea) in E.
  assert (Hp : M `prefix_of` out 0 prev (b :: s)) by (exists rest; exact E).
  destruct (gap_copy (b :: s) prev M Hbr Hp) as [(s2 & Es & Eo)|(u & k & s1 & n & -> & Hk & Es & Ha & Hpk)].
  - rewrite Eo in E. apply app_inv_head in E as <-. apply R_out. apply (Hu Hb M s2 HM Es).
  - exfalso. destruct u as [|x u]; [simpl in Es; subst s1; unfold lastOr in Ha; simpl in Ha; congruence|].
    rewrite Es in Hu. eapply (keep_cross prev (x :: u) k s1 n); try done.
    intros Hc. specialize (Hb Hc). injection Es as <- _. exact Hb.
Qed.

Lemma after_repl w : forall r q, (forall q r', r' ≠ [] -> r' `suffix_of` r -> after c L Rout q (r' ++ w)) ->
  everywhere (after c L Rout) (lastOr q r) w -> everywhere (after c L Rout) q (r ++ w).
Proof.
  induction r as [|b r IH]; intros q H Hw; [done|]. split.
  - by apply (H q (b :: r)).
  - apply IH; [|by rewrite lastOr_cons in Hw]. intros q' r' Hr Hs. apply H; [done|]. by apply suffix_cons_r.
Qed.

(** The text after a match starts with no word byte, so no boundary follows the
    closing bracket of the replacement. *)
Definition fits (q prev : option byte) (s : list byte) : Prop :=
  q = prev \/ (q = Some x5d /\ match s with b :: _ => isWordB b = false | [] => True end).

Lemma fits_boundary q prev b s s' : fits q prev (b :: s) -> boundary q (b :: s') = true -> boundary prev (b :: s) = true.
Proof.
  intros [->|[-> Hb]]; [done|]. unfold boundary. rewrite Hb. by destruct prev.
Qed.

Lemma pass_after s : forall q prev, fits q prev s -> everywhere unmatched prev s -> everywhere (after c L Rout) q (out 0 prev s).
Proof.
  induction s as [s IH] using (induction_ltof1 _ (@length byte)). unfold ltof in IH. intros q prev Hq Hs.
  destruct s as [|b s]; [done|]. destruct (at_ prev (b :: s)) as [n|] eqn:Ea.
  - rewrite (out_match _ _ _ Ea), app_assoc. pose proof (at_size _ _ _ Ea) as Hn.
    apply after_repl; [by apply in_repl|].
    assert (El : lastOr q (keep (take n (b :: s)) ++ redacted) = Some x5d).
    { unfold lastOr. rewrite last_app. reflexivity. }
    rewrite El. apply IH; [rewrite length_drop; simpl in *; lia| |].
    + right. split; [done|]. destruct (drop n (b :: s)) eqn:Ed; [done|]. by eapply at_end.
    + apply everywhere_app. by rewrite take_drop.
  - rewrite (out_copy _ _ _ Ea). destruct Hs as [Hu Hs]. split.
    + eapply after_boundary; [by apply gap_after|]. intros _. apply fits_boundary, Hq.
    + apply IH; [simpl; lia|by left|done].
Qed.
End Pass.

(** ** Words of the patterns *)

Lemma span_all f l s : Forall (fun b => f b = true) l -> span f (l ++ s) = (length l + span f s)%nat.
Proof. induction 1 as [|b l Hb _ IH]; [done|]. simpl. rewrite Hb. by rewrite IH. Qed.

Lemma span_stop f l b s : Forall (fun b => f b = true) l -> f b = false -> span f (l ++ b :: s) = length l.
Proof. intros Hl Hb. rewrite span_all by done. simpl. rewrite Hb. lia. Qed.

Lemma span_le f s : (span f s <= length s)%nat.
Proof. induction s as [|b s IH]; simpl; [lia|]. destruct (f b); lia. Qed.

Lemma span_next f s : match drop (span f s) s with b :: _ => f b = false | [] => True end.
Proof. induction s as [|b s IH]; [done|]. simpl. destruct (f b) eqn:E; [done|]. simpl. done. Qed.

Lemma span_taken f s : Forall (fun b => f b = true) (take (span f s) s).
Proof. induction s as [|b s IH]; [constructor|]. simpl. destruct (f b) eqn:E; simpl; [by constructor|constructor]. Qed.

Lemma run_some f s n : run f s = Some n -> n = span f s /\ (0 < n)%nat.
Proof. unfold run. destruct (span f s); [done|]. intros [= <-]. lia. Qed.

Lemma run_head f b s : f b = true -> is_Some (run f (b :: s)).
Proof. intros H. unfold run. simpl. rewrite H. eauto. Qed.

Lemma dotAt_some s n : dotAt s = Some n -> n = 1%nat /\ (0 < length s)%nat.
Proof. unfold dotAt. destruct s as [|b s]; [done|]. case_match; [|done]. intros [= <-]. simpl. lia. Qed.

Definition jwtWord (M : list byte) : Prop :=
  exists a b c, M = marker ++ a ++ x2e :: b ++ [x2e; c] /\ a ≠ [] /\ b ≠ [] /\
    Forall (fun x => isURL64 x = true) (a ++ b) /\ isURL64 c = true.

Definition tokenWord (M : list byte) : Prop :=
  exists a, M = marker ++ a /\ length a = 20%nat /\ Forall (fun x => isToken x = true) a.

Definition pairWord (M : list byte) : Prop :=
  exists w c, M = w ++ [c] /\ foldWord (bytesOf "pair=") w = Some (length w) /\ isURL64 c = true.

Definition headerWord (M : list byte) : Prop :=
  exists w, w ∈ headerNames /\ nameSep w M = Some (length M).

Lemma jwt_complete q M r : jwtWord M -> is_Some (jwtAt q (M ++ r)).
Proof.
  intros (a & b & c & -> & Ha & Hb & Hab & Hc). apply Forall_app in Hab as [Fa Fb]. unfold jwtAt.
  replace ((marker ++ a ++ x2e :: b ++ [x2e; c]) ++ r) with (marker ++ a ++ x2e :: (b ++ x2e :: (c :: r)))
    by (by rewrite <- !app_assoc; simpl; rewrite <- !app_assoc).
  assert (Hm : hasPrefix (marker ++ a ++ x2e :: (b ++ x2e :: (c :: r))) marker = true) by (apply hasPrefix_spec; by eexists).
  rewrite Hm. change (drop 3 (marker ++ ?x)) with x. cbv zeta.
  assert (Hrun : forall l b0 s, l ≠ [] -> Forall (fun x => isURL64 x = true) l -> isURL64 b0 = false ->
    run isURL64 (l ++ b0 :: s) = Some (length l)).
  { intros l b0 s Hl Fl Hb0. unfold run. rewrite span_stop by done. by destruct l. }
  rewrite (Hrun a) by done. cbn [mbind option_bind]. rewrite drop_app_length. change (dotAt (x2e :: ?x)) with (Some 1%nat).
  cbn [mbind option_bind]. change (drop 1 (x2e :: ?x)) with x. rewrite (Hrun b) by done. cbn [mbind option_bind].
  rewrite drop_app_length. change (dotAt (x2e :: ?x)) with (Some 1%nat). cbn [mbind option_bind].
  change (drop 1 (x2e :: ?x)) with x. destruct (run_head isURL64 c r Hc) as [n ->]. eauto.
Qed.

Lemma token_complete q M r : tokenWord M -> is_Some (tokenAt q (M ++ r)).
Proof.
  intros (a & -> & Ha & Fa). unfold tokenAt. rewrite <- app_assoc.
  assert (Hm : hasPrefix (marker ++ a ++ r) marker = true) by (apply hasPrefix_spec; by eexists).
  rewrite Hm. change (drop 3 (marker ++ ?x)) with x. rewrite span_all by done.
  replace (_ <? 20)%nat with false; [eauto|]. symmetry. apply Nat.ltb_ge. lia.
Qed.

Lemma foldLetter_app c s r n : foldLetter c s = Some n -> foldLetter c (s ++ r) = Some n /\ (0 < n <= length s)%nat.
Proof.
  unfold foldLetter. destruct s as [|b [|b' [|b'' s]]]; simpl; [done|..];
    repeat case_match; intros; simplify_eq; try done; split; try done; try lia; congruence.
Qed.

Lemma foldWord_app w : forall s r n, foldWord w s = Some n -> foldWord w (s ++ r) = Some n /\ (n <= length s)%nat.
Proof.
  induction w as [|c w IH]; intros s r n H; simpl in *; [simplify_eq; split; [done|lia]|].
  apply bind_Some in H as (k & Hk & H). apply bind_Some in H as (m & Hm & [= <-]).
  destruct (foldLetter_app c s r k Hk) as [-> Hl]. cbn [mbind option_bind].
  destruct (IH _ r _ Hm) as [E Hl2]. rewrite drop_app_le by lia. rewrite E. rewrite length_drop in Hl2.
  split; [done|lia].
Qed.

Lemma pair_complete q M r : boundary q (M ++ r) = true -> pairWord M -> is_Some (pairAt q (M ++ r)).
Proof.
  intros Hb (w & c & -> & Hw & Hc). unfold pairAt. rewrite Hb. rewrite <- app_assoc.
  destruct (foldWord_app _ w ([c] ++ r) _ Hw) as [-> _]. cbn [mbind option_bind]. rewrite drop_app_length.
  destruct (run_head isURL64 c r Hc) as [n Hn]. change ([c] ++ r) with (c :: r). rewrite Hn. eauto.
Qed.

Lemma nameSep_app w s r n : nameSep w s = Some n -> nameSep w (s ++ r) = Some n /\ (0 < n <= length s)%nat.
Proof.
  unfold nameSep. intros H. apply bind_Some in H as (k & Hk & H).
  destruct (foldWord_app _ s r _ Hk) as [-> Hl]. cbn [mbind option_bind].
  destruct (drop (k + span isBlank (drop k s)) s) as [|b t] eqn:Ed; [done|].
  destruct (isSep b) eqn:Eb; [|done]. injection H as <-.
  assert (Hlen : (k + span isBlank (drop k s) < length s)%nat).
  { apply (f_equal length) in Ed. rewrite length_drop in Ed. simpl in Ed. lia. }
  assert (Es : span isBlank (drop k (s ++ r)) = span isBlank (drop k s)).
  { rewrite drop_app_le by lia. rewrite <- (take_drop (span isBlank (drop k s)) (drop k s)) at 1.
    rewrite drop_drop, Ed, <- app_assoc. simpl. rewrite span_stop; [|apply span_taken|].
    - rewrite length_take, length_drop. lia.
    - unfold isSep, isBlank in *. lia. }
  rewrite Es, drop_app_le, Ed by lia. simpl. rewrite Eb. split; [done|lia].
Qed.

Lemma firstName_some ws w s n : w ∈ ws -> nameSep w s = Some n -> is_Some (firstName ws s).
Proof.
  induction ws as [|x ws IH]; intros Hw Hn; [by apply elem_of_nil in Hw|]. simpl. destruct (nameSep x s) eqn:E; [eauto|].
  apply elem_of_cons in Hw as [-> |Hw]; [congruence|]. by apply IH.
Qed.

Lemma firstName_in ws s n : firstName ws s = Some n -> exists w, w ∈ ws /\ nameSep w s = Some n.
Proof.
  induction ws as [|x ws IH]; simpl; [done|]. destruct (nameSep x s) eqn:E.
  - intros [= ->]. exists x. split; [by left|done].
  - intros H. destruct (IH H) as (w & ? & ?). exists w. split; [by right|done].
Qed.

Lemma header_complete q M r : boundary q (M ++ r) = true -> headerWord M -> is_Some (headerAt q (M ++ r)).
Proof.
  intros Hb (w & Hw & Hn). unfold headerAt. rewrite Hb.
  destruct (nameSep_app w M r _ Hn) as [E _]. destruct (firstName_some _ _ _ _ Hw E) as [k ->]. simpl. eauto.
Qed.

(** *** The bytes of words *)

Lemma foldLetter_bytes c s n : foldLetter c s = Some n ->
  Forall (fun b => b = c \/ isAlphaB b = true \/ 128 <= bz b) (take n s).
Proof.
  unfold foldLetter. destruct s as [|b s]; [done|].
  destruct ((bz b =? bz c) || (between 97 122 c && (bz b =? bz c - 32))) eqn:E1.
  { intros [= <-]. simpl. constructor; [|constructor].
    apply orb_true_iff in E1 as [E1|E1]; [left; apply bz_inj; lia|right; left; unfold isAlphaB, between in *; lia]. }
  destruct s as [|b' s]; [done|].
  destruct ((bz c =? 115) && (bz b =? 197) && (bz b' =? 191)) eqn:E2.
  { intros [= <-]. simpl. rewrite ?Forall_cons, Forall_nil. split_and!; try done; right; right; lia. }
  destruct s as [|b'' s]; [done|].
  destruct ((bz c =? 107) && (bz b =? 226) && (bz b' =? 132) && (bz b'' =? 170)) eqn:E3; [|done].
  intros [= <-]. simpl. rewrite ?Forall_cons, Forall_nil. split_and!; try done; right; right; lia.
Qed.

Lemma foldWord_bytes w : forall s n, foldWord w s = Some n ->
  Forall (fun b => b ∈ w \/ isAlphaB b = true \/ 128 <= bz b) (take n s).
Proof.
  induction w as [|c w IH]; intros s n H; simpl in H; [simplify_eq; constructor|].
  apply bind_Some in H as (k & Hk & H). apply bind_Some in H as (m & Hm & [= <-]).
  rewrite <- take_take_drop. apply Forall_app. split.
  - eapply Forall_impl; [by apply foldLetter_bytes|]. intros b [->|?]; [left; by left|by right].
  - eapply Forall_impl; [by apply IH|]. intros b [?|?]; [left; by right|by right].
Qed.

Definition notSep (b : byte) : Prop := isSep b = false /\ b ≠ bracket.

Lemma word_byte_notSep (b : byte) (w : list byte) : Forall notSep w -> b ∈ w \/ isAlphaB b = true \/ 128 <= bz b -> notSep b.
Proof.
  intros Hw [Hb|Hb]; [by eapply Forall_forall|]. unfold notSep, isSep, isAlphaB, between, bracket in *.
  split; [lia|]. intros ->. change (bz x5b) with 91 in Hb. lia.
Qed.

Lemma headerNames_bytes w : w ∈ headerNames -> Forall notSep w.
Proof.
  assert (H : Forall (Forall (fun b => isSep b = false /\ bool_decide (b = bracket) = false)) headerNames).
  { apply Forall_forall. intros x Hx. apply Forall_forall. intros b Hb.
    assert (Hc : forallb (fun x => forallb (fun b => negb (isSep b) && negb (bool_decide (b = bracket))) x) headerNames = true)
      by by vm_compute.
    rewrite forallb_forall in Hc. specialize (Hc x ltac:(by apply list_elem_of_In)). rewrite forallb_forall in Hc.
    specialize (Hc b ltac:(by apply list_elem_of_In)). apply andb_true_iff in Hc as [? ?]. by rewrite !negb_true_iff in *. }
  intros Hw. rewrite Forall_forall in H. eapply Forall_impl; [by apply H|].
  intros b [? Hb]. split; [done|]. by apply bool_decide_eq_false in Hb.
Qed.

(** A name with its separator: no separator and no bracket but the last byte. *)
Lemma nameSep_shape w s n : Forall notSep w -> nameSep w s = Some n ->
  exists l b, take n s = l ++ [b] /\ Forall notSep l /\ isSep b = true /\ b ≠ bracket.
Proof.
  intros Hw H. unfold nameSep in H. apply bind_Some in H as (k & Hk & H).
  destruct (drop (k + span isBlank (drop k s)) s) as [|b t] eqn:Ed; [done|].
  destruct (isSep b) eqn:Eb; [|done]. injection H as <-.
  exists (take (k + span isBlank (drop k s)) s), b. split_and!; try done.
  - rewrite <- take_take_drop, Ed. done.
  - rewrite <- take_take_drop. apply Forall_app. split.
    + eapply Forall_impl; [by apply foldWord_bytes|]. intros x. by apply word_byte_notSep.
    + eapply Forall_impl; [apply span_taken|]. intros x Hx. unfold notSep, isBlank, isSep, bracket in *.
      split; [lia|]. intros ->. change (bz x5b) with 91 in Hx. lia.
  - intros ->. done.
Qed.

Lemma header_shape M : headerWord M -> exists l b, M = l ++ [b] /\ Forall notSep l /\ isSep b = true /\ b ≠ bracket.
Proof.
  intros (w & Hw & Hn). destruct (nameSep_shape w M _ (headerNames_bytes w Hw) Hn) as (l & b & E & H).
  rewrite firstn_all in E. by exists l, b.
Qed.

Lemma Forall_not_bracket (f : byte -> bool) l : f bracket = false -> Forall (fun b => f b = true) l -> bracket ∉ l.
Proof. intros Hf Hl Hin. rewrite Forall_forall in Hl. specialize (Hl _ Hin). congruence. Qed.

Lemma jwt_word M : jwtWord M -> M ≠ [] /\ bracket ∉ M.
Proof.
  intros (a & b & c & -> & _ & _ & Hab & Hc). split; [done|]. apply Forall_app in Hab as [Ha Hb].
  apply (Forall_not_bracket isURL64) in Ha, Hb; try done.
  assert (bracket ≠ c) by (intros <-; done). unfold marker, bracket in *. cbn. set_solver.
Qed.

Lemma token_word M : tokenWord M -> M ≠ [] /\ bracket ∉ M.
Proof.
  intros (a & -> & _ & Ha). split; [done|]. apply (Forall_not_bracket isToken) in Ha; [|done].
  unfold marker, bracket in *. cbn. set_solver.
Qed.

Lemma pair_word M : pairWord M -> M ≠ [] /\ bracket ∉ M.
Proof.
  intros (w & c & -> & Hw & Hc). split; [by destruct w|]. apply foldWord_bytes in Hw. rewrite firstn_all in Hw.
  assert (bracket ≠ c) by (intros <-; done). intros Hin. apply elem_of_app in Hin as [Hin|Hin]; [|set_solver].
  rewrite Forall_forall in Hw. destruct (Hw _ Hin) as [Hb|[Hb|Hb]]; [|done|done].
  revert Hb. cbn. unfold bracket. set_solver.
Qed.

Lemma header_word M : headerWord M -> M ≠ [] /\ bracket ∉ M.
Proof.
  intros H. destruct (header_shape M H) as (l & b & -> & Hl & _ & Hb). split; [by destruct l|].
  intros Hin. apply elem_of_app in Hin as [Hin|Hin]; [|set_solver].
  rewrite Forall_forall in Hl. by destruct (Hl _ Hin).
Qed.

(** *** Where matches and words start *)

Definition sameLetter (c b : byte) : bool := (bz b =? bz c) || (between 97 122 c && (bz b =? bz c - 32)).

Lemma foldLetter_head c b s n : foldLetter c (b :: s) = Some n ->
  (n = 1%nat /\ sameLetter c b = true) \/ (bz c = 115 /\ bz b = 197) \/ (bz c = 107 /\ bz b = 226).
Proof.
  unfold foldLetter. fold (sameLetter c b). destruct (sameLetter c b) eqn:E; [intros [= <-]; by left|].
  intros H. right. repeat case_match; simplify_eq; lia.
Qed.

(** The first two bytes of a header name, loosely. *)
Definition headStart (b1 b2 : byte) : bool :=
  (sameLetter x63 b1 && (sameLetter x66 b2 || sameLetter x6f b2)) || (sameLetter x61 b1 && sameLetter x75 b2) ||
  sameLetter x73 b1 || (bz b1 =? 197) || sameLetter x78 b1.

Lemma header_start M : headerWord M -> exists b1 b2 r, M = b1 :: b2 :: r /\ headStart b1 b2 = true.
Proof.
  intros (w & Hw & Hn). unfold nameSep in Hn. apply bind_Some in Hn as (k & Hk & _).
  assert (Htwo : forall c1 c2 w', foldWord (c1 :: c2 :: w') M = Some k ->
    exists b1 s, M = b1 :: s /\ ((bz c1 = 115 /\ bz b1 = 197) \/ (bz c1 = 107 /\ bz b1 = 226) \/
      sameLetter c1 b1 = true /\ exists b2 r, s = b2 :: r /\
        ((bz c2 = 115 /\ bz b2 = 197) \/ (bz c2 = 107 /\ bz b2 = 226) \/ sameLetter c2 b2 = true))).
  { intros c1 c2 w' H. simpl in H. apply bind_Some in H as (n1 & H1 & H). apply bind_Some in H as (m & H2 & _).
    apply bind_Some in H2 as (n2 & H2 & _).
    destruct M as [|b1 s]; [done|]. exists b1, s. split; [done|].
    destruct (foldLetter_head _ _ _ _ H1) as [[-> Hs]|[?|?]]; [|by left|by right; left].
    right. right. split; [done|]. simpl in H2. destruct s as [|b2 r]; [done|]. exists b2, r. split; [done|].
    destruct (foldLetter_head _ _ _ _ H2) as [[_ ?]|[?|?]]; auto. }
  assert (Hs2 : forall c1 c2 w', foldWord (c1 :: c2 :: w') M = Some k -> bz c1 = 115 ->
    exists b1 b2 r, M = b1 :: b2 :: r /\ headStart b1 b2 = true).
  { intros c1 c2 w' H Hc1. assert (Hl : (2 <= length M)%nat).
    { simpl in H. apply bind_Some in H as (n1 & H1 & H). apply bind_Some in H as (m & H2 & _).
      apply bind_Some in H2 as (n2 & H2 & _). apply (foldLetter_app _ _ []) in H1 as [_ H1].
      apply (foldLetter_app _ _ []) in H2 as [_ H2]. rewrite length_drop in H2. lia. }
    destruct M as [|b1 [|b2 r]]; simpl in Hl; [lia|lia|]. exists b1, b2, r. split; [done|].
    destruct (Htwo _ _ _ H) as (x & s & [= <- <-] & Hx). assert (c1 = x73) as -> by by apply bz_inj.
    unfold headStart. destruct Hx as [[_ Hx]|[[? _]|[-> _]]]; [|done|by rewrite !orb_true_r].
    replace (bz b1 =? 197) with true by lia. by rewrite !orb_true_r. }
  unfold headerNames in Hw. cbn in Hw. rewrite !elem_of_cons in Hw.
  destruct Hw as [-> |[-> |[-> |[-> |[-> |[-> |[-> |[-> |Hw]]]]]]]]; [..|by apply elem_of_nil in Hw];
    try (by eapply Hs2; [exact Hk|]);
    destruct (Htwo _ _ _ Hk) as (b1 & s & -> & [[? _]|[[? _]|(H1 & b2 & r & -> & [[? _]|[[? _]|H2]])]]); try done;
    exists b1, b2, r; (split; [done|]); unfold headStart; rewrite ?H1, ?H2, ?orb_true_r; done.
Qed.

Lemma jwt_start M : jwtWord M -> head M = Some x65.
Proof. intros (a & b & c & -> & _). done. Qed.

Lemma token_start M : tokenWord M -> head M = Some x65.
Proof. intros (a & -> & _). done. Qed.

Lemma foldWord_head c w s n : foldWord (c :: w) s = Some n -> bz c ≠ 115 -> bz c ≠ 107 ->
  exists b s', s = b :: s' /\ sameLetter c b = true.
Proof.
  intros H H1 H2. simpl in H. apply bind_Some in H as (k & Hk & _). destruct s as [|b s]; [done|].
  exists b, s. split; [done|]. destruct (foldLetter_head _ _ _ _ Hk) as [[_ ?]|[[? _]|[? _]]]; done.
Qed.

Lemma pair_start M : pairWord M -> exists b r, M = b :: r /\ sameLetter x70 b = true.
Proof.
  intros (w & c & -> & Hw & _). destruct (foldWord_head _ _ _ _ Hw) as (b & s & -> & Hb); [done|done|].
  by exists b, (s ++ [c]).
Qed.

(** *** Matches *)

Lemma marker_head s : hasPrefix s marker = true -> exists r, s = marker ++ r.
Proof. intros H. apply hasPrefix_spec in H as [r ->]. by exists r. Qed.

Lemma word_of_url64 b : isURL64 b = false -> isWordB b = false.
Proof. unfold isURL64. intros H. by apply orb_false_iff in H as [? _]. Qed.

Lemma jwt_match q s n : jwtAt q s = Some n -> (0 < n <= length s)%nat /\ head s = Some x65 /\
  (forall b r, drop n s = b :: r -> isWordB b = false).
Proof.
  unfold jwtAt. destruct (hasPrefix s marker) eqn:Hp; [|done]. apply marker_head in Hp as [s1 ->].
  change (drop 3 (marker ++ s1)) with s1. cbv zeta. intros H.
  apply bind_Some in H as (a & Ha & H). apply bind_Some in H as (d1 & Hd1 & H). apply bind_Some in H as (b & Hb & H).
  apply bind_Some in H as (d2 & Hd2 & H). apply bind_Some in H as (c & Hc & [= <-]).
  apply run_some in Ha as [-> Ha], Hb as [Eb Hb], Hc as [Ec Hc]. apply dotAt_some in Hd1 as [-> Hd1], Hd2 as [-> Hd2].
  set (a := span isURL64 s1) in *.
  pose proof (span_le isURL64 (drop 1 (drop b (drop 1 (drop a s1))))) as Lc. rewrite <- Ec in Lc.
  rewrite !length_drop in *. split; [|split; [done|]].
  { change (marker ++ s1) with (x65 :: x79 :: x4a :: s1). simpl length. lia. }
  intros x r Hx. apply word_of_url64. pose proof (span_next isURL64 (drop 1 (drop b (drop 1 (drop a s1))))) as Hn.
  rewrite <- Ec, !drop_drop in Hn. replace (3 + a + 1 + b + 1 + c)%nat with (3 + (a + 1 + b + 1 + c))%nat in Hx by lia.
  change (marker ++ s1) with (x65 :: x79 :: x4a :: s1) in Hx. simpl in Hx.
  replace (a + (1 + (b + (1 + c))))%nat with (a + 1 + b + 1 + c)%nat in Hn by lia. by rewrite Hx in Hn.
Qed.

Lemma token_match q s n : tokenAt q s = Some n -> (0 < n <= length s)%nat /\ head s = Some x65 /\
  (forall b r, drop n s = b :: r -> isWordB b = false).
Proof.
  unfold tokenAt. destruct (hasPrefix s marker) eqn:Hp; [|done]. apply marker_head in Hp as [s1 ->].
  change (drop 3 (marker ++ s1)) with s1. cbv zeta. case_match; [done|]. intros [= <-].
  pose proof (span_le isToken s1). split; [|split; [done|]].
  { change (marker ++ s1) with (x65 :: x79 :: x4a :: s1). simpl length. lia. }
  intros x r Hx. change (marker ++ s1) with (x65 :: x79 :: x4a :: s1) in Hx. simpl in Hx.
  pose proof (span_next isToken s1) as Hn. rewrite Hx in Hn. apply word_of_url64. unfold isToken in Hn.
  destruct (isURL64 x); done.
Qed.

(** A word without the letters that fold outside ASCII takes its own length. *)
Lemma foldWord_plain w : forall s n, Forall (fun c => bz c ≠ 115 /\ bz c ≠ 107) w -> foldWord w s = Some n ->
  exists x r, s = x ++ r /\ n = length w /\ Forall2 (fun c b => sameLetter c b = true) w x.
Proof.
  induction w as [|c w IH]; intros s n Hp H; simpl in H; [simplify_eq; by exists [], s|].
  apply Forall_cons in Hp as [[H1 H2] Hp]. apply bind_Some in H as (k & Hk & H). apply bind_Some in H as (m & Hm & [= <-]).
  destruct s as [|b s]; [done|]. destruct (foldLetter_head _ _ _ _ Hk) as [[-> Hs]|[[? _]|[? _]]]; [|done|done].
  change (drop 1 (b :: s)) with s in Hm. destruct (IH _ _ Hp Hm) as (x & r & -> & -> & F). exists (b :: x), r. split_and!; try done.
  by constructor.
Qed.

(** A byte of the kept [pair=] and the byte it replaces. *)
Definition same (b b' : byte) : Prop := b' = b \/ (b ∈ bytesOf "pair" /\ bz b' = bz b - 32).

Lemma pair_match q s n : pairAt q s = Some n -> exists x v r, s = x ++ v ++ r /\ n = (5 + length v)%nat /\ v ≠ [] /\
  length x = 5%nat /\ Forall2 same (bytesOf "pair=") x /\ Forall (fun b => isURL64 b = true) v /\
  match r with b :: _ => isWordB b = false | [] => True end.
Proof.
  unfold pairAt. destruct (boundary q s); [|done]. intros H. apply bind_Some in H as (k & Hk & H).
  apply bind_Some in H as (m & Hm & [= <-]). apply run_some in Hm as [-> Hpos].
  destruct (foldWord_plain (bytesOf "pair=") _ _ ltac:(by repeat constructor) Hk) as (x & r0 & -> & -> & F).
  pose proof (Forall2_length _ _ _ F) as Hx. rewrite Hx, drop_app_length in *.
  exists x, (take (span isURL64 r0) r0), (drop (span isURL64 r0) r0). pose proof (span_le isURL64 r0) as Hle.
  assert (Hv : length (take (span isURL64 r0) r0) = span isURL64 r0) by (rewrite length_take; lia).
  split_and!.
  - by rewrite take_drop.
  - by rewrite Hv, <- Hx.
  - intros E. rewrite E in Hv. simpl in Hv. lia.
  - by rewrite <- Hx.
  - assert (Hall : Forall (fun c => forall b, sameLetter c b = true -> same c b) (bytesOf "pair=")).
    { assert (Hin : forall c b, c ∈ bytesOf "pair" -> sameLetter c b = true -> same c b).
      { intros c b Hc Hs. unfold sameLetter in Hs. apply orb_true_iff in Hs as [Hs|Hs].
        - left. apply bz_inj. lia.
        - right. split; [done|]. lia. }
      apply Forall_forall. intros c Hc b Hs. change (bytesOf "pair=") with (bytesOf "pair" ++ [x3d]) in Hc.
      apply elem_of_app in Hc as [Hc|Hc]; [by apply Hin|]. apply list_elem_of_singleton in Hc as ->.
      left. apply bz_inj. unfold sameLetter, between in Hs. change (bz x3d) with 61 in *. lia. }
    clear -F Hall. revert Hall. induction F as [|c b w x Hcb F IH]; intros Hall; [constructor|].
    apply Forall_cons in Hall as [Hc Hall]. constructor; [by apply Hc|by apply IH].
  - apply span_taken.
  - pose proof (span_next isURL64 r0) as Hn. destruct (drop _ r0); [done|]. by apply word_of_url64.
Qed.

Lemma header_match q s n : headerAt q s = Some n -> exists w k, w ∈ headerNames /\ nameSep w s = Some k /\
  n = (k + span notEOL (drop k s))%nat /\ (0 < k <= n)%nat /\ (n <= length s)%nat /\
  match drop n s with b :: _ => notEOL b = false | [] => True end.
Proof.
  unfold headerAt. destruct (boundary q s); [|done]. intros H. apply bind_Some in H as (k & Hk & [= <-]).
  apply firstName_in in Hk as (w & Hw & Hk). exists w, k. destruct (nameSep_app w s [] k Hk) as [_ Hl].
  pose proof (span_le notEOL (drop k s)) as Hs. rewrite length_drop in Hs.
  split_and!; try done; try lia. pose proof (span_next notEOL (drop k s)) as Hn. by rewrite drop_drop in Hn.
Qed.

(** *** Words are closed under the case of the kept letters *)

Lemma same_cases b b' : same b b' -> b' = b \/
  (isURL64 b = true /\ isURL64 b' = true /\ isBlank b = false /\ isBlank b' = false /\ isSep b = false /\ isSep b' = false /\
   97 <= bz b /\ bz b' = bz b - 32 /\ bz b ≠ 101 /\ bz b ≠ 121 /\ bz b ≠ 115 /\ bz b ≠ 107).
Proof.
  intros [->|[Hb E]]; [by left|]. right.
  assert (Hv : bz b = 112 \/ bz b = 97 \/ bz b = 105 \/ bz b = 114).
  { cbn in Hb. rewrite !elem_of_cons in Hb. destruct Hb as [-> |[-> |[-> |[-> |Hb]]]]; [..|by apply elem_of_nil in Hb]; vm_compute; auto. }
  unfold isURL64, isWordB, isAlphaB, isDigitB, between, isBlank, isSep.
  rewrite E. destruct Hv as [-> |[-> |[-> | ->]]]; split_and!; (reflexivity || lia).
Qed.

Lemma same_class (f : byte -> bool) : (forall b, isURL64 b = true -> f b = true) ->
  forall b b', same b b' -> f b = f b'.
Proof. intros Hf b b' Hs. destruct (same_cases b b' Hs) as [->|(H1 & H2 & _)]; [done|]. by rewrite !Hf. Qed.

Lemma same_Forall (f : byte -> bool) l l' : (forall b, isURL64 b = true -> f b = true) ->
  Forall2 same l l' -> Forall (fun b => f b = true) l -> Forall (fun b => f b = true) l'.
Proof.
  intros Hf. induction 1 as [|b b' l l' Hb _ IH]; intros Hl; [constructor|]. apply Forall_cons in Hl as [H Hl].
  constructor; [by rewrite <- (same_class f Hf b b')|by apply IH].
Qed.

Lemma same_marker l : Forall2 same marker l -> l = marker.
Proof.
  intros H. change marker with [x65; x79; x4a] in *.
  apply Forall2_cons_inv_l in H as (b1 & l1 & H1 & H & ->). apply Forall2_cons_inv_l in H as (b2 & l2 & H2 & H & ->).
  apply Forall2_cons_inv_l in H as (b3 & l3 & H3 & H & ->). apply Forall2_nil_inv_l in H as ->.
  destruct (same_cases _ _ H1) as [->|(_ & _ & _ & _ & _ & _ & ? & _ & ? & _)]; [|done].
  destruct (same_cases _ _ H2) as [->|(_ & _ & _ & _ & _ & _ & ? & _ & _ & ? & _)]; [|done].
  destruct (same_cases _ _ H3) as [->|(_ & _ & _ & _ & _ & _ & Hge & _)]; [done|]. by vm_compute in Hge.
Qed.

Lemma same_dot b : same x2e b -> b = x2e.
Proof. intros H. destruct (same_cases _ _ H) as [->|(E & _)]; [done|]. by vm_compute in E. Qed.

Lemma jwt_same M M' : jwtWord M -> Forall2 same M M' -> jwtWord M'.
Proof.
  intros (a & b & c & -> & Ha & Hb & Hab & Hc) H. apply Forall_app in Hab as [Fa Fb].
  apply Forall2_app_inv_l in H as (m' & t1 & Hm & H & ->). apply same_marker in Hm as ->.
  apply Forall2_app_inv_l in H as (a' & t2 & Ha' & H & ->). apply Forall2_cons_inv_l in H as (d & t3 & Hd & H & ->).
  apply same_dot in Hd as ->. apply Forall2_app_inv_l in H as (b' & t4 & Hb' & H & ->).
  apply Forall2_cons_inv_l in H as (d2 & t5 & Hd2 & H & ->). apply same_dot in Hd2 as ->.
  apply Forall2_cons_inv_l in H as (c' & t6 & Hc' & H & ->). apply Forall2_nil_inv_l in H as ->.
  exists a', b', c'. split_and!; try done.
  - intros ->. apply Forall2_nil_inv_r in Ha'. done.
  - intros ->. apply Forall2_nil_inv_r in Hb'. done.
  - apply Forall_app. split; by eapply same_Forall.
  - by rewrite <- (same_class isURL64 (fun _ H => H) c c').
Qed.

Lemma token_same M M' : tokenWord M -> Forall2 same M M' -> tokenWord M'.
Proof.
  intros (a & -> & Ha & Fa) H. apply Forall2_app_inv_l in H as (m' & a' & Hm & H & ->). apply same_marker in Hm as ->.
  exists a'. split_and!; [done|by rewrite <- (Forall2_length _ _ _ H)|].
  eapply same_Forall; [|exact H|done]. intros b Hb. unfold isToken. by rewrite Hb.
Qed.

Lemma foldLetter_same c s s' n : Forall2 same s s' -> foldLetter c s = Some n -> foldLetter c s' = Some n.
Proof.
  intros H Hf. destruct H as [|b b' s s' Hb H]; [done|]. unfold foldLetter in *.
  destruct ((bz b =? bz c) || (between 97 122 c && (bz b =? bz c - 32))) eqn:E.
  - injection Hf as <-. destruct (same_cases _ _ Hb) as [->|(_ & _ & _ & _ & _ & _ & Hge & Eb & _)]; [by rewrite E|].
    replace ((bz b' =? bz c) || (between 97 122 c && (bz b' =? bz c - 32))) with true; [done|].
    unfold isURL64, isWordB, isAlphaB, isDigitB, between in *. pose proof (bz_range b). symmetry.
    apply orb_true_iff. right. destruct Hb as [?|[Hin _]]; [subst; lia|].
    assert (bz b <= 122).
    { cbn in Hin. rewrite !elem_of_cons in Hin.
      destruct Hin as [-> |[-> |[-> |[-> |Hin]]]]; [..|by apply elem_of_nil in Hin]; by vm_compute. }
    lia.
  - assert (Hn : bz b' = bz b \/ bz b <= 122 /\ bz b' <= 122).
    { destruct Hb as [->|[Hin Eb]]; [by left|]. right.
      cbn in Hin. rewrite !elem_of_cons in Hin.
      destruct Hin as [-> |[-> |[-> |[-> |Hin]]]]; [..|by apply elem_of_nil in Hin]; rewrite Eb; by vm_compute. }
    destruct H as [|b2 b2' s s' Hb2 H]; [done|].
    destruct ((bz c =? 115) && (bz b =? 197) && (bz b2 =? 191)) eqn:E2.
    { injection Hf as <-. destruct Hn as [Hn|Hn]; [|lia].
      destruct (same_cases _ _ Hb2) as [->|(Hu & _)]; [|unfold isURL64, isWordB, isAlphaB, isDigitB, between in Hu; lia].
      rewrite Hn, E2. by rewrite E. }
    destruct H as [|b3 b3' s s' Hb3 H]; [done|].
    destruct ((bz c =? 107) && (bz b =? 226) && (bz b2 =? 132) && (bz b3 =? 170)) eqn:E3; [|done].
    injection Hf as <-. destruct Hn as [Hn|Hn]; [|lia].
    destruct (same_cases _ _ Hb2) as [->|(Hu & _)]; [|unfold isURL64, isWordB, isAlphaB, isDigitB, between in Hu; lia].
    destruct (same_cases _ _ Hb3) as [->|(Hu & _)]; [|unfold isURL64, isWordB, isAlphaB, isDigitB, between in Hu; lia].
    by rewrite Hn, E, E2, E3.
Qed.

Lemma foldWord_same w : forall s s' n, Forall2 same s s' -> foldWord w s = Some n -> foldWord w s' = Some n.
Proof.
  induction w as [|c w IH]; intros s s' n H Hf; [done|]. simpl in *.
  apply bind_Some in Hf as (k & Hk & Hf). apply bind_Some in Hf as (m & Hm & [= <-]).
  rewrite (foldLetter_same _ _ _ _ H Hk). cbn [mbind option_bind].
  by rewrite (IH _ (drop k s') _ (Forall2_drop _ _ _ _ H) Hm).
Qed.

Lemma span_same (f : byte -> bool) : (forall b b', same b b' -> f b = f b') ->
  forall s s', Forall2 same s s' -> span f s = span f s'.
Proof.
  intros Hf. induction 1 as [|b b' s s' Hb _ IH]; [done|]. simpl. rewrite (Hf _ _ Hb). by rewrite IH.
Qed.

Lemma same_blank b b' : same b b' -> isBlank b = isBlank b'.
Proof. intros H. destruct (same_cases _ _ H) as [->|(_ & _ & -> & -> & _)]; done. Qed.
Lemma same_sep b b' : same b b' -> isSep b = isSep b'.
Proof. intros H. destruct (same_cases _ _ H) as [->|(_ & _ & _ & _ & -> & -> & _)]; done. Qed.

Lemma header_same M M' : headerWord M -> Forall2 same M M' -> headerWord M'.
Proof.
  intros (w & Hw & Hn) H. exists w. split; [done|]. rewrite <- (Forall2_length _ _ _ H). unfold nameSep in *.
  apply bind_Some in Hn as (k & Hk & Hn). rewrite (foldWord_same _ _ _ _ H Hk). cbn [mbind option_bind].
  rewrite <- (span_same isBlank same_blank _ _ (Forall2_drop same M M' k H)).
  pose proof (Forall2_drop same M M' (k + span isBlank (drop k M)) H) as Hd.
  destruct Hd as [|b b' t t' Hb Ht]; [done|]. by rewrite <- (same_sep _ _ Hb).
Qed.

Lemma pair_same M M' : pairWord M -> Forall2 same M M' -> pairWord M'.
Proof.
  intros (w & c & -> & Hw & Hc) H. apply Forall2_app_inv_l in H as (w' & t & Hw' & H & ->).
  apply Forall2_cons_inv_l in H as (c' & t' & Hc' & H & ->). apply Forall2_nil_inv_l in H as ->.
  exists w', c'. split_and!; [done|rewrite <- (Forall2_length _ _ _ Hw'); by eapply foldWord_same|].
  by rewrite <- (same_class isURL64 (fun _ H => H) c c').
Qed.

(** ** What follows a redacted header *)

Definition blanked : list byte := bytesOf " " ++ redacted.

Definition endOfLine (r : list byte) : Prop := match r with b :: _ => notEOL b = false | [] => True end.
Definition redactedLine (rest : list byte) : Prop := exists r, rest = blanked ++ r /\ endOfLine r.

Section Quiet.
Context (at_ : option byte -> list byte -> option nat) (keep : list byte -> list byte) (starts : byte -> bool).
Context (at_start : forall q b s n, at_ q (b :: s) = Some n -> starts b = true).

(** A pass copies the bytes no match starts with. *)
Lemma out_quiet w : Forall (fun b => starts b = false) w ->
  forall q s, out at_ keep 0 q (w ++ s) = w ++ out at_ keep 0 (lastOr q w) s.
Proof.
  induction 1 as [|b w Hb _ IH]; intros q s; [done|]. rewrite lastOr_cons. simpl.
  rewrite out_copy; [by rewrite IH|]. destruct (at_ q (b :: w ++ s)) eqn:E; [|done].
  apply at_start in E. congruence.
Qed.

Lemma out_endOfLine : (forall b, notEOL b = false -> starts b = false) ->
  forall q s, endOfLine s -> endOfLine (out at_ keep 0 q s).
Proof.
  intros Hs q s. destruct s as [|b s]; [done|]. simpl. intros Hb.
  rewrite out_copy; [done|]. destruct (at_ q (b :: s)) eqn:E; [|done]. apply at_start in E. rewrite Hs in E; done.
Qed.

Lemma out_redactedLine : (forall b, notEOL b = false -> starts b = false) -> Forall (fun b => starts b = false) blanked ->
  forall q s, redactedLine s -> redactedLine (out at_ keep 0 q s).
Proof.
  intros Hs Hb q s (r & -> & Hr). eexists. split; [by apply out_quiet|]. by apply out_endOfLine.
Qed.
End Quiet.

Definition startsToken (b : byte) : bool := bz b =? 101.
Definition startsPair (b : byte) : bool := sameLetter x70 b.

Lemma pair_starts q b s n : pairAt q (b :: s) = Some n -> startsPair b = true.
Proof.
  unfold pairAt. destruct (boundary q (b :: s)); [|done]. intros H. apply bind_Some in H as (k & Hk & _).
  destruct (foldWord_head _ _ _ _ Hk) as (b' & s' & [= <- <-] & Hb); done.
Qed.

Lemma eol_cases b : notEOL b = false -> bz b = 13 \/ bz b = 10.
Proof. unfold notEOL. intros H. apply negb_false_iff in H. lia. Qed.

(** No word whose first two bytes are [ok] starts inside [r]. *)
Fixpoint quietIn (ok : byte -> byte -> bool) (r : list byte) : Prop :=
  match r with
  | [] => True
  | b1 :: r' => match r' with [] => forall b2, ok b1 b2 = false | b2 :: _ => ok b1 b2 = false end /\ quietIn ok r'
  end.

Lemma no_start_in (L : list byte -> Prop) ok r r' w M rest :
  (forall M, L M -> exists b1 b2 t, M = b1 :: b2 :: t /\ ok b1 b2 = true) -> quietIn ok r ->
  r' ≠ [] -> r' `suffix_of` r -> L M -> r' ++ w = M ++ rest -> False.
Proof.
  intros HL Hq Hne [p ->] HM E. destruct (HL M HM) as (b1 & b2 & t & -> & Hok).
  assert (Hq' : quietIn ok r') by (induction p as [|x p IH]; [done|]; destruct Hq; auto).
  destruct r' as [|c1 [|c2 r']]; [done|..]; simpl in E; destruct Hq' as [Hq' _].
  - injection E as -> E. by rewrite Hq' in Hok.
  - injection E as -> -> E. congruence.
Qed.

Definition jwtStart (b1 b2 : byte) : bool := (bz b1 =? 101) && (bz b2 =? 121).
Definition pairStart (b1 b2 : byte) : bool := sameLetter x70 b1 && sameLetter x61 b2.

Lemma jwt_start2 M : jwtWord M -> exists b1 b2 t, M = b1 :: b2 :: t /\ jwtStart b1 b2 = true.
Proof. intros (a & b & c & -> & _). by eexists _, _, _. Qed.
Lemma token_start2 M : tokenWord M -> exists b1 b2 t, M = b1 :: b2 :: t /\ jwtStart b1 b2 = true.
Proof. intros (a & -> & _). by eexists _, _, _. Qed.
Lemma pair_start2 M : pairWord M -> exists b1 b2 t, M = b1 :: b2 :: t /\ pairStart b1 b2 = true.
Proof.
  intros (w & c & -> & Hw & _). destruct (foldWord_plain (bytesOf "pair=") _ _ ltac:(by repeat constructor) Hw) as (x & r & -> & _ & F).
  change (bytesOf "pair=") with (x70 :: x61 :: bytesOf "ir=") in F.
  apply Forall2_cons_inv_l in F as (b1 & t1 & H1 & F & ->). apply Forall2_cons_inv_l in F as (b2 & t2 & H2 & F & ->).
  exists b1, b2. eexists. split; [reflexivity|]. unfold pairStart. by rewrite H1, H2.
Qed.

Lemma quiet_jwt : quietIn jwtStart (bytesOf "pair=" ++ redacted).
Proof. cbn. split_and!; done. Qed.
Lemma quiet_header : quietIn headStart (bytesOf "pair=" ++ redacted).
Proof. cbn. split_and!; done. Qed.
Lemma quiet_pair : quietIn pairStart redacted.
Proof. cbn. split_and!; done. Qed.

(** ** The four passes *)

(** A pass whose replacement is the bracketed word alone. *)
Lemma bracket_pass at_ starts c L R ok s :
  (forall q s n, at_ q s = Some n -> (0 < n <= length s)%nat /\ head s = Some x65 /\
     (forall b r, drop n s = b :: r -> isWordB b = false)) ->
  starts = startsToken ->
  (forall M, L M -> M ≠ [] /\ bracket ∉ M) ->
  (forall M, L M -> exists b1 b2 t, M = b1 :: b2 :: t /\ ok b1 b2 = true) -> quietIn ok redacted ->
  (forall q s, R s -> R (out at_ (fun _ => []) 0 q s)) ->
  everywhere (fun q t => at_ q t = None -> after c L R q t) None s ->
  everywhere (after c L R) None (replaceAll at_ (fun _ => redacted) 0 None s).
Proof.
  intros Hat _ HL Hst Hq HR Hs.
  apply (pass_after at_ (fun _ => []) ltac:(intros q t n H; by apply Hat in H as [? _]) c L R R); try done.
  - intros q t n b r H Hd. apply Hat in H as (_ & _ & H). by eapply H.
  - intros prev u k s1 n _ Hk _ Hp _ _ _. by apply prefix_nil_inv in Hp.
  - intros prev t n Ha q r' Hne Hsuf _ M rest HM E. exfalso. by eapply no_start_in.
  - by left.
Qed.

Lemma own_pass (at_ : option byte -> list byte -> option nat) c L R s :
  (forall q M r, (c = true -> boundary q (M ++ r) = true) -> L M -> is_Some (at_ q (M ++ r))) ->
  everywhere (fun q t => at_ q t = None -> after c L R q t) None s.
Proof.
  intros H. generalize (@None byte). induction s as [|b s IH]; intros q; [done|]. split; [|apply IH].
  intros Ha Hb M rest HM E. rewrite E in *. destruct (H q M rest Hb HM) as [n Hn]. congruence.
Qed.

Lemma keep_pass (at_ : option byte -> list byte -> option nat) c L R s :
  everywhere (after c L R) None s -> everywhere (fun q t => at_ q t = None -> after c L R q t) None s.
Proof. apply everywhere_impl. naive_solver. Qed.

Lemma redactedLine_token at_ : (forall q s n, at_ q s = Some n -> head s = Some x65) ->
  forall q s, redactedLine s -> redactedLine (out at_ (fun _ => []) 0 q s).
Proof.
  intros Hat. apply (out_redactedLine at_ (fun _ => []) startsToken).
  - intros q b s n H. apply Hat in H. injection H as ->. done.
  - intros b Hb. destruct (eol_cases b Hb) as [E|E]; unfold startsToken; by rewrite E.
  - by repeat constructor.
Qed.

Notation none := (fun _ : list byte => False).

(** *** Headers *)

Definition keepHeader (m : list byte) : list byte := take (span (fun b => negb (isSep b)) m + 1) m ++ bytesOf " ".

Lemma header_parts q s n : headerAt q s = Some n -> exists l b v, take n s = (l ++ [b]) ++ v /\
  keepHeader (take n s) = (l ++ [b]) ++ bytesOf " " /\ redactHeader (take n s) = keepHeader (take n s) ++ redacted /\
  Forall notSep l /\ isSep b = true.
Proof.
  intros H. destruct (header_match q s n H) as (w & k & Hw & Hk & _ & [Hk0 Hkn] & Hn & _).
  destruct (nameSep_shape w s k (headerNames_bytes w Hw) Hk) as (l & b & E & Hl & Hb & _).
  exists l, b, (drop k (take n s)).
  assert (Em : take n s = (l ++ [b]) ++ drop k (take n s)).
  { rewrite <- E. replace (take k s) with (take k (take n s)) by (rewrite take_take; f_equal; lia). by rewrite take_drop. }
  assert (Es : span (fun b => negb (isSep b)) (take n s) = length l).
  { rewrite Em, <- app_assoc. simpl. apply span_stop; [|by rewrite Hb].
    eapply Forall_impl; [exact Hl|]. intros x [Hx _]. by rewrite Hx. }
  assert (Ek : keepHeader (take n s) = (l ++ [b]) ++ bytesOf " ").
  { unfold keepHeader. rewrite Es. f_equal. rewrite Em. replace (length l + 1)%nat with (length (l ++ [b])) by (rewrite length_app; simpl; lia).
    apply take_app_length. }
  split_and!; try done. unfold redactHeader. rewrite Es.
  replace (length l =? length (take n s))%nat with false.
  - rewrite Ek, <- app_assoc. unfold keepHeader in Ek. rewrite Es in Ek. apply app_inj_tail in Ek as [-> _]. done.
  - symmetry. apply Nat.eqb_neq. rewrite Em, !length_app. simpl. lia.
Qed.

Lemma replaceAll_ext at_ r1 r2 : (forall q s n, at_ q s = Some n -> r1 (take n s) = r2 (take n s)) ->
  forall s k q, replaceAll at_ r1 k q s = replaceAll at_ r2 k q s.
Proof.
  intros H. induction s as [|b s IH]; intros k q; [done|]. simpl. destruct k; [|apply IH].
  destruct (at_ q (b :: s)) as [[|n]|] eqn:E; rewrite ?IH; try done. f_equal. by apply (H _ _ _ E).
Qed.

(** A text has one way to be a separator-free part, a separator and the rest. *)
Lemma first_sep l b r l' b' r' : Forall notSep l -> isSep b = true -> Forall notSep l' -> isSep b' = true ->
  l ++ b :: r = l' ++ b' :: r' -> l = l' /\ b = b' /\ r = r'.
Proof.
  intros Hl Hb Hl' Hb'. revert l' Hl'. induction Hl as [|x l [Hx _] _ IH]; intros l' Hl' E.
  - destruct Hl' as [|y l' [Hy _] _]; simpl in E; [by injection E as -> ->|injection E as Ex _; congruence].
  - destruct Hl' as [|y l' [Hy _] Hl']; simpl in E; [injection E as Ex _; congruence|].
    injection E as -> E. destruct (IH l' Hl' E) as (-> & -> & ->). done.
Qed.

Lemma header_head q b s n : headerAt q (b :: s) = Some n -> notEOL b = true.
Proof.
  intros H. destruct (header_match q _ n H) as (w & k & Hw & Hk & _). unfold nameSep in Hk.
  apply bind_Some in Hk as (j & Hj & _).
  assert (Hc : exists c w', w = c :: w' /\ 97 <= bz c).
  { unfold headerNames in Hw. cbn in Hw. rewrite !elem_of_cons in Hw.
    destruct Hw as [-> |[-> |[-> |[-> |[-> |[-> |[-> |[-> |Hw]]]]]]]]; [..|by apply elem_of_nil in Hw];
      eexists _, _; (split; [reflexivity|]); by vm_compute. }
  destruct Hc as (c & w' & -> & Hc). simpl in Hj. apply bind_Some in Hj as (i & Hi & _).
  unfold notEOL. destruct (foldLetter_head _ _ _ _ Hi) as [[_ Hs]|[[_ Hs]|[_ Hs]]]; [|lia|lia].
  unfold sameLetter, between in Hs. lia.
Qed.

Lemma quiet_blanked : quietIn headStart blanked.
Proof. cbn. split_and!; done. Qed.

Lemma header_in_repl q0 s n : headerAt q0 s = Some n -> forall q r', r' ≠ [] ->
  r' `suffix_of` keepHeader (take n s) ++ redacted ->
  after true headerWord redactedLine q (r' ++ out headerAt keepHeader 0 (lastOr q0 (take n s)) (drop n s)).
Proof.
  intros H q r' Hne [p Hsuf] _ M rest HM E. destruct (header_parts q0 s n H) as (l & b & v & _ & Hk & _ & Hl & Hb).
  rewrite Hk, <- app_assoc in Hsuf. change (bytesOf " " ++ redacted) with blanked in Hsuf.
  set (w := out headerAt keepHeader 0 (lastOr q0 (take n s)) (drop n s)) in *.
  assert (Hw : endOfLine w).
  { destruct (header_match q0 s n H) as (_ & _ & _ & _ & _ & _ & _ & Hd).
    apply (out_endOfLine headerAt keepHeader notEOL); [intros q' x t m; apply header_head|done|].
    unfold endOfLine. by destruct (drop n s). }
  destruct (header_shape M HM) as (lm & bm & -> & Hlm & Hbm & _).
  apply app_eq_inv in Hsuf as [(k & Ek & ->)|(k & Ep & Er)].
  - destruct k as [|x k _] using rev_ind.
    { exfalso. eapply (no_start_in headerWord headStart blanked blanked); [exact header_start|exact quiet_blanked|done|done|exact HM|exact E]. }
    rewrite app_assoc in Ek. apply app_inj_tail in Ek as [-> <-]. apply Forall_app in Hl as [_ Hl].
    rewrite <- !app_assoc in E. simpl in E. apply first_sep in E as (_ & _ & <-); [|done..]. by exists w.
  - exfalso. eapply (no_start_in headerWord headStart blanked r'); [exact header_start|exact quiet_blanked|done| |exact HM|exact E].
    by exists k.
Qed.

Lemma header_pass s : everywhere (after true headerWord redactedLine) None (replaceAll headerAt redactHeader 0 None s).
Proof.
  rewrite (replaceAll_ext _ _ (fun m => keepHeader m ++ redacted)).
  2:{ intros q t n H. by destruct (header_parts q t n H) as (l & b & v & _ & _ & E & _). }
  apply (pass_after headerAt keepHeader) with (Rin := none).
  - intros q t n H. destruct (header_match q t n H) as (w & k & _ & _ & _ & ? & ? & _). lia.
  - intros q t n b r H Hd. destruct (header_match q t n H) as (w & k & _ & _ & _ & _ & _ & Hn). rewrite Hd in Hn.
    destruct (eol_cases b Hn) as [E|E]; unfold isWordB, isAlphaB, isDigitB, between; by rewrite E.
  - exact header_word.
  - intros prev u k s1 n HL Hk Hu Hp Ha Hin Hb. destruct (header_parts _ _ _ Ha) as (l & b & v & Em & Ek & _ & Hl & Hsep).
    assert (Es1 : s1 = (l ++ [b]) ++ v ++ drop n s1) by (rewrite app_assoc, <- Em; by rewrite take_drop).
    rewrite Ek in Hp. destruct Hp as [z Hz]. apply app_eq_inv in Hz as [(j & Ej & Es)|(j & Ej & Es)].
    + eapply (Hin Hb (u ++ k) (j ++ v ++ drop n s1) HL). rewrite Es1 at 1. rewrite Ej. by rewrite <- !app_assoc.
    + destruct j as [|x j].
      { rewrite app_nil_r in Ej. subst k. eapply (Hin Hb _ (v ++ drop n s1) HL).
        rewrite Es1 at 1. by rewrite <- !app_assoc. }
      change (bytesOf " ") with [x20] in Es. injection Es as <- Es. symmetry in Es. apply app_eq_nil in Es as [-> ->].
      destruct (header_shape _ HL) as (lm & bm & E & _ & Hbm & _). rewrite Ej, app_assoc in E.
      apply app_inj_tail in E as [_ <-]. done.
  - done.
  - exact header_in_repl.
  - by left.
  - apply own_pass. intros q M r Hb HM. by apply header_complete; [apply Hb|].
Qed.

(** *** Pairing values *)

Definition keepPair (m : list byte) : list byte := bytesOf "pair=".

(** A word cut by the kept [pair=] was a word of the input. *)
Lemma pair_cross (L : list byte -> Prop) q u k s1 n :
  (forall M M', L M -> Forall2 same M M' -> L M') -> L (u ++ k) -> k ≠ [] -> k `prefix_of` keepPair (take n s1) ->
  pairAt q s1 = Some n -> exists M rest, L M /\ u ++ s1 = M ++ rest /\
    exists b r, rest = b :: r /\ (isURL64 b || (bz b =? 61)) = true.
Proof.
  intros HL HM Hk [z Hz] Ha. destruct (pair_match q s1 n Ha) as (x & v & r & -> & _ & Hv & _ & Hx & Fv & _).
  unfold keepPair in Hz. rewrite Hz in Hx. apply Forall2_app_inv_l in Hx as (k' & z' & Hk' & Hz' & ->).
  exists (u ++ k'), (z' ++ v ++ r). split_and!.
  - eapply HL; [exact HM|]. apply Forall2_app; [|done]. apply Forall_Forall2_diag, Forall_true. by left.
  - by rewrite <- !app_assoc.
  - destruct Hz' as [|b b' z z' Hb Hz'].
    + destruct v as [|b v]; [done|]. exists b, (v ++ r). apply Forall_cons in Fv as [-> _]. done.
    + exists b', (z' ++ v ++ r). split; [done|].
      assert (Hin : b ∈ bytesOf "pair=") by (rewrite Hz; apply elem_of_app; right; by left).
      destruct (same_cases _ _ Hb) as [->|(_ & -> & _)]; [|done].
      change (bytesOf "pair=") with [x70; x61; x69; x72; x3d] in Hin. rewrite !elem_of_cons in Hin.
      destruct Hin as [-> |[-> |[-> |[-> |[-> |Hin]]]]]; [..|by apply elem_of_nil in Hin]; by vm_compute.
Qed.

Lemma pair_pass c L (Rin Rout : list byte -> Prop) s :
  (forall M, L M -> M ≠ [] /\ bracket ∉ M) -> (forall M M', L M -> Forall2 same M M' -> L M') ->
  (forall rest, Rin rest -> match rest with b :: _ => (isURL64 b || (bz b =? 61)) = false | [] => True end) ->
  (forall q t, Rin t -> Rout (out pairAt keepPair 0 q t)) ->
  (forall r' w M rest, r' ≠ [] -> r' `suffix_of` bytesOf "pair=" ++ redacted -> L M -> r' ++ w = M ++ rest -> False) ->
  everywhere (fun q t => pairAt q t = None -> after c L Rin q t) None s ->
  everywhere (after c L Rout) None (replaceAll pairAt (fun _ => bytesOf "pair=" ++ redacted) 0 None s).
Proof.
  intros HL Hsame HR Hout Hin Hs.
  apply (pass_after pairAt keepPair) with (Rin := Rin); try done.
  - intros q t n H. destruct (pair_match q t n H) as (x & v & r & -> & -> & Hv & Hx & _).
    rewrite !length_app, Hx. destruct v; [done|]. simpl. lia.
  - intros q t n b r H Hd. destruct (pair_match q t n H) as (x & v & r' & -> & -> & _ & Hx & _ & _ & Hr).
    replace (5 + length v)%nat with (length (x ++ v)) in Hd by (rewrite length_app; lia).
    rewrite app_assoc, drop_app_length in Hd. subst r'. done.
  - intros prev u k s1 n HM Hk _ Hp Ha Haft Hb.
    destruct (pair_cross L _ _ _ _ _ Hsame HM Hk Hp Ha) as (M & rest & HM' & E & b & r & -> & Hb').
    specialize (HR _ (Haft Hb M _ HM' E)). simpl in HR. congruence.
  - intros prev t n Ha q r' Hne Hsuf _ M rest HM E. exfalso. by eapply Hin.
  - by left.
Qed.

Lemma quiet_pair_tail : quietIn pairStart (bytesOf "air=" ++ redacted).
Proof. cbn. split_and!; done. Qed.

Lemma pair_own_repl r' w M rest : r' ≠ [] -> r' `suffix_of` bytesOf "pair=" ++ redacted -> pairWord M -> r' ++ w = M ++ rest -> False.
Proof.
  intros Hne Hsuf HM E. change (bytesOf "pair=" ++ redacted) with (x70 :: bytesOf "air=" ++ redacted) in Hsuf.
  destruct r' as [|b0 r']; [done|]. apply suffix_cons_inv in Hsuf as [Heq|Hsuf]; [rewrite Heq in E|].
  2:{ eapply (no_start_in pairWord pairStart); [exact pair_start2|exact quiet_pair_tail|done|exact Hsuf|exact HM|exact E]. }
  destruct HM as (m & c & -> & Hw & Hc).
  destruct (foldWord_plain (bytesOf "pair=") _ _ ltac:(by repeat constructor) Hw) as (x & r & -> & Hlen & F).
  apply Forall2_length in F. change (length (bytesOf "pair=")) with 5%nat in *. rewrite length_app in Hlen.
  assert (r = []) as -> by (destruct r; [done|simpl in Hlen; lia]). rewrite app_nil_r in E.
  destruct x as [|b1 [|b2 [|b3 [|b4 [|b5 [|b6 x]]]]]]; try done.
  change (x70 :: bytesOf "air=" ++ redacted) with (x70 :: x61 :: x69 :: x72 :: x3d :: redacted) in E.
  simpl in E. injection E as <- <- <- <- <- <- _. done.
Qed.

Lemma redactedLine_pair q s : redactedLine s -> redactedLine (out pairAt keepPair 0 q s).
Proof.
  apply (out_redactedLine pairAt keepPair startsPair); [exact pair_starts| |by repeat constructor].
  intros b Hb. destruct (eol_cases b Hb) as [E|E]; unfold startsPair, sameLetter, between; by rewrite E.
Qed.

Lemma no_rest (rest : list byte) : none rest -> match rest with b :: _ => (isURL64 b || (bz b =? 61)) = false | [] => True end.
Proof. done. Qed.

Lemma redacted_rest rest : redactedLine rest -> match rest with b :: _ => (isURL64 b || (bz b =? 61)) = false | [] => True end.
Proof. by intros (r & -> & _). Qed.

(** C11: Redaction leaves no secret. At no place of the redacted text does a JSON
    Web Token, a tunnel token or, after a word boundary, a pairing value start;
    and wherever a sensitive header name with its separator stands after a word
    boundary, it is followed by the replacement up to the end of the line. *)
Theorem RedactSecrets_clean (s p t : list byte) : RedactSecrets s = p ++ t -> t ≠ [] ->
  (forall M, jwtWord M -> ~ M `prefix_of` t) /\
  (forall M, tokenWord M -> ~ M `prefix_of` t) /\
  (boundary (last p) t = true ->
     (forall M, pairWord M -> ~ M `prefix_of` t) /\
     (forall M rest, headerWord M -> t = M ++ rest -> redactedLine rest)).
Proof.
  intros E Ht. unfold RedactSecrets in E.
  set (s1 := replaceAll headerAt redactHeader 0 None s) in E.
  set (s2 := replaceAll jwtAt (fun _ => redacted) 0 None s1) in E.
  set (s3 := replaceAll tokenAt (fun _ => redacted) 0 None s2) in E.
  assert (J : forall at_ : option byte -> list byte -> option nat, (forall q s n, at_ q s = Some n -> (0 < n <= length s)%nat /\ head s = Some x65 /\
     (forall b r, drop n s = b :: r -> isWordB b = false)) -> forall q s n, at_ q s = Some n -> head s = Some x65).
  { intros at_ H q x n Hn. by apply H in Hn as (_ & ? & _). }
  assert (H1 : everywhere (after true headerWord redactedLine) None s1) by apply header_pass.
  assert (H2 : everywhere (after true headerWord redactedLine) None s2).
  { eapply (bracket_pass jwtAt _ _ _ _ headStart); [exact jwt_match|done|exact header_word|exact header_start| |
      apply redactedLine_token, J, jwt_match|by apply keep_pass]. cbn. split_and!; done. }
  assert (J2 : everywhere (after false jwtWord none) None s2).
  { eapply (bracket_pass jwtAt _ _ _ _ jwtStart); [exact jwt_match|done|exact jwt_word|exact jwt_start2| |done|].
    - cbn. split_and!; done.
    - apply own_pass. intros q M r _. apply jwt_complete. }
  assert (H3 : everywhere (after true headerWord redactedLine) None s3).
  { eapply (bracket_pass tokenAt _ _ _ _ headStart); [exact token_match|done|exact header_word|exact header_start| |
      apply redactedLine_token, J, token_match|by apply keep_pass]. cbn. split_and!; done. }
  assert (J3 : everywhere (after false jwtWord none) None s3).
  { eapply (bracket_pass tokenAt _ _ _ _ jwtStart); [exact token_match|done|exact jwt_word|exact jwt_start2| |done|by apply keep_pass].
    cbn. split_and!; done. }
  assert (T3 : everywhere (after false tokenWord none) None s3).
  { eapply (bracket_pass tokenAt _ _ _ _ jwtStart); [exact token_match|done|exact token_word|exact token_start2| |done|].
    - cbn. split_and!; done.
    - apply own_pass. intros q M r _. apply token_complete. }
  assert (H4 : everywhere (after true headerWord redactedLine) None (p ++ t)).
  { rewrite <- E. eapply pair_pass; [exact header_word|exact header_same|exact redacted_rest|exact redactedLine_pair| |by apply keep_pass].
    intros. eapply (no_start_in headerWord headStart); [exact header_start|exact quiet_header|done..]. }
  assert (J4 : everywhere (after false jwtWord none) None (p ++ t)).
  { rewrite <- E. eapply pair_pass; [exact jwt_word|exact jwt_same|exact no_rest|done| |by apply keep_pass].
    intros. eapply (no_start_in jwtWord jwtStart); [exact jwt_start2|exact quiet_jwt|done..]. }
  assert (T4 : everywhere (after false tokenWord none) None (p ++ t)).
  { rewrite <- E. eapply pair_pass; [exact token_word|exact token_same|exact no_rest|done| |by apply keep_pass].
    intros. eapply (no_start_in tokenWord jwtStart); [exact token_start2|exact quiet_jwt|done..]. }
  assert (P4 : everywhere (after true pairWord none) None (p ++ t)).
  { rewrite <- E. eapply pair_pass; [exact pair_word|exact pair_same|exact no_rest|done|exact pair_own_repl|].
    apply own_pass. intros q M r Hb. by apply pair_complete, Hb. }
  assert (El : lastOr None p = last p) by (unfold lastOr; by destruct (last p)).
  apply (everywhere_at _ _ _ p t) in H4, J4, T4, P4; try done. rewrite El in *. unfold after in *. split_and!.
  - intros M HM [r ->]. by eapply (J4 ltac:(done) M).
  - intros M HM [r ->]. by eapply (T4 ltac:(done) M).
  - intros Hb. split; [intros M HM [r ->]; by eapply (P4 ltac:(done) M)|intros M rest HM ->; by eapply (H4 ltac:(done) M)].
Qed.

(** ** Concrete values *)

Definition sampleSecret : list byte := bytesOf "Cookie: a=b; c".

Lemma RedactSecrets_clean_witness :
  RedactSecrets sampleSecret = bytesOf "Cookie: [REDACTED]" /\ redactedLine (bytesOf " [REDACTED]").
Proof.
  split; [by vm_compute|].
  destruct (RedactSecrets_clean sampleSecret [] (bytesOf "Cookie: [REDACTED]")) as (_ & _ & H); [by vm_compute|done|].
  destruct H as [_ H]; [by vm_compute|].
  apply (H (bytesOf "Cookie:") (bytesOf " [REDACTED]")); [|done].
  exists (bytesOf "cookie"). split; [apply list_elem_of_In; by vm_compute; tauto|by vm_compute].
Defined.
