(* ===== verification/Terminal.v ===== *)
(** * Terminal: the bridge of internal/terminal between a browser WebSocket and
    one `herdr terminal session control` process

    Protocol records and commands are those of protocol.go; the bridge is the
    concurrent program of bridge.go. Its six goroutines and the main function
    share channels, a context and the first-close record. [act] is one atomic
    action of one of them: everything it does between two operations on what is
    shared, with the outcome of a select among ready cases, of a write and of a
    timer given by the action. A run of the bridge is a list of actions.

    Decoding a JSON line is the parameter [decodeRecord] (and [decodeCommand] for
    the browser's text messages); the output filter is the class [TermFilter],
    whose production instance is the ANSI filter. The lines the controller will
    write and the messages the browser will send are in the state ([lines],
    [msgs]), as is everything the bridge has written ([wrote], [stdinWrote],
    [socket], [audit]). *)

From S2P Require Import Prelude GoStr GoText Ansi.

(** ** Protocol (protocol.go) *)

Record controllerRecord := mkRecord {
  rec_Type : string; rec_Seq : Z; rec_Width : Z; rec_Height : Z; rec_Full : bool;
  rec_Bytes : list byte; rec_Reason : list byte
}.

Definition recordFrame := "terminal.frame".
Definition recordClosed := "terminal.closed".

Definition decodeBytes (r : controllerRecord) : option (list byte) :=
  match rec_Bytes r with [] => Some [] | s => stdDecode s end.

Record controllerCommand := mkCommand {
  cmd_Type : string; cmd_Bytes : list byte; cmd_Cols : Z; cmd_Rows : Z;
  cmd_CellWidthPx : Z; cmd_CellHeightPx : Z; cmd_Direction : string; cmd_Lines : Z; cmd_Source : string
}.

Definition cmdInput := "terminal.input".
Definition cmdResize := "terminal.resize".
Definition cmdScroll := "terminal.scroll".
Definition cmdRelease := "terminal.release".

Definition inputBytesCommand (b : list byte) : controllerCommand :=
  mkCommand cmdInput (stdEncode b) 0 0 0 0 "" 0 "".
Definition resizeCommand (cols rows cellW cellH : Z) : controllerCommand :=
  mkCommand cmdResize [] cols rows cellW cellH "" 0 "".
Definition scrollCommand (direction : string) (n : Z) (source : string) : controllerCommand :=
  mkCommand cmdScroll [] 0 0 0 0 direction n source.
Definition releaseCommand : controllerCommand := mkCommand cmdRelease [] 0 0 0 0 "" 0 "".

Record browserCommand := mkBrowserCommand {
  bc_Type : string; bc_Cols : Z; bc_Rows : Z; bc_CellWidthPx : Z; bc_CellHeightPx : Z;
  bc_Direction : string; bc_Lines : Z; bc_Source : string
}.

(** The message of [parseBrowserCommand]: decoded JSON with a type. *)
Definition parseBrowserCommand (decoded : option browserCommand) : option browserCommand :=
  c ← decoded; if bool_decide (bc_Type c = "") then None else Some c.

Record serverMessage := mkServerMessage {
  sm_Type : string; sm_Reason : list byte; sm_Width : Z; sm_Height : Z; sm_Full : bool; sm_Seq : Z
}.

Definition msgOpened := "terminal.opened".
Definition msgClosed := "terminal.closed".
Definition msgConflict := "terminal.conflict".
Definition msgPong := "terminal.pong".
Definition msgResized := "terminal.resized".

Definition lifecycleMessage (typ : string) (reason : list byte) : serverMessage :=
  mkServerMessage typ reason 0 0 false 0.

(** ** Output filters (filter.go) *)

Class TermFilter (F : Type) := {
  newFilter : F;
  FilterOutput : F -> list byte -> F * list byte
}.

Definition NopFilterOutput (f : unit) (src : list byte) : unit * list byte := (f, src).

#[export] Instance nopFilter : TermFilter unit := { newFilter := tt; FilterOutput := NopFilterOutput }.

(** integration/terminalfilter.go: the ANSI filter of a session. [Filter] always
    returns, so the second branch is never taken. *)
Definition ansiFilterOutput (f : ANSIFilter) (src : list byte) : ANSIFilter * list byte :=
  match Filter f src with Some r => r | None => (f, []) end.

#[export] Instance ansiFilter : TermFilter ANSIFilter :=
  { newFilter := NewANSIFilter; FilterOutput := ansiFilterOutput }.

(** ** Options, events and messages (bridge.go, conn.go) *)

Definition defaultMaxOutputFrameBytes : Z := 1048576.
Definition defaultMaxInputBytes : Z := 65536.
Definition defaultOutQueue : Z := 256.
Definition maxScrollLines : Z := 10000.
Definition maxDim : Z := 10000.
Definition stdinQueue : nat := 64.

(** Intervals and timeouts are not part of the model: a timer is an action that
    may happen. *)
Record Options := mkOptions { MaxOutputFrameBytes : Z; MaxInputBytes : Z; OutQueue : Z }.

Definition positiveOr (x d : Z) : Z := if x <=? 0 then d else x.

Definition applyDefaults (o : Options) : Options :=
  mkOptions (positiveOr (MaxOutputFrameBytes o) defaultMaxOutputFrameBytes)
    (positiveOr (MaxInputBytes o) defaultMaxInputBytes) (positiveOr (OutQueue o) defaultOutQueue).

(** An audit event: a category, counts and a reason, never content. *)
Record Event := mkEvent {
  ev_Kind : string; ev_Bytes : Z; ev_Cols : Z; ev_Rows : Z; ev_Lines : Z; ev_Seq : Z; ev_Reason : list byte
}.

Definition protocolErr (n seq : Z) (reason : string) : Event :=
  mkEvent "protocol_error" n 0 0 0 seq (bytesOf reason).

Definition closeNormal : Z := 1000.
Definition closeGoingAway : Z := 1001.
Definition closePolicy : Z := 1008.
Definition closeInternalError : Z := 1011.

(** What [setClose] records: code, reason and the final text message. *)
Record closeInfo := mkClose {
  cl_Code : Z; cl_Reason : list byte; cl_Final : option serverMessage
}.

Definition closeWith (code : Z) (reason : string) : closeInfo := mkClose code (bytesOf reason) None.
Definition closeTelling (code : Z) (typ : string) (reason : string) : closeInfo :=
  mkClose code (bytesOf reason) (Some (lifecycleMessage typ (bytesOf reason))).

Inductive outMsg := OutText (m : serverMessage) | OutBinary (data : list byte).

Inductive browserMessage := MessageText (data : list byte) | MessageBinary (data : list byte).

(** ** Where each goroutine is *)

(** [CEnqueue]: at the first, non-blocking attempt of [enqueue]; [CBlocked]: waiting
    for room with a timer. *)
Inductive ctrlReader := CReading | CEnqueue (data : list byte) | CBlocked (data : list byte) | CDone.
Inductive browserReader :=
| BCheck | BReading | BSend (c : controllerCommand)
| BPush1 (c : browserCommand) | BPush2 (c : browserCommand) | BPush3 (c : browserCommand)
| BDone.
Inductive resizeLoop := RWait (pending : option controllerCommand) | RSend (c : controllerCommand) | RDone.
Inductive writeLoop := WRun | WDrain | WDone (failed : bool).
(** [LEncode]: in [Encode], which may block; [PPinging]: in [Ping]. *)
Inductive stdinLoop := LRun | LEncode (c : controllerCommand) | LDone.
Inductive pingLoop := PRun | PPinging | PDone.
(** [MStop]: the controller is told to terminate; [MClosed]: the socket is closed;
    [MReap]: the goroutines have returned and the process is waited for. *)
Inductive mainState := MWait | MStop | MClosed | MReap | MDone.

Section Bridge.
Context {F : Type} `{TermFilter F}.
Context (decodeRecord : list byte -> option controllerRecord).
Context (decodeCommand : list byte -> option browserCommand).
Context (opts : Options).

Record bridge := mkBridge {
  flt : F; lastSeq : Z; haveSeq : bool;
  outCh : list outMsg; stdinCh : list controllerCommand; resizeCh : option browserCommand;
  ctxDone : bool; closing : option closeInfo;
  ctrl : ctrlReader; browser : browserReader; resizer : resizeLoop;
  writer : writeLoop; stdinL : stdinLoop; pingL : pingLoop; main : mainState;
  lines : list (list byte); msgs : list browserMessage; wrote : list outMsg;
  stdinWrote : list controllerCommand; socket : option closeInfo; audit : list Event
}.

Definition set_flt (v : F) (b : bridge) : bridge :=
  mkBridge v (lastSeq b) (haveSeq b) (outCh b) (stdinCh b) (resizeCh b) (ctxDone b) (closing b) (ctrl b)
    (browser b) (resizer b) (writer b) (stdinL b) (pingL b) (main b) (lines b) (msgs b) (wrote b)
    (stdinWrote b) (socket b) (audit b).
Definition set_lastSeq (v : Z) (b : bridge) : bridge :=
  mkBridge (flt b) v (haveSeq b) (outCh b) (stdinCh b) (resizeCh b) (ctxDone b) (closing b) (ctrl b) (browser
    b) (resizer b) (writer b) (stdinL b) (pingL b) (main b) (lines b) (msgs b) (wrote b) (stdinWrote b)
    (socket b) (audit b).
Definition set_haveSeq (v : bool) (b : bridge) : bridge :=
  mkBridge (flt b) (lastSeq b) v (outCh b) (stdinCh b) (resizeCh b) (ctxDone b) (closing b) (ctrl b) (browser
    b) (resizer b) (writer b) (stdinL b) (pingL b) (main b) (lines b) (msgs b) (wrote b) (stdinWrote b)
    (socket b) (audit b).
Definition set_outCh (v : list outMsg) (b : bridge) : bridge :=
  mkBridge (flt b) (lastSeq b) (haveSeq b) v (stdinCh b) (resizeCh b) (ctxDone b) (closing b) (ctrl b) (browser
    b) (resizer b) (writer b) (stdinL b) (pingL b) (main b) (lines b) (msgs b) (wrote b) (stdinWrote b)
    (socket b) (audit b).
Definition set_stdinCh (v : list controllerCommand) (b : bridge) : bridge :=
  mkBridge (flt b) (lastSeq b) (haveSeq b) (outCh b) v (resizeCh b) (ctxDone b) (closing b) (ctrl b) (browser
    b) (resizer b) (writer b) (stdinL b) (pingL b) (main b) (lines b) (msgs b) (wrote b) (stdinWrote b)
    (socket b) (audit b).
Definition set_resizeCh (v : option browserCommand) (b : bridge) : bridge :=
  mkBridge (flt b) (lastSeq b) (haveSeq b) (outCh b) (stdinCh b) v (ctxDone b) (closing b) (ctrl b) (browser b)
    (resizer b) (writer b) (stdinL b) (pingL b) (main b) (lines b) (msgs b) (wrote b) (stdinWrote b)
    (socket b) (audit b).
Definition set_ctxDone (v : bool) (b : bridge) : bridge :=
  mkBridge (flt b) (lastSeq b) (haveSeq b) (outCh b) (stdinCh b) (resizeCh b) v (closing b) (ctrl b) (browser
    b) (resizer b) (writer b) (stdinL b) (pingL b) (main b) (lines b) (msgs b) (wrote b) (stdinWrote b)
    (socket b) (audit b).
Definition set_closing (v : option closeInfo) (b : bridge) : bridge :=
  mkBridge (flt b) (lastSeq b) (haveSeq b) (outCh b) (stdinCh b) (resizeCh b) (ctxDone b) v (ctrl b) (browser
    b) (resizer b) (writer b) (stdinL b) (pingL b) (main b) (lines b) (msgs b) (wrote b) (stdinWrote b)
    (socket b) (audit b).
Definition set_ctrl (v : ctrlReader) (b : bridge) : bridge :=
  mkBridge (flt b) (lastSeq b) (haveSeq b) (outCh b) (stdinCh b) (resizeCh b) (ctxDone b) (closing b) v
    (browser b) (resizer b) (writer b) (stdinL b) (pingL b) (main b) (lines b) (msgs b) (wrote b)
    (stdinWrote b) (socket b) (audit b).
Definition set_browser (v : browserReader) (b : bridge) : bridge :=
  mkBridge (flt b) (lastSeq b) (haveSeq b) (outCh b) (stdinCh b) (resizeCh b) (ctxDone b) (closing b) (ctrl b)
    v (resizer b) (writer b) (stdinL b) (pingL b) (main b) (lines b) (msgs b) (wrote b) (stdinWrote b)
    (socket b) (audit b).
Definition set_resizer (v : resizeLoop) (b : bridge) : bridge :=
  mkBridge (flt b) (lastSeq b) (haveSeq b) (outCh b) (stdinCh b) (resizeCh b) (ctxDone b) (closing b) (ctrl b)
    (browser b) v (writer b) (stdinL b) (pingL b) (main b) (lines b) (msgs b) (wrote b) (stdinWrote b)
    (socket b) (audit b).
Definition set_writer (v : writeLoop) (b : bridge) : bridge :=
  mkBridge (flt b) (lastSeq b) (haveSeq b) (outCh b) (stdinCh b) (resizeCh b) (ctxDone b) (closing b) (ctrl b)
    (browser b) (resizer b) v (stdinL b) (pingL b) (main b) (lines b) (msgs b) (wrote b) (stdinWrote b)
    (socket b) (audit b).
Definition set_stdinL (v : stdinLoop) (b : bridge) : bridge :=
  mkBridge (flt b) (lastSeq b) (haveSeq b) (outCh b) (stdinCh b) (resizeCh b) (ctxDone b) (closing b) (ctrl b)
    (browser b) (resizer b) (writer b) v (pingL b) (main b) (lines b) (msgs b) (wrote b) (stdinWrote b)
    (socket b) (audit b).
Definition set_pingL (v : pingLoop) (b : bridge) : bridge :=
  mkBridge (flt b) (lastSeq b) (haveSeq b) (outCh b) (stdinCh b) (resizeCh b) (ctxDone b) (closing b) (ctrl b)
    (browser b) (resizer b) (writer b) (stdinL b) v (main b) (lines b) (msgs b) (wrote b) (stdinWrote b)
    (socket b) (audit b).
Definition set_main (v : mainState) (b : bridge) : bridge :=
  mkBridge (flt b) (lastSeq b) (haveSeq b) (outCh b) (stdinCh b) (resizeCh b) (ctxDone b) (closing b) (ctrl b)
    (browser b) (resizer b) (writer b) (stdinL b) (pingL b) v (lines b) (msgs b) (wrote b) (stdinWrote
    b) (socket b) (audit b).
Definition set_lines (v : list (list byte)) (b : bridge) : bridge :=
  mkBridge (flt b) (lastSeq b) (haveSeq b) (outCh b) (stdinCh b) (resizeCh b) (ctxDone b) (closing b) (ctrl b)
    (browser b) (resizer b) (writer b) (stdinL b) (pingL b) (main b) v (msgs b) (wrote b) (stdinWrote b)
    (socket b) (audit b).
Definition set_msgs (v : list browserMessage) (b : bridge) : bridge :=
  mkBridge (flt b) (lastSeq b) (haveSeq b) (outCh b) (stdinCh b) (resizeCh b) (ctxDone b) (closing b) (ctrl b)
    (browser b) (resizer b) (writer b) (stdinL b) (pingL b) (main b) (lines b) v (wrote b) (stdinWrote
    b) (socket b) (audit b).
Definition set_wrote (v : list outMsg) (b : bridge) : bridge :=
  mkBridge (flt b) (lastSeq b) (haveSeq b) (outCh b) (stdinCh b) (resizeCh b) (ctxDone b) (closing b) (ctrl b)
    (browser b) (resizer b) (writer b) (stdinL b) (pingL b) (main b) (lines b) (msgs b) v (stdinWrote b)
    (socket b) (audit b).
Definition set_stdinWrote (v : list controllerCommand) (b : bridge) : bridge :=
  mkBridge (flt b) (lastSeq b) (haveSeq b) (outCh b) (stdinCh b) (resizeCh b) (ctxDone b) (closing b) (ctrl b)
    (browser b) (resizer b) (writer b) (stdinL b) (pingL b) (main b) (lines b) (msgs b) (wrote b) v
    (socket b) (audit b).
Definition set_socket (v : option closeInfo) (b : bridge) : bridge :=
  mkBridge (flt b) (lastSeq b) (haveSeq b) (outCh b) (stdinCh b) (resizeCh b) (ctxDone b) (closing b) (ctrl b)
    (browser b) (resizer b) (writer b) (stdinL b) (pingL b) (main b) (lines b) (msgs b) (wrote b)
    (stdinWrote b) v (audit b).
Definition set_audit (v : list Event) (b : bridge) : bridge :=
  mkBridge (flt b) (lastSeq b) (haveSeq b) (outCh b) (stdinCh b) (resizeCh b) (ctxDone b) (closing b) (ctrl b)
    (browser b) (resizer b) (writer b) (stdinL b) (pingL b) (main b) (lines b) (msgs b) (wrote b)
    (stdinWrote b) (socket b) v.

(** ** Shared operations *)

Definition hasRoom (b : bridge) : bool := Z.of_nat (length (outCh b)) <? OutQueue opts.
Definition stdinRoom (b : bridge) : bool := (length (stdinCh b) <? stdinQueue)%nat.

Definition queueOut (m : outMsg) (b : bridge) : bridge := set_outCh (outCh b ++ [m]) b.
Definition queueStdin (c : controllerCommand) (b : bridge) : bridge := set_stdinCh (stdinCh b ++ [c]) b.
Definition emit (ev : Event) (b : bridge) : bridge := set_audit (audit b ++ [ev]) b.
Definition cancel (b : bridge) : bridge := set_ctxDone true b.

(** First writer wins. *)
Definition setClose (c : closeInfo) (b : bridge) : bridge :=
  match closing b with Some _ => b | None => set_closing (Some c) b end.

(** The select of [sendText]: with room the message is queued, unless the context
    is done and that case is chosen; without room it is dropped. *)
Definition sendText (sent : bool) (m : serverMessage) (b : bridge) : option bridge :=
  if sent then if hasRoom b then Some (queueOut (OutText m) b) else None
  else if ctxDone b || negb (hasRoom b) then Some b else None.

(** ** The controller's records *)

Definition endCtrl (b : bridge) : bridge := cancel (set_ctrl CDone b).

Definition needles : list (list byte) :=
  bytesOf <$> ["conflict"; "in use"; "another controller"; "already controlled"; "controlled elsewhere"].

Definition isConflict (reason : list byte) : bool :=
  existsb (contains (toLower reason)) needles.

Definition handleControllerClosed (reason : list byte) (b : bridge) : bridge :=
  if isConflict reason then
    setClose (mkClose closePolicy (bytesOf "terminal controlled elsewhere")
                (Some (lifecycleMessage msgConflict reason)))
      (emit (mkEvent "conflict" 0 0 0 0 0 reason) b)
  else
    setClose (mkClose closeNormal reason (Some (lifecycleMessage msgClosed reason)))
      (emit (mkEvent "closed" 0 0 0 0 0 reason) b).

(** Nothing is sent for an empty chunk. *)
Definition offer (filtered : list byte) (b : bridge) : bridge :=
  match filtered with [] => b | _ => set_ctrl (CEnqueue filtered) b end.

(** Up to the call of [enqueue]; [sent] is the outcome of [sendText], if it is
    called. *)
Definition handleFrame (sent : bool) (r : controllerRecord) (b : bridge) : option bridge :=
  if haveSeq b && (rec_Seq r <=? lastSeq b) then
    Some (endCtrl (setClose (closeTelling closePolicy msgClosed "non-monotonic frame sequence")
                     (emit (protocolErr 0 (rec_Seq r) "non-monotonic sequence") b)))
  else
    let b := set_lastSeq (rec_Seq r) (set_haveSeq true b) in
    match decodeBytes r with
    | None => Some (emit (protocolErr 0 (rec_Seq r) "bad base64 frame") b)
    | Some raw =>
        if MaxOutputFrameBytes opts <? Z.of_nat (length raw) then
          Some (endCtrl (setClose (closeTelling closePolicy msgClosed "frame exceeds output limit") b))
        else
          let '(f, filtered) := FilterOutput (flt b) raw in
          let b := set_flt f b in
          b ← (if rec_Full r || (0 <? rec_Width r) || (0 <? rec_Height r)
               then sendText sent (mkServerMessage msgResized [] (rec_Width r) (rec_Height r) (rec_Full r) (rec_Seq r)) b
               else Some b);
          Some (offer filtered b)
    end.

Definition readLine (sent : bool) (line : list byte) (b : bridge) : option bridge :=
  match line with
  | [] => Some b
  | _ =>
      match decodeRecord line with
      | None => Some (emit (protocolErr 0 0 "bad controller record") b)
      | Some r =>
          if bool_decide (rec_Type r = recordFrame) then handleFrame sent r b
          else if bool_decide (rec_Type r = recordClosed)
          then Some (endCtrl (handleControllerClosed (rec_Reason r) b))
          else Some b
      end
  end.

(** ** The browser's messages *)

Definition endBrowser (b : bridge) : bridge := cancel (set_browser BDone b).

Definition handleInput (data : list byte) (b : bridge) : bridge :=
  let n := Z.of_nat (length data) in
  if MaxInputBytes opts <? n then
    endBrowser (setClose (closeWith closePolicy "input too large") (emit (protocolErr n 0 "input too large") b))
  else match data with
  | [] => set_browser BCheck b
  | _ => set_browser (BSend (inputBytesCommand data)) (emit (mkEvent "input" n 0 0 0 0 []) b)
  end.

Definition scrollLines (n : Z) : Z :=
  let n := if n <=? 0 then 1 else n in
  if maxScrollLines <? n then maxScrollLines else n.

Definition handleCommand (sent : bool) (data : list byte) (b : bridge) : option bridge :=
  let next := set_browser BCheck in
  match parseBrowserCommand (decodeCommand data) with
  | None => Some (next (emit (protocolErr 0 0 "bad command") b))
  | Some c =>
      if bool_decide (bc_Type c = "resize") then
        if (bc_Cols c <=? 0) || (bc_Rows c <=? 0) || (maxDim <? bc_Cols c) || (maxDim <? bc_Rows c)
        then Some (next (emit (protocolErr 0 0 "bad resize dims") b))
        else Some (set_browser (BPush1 c) (emit (mkEvent "resize" 0 (bc_Cols c) (bc_Rows c) 0 0 []) b))
      else if bool_decide (bc_Type c = "scroll") then
        if negb (bool_decide (bc_Direction c = "up")) && negb (bool_decide (bc_Direction c = "down"))
        then Some (next b)
        else
          let n := scrollLines (bc_Lines c) in
          let src := if bool_decide (bc_Source c = "") then "wheel" else bc_Source c in
          Some (set_browser (BSend (scrollCommand (bc_Direction c) n src))
                  (emit (mkEvent "scroll" 0 0 0 n 0 []) b))
      else if bool_decide (bc_Type c = "release") then
        Some (set_browser (BSend releaseCommand) (emit (mkEvent "release" 0 0 0 0 0 []) b))
      else if bool_decide (bc_Type c = "ping") then
        next <$> sendText sent (lifecycleMessage msgPong []) b
      else Some (next b)
  end.

Definition handleMessage (sent : bool) (m : browserMessage) (b : bridge) : option bridge :=
  match m with
  | MessageBinary data => Some (handleInput data b)
  | MessageText data => handleCommand sent data b
  end.

(** One select of [pushResize] on the channel of capacity one. *)
Definition pushResize (b : bridge) : option bridge :=
  match browser b with
  | BPush1 c =>
      match resizeCh b with
      | None => Some (set_browser BCheck (set_resizeCh (Some c) b))
      | Some _ => Some (set_browser (BPush2 c) b)
      end
  | BPush2 c => Some (set_browser (BPush3 c) (set_resizeCh None b))
  | BPush3 c =>
      match resizeCh b with
      | None => Some (set_browser BCheck (set_resizeCh (Some c) b))
      | Some _ => Some (set_browser BCheck b)
      end
  | _ => None
  end.

(** ** Actions *)

Inductive action :=
| CtrlLine (sent : bool) | CtrlEOF | CtrlQueue | CtrlBlock | CtrlTimeout | CtrlCancel
| BrowserCheck | BrowserDeadline | BrowserMsg (sent : bool) | BrowserErr | BrowserSend | BrowserSendCancel
| BrowserPush
| ResizeTake | ResizeTick | ResizeSend | ResizeSendCancel | ResizeStop
| WriterWrite (ok : bool) | WriterStop | WriterEnd
| StdinTake | StdinWrite (ok : bool) | StdinStop
| PingTick | PingOk | PingFail | PingStop
| ParentCancel
| MainTerminate | MainClose | MainJoin | MainReap.

Definition ctrlAct (a : action) (b : bridge) : option bridge :=
  match a, ctrl b with
  | CtrlLine sent, CReading =>
      match lines b with l :: rest => readLine sent l (set_lines rest b) | [] => None end
  | CtrlEOF, CReading =>
      Some (endCtrl (setClose (closeTelling closeGoingAway msgClosed "controller stream ended") b))
  | CtrlQueue, CEnqueue d | CtrlQueue, CBlocked d =>
      if hasRoom b then Some (set_ctrl CReading (queueOut (OutBinary d) b)) else None
  | CtrlBlock, CEnqueue d =>
      if hasRoom b || ctxDone b then None else Some (set_ctrl (CBlocked d) b)
  | CtrlTimeout, CBlocked d =>
      Some (endCtrl (setClose (closeWith closeGoingAway "client too slow")
              (emit (mkEvent "backpressure" (Z.of_nat (length d)) 0 0 0 0 []) b)))
  | CtrlCancel, CEnqueue _ | CtrlCancel, CBlocked _ => if ctxDone b then Some (endCtrl b) else None
  | _, _ => None
  end.

Definition browserAct (a : action) (b : bridge) : option bridge :=
  match a, browser b with
  | BrowserCheck, BCheck => Some (if ctxDone b then endBrowser b else set_browser BReading b)
  | BrowserDeadline, BCheck => if ctxDone b then None else Some (endBrowser b)
  | BrowserMsg sent, BReading =>
      match msgs b with m :: rest => handleMessage sent m (set_msgs rest b) | [] => None end
  | BrowserErr, BReading => Some (endBrowser (setClose (closeWith closeNormal "client disconnected") b))
  | BrowserSend, BSend c =>
      if stdinRoom b then Some (set_browser BCheck (queueStdin c b)) else None
  | BrowserSendCancel, BSend _ => if ctxDone b then Some (set_browser BCheck b) else None
  | BrowserPush, _ => pushResize b
  | _, _ => None
  end.

Definition resizeAct (a : action) (b : bridge) : option bridge :=
  match a, resizer b with
  | ResizeTake, RWait _ =>
      match resizeCh b with
      | Some c => Some (set_resizer (RWait (Some (resizeCommand (bc_Cols c) (bc_Rows c) (bc_CellWidthPx c) (bc_CellHeightPx c))))
                    (set_resizeCh None b))
      | None => None
      end
  | ResizeTick, RWait (Some c) => Some (set_resizer (RSend c) b)
  | ResizeTick, RWait None => Some b
  | ResizeSend, RSend c => if stdinRoom b then Some (set_resizer (RWait None) (queueStdin c b)) else None
  | ResizeSendCancel, RSend _ => if ctxDone b then Some (set_resizer (RWait None) b) else None
  | ResizeStop, RWait _ => if ctxDone b then Some (cancel (set_resizer RDone b)) else None
  | _, _ => None
  end.

Definition writerAct (a : action) (b : bridge) : option bridge :=
  match a, writer b, outCh b with
  | WriterWrite ok, WRun, m :: rest | WriterWrite ok, WDrain, m :: rest =>
      let b := set_outCh rest b in
      Some (if ok then set_wrote (wrote b ++ [m]) b else cancel (set_writer (WDone true) b))
  | WriterStop, WRun, _ => if ctxDone b then Some (set_writer WDrain b) else None
  | WriterEnd, WDrain, [] => Some (cancel (set_writer (WDone false) b))
  | _, _, _ => None
  end.

Definition stdinAct (a : action) (b : bridge) : option bridge :=
  match a, stdinL b with
  | StdinTake, LRun =>
      match stdinCh b with c :: rest => Some (set_stdinL (LEncode c) (set_stdinCh rest b)) | [] => None end
  | StdinWrite ok, LEncode c =>
      Some (if ok then set_stdinL LRun (set_stdinWrote (stdinWrote b ++ [c]) b)
            else cancel (set_stdinL LDone (setClose (closeWith closeInternalError "controller stdin closed") b)))
  | StdinStop, LRun => if ctxDone b then Some (cancel (set_stdinL LDone b)) else None
  | _, _ => None
  end.

Definition pingAct (a : action) (b : bridge) : option bridge :=
  match a, pingL b with
  | PingTick, PRun => Some (set_pingL PPinging b)
  | PingOk, PPinging => Some (set_pingL PRun b)
  | PingFail, PPinging => Some (cancel (set_pingL PDone (setClose (closeWith closeGoingAway "keepalive failed") b)))
  | PingStop, PRun => if ctxDone b then Some (cancel (set_pingL PDone b)) else None
  | _, _ => None
  end.

(** [finalClose] *)
Definition finalClose (b : bridge) : closeInfo :=
  match closing b with
  | None => closeWith closeNormal "session ended"
  | Some c => match cl_Reason c with
              | [] => mkClose (cl_Code c) (bytesOf "session ended") (cl_Final c)
              | _ => c
              end
  end.

Definition joined (b : bridge) : bool :=
  match ctrl b, stdinL b, resizer b, browser b, pingL b with
  | CDone, LDone, RDone, BDone, PDone => true
  | _, _, _, _, _ => false
  end.

Definition mainAct (a : action) (b : bridge) : option bridge :=
  match a, main b with
  | ParentCancel, _ => if ctxDone b then None else Some (cancel b)
  | MainTerminate, MWait => if ctxDone b then Some (set_main MStop b) else None
  | MainClose, MStop =>
      match writer b with
      | WDone _ => Some (set_main MClosed (set_socket (Some (finalClose b)) b))
      | _ => None
      end
  | MainJoin, MClosed => if joined b then Some (set_main MReap b) else None
  | MainReap, MReap => Some (set_main MDone b)
  | _, _ => None
  end.

Definition act (a : action) (b : bridge) : option bridge :=
  match a with
  | CtrlLine _ | CtrlEOF | CtrlQueue | CtrlBlock | CtrlTimeout | CtrlCancel => ctrlAct a b
  | BrowserCheck | BrowserDeadline | BrowserMsg _ | BrowserErr | BrowserSend | BrowserSendCancel
  | BrowserPush => browserAct a b
  | ResizeTake | ResizeTick | ResizeSend | ResizeSendCancel | ResizeStop => resizeAct a b
  | WriterWrite _ | WriterStop | WriterEnd => writerAct a b
  | StdinTake | StdinWrite _ | StdinStop => stdinAct a b
  | PingTick | PingOk | PingFail | PingStop => pingAct a b
  | ParentCancel | MainTerminate | MainClose | MainJoin | MainReap => mainAct a b
  end.

(** The bridge once the controller is launched: the opening message is queued and
    the goroutines start. *)
Definition start (ls : list (list byte)) (ms : list browserMessage) : bridge :=
  mkBridge newFilter 0 false [OutText (lifecycleMessage msgOpened [])] [] None false None
    CReading BCheck (RWait None) WRun LRun PRun MWait ls ms [] [] None [].

Fixpoint execute (acts : list action) (b : bridge) : option bridge :=
  match acts with
  | [] => Some b
  | a :: acts' => act a b ≫= execute acts'
  end.
End Bridge.

(** [Run] when the controller cannot be launched: one closed message, then the
    close frame. *)
Definition launchFailed : closeInfo := closeTelling closeInternalError msgClosed "controller launch failed".
