(* ===== verification/TerminalFacts.v ===== *)
(** * TerminalFacts: what the terminal bridge delivers and that it ends *)

From S2P Require Import Prelude GoStr GoText Ansi Terminal.

Section Facts.
Context {F : Type} `{TermFilter F}.
Context (decodeRecord : list byte -> option controllerRecord).
Context (decodeCommand : list byte -> option browserCommand).
Context (opts : Options).

#[local] Abbreviation bridge := (bridge (F:=F)).
#[local] Abbreviation act := (act decodeRecord decodeCommand opts).
#[local] Abbreviation execute := (execute decodeRecord decodeCommand opts).

(** ** Every action makes progress *)

Definition ctrlWeight (c : ctrlReader) : Z :=
  match c with CReading => 1 | CEnqueue _ => 5 | CBlocked _ => 4 | CDone => 0 end.
Definition browserWeight (r : browserReader) : Z :=
  match r with
  | BCheck => 2 | BReading => 1 | BSend _ => 5 | BPush1 _ => 12 | BPush2 _ => 11 | BPush3 _ => 10 | BDone => 0
  end.
Definition resizeWeight (r : resizeLoop) : Z :=
  match r with RWait None => 1 | RWait (Some _) => 6 | RSend _ => 5 | RDone => 0 end.
Definition writerWeight (w : writeLoop) : Z := match w with WRun => 2 | WDrain => 1 | WDone _ => 0 end.
Definition stdinWeight (l : stdinLoop) : Z := match l with LRun => 1 | LEncode _ => 2 | LDone => 0 end.
Definition pingWeight (l : pingLoop) : Z := match l with PRun | PPinging => 1 | PDone => 0 end.
Definition mainWeight (m : mainState) : Z :=
  match m with MWait => 4 | MStop => 3 | MClosed => 2 | MReap => 1 | MDone => 0 end.
Definition channelWeight (c : option browserCommand) : Z := match c with Some _ => 7 | None => 0 end.
Definition contextWeight (done : bool) : Z := if done then 0 else 1.
Definition len {A} (l : list A) : Z := Z.of_nat (length l).

(** How much is left to do: unread input dominates, then queued messages, then
    where each goroutine is. *)
Definition weight (b : bridge) : Z :=
  20 * len (lines b) + 30 * len (msgs b) + 2 * len (outCh b) + 2 * len (stdinCh b) +
  channelWeight (resizeCh b) + ctrlWeight (ctrl b) + browserWeight (browser b) +
  resizeWeight (resizer b) + writerWeight (writer b) + stdinWeight (stdinL b) + pingWeight (pingL b) +
  mainWeight (main b) + contextWeight (ctxDone b).

Lemma len_snoc {A} (l : list A) x : len (l ++ [x]) = len l + 1.
Proof. unfold len. rewrite length_app. simpl. lia. Qed.
Lemma len_cons {A} (l : list A) x : len (x :: l) = len l + 1.
Proof. unfold len. simpl. lia. Qed.
Lemma len_nonneg {A} (l : list A) : 0 <= len l.
Proof. unfold len. lia. Qed.

Lemma contextWeight_range d : contextWeight true = 0 /\ 0 <= contextWeight d <= 1.
Proof. by destruct d. Qed.

Lemma setClose_cases c (b : bridge) :
  setClose c b = b \/ (closing b = None /\ setClose c b = set_closing (Some c) b).
Proof. unfold setClose. destruct (closing b); auto. Qed.

Lemma sendText_cases sent m (b b' : bridge) :
  sendText opts sent m b = Some b' -> b' = b \/ (hasRoom opts b = true /\ b' = queueOut (OutText m) b).
Proof.
  unfold sendText. intros E. destruct sent; [destruct (hasRoom opts b); simplify_eq; auto|].
  destruct (ctxDone b || negb (hasRoom opts b)); simplify_eq. auto.
Qed.

(** Projections of an updated bridge. *)
Ltac fields :=
  cbn [flt lastSeq haveSeq outCh stdinCh resizeCh ctxDone closing ctrl browser resizer writer stdinL pingL
    main lines msgs wrote stdinWrote socket audit set_flt set_lastSeq set_haveSeq set_outCh set_stdinCh
    set_resizeCh set_ctxDone set_closing set_ctrl set_browser set_resizer set_writer set_stdinL
    set_pingL set_main set_lines set_msgs set_wrote set_stdinWrote set_socket set_audit emit cancel
    endCtrl endBrowser queueOut queueStdin offer handleControllerClosed handleInput pushResize] in *.

(** Case analysis on how an action was performed. *)
Ltac cases_on :=
  repeat match goal with
  | H : Some _ = Some _ |- _ => injection H as <-
  | H : None = Some _ |- _ => discriminate H
  | H : sendText _ _ _ _ = Some _ |- _ => apply sendText_cases in H as [->|[? ->]]
  | H : match ?x with _ => _ end = Some _ |- _ => destruct x eqn:?
  | H : (_ ≫= _) = Some _ |- _ => apply bind_Some in H as (? & ? & H)
  | H : (_ <$> _) = Some _ |- _ => apply fmap_Some in H as (? & ? & ->)
  end.

Ltac close_cases :=
  unfold handleControllerClosed, handleInput, offer in *; repeat case_match;
  repeat match goal with
  | |- context [setClose ?c ?b] =>
      let Hc := fresh in destruct (setClose_cases c b) as [Hc|[? Hc]]; rewrite Hc; clear Hc
  end.

(** What is left of a weight comparison once the fields are computed. *)
Ltac weigh :=
  unfold weight; fields; rewrite ?len_snoc, ?len_cons;
  repeat match goal with
  | |- context [contextWeight ?d] =>
      lazymatch d with true => change (contextWeight true) with 0 | false => change (contextWeight false) with 1 | _ =>
        let x := fresh "w" in let Hx := fresh "Hw" in
        pose proof (proj2 (contextWeight_range d)) as Hx; set (x := contextWeight d) in *; clearbody x end
  end;
  cbn [ctrlWeight browserWeight resizeWeight writerWeight stdinWeight pingWeight mainWeight channelWeight] in *; try lia.

Lemma handleFrame_weight sent r b b' :
  ctrl b = CReading -> handleFrame opts sent r b = Some b' -> weight b' <= weight b + 6.
Proof.
  intros Hc E. unfold handleFrame in E. cases_on; close_cases; weigh; rewrite ?Hc; weigh.
Qed.

Lemma readLine_weight sent l b b' :
  ctrl b = CReading -> readLine decodeRecord opts sent l b = Some b' -> weight b' <= weight b + 6.
Proof.
  intros Hc E. unfold readLine in E. cases_on; try (by eapply handleFrame_weight); close_cases; weigh; rewrite ?Hc; weigh.
Qed.

Lemma handleMessage_weight sent m b b' :
  browser b = BReading -> handleMessage decodeCommand opts sent m b = Some b' -> weight b' <= weight b + 13.
Proof.
  intros Hb E. unfold handleMessage, handleCommand in E. cases_on; close_cases; weigh; rewrite ?Hb; weigh.
Qed.

Lemma weight_lines b l rest : lines b = l :: rest -> weight (set_lines rest b) + 20 = weight b.
Proof. intros E. unfold weight. fields. rewrite E, len_cons. lia. Qed.

Lemma weight_msgs b m rest : msgs b = m :: rest -> weight (set_msgs rest b) + 30 = weight b.
Proof. intros E. unfold weight. fields. rewrite E, len_cons. lia. Qed.

Lemma ctrlAct_weight a b b' : ctrlAct decodeRecord opts a b = Some b' -> weight b' < weight b.
Proof.
  intros E. unfold ctrlAct in E. destruct a; try done; cases_on.
  1: { apply readLine_weight in E; [|done].
       match goal with H : lines _ = _ |- _ => apply weight_lines in H end. lia. }
  all: close_cases; weigh; repeat match goal with H : ctrl _ = _ |- _ => rewrite H end; weigh.
Qed.

Lemma browserAct_weight a b b' : browserAct decodeCommand opts a b = Some b' -> weight b' < weight b.
Proof.
  intros E. unfold browserAct in E. destruct a; try done; cases_on.
  all: try (unfold pushResize in E; cases_on).
  all: try match goal with H : handleMessage _ _ _ _ _ = Some _ |- _ =>
         apply handleMessage_weight in H; [|done];
         match goal with H : msgs _ = _ |- _ => apply weight_msgs in H end; lia end.
  all: close_cases; weigh;
    repeat match goal with H : browser _ = _ |- _ => rewrite H | H : resizeCh _ = _ |- _ => rewrite H end; weigh.
  all: unfold channelWeight; destruct (resizeCh b); lia.
Qed.

Ltac weigh_at :=
  close_cases; unfold weight; fields;
  repeat match goal with
  | H : ctrl _ = _ |- _ => rewrite H | H : browser _ = _ |- _ => rewrite H
  | H : resizer _ = _ |- _ => rewrite H | H : resizeCh _ = _ |- _ => rewrite H
  | H : writer _ = _ |- _ => rewrite H | H : outCh _ = _ |- _ => rewrite H
  | H : stdinL _ = _ |- _ => rewrite H | H : stdinCh _ = _ |- _ => rewrite H
  | H : pingL _ = _ |- _ => rewrite H | H : main _ = _ |- _ => rewrite H
  | H : ctxDone _ = _ |- _ => rewrite H
  end; cbn [resizeWeight]; try case_match; weigh.

(** The actions that may go on for ever: a ping that is answered, and a tick of the
    resize timer with nothing to send. *)
Definition idle (a : action) (b : bridge) : bool :=
  match a, resizer b with
  | PingTick, _ | PingOk, _ | ResizeTick, RWait None => true
  | _, _ => false
  end.

Lemma resizeAct_weight a b b' : resizeAct a b = Some b' ->
  if idle a b then weight b' = weight b else weight b' < weight b.
Proof.
  intros E. unfold resizeAct in E. unfold idle. destruct a; try done; cases_on; try done; try weigh_at.
  all: repeat case_match; try done; weigh_at.
Qed.

Lemma writerAct_weight a b b' : writerAct a b = Some b' -> weight b' < weight b.
Proof. intros E. unfold writerAct in E. destruct a; try done; cases_on; weigh_at. Qed.

Lemma stdinAct_weight a b b' : stdinAct a b = Some b' -> weight b' < weight b.
Proof. intros E. unfold stdinAct in E. destruct a; try done; cases_on; weigh_at. Qed.

Lemma pingAct_weight a b b' : pingAct a b = Some b' -> if idle a b then weight b' = weight b else weight b' < weight b.
Proof. intros E. unfold pingAct in E. unfold idle. destruct a; try done; cases_on; weigh_at. Qed.

Lemma mainAct_weight a b b' : mainAct a b = Some b' -> weight b' < weight b.
Proof. intros E. unfold mainAct in E. destruct a; try done; cases_on; weigh_at. Qed.

Lemma act_weight a b b' : act a b = Some b' -> if idle a b then weight b' = weight b else weight b' < weight b.
Proof.
  destruct a; cbn [Terminal.act]; intros E;
    first [by eapply ctrlAct_weight|by eapply browserAct_weight|by eapply (resizeAct_weight _ _ _ E)|
      by eapply writerAct_weight|by eapply stdinAct_weight|by eapply (pingAct_weight _ _ _ E)|by eapply mainAct_weight].
Qed.

(** How many actions of a run are not idle. *)
Fixpoint busy (acts : list action) (b : bridge) : Z :=
  match acts with
  | [] => 0
  | a :: acts' => (if idle a b then 0 else 1) + match act a b with Some b' => busy acts' b' | None => 0 end
  end.

Lemma execute_length acts b b' : execute acts b = Some b' -> busy acts b + weight b' <= weight b.
Proof.
  revert b. induction acts as [|a acts IH]; simpl; intros b E; [injection E as <-; lia|].
  apply bind_Some in E as (b1 & E1 & E). rewrite E1. apply IH in E. apply act_weight in E1. destruct (idle a b); lia.
Qed.

Lemma execute_inv (P : bridge -> Prop) acts b b' :
  (forall a b b', P b -> act a b = Some b' -> P b') -> P b -> execute acts b = Some b' -> P b'.
Proof.
  intros Hstep. revert b. induction acts as [|a acts IH]; simpl; intros b Hb E; [by injection E as <-|].
  apply bind_Some in E as (b1 & E1 & E). eauto.
Qed.

(** Unfolds one action completely. *)
Ltac act_cases E :=
  match type of E with Terminal.act _ _ _ ?a _ = _ => destruct a end;
  cbn [Terminal.act] in E;
  unfold ctrlAct, readLine, handleFrame, browserAct, handleMessage, handleCommand, pushResize,
    resizeAct, writerAct, stdinAct, pingAct, mainAct in E;
  cases_on; close_cases.

Lemma ctxDone_act a b b' : ctxDone b = true -> act a b = Some b' -> ctxDone b' = true.
Proof. intros Hd E. act_cases E; fields; auto; congruence. Qed.

(** ** The session ends *)

(** The stages of the main function: it leaves [MWait] only when the context is
    done, closes the socket only after the writer has stopped, and returns only
    when every goroutine has. *)
Definition staged (b : bridge) : Prop :=
  match main b with
  | MWait => socket b = None
  | MStop => ctxDone b = true /\ socket b = None
  | MClosed => ctxDone b = true /\ is_Some (socket b) /\ exists f, writer b = WDone f
  | MReap | MDone => ctxDone b = true /\ is_Some (socket b) /\ (exists f, writer b = WDone f) /\ joined b = true
  end.

Lemma joined_spec (b : bridge) :
  joined b = true <-> ctrl b = CDone /\ stdinL b = LDone /\ resizer b = RDone /\ browser b = BDone /\ pingL b = PDone.
Proof.
  unfold joined. destruct (ctrl b), (stdinL b), (resizer b), (browser b), (pingL b); naive_solver.
Qed.

(** What an action does to the main function and the socket. *)
Inductive mainStep (b b' : bridge) : Prop :=
| main_same : main b' = main b -> socket b' = socket b -> mainStep b b'
| main_terminate : main b = MWait -> main b' = MStop -> ctxDone b = true -> socket b' = socket b -> mainStep b b'
| main_close f : main b = MStop -> main b' = MClosed -> writer b = WDone f ->
    socket b' = Some (finalClose b) -> mainStep b b'
| main_join : main b = MClosed -> main b' = MReap -> joined b = true -> socket b' = socket b -> mainStep b b'
| main_reap : main b = MReap -> main b' = MDone -> socket b' = socket b -> mainStep b b'.

Lemma act_main a b b' : act a b = Some b' -> mainStep b b'.
Proof.
  intros E. act_cases E; try (by apply main_same; fields).
  - by apply main_terminate.
  - by eapply main_close.
  - by apply main_join.
  - by apply main_reap.
Qed.

Lemma act_writer_done a b b' f : writer b = WDone f -> act a b = Some b' -> writer b' = WDone f.
Proof. intros Hw E. act_cases E; fields; congruence. Qed.

Lemma act_joined a b b' : joined b = true -> act a b = Some b' -> joined b' = true.
Proof.
  rewrite !joined_spec. intros (H1 & H2 & H3 & H4 & H5) E.
  act_cases E; fields; try congruence; done.
Qed.

Lemma staged_act a b b' : staged b -> act a b = Some b' -> staged b'.
Proof.
  intros Hs E. pose proof (ctxDone_act a b b') as Hd. pose proof (act_joined a b b') as Hj.
  pose proof (fun f => act_writer_done a b b' f) as Hw. unfold staged in *.
  destruct (act_main _ _ _ E) as [Em Es|Em Em' Ec Es|f Em Em' Ef Es|Em Em' Ej Es|Em Em' Es];
    rewrite ?Em, ?Em', ?Es in *; [destruct (main b); naive_solver|naive_solver..].
Qed.

(** A goroutine that has returned has cancelled the context. *)
Definition cancelling (b : bridge) : Prop :=
  ctrl b = CDone \/ browser b = BDone \/ resizer b = RDone \/ stdinL b = LDone \/ pingL b = PDone \/
  (exists f, writer b = WDone f) -> ctxDone b = true.

Lemma cancelling_act a b b' : cancelling b -> act a b = Some b' -> cancelling b'.
Proof.
  unfold cancelling. intros Hc E. destruct (ctxDone b) eqn:Ed; [intros _; by eapply ctxDone_act|].
  assert (Hn : ctrl b ≠ CDone /\ browser b ≠ BDone /\ resizer b ≠ RDone /\ stdinL b ≠ LDone /\ pingL b ≠ PDone /\
    forall f, writer b ≠ WDone f) by naive_solver.
  destruct Hn as (H1 & H2 & H3 & H4 & H5 & H6). clear Hc.
  act_cases E; fields; try done; intros [?|[?|[?|[?|[?|[? ?]]]]]]; naive_solver congruence.
Qed.

(** The actions that must happen once they can: a select sees the done context, a
    write to the browser returns (its deadline has passed or will), and the main
    function goes on; of the controller, once it has been told to terminate and its
    stdin is closed, that its stdout ends, a write to its stdin returns and the wait
    for the process does; and of the socket, once it is closed, that a read and a ping
    fail. No line, message, timer or other remote event is among them. *)
Definition guaranteed (a : action) (b : bridge) : Prop :=
  match a with
  | CtrlEOF | StdinWrite _ => main b ≠ MWait
  | BrowserErr | PingFail => is_Some (socket b)
  | CtrlCancel | BrowserCheck | BrowserSendCancel | BrowserPush | ResizeSendCancel | ResizeStop
  | WriterWrite _ | WriterStop | WriterEnd | StdinStop | PingStop
  | MainTerminate | MainClose | MainJoin | MainReap => True
  | _ => False
  end.

Lemma goroutine_progress (b : bridge) :
  ctxDone b = true -> main b = MClosed -> is_Some (socket b) -> joined b = false ->
  exists a, guaranteed a b /\ is_Some (act a b).
Proof.
  intros Hd Hm Hk Hj. unfold joined in Hj.
  destruct (ctrl b) eqn:Ec.
  - exists CtrlEOF. simpl. rewrite Ec. split; [by rewrite Hm|eauto].
  - exists CtrlCancel. simpl. rewrite Ec, Hd. eauto.
  - exists CtrlCancel. simpl. rewrite Ec, Hd. eauto.
  - destruct (stdinL b) eqn:Es; [exists StdinStop; simpl; rewrite Es, Hd; eauto| |].
    { exists (StdinWrite false). simpl. rewrite Es. split; [by rewrite Hm|eauto]. }
    destruct (resizer b) eqn:Er; [exists ResizeStop|exists ResizeSendCancel|]; [simpl; rewrite Er, Hd; eauto..|].
    destruct (browser b) eqn:Eb.
    + exists BrowserCheck. simpl. rewrite Eb. eauto.
    + exists BrowserErr. simpl. rewrite Eb. eauto.
    + exists BrowserSendCancel. simpl. rewrite Eb, Hd. eauto.
    + exists BrowserPush. simpl. unfold pushResize. rewrite Eb. destruct (resizeCh b); eauto.
    + exists BrowserPush. simpl. unfold pushResize. rewrite Eb. eauto.
    + exists BrowserPush. simpl. unfold pushResize. rewrite Eb. destruct (resizeCh b); eauto.
    + destruct (pingL b) eqn:Ep; [exists PingStop|exists PingFail|done]; simpl; rewrite Ep, ?Hd; eauto.
Qed.

Lemma progress (b : bridge) :
  staged b -> ctxDone b = true -> main b ≠ MDone -> exists a, guaranteed a b /\ is_Some (act a b).
Proof.
  intros Hs Hd Hm. unfold staged in Hs. destruct (main b) eqn:Em; [| | | |done].
  - exists MainTerminate. simpl. rewrite Em, Hd. eauto.
  - destruct (writer b) eqn:Ew.
    + exists WriterStop. simpl. rewrite Ew, Hd. destruct (outCh b); eauto.
    + destruct (outCh b) eqn:Eo; [exists WriterEnd|exists (WriterWrite true)]; simpl; rewrite Ew, Eo; eauto.
    + exists MainClose. simpl. rewrite Em, Ew. eauto.
  - destruct Hs as (_ & Hk & _). destruct (joined b) eqn:Ej; [|by apply goroutine_progress].
    exists MainJoin. simpl. rewrite Em, Ej. eauto.
  - exists MainReap. simpl. rewrite Em. eauto.
Qed.

(** A run of such actions. *)
Fixpoint guaranteedRun (acts : list action) (b : bridge) : Prop :=
  match acts with
  | [] => True
  | a :: acts' => guaranteed a b /\ exists b', act a b = Some b' /\ guaranteedRun acts' b'
  end.

Lemma staged_start ls ms : staged (start ls ms).
Proof. done. Qed.

Lemma weight_nonneg b : 0 <= weight b.
Proof.
  unfold weight. pose proof (contextWeight_range (ctxDone b)) as [_ ?].
  assert (0 <= ctrlWeight (ctrl b)) by by destruct (ctrl b).
  assert (0 <= browserWeight (browser b)) by by destruct (browser b).
  assert (0 <= resizeWeight (resizer b)) by by destruct (resizer b) as [[]| |].
  assert (0 <= writerWeight (writer b)) by by destruct (writer b).
  assert (0 <= stdinWeight (stdinL b)) by by destruct (stdinL b).
  assert (0 <= pingWeight (pingL b)) by by destruct (pingL b).
  assert (0 <= mainWeight (main b)) by by destruct (main b).
  assert (0 <= channelWeight (resizeCh b)) by by destruct (resizeCh b).
  pose proof (len_nonneg (lines b)). pose proof (len_nonneg (msgs b)).
  pose proof (len_nonneg (outCh b)). pose proof (len_nonneg (stdinCh b)). lia.
Qed.

Lemma weight_start ls ms : weight (start ls ms) = 20 * len ls + 30 * len ms + 15.
Proof. unfold weight, start. fields. cbn [ctrlWeight browserWeight resizeWeight writerWeight stdinWeight pingWeight
  mainWeight channelWeight contextWeight]. unfold len at 3 4. simpl length. lia. Qed.

(** They are enough to end the session. *)
Lemma guaranteed_ends b : staged b -> ctxDone b = true ->
  exists acts b', guaranteedRun acts b /\ execute acts b = Some b' /\ main b' = MDone.
Proof.
  remember (Z.to_nat (weight b)) as n eqn:En. assert (Hn : (Z.to_nat (weight b) <= n)%nat) by lia. clear En.
  revert b Hn. induction n as [|n IH]; intros b Hn Hs Hd.
  all: assert (main b = MDone \/ main b ≠ MDone) as [Hm|Hm] by (destruct (main b); auto); [by exists [], b|].
  all: destruct (progress b Hs Hd Hm) as (a & Hg & b1 & E).
  all: assert (Hi : idle a b = false) by (unfold idle; destruct a; try done; by simpl in Hg).
  all: pose proof (act_weight a b b1 E) as Hw; rewrite Hi in Hw; pose proof (weight_nonneg b1).
  - lia.
  - destruct (IH b1) as (acts & b' & Hr & He & Hm'); [lia|by eapply staged_act|by eapply ctxDone_act|].
    exists (a :: acts), b'. split_and!; [simpl; eauto| |done]. simpl. by rewrite E.
Qed.


(** ** What the browser receives *)

(** The frame an action accepts: a frame record with a fresh sequence number and
    a decodable payload within the limit. *)
Definition acceptFrame (b : bridge) (l : list byte) : option (Z * list byte) :=
  r ← (match l with [] => None | _ => decodeRecord l end);
  if bool_decide (rec_Type r = recordFrame) && negb (haveSeq b && (rec_Seq r <=? lastSeq b)) then
    raw ← decodeBytes r;
    if MaxOutputFrameBytes opts <? Z.of_nat (length raw) then None else Some (rec_Seq r, raw)
  else None.

Definition frameOf (a : action) (b : bridge) : option (Z * list byte) :=
  match a, ctrl b, lines b with
  | CtrlLine _, CReading, l :: _ => acceptFrame b l
  | _, _, _ => None
  end.

Fixpoint frames (acts : list action) (b : bridge) : list (Z * list byte) :=
  match acts with
  | [] => []
  | a :: acts' => option_list (frameOf a b) ++ match act a b with Some b' => frames acts' b' | None => [] end
  end.

(** Filtering payloads one after the other. *)
Fixpoint filterChunks (f : F) (raws : list (list byte)) : F * list (list byte) :=
  match raws with
  | [] => (f, [])
  | r :: raws' =>
      let '(f1, o) := FilterOutput f r in
      let '(f2, os) := filterChunks f1 raws' in (f2, o :: os)
  end.

Lemma filterChunks_snoc f raws r :
  filterChunks f (raws ++ [r]) =
  let '(f1, os) := filterChunks f raws in let '(f2, o) := FilterOutput f1 r in (f2, os ++ [o]).
Proof.
  revert f. induction raws as [|x raws IH]; intros f; simpl; [by destruct (FilterOutput f r)|].
  destruct (FilterOutput f x) as [f1 o]. rewrite IH.
  destruct (filterChunks f1 raws) as [f2 os]. by destruct (FilterOutput f2 r).
Qed.

Definition nonEmpty (l : list (list byte)) : list (list byte) := List.filter (fun c => negb (bool_decide (c = []))) l.

Lemma nonEmpty_snoc l c : nonEmpty (l ++ [c]) = nonEmpty l ++ match c with [] => [] | _ => [c] end.
Proof. unfold nonEmpty. rewrite List.filter_app. simpl. by destruct c. Qed.

Definition binary (m : outMsg) : option (list byte) := match m with OutBinary d => Some d | OutText _ => None end.
Definition binaries (l : list outMsg) : list (list byte) := omap binary l.

Definition pendingChunk (c : ctrlReader) : list (list byte) :=
  match c with CEnqueue d | CBlocked d => [d] | _ => [] end.

Lemma binaries_app l l' : binaries (l ++ l') = binaries l ++ binaries l'.
Proof. apply omap_app. Qed.

(** What has been read of the controller, and where its chunks are. *)
Record streamed (b : bridge) (fs : list (Z * list byte)) : Prop := {
  st_filter : (filterChunks newFilter fs.*2).1 = flt b;
  st_fresh : haveSeq b = false -> fs = [];
  st_last : Forall (fun s => s <= lastSeq b) fs.*1;
  st_sorted : StronglySorted Z.lt fs.*1;
  st_size : Forall (fun raw => Z.of_nat (length raw) <= MaxOutputFrameBytes opts) fs.*2;
  st_written : binaries (wrote b) `prefix_of` nonEmpty (filterChunks newFilter fs.*2).2;
  st_queued : writer b ≠ WDone true -> exists lost,
    nonEmpty (filterChunks newFilter fs.*2).2 =
      binaries (wrote b) ++ binaries (outCh b) ++ pendingChunk (ctrl b) ++ lost /\
    (ctrl b ≠ CDone -> lost = [])
}.

Lemma streamed_start ls ms : streamed (start ls ms) [].
Proof. split; simpl; try done; try constructor. intros _. by exists []. Qed.

(** Nothing moved along the path of the chunks, except that the one in hand may
    have been dropped by the reader's end. *)
Lemma streamed_same b b' fs :
  streamed b fs -> flt b' = flt b -> haveSeq b' = haveSeq b -> lastSeq b' = lastSeq b -> wrote b' = wrote b ->
  (writer b' ≠ WDone true -> writer b ≠ WDone true /\ binaries (outCh b') = binaries (outCh b) /\
     (ctrl b' = CDone \/ (pendingChunk (ctrl b') = pendingChunk (ctrl b) /\ ctrl b ≠ CDone) \/ ctrl b' = ctrl b)) ->
  streamed b' fs.
Proof.
  intros [H1 H2 H3 H4 H5 H6 H7] E1 E2 E3 E4 Hq. split; rewrite ?E1, ?E2, ?E3, ?E4; auto.
  intros Hw. destruct (Hq Hw) as (Hw' & Ho & Hc). destruct (H7 Hw') as (lost & Hl & Hn). rewrite Ho.
  destruct Hc as [Hc|[[Hc Hd]|Hc]]; rewrite Hc.
  - exists (pendingChunk (ctrl b) ++ lost). split; [done|]. intros; congruence.
  - exists lost. split; [done|]. intros _. by apply Hn.
  - exists lost. done.
Qed.

Ltac stream_same Hs := eapply (streamed_same _ _ _ Hs); fields; rewrite ?binaries_app, ?app_nil_r; auto.

Lemma streamed_other a b b' fs :
  streamed b fs ->
  match a with CtrlLine _ | CtrlQueue | WriterWrite _ => False | _ => True end ->
  act a b = Some b' -> streamed b' fs.
Proof.
  intros Hs Ha E. act_cases E; try done; stream_same Hs; simpl; rewrite ?app_nil_r; intros; split_and!; auto; try congruence.
  all: right; left; split; congruence || (rewrite Heqc; done).
Qed.

Lemma streamed_write ok b b' fs : streamed b fs -> act (WriterWrite ok) b = Some b' -> streamed b' fs.
Proof.
  intros Hs E. cbn [Terminal.act] in E. unfold writerAct in E.
  assert (exists m rest, outCh b = m :: rest /\ writer b ≠ WDone true /\
    b' = let b := set_outCh rest b in
         if ok then set_wrote (wrote b ++ [m]) b else cancel (set_writer (WDone true) b))
    as (m & rest & Ho & Hw & ->).
  { destruct (writer b), (outCh b) as [|m rest]; simplify_eq; eexists _, _; by split_and!. }
  destruct Hs as [H1 H2 H3 H4 H5 H6 H7]. destruct (H7 Hw) as (lost & Hl & Hn). cbv zeta. destruct ok.
  - split; fields; auto; rewrite binaries_app.
    + exists (binaries rest ++ pendingChunk (ctrl b) ++ lost).
      by rewrite Hl, Ho, (binaries_app [m] rest : binaries (m :: rest) = _), <- !app_assoc.
    + intros _. exists lost. split; [|done]. by rewrite Hl, Ho, (binaries_app [m] rest : binaries (m :: rest) = _), <- !app_assoc.
  - split; fields; auto. done.
Qed.

Lemma streamed_queue b b' fs : streamed b fs -> act CtrlQueue b = Some b' -> streamed b' fs.
Proof.
  intros Hs E. cbn [Terminal.act] in E. unfold ctrlAct in E.
  assert (exists d, pendingChunk (ctrl b) = [d] /\ ctrl b ≠ CDone /\
    b' = set_ctrl CReading (queueOut (OutBinary d) b)) as (d & Hp & Hd & ->).
  { destruct (ctrl b); destruct (hasRoom opts b); simplify_eq; eexists; by split_and!. }
  destruct Hs as [H1 H2 H3 H4 H5 H6 H7]. split; fields; auto.
  intros Hw. destruct (H7 Hw) as (lost & Hl & Hn). exists lost. rewrite binaries_app, Hl, Hp. simpl.
  split; [by rewrite <- !app_assoc|]. auto.
Qed.

(** A record that is not an accepted frame leaves the path of the chunks alone;
    it may raise the last sequence number. *)
Lemma streamed_skip b b' fs :
  streamed b fs -> ctrl b = CReading -> flt b' = flt b -> wrote b' = wrote b -> writer b' = writer b ->
  outCh b' = outCh b -> (ctrl b' = CReading \/ ctrl b' = CDone) ->
  (haveSeq b' = haveSeq b /\ lastSeq b' = lastSeq b \/
   haveSeq b' = true /\ (haveSeq b = true -> lastSeq b <= lastSeq b')) ->
  streamed b' fs.
Proof.
  intros [H1 H2 H3 H4 H5 H6 H7] Hc E1 E2 E3 E4 Ec Hq. split; rewrite ?E1, ?E2, ?E3, ?E4; auto.
  - intros Hh. destruct Hq as [[Hq _]|[Hq _]]; [apply H2|]; congruence.
  - destruct Hq as [[_ ->]|[_ Hq]]; [done|]. destruct (haveSeq b) eqn:Eh.
    + specialize (Hq eq_refl). eapply Forall_impl; [exact H3|]. simpl. lia.
    + by rewrite (H2 eq_refl).
  - intros Hw. destruct (H7 Hw) as (lost & Hl & Hn). exists lost. rewrite Hc in Hl, Hn. simpl in Hl.
    rewrite Hn in Hl |- * by done. rewrite Hl. destruct Ec as [-> | ->]; done.
Qed.

Lemma streamed_accept b b1 fs s raw f o :
  streamed b fs -> ctrl b = CReading -> FilterOutput (flt b) raw = (f, o) ->
  haveSeq b && (s <=? lastSeq b) = false -> Z.of_nat (length raw) <= MaxOutputFrameBytes opts ->
  flt b1 = f -> haveSeq b1 = true -> lastSeq b1 = s -> wrote b1 = wrote b -> writer b1 = writer b ->
  binaries (outCh b1) = binaries (outCh b) -> ctrl b1 = match o with [] => CReading | _ => CEnqueue o end ->
  streamed b1 (fs ++ [(s, raw)]).
Proof.
  intros [H1 H2 H3 H4 H5 H6 H7] Hc Ef Hseq Hsz E1 E2 E3 E4 E5 E6 E7.
  assert (Hlt : Forall (fun x => x < s) fs.*1).
  { destruct (haveSeq b) eqn:Eh; [|by rewrite (H2 eq_refl)]. simpl in Hseq.
    eapply Forall_impl; [exact H3|]. simpl. lia. }
  assert (Ech : filterChunks newFilter (fs ++ [(s, raw)]).*2 = (f, (filterChunks newFilter fs.*2).2 ++ [o])).
  { rewrite fmap_app. simpl. rewrite filterChunks_snoc. destruct (filterChunks newFilter fs.*2) as [f0 os].
    simpl in H1. subst. by rewrite Ef. }
  split; rewrite ?Ech, ?E1, ?E2, ?E3, ?E4, ?E5, ?E6; simpl; auto.
  - done.
  - rewrite fmap_app. apply Forall_app. split; [|repeat constructor; simpl; lia].
    eapply Forall_impl; [exact Hlt|]. simpl. lia.
  - rewrite fmap_app. simpl. clear -H4 Hlt. induction H4 as [|x l _ IH Hx]; simpl; [repeat constructor|].
    inv Hlt. constructor; [auto|]. apply Forall_app. split; [done|]. by repeat constructor.
  - rewrite fmap_app. apply Forall_app. split; [done|]. by repeat constructor.
  - rewrite nonEmpty_snoc. by apply prefix_app_r.
  - intros Hw. destruct (H7 Hw) as (lost & Hl & Hn). rewrite Hc in Hl, Hn. rewrite (Hn ltac:(done)) in Hl.
    exists []. rewrite nonEmpty_snoc, Hl, E7. simpl. split; [|done].
    destruct o; simpl; rewrite ?app_nil_r; [done|]. by rewrite <- !app_assoc.
Qed.

Ltac stream_skip Hs :=
  eapply (streamed_skip _ _ _ Hs); fields; auto; try (right; split; [done|]; let Hh := fresh in intros Hh; rewrite Hh in *; simpl in *; lia).

Lemma streamed_line sent b b' fs :
  streamed b fs -> act (CtrlLine sent) b = Some b' -> streamed b' (fs ++ option_list (frameOf (CtrlLine sent) b)).
Proof.
  intros Hs E. cbn [Terminal.act] in E. unfold ctrlAct in E. unfold frameOf.
  destruct (ctrl b) eqn:Ec; try done. destruct (lines b) as [|l rest] eqn:El; [done|].
  unfold readLine in E. unfold acceptFrame. destruct l as [|c l]; simpl.
  { injection E as <-. rewrite app_nil_r. stream_same Hs. }
  destruct (decodeRecord (c :: l)) as [r|]; simpl.
  2: { injection E as <-. rewrite app_nil_r. stream_same Hs. }
  case_bool_decide as Ht; simpl.
  2: { rewrite app_nil_r. case_bool_decide; injection E as <-; [|stream_same Hs].
       close_cases; stream_skip Hs. }
  unfold handleFrame in E. fields. destruct (haveSeq b && (rec_Seq r <=? lastSeq b)) eqn:Eq; simpl.
  { injection E as <-. rewrite app_nil_r. close_cases; stream_skip Hs. }
  destruct (decodeBytes r) as [raw|]; simpl.
  2: { injection E as <-. rewrite app_nil_r. stream_skip Hs. }
  destruct (MaxOutputFrameBytes opts <? _) eqn:Em; simpl.
  { injection E as <-. rewrite app_nil_r. close_cases; stream_skip Hs. }
  destruct (FilterOutput (flt b) raw) as [f o] eqn:Ef. apply bind_Some in E as (b1 & E1 & [= <-]).
  assert (Hb1 : binaries (outCh b1) = binaries (outCh b) /\ b1 = set_outCh (outCh b1)
    (set_flt f (set_lastSeq (rec_Seq r) (set_haveSeq true (set_lines rest b))))).
  { destruct (_ || _); [apply sendText_cases in E1 as [->|[_ ->]]|injection E1 as <-]; fields;
      rewrite ?binaries_app, ?app_nil_r; done. }
  destruct Hb1 as [Ho ->]. eapply (streamed_accept b _ fs _ raw f o Hs Ec Ef Eq); unfold offer; destruct o; fields; auto; lia.
Qed.

Lemma streamed_act a b b' fs :
  streamed b fs -> act a b = Some b' -> streamed b' (fs ++ option_list (frameOf a b)).
Proof.
  intros Hs E. destruct a; try by apply streamed_line.
  all: cbn [frameOf option_list]; rewrite app_nil_r.
  all: first [exact (streamed_queue _ _ _ Hs E)|exact (streamed_write _ _ _ _ Hs E)|
    refine (streamed_other _ _ _ _ Hs _ E); exact I].
Qed.

Lemma streamed_execute acts b b' fs :
  streamed b fs -> execute acts b = Some b' -> streamed b' (fs ++ frames acts b).
Proof.
  revert b fs. induction acts as [|a acts IH]; simpl; intros b fs Hs E.
  { injection E as <-. by rewrite app_nil_r. }
  apply bind_Some in E as (b1 & E1 & E). rewrite E1, app_assoc. eapply IH; [|done]. by apply streamed_act.
Qed.

Lemma filterChunks_take f raws j :
  (filterChunks f (take j raws)).2 = take j (filterChunks f raws).2.
Proof.
  revert f j. induction raws as [|r raws IH]; intros f j; [by destruct j|].
  destruct j as [|j]; [done|]. simpl. destruct (FilterOutput f r) as [f1 o]. specialize (IH f1 j).
  destruct (filterChunks f1 raws), (filterChunks f1 (take j raws)). simpl in *. by rewrite IH.
Qed.

Lemma prefix_nonEmpty l outs : l `prefix_of` nonEmpty outs -> exists j, concat l = concat (take j outs).
Proof.
  revert l. induction outs as [|o outs IH]; intros l Hl.
  { apply prefix_nil_inv in Hl as ->. by exists 0%nat. }
  unfold nonEmpty in Hl. simpl in Hl. destruct o as [|c o]; simpl in Hl.
  - destruct (IH l Hl) as [j Hj]. by exists (S j).
  - destruct l as [|x l]; [by exists 0%nat|].
    pose proof (prefix_cons_inv_1 _ _ _ _ Hl) as ->. apply prefix_cons_inv_2 in Hl.
    destruct (IH l Hl) as [j Hj]. exists (S j). simpl. by rewrite Hj.
Qed.

(** Whatever the schedule, the bytes the browser has received are the filtered
    payloads of the first accepted frames, in order and nothing else. *)
Lemma received_filtered ls ms acts b :
  execute acts (start ls ms) = Some b ->
  let fs := frames acts (start ls ms) in
  StronglySorted Z.lt fs.*1 /\
  Forall (fun raw => Z.of_nat (length raw) <= MaxOutputFrameBytes opts) fs.*2 /\
  exists j, concat (binaries (wrote b)) = concat (filterChunks newFilter (take j fs.*2)).2.
Proof.
  intros E fs. pose proof (streamed_execute acts (start ls ms) b [] (streamed_start ls ms) E) as Hs.
  change ([] ++ frames acts (start ls ms)) with fs in Hs.
  destruct Hs as [_ _ _ Hsort Hsz Hp _]. split; [done|]. split; [done|].
  destruct (prefix_nonEmpty _ _ Hp) as [j Hj]. exists j. by rewrite filterChunks_take.
Qed.
(** ** What the controller receives *)

(** The input an action accepts from the browser. *)
Definition inputOf (a : action) (b : bridge) : option (list byte) :=
  match a, browser b, msgs b with
  | BrowserMsg _, BReading, MessageBinary d :: _ =>
      if (0 <? Z.of_nat (length d)) && (Z.of_nat (length d) <=? MaxInputBytes opts) then Some d else None
  | _, _, _ => None
  end.

Fixpoint inputs (acts : list action) (b : bridge) : list (list byte) :=
  match acts with
  | [] => []
  | a :: acts' => option_list (inputOf a b) ++ match act a b with Some b' => inputs acts' b' | None => [] end
  end.

(** The bytes an input command carries. *)
Definition inputBytes (c : controllerCommand) : option (list byte) :=
  if bool_decide (cmd_Type c = cmdInput) then stdDecode (cmd_Bytes c) else None.
Definition inputsOf (l : list controllerCommand) : list (list byte) := omap inputBytes l.

Lemma inputsOf_app l l' : inputsOf (l ++ l') = inputsOf l ++ inputsOf l'.
Proof. apply omap_app. Qed.

Definition pendingInput (r : browserReader) : list (list byte) :=
  match r with BSend c => inputsOf [c] | _ => [] end.

(** The command that is being written to the controller. *)
Definition encoding (l : stdinLoop) : list controllerCommand := match l with LEncode c => [c] | _ => [] end.

Definition resizing (r : resizeLoop) : list (list byte) :=
  match r with RWait (Some c) | RSend c => inputsOf [c] | _ => [] end.

Record typed (b : bridge) (ins : list (list byte)) : Prop := {
  ty_size : Forall (fun d => 0 < Z.of_nat (length d) <= MaxInputBytes opts) ins;
  ty_resize : resizing (resizer b) = [];
  ty_written : inputsOf (stdinWrote b) `prefix_of` ins;
  ty_queued : stdinL b ≠ LDone -> exists lost,
    ins = inputsOf (stdinWrote b) ++ inputsOf (encoding (stdinL b)) ++ inputsOf (stdinCh b) ++ pendingInput (browser b) ++ lost /\
    (lost = [] \/ (ctxDone b = true /\ (browser b = BCheck \/ browser b = BDone)))
}.

Lemma typed_start ls ms : typed (start ls ms) [].
Proof. split; simpl; try done. intros _. exists []. auto. Qed.

Lemma typed_same b b' ins :
  typed b ins -> resizing (resizer b') = [] -> stdinWrote b' = stdinWrote b ->
  (stdinL b' ≠ LDone -> stdinL b' = stdinL b /\ inputsOf (stdinCh b') = inputsOf (stdinCh b) /\
     (ctxDone b = true -> ctxDone b' = true) /\
     (pendingInput (browser b') = pendingInput (browser b) /\
        (browser b = BDone -> browser b' = BDone) /\
        (ctxDone b = true -> browser b = BCheck -> browser b' = BCheck \/ browser b' = BDone))) ->
  typed b' ins.
Proof.
  intros [H1 H2 H3 H4] E1 E2 Hq. split; rewrite ?E2; auto.
  intros Hr. destruct (Hq Hr) as (Hr' & Ec & Hd & Ep & Hb1 & Hb2). rewrite Hr' in Hr. destruct (H4 Hr) as (lost & El & Hl).
  exists lost. rewrite Hr', Ec, Ep. split; [done|].
  destruct Hl as [Hl|[Hc [Hl|Hl]]]; [by left|right; auto..].
Qed.

Lemma inputsOf_resize c : inputsOf [resizeCommand (bc_Cols c) (bc_Rows c) (bc_CellWidthPx c) (bc_CellHeightPx c)] = [].
Proof. done. Qed.

Ltac typed_same Hs :=
  eapply (typed_same _ _ _ Hs); fields; try exact (ty_resize _ _ Hs); rewrite ?inputsOf_app; auto;
  intros; try split_and!; auto; intros; try congruence; auto.

Lemma typed_other a b b' ins :
  typed b ins ->
  match a with BrowserMsg _ | BrowserSend | BrowserSendCancel | StdinTake | StdinWrite _ | ResizeSend => False | _ => True end ->
  act a b = Some b' -> typed b' ins.
Proof.
  intros Hs Ha E. act_cases E; try done; typed_same Hs.
  all: try (match goal with H : browser _ = _ |- _ => rewrite H in *; done end).
  pose proof (ty_resize _ _ Hs) as Hr. by rewrite Heqr in Hr.
Qed.

(** A command joins the queue of the controller's stdin. *)
Lemma typed_queue b b' ins c :
  typed b ins -> resizing (resizer b') = [] -> stdinWrote b' = stdinWrote b -> stdinL b' = stdinL b ->
  stdinCh b' = stdinCh b ++ [c] ->
  (browser b = BSend c /\ browser b' = BCheck \/ inputsOf [c] = [] /\ browser b' = browser b /\ ctxDone b' = ctxDone b) ->
  typed b' ins.
Proof.
  intros [H1 H2 H3 H4] E1 E2 E3 E4 Hq. split; rewrite ?E2; auto.
  rewrite E3. intros Hr. destruct (H4 Hr) as (lost & El & Hl). exists lost. rewrite E4, (inputsOf_app (stdinCh b)).
  destruct Hq as [[Eb Eb']|(Ec & Eb' & Ed)]; rewrite Eb'.
  - rewrite Eb in El, Hl. simpl pendingInput. rewrite El. split; [by rewrite <- !app_assoc|].
    destruct Hl as [->|[_ [Hl|Hl]]]; [by left|done..].
  - rewrite Ec, Ed, app_nil_r. auto.
Qed.

Lemma typed_send b b' ins : typed b ins -> act BrowserSend b = Some b' -> typed b' ins.
Proof.
  intros Hs E. cbn [Terminal.act] in E. unfold browserAct in E. destruct (browser b) eqn:Eb; try done.
  destruct (stdinRoom b); [injection E as <-|done].
  eapply (typed_queue _ _ _ c Hs); fields; auto. exact (ty_resize _ _ Hs).
Qed.

Lemma typed_resize_send b b' ins : typed b ins -> act ResizeSend b = Some b' -> typed b' ins.
Proof.
  intros Hs E. cbn [Terminal.act] in E. unfold resizeAct in E. destruct (resizer b) eqn:Er; try done.
  destruct (stdinRoom b); [injection E as <-|done]. pose proof (ty_resize _ _ Hs) as Hr. rewrite Er in Hr.
  eapply (typed_queue _ _ _ c Hs); fields; auto.
Qed.

Lemma typed_send_cancel b b' ins : typed b ins -> act BrowserSendCancel b = Some b' -> typed b' ins.
Proof.
  intros [H1 H2 H3 H4] E. cbn [Terminal.act] in E. unfold browserAct in E. destruct (browser b) eqn:Eb; try done.
  destruct (ctxDone b) eqn:Ed; [injection E as <-|done]. split; fields; auto.
  intros Hr. destruct (H4 Hr) as (lost & El & _). exists (inputsOf [c] ++ lost).
  split; [done|]. right. auto.
Qed.

Lemma typed_stdin_take b b' ins : typed b ins -> act StdinTake b = Some b' -> typed b' ins.
Proof.
  intros [H1 H2 H3 H4] E. cbn [Terminal.act] in E. unfold stdinAct in E.
  destruct (stdinL b) eqn:Er; [|done..]. destruct (stdinCh b) as [|c rest] eqn:Ec; [done|].
  destruct (H4 ltac:(done)) as (lost & El & Hl). injection E as <-. split; fields; auto.
  intros _. exists lost. split; [|done]. cbn [encoding] in *.
  by rewrite El, (inputsOf_app [c] rest : inputsOf (c :: rest) = _), <- !app_assoc.
Qed.

Lemma typed_stdin_write ok b b' ins : typed b ins -> act (StdinWrite ok) b = Some b' -> typed b' ins.
Proof.
  intros [H1 H2 H3 H4] E. cbn [Terminal.act] in E. unfold stdinAct in E.
  destruct (stdinL b) as [|c|] eqn:Er; [done| |done].
  destruct (H4 ltac:(done)) as (lost & El & Hl). cbn [encoding] in El. injection E as <-. destruct ok.
  - split; fields; auto; rewrite inputsOf_app.
    + exists (inputsOf (stdinCh b) ++ pendingInput (browser b) ++ lost). by rewrite El, <- !app_assoc.
    + intros _. exists lost. split; [|done]. by rewrite El, <- !app_assoc.
  - close_cases; split; fields; auto; done.
Qed.

Lemma inputBytes_input d : inputBytes (inputBytesCommand d) = Some d.
Proof. unfold inputBytes, inputBytesCommand. simpl. apply std_roundtrip. Qed.

(** A browser message: an input is taken in hand, anything else is not input. *)
Lemma typed_message sent b b' ins :
  typed b ins -> act (BrowserMsg sent) b = Some b' -> typed b' (ins ++ option_list (inputOf (BrowserMsg sent) b)).
Proof.
  intros Hs E. cbn [Terminal.act] in E. unfold browserAct in E. unfold inputOf.
  destruct (browser b) eqn:Eb; try done. destruct (msgs b) as [|[d|d] rest] eqn:Em; [done|..].
  - cbn [option_list]. rewrite app_nil_r. unfold handleMessage, handleCommand in E.
    cases_on; close_cases; typed_same Hs; rewrite ?Eb; done.
  - injection E as <-. unfold handleInput. fields.
    destruct (MaxInputBytes opts <? Z.of_nat (length d)) eqn:El.
    + replace (_ && _) with false by lia. cbn [option_list]. rewrite app_nil_r.
      close_cases; typed_same Hs; rewrite ?Eb; done.
    + destruct d as [|c d]; [cbn [option_list]; rewrite app_nil_r; typed_same Hs; rewrite ?Eb; done|].
      set (dd := c :: d) in *. assert (0 < Z.of_nat (length dd)) by (simpl; lia).
      replace (_ && _) with true by lia. cbn [option_list].
      destruct Hs as [H1 H2 H3 H4]. split; fields; auto.
      * apply Forall_app. split; [done|]. repeat constructor; lia.
      * by apply prefix_app_r.
      * intros Hr. destruct (H4 Hr) as (lost & El' & Hl). rewrite Eb in El', Hl.
        destruct Hl as [->|[_ [?|?]]]; [|done..]. exists []. simpl. rewrite inputBytes_input.
        split; [|by left]. rewrite El'. simpl. by rewrite <- !app_assoc.
Qed.

Lemma typed_act a b b' ins :
  typed b ins -> act a b = Some b' -> typed b' (ins ++ option_list (inputOf a b)).
Proof.
  intros Hs E. destruct a; try by apply typed_message.
  all: cbn [inputOf option_list]; rewrite app_nil_r.
  all: first [exact (typed_send _ _ _ Hs E)|exact (typed_resize_send _ _ _ Hs E)|exact (typed_send_cancel _ _ _ Hs E)
    |exact (typed_stdin_take _ _ _ Hs E)|exact (typed_stdin_write _ _ _ _ Hs E)|refine (typed_other _ _ _ _ Hs _ E); exact I].
Qed.

Lemma typed_execute acts b b' ins :
  typed b ins -> execute acts b = Some b' -> typed b' (ins ++ inputs acts b).
Proof.
  revert b ins. induction acts as [|a acts IH]; simpl; intros b ins Hs E.
  { injection E as <-. by rewrite app_nil_r. }
  apply bind_Some in E as (b1 & E1 & E). rewrite E1, app_assoc. eapply IH; [|done]. by apply typed_act.
Qed.

(** C26: Keystrokes reach the controller intact. For every interleaving, the bytes
    carried by the input commands written to the controller so far are the first
    of the inputs accepted from the browser, in the order they were typed,
    unaltered; every accepted input is non-empty and within the input limit; and while
    the session runs, every accepted input that is not written yet is being written,
    queued or in the hands of the browser's reader. *)
Theorem terminal_input_intact (ls : list (list byte)) (ms : list browserMessage) (acts : list action) (b : bridge) :
  execute acts (start ls ms) = Some b ->
  inputsOf (stdinWrote b) `prefix_of` inputs acts (start ls ms) /\
  Forall (fun d => 0 < Z.of_nat (length d) <= MaxInputBytes opts) (inputs acts (start ls ms)) /\
  (stdinL b ≠ LDone -> ctxDone b = false ->
   inputs acts (start ls ms) =
     inputsOf (stdinWrote b) ++ inputsOf (encoding (stdinL b)) ++ inputsOf (stdinCh b) ++ pendingInput (browser b)).
Proof.
  intros E. pose proof (typed_execute acts (start ls ms) b [] (typed_start ls ms) E) as Hs.
  change ([] ++ inputs acts (start ls ms)) with (inputs acts (start ls ms)) in Hs.
  destruct Hs as [Hsz _ Hw Hq]. split_and!; try done. intros Hr Hd.
  destruct (Hq Hr) as (lost & El & [->|[Hc _]]); [|congruence]. by rewrite El, app_nil_r.
Qed.
(** ** Closing *)

Lemma closing_act a b b' c : closing b = Some c -> act a b = Some b' -> closing b' = Some c.
Proof. intros Hc E. act_cases E; fields; congruence. Qed.

Lemma finalClose_closing (b b' : bridge) : closing b' = closing b -> finalClose b' = finalClose b.
Proof. unfold finalClose. by intros ->. Qed.

Definition decided (c : closeInfo) (b : bridge) : Prop :=
  closing b = Some c /\ (socket b = None \/ socket b = Some (finalClose b)).

Lemma decided_act c a b b' : decided c b -> act a b = Some b' -> decided c b'.
Proof.
  intros [Hc Hs] E. pose proof (closing_act a b b' c Hc E) as Hc'. split; [done|].
  rewrite (finalClose_closing b b') by congruence.
  destruct (act_main _ _ _ E) as [_ Es|_ _ _ Es|f _ _ _ Es|_ _ _ Es|_ _ Es]; rewrite Es; auto.
Qed.

(** The first reason to close is the one the browser is told. Once some goroutine
    has recorded a close code, reason and final message, no later failure
    replaces it: whatever happens next, if the socket is closed it is closed with
    that code, that message and (unless it is empty) that reason. *)
Theorem first_close_wins (ls : list (list byte)) (ms : list browserMessage) (acts acts' : list action)
    (b b' : bridge) (c : closeInfo) :
  execute acts (start ls ms) = Some b -> closing b = Some c -> socket b = None ->
  execute acts' b = Some b' ->
  closing b' = Some c /\
  (main b' = MDone ->
   socket b' = Some (match cl_Reason c with
                     | [] => mkClose (cl_Code c) (bytesOf "session ended") (cl_Final c) | _ => c end)).
Proof.
  intros E0 Hc Hs E. assert (Hd : decided c b').
  { eapply execute_inv; [apply decided_act| |exact E]. split; auto. }
  assert (Hst : staged b').
  { eapply execute_inv; [apply staged_act| |exact E].
    eapply execute_inv; [apply staged_act|apply staged_start|exact E0]. }
  destruct Hd as [Hc' Hs']. split; [done|]. intros Hm. unfold staged in Hst. rewrite Hm in Hst.
  destruct Hst as (_ & [x Hx] & _). destruct Hs' as [Hs'|Hs']; [congruence|]. rewrite Hs'.
  unfold finalClose. rewrite Hc'. by destruct (cl_Reason c).
Qed.

(** ** Bounds *)

(** Queues never exceed their capacity, and the last step of replacing a pending
    resize finds the channel empty. *)
Definition bounded (b : bridge) : Prop :=
  len (outCh b) <= OutQueue opts /\ (length (stdinCh b) <= stdinQueue)%nat /\
  (forall c, browser b = BPush3 c -> resizeCh b = None).

Lemma bounded_act a b b' : bounded b -> act a b = Some b' -> bounded b'.
Proof.
  intros (H1 & H2 & H3) E. unfold bounded, len in *. act_cases E; fields; unfold hasRoom, stdinRoom in *; fields;
    rewrite ?length_app; simpl length; split_and!; auto; try congruence; try lia.
  all: repeat match goal with H : (_ <? _)%nat = true |- _ => apply Nat.ltb_lt in H end; simpl length in *; lia.
Qed.

(** Memory is bounded and resizes are not lost. In every reachable state the
    output queue holds at most [OutQueue] messages and the stdin queue at most 64
    commands, however slow either side is; and when the browser reader finishes
    replacing a pending resize, the newest one is in the channel. *)
Theorem bridge_bounded (ls : list (list byte)) (ms : list browserMessage) (acts : list action) (b : bridge) :
  0 < OutQueue opts -> execute acts (start ls ms) = Some b ->
  len (outCh b) <= OutQueue opts /\ (length (stdinCh b) <= stdinQueue)%nat /\
  forall c, browser b = BPush1 c \/ browser b = BPush3 c ->
    exists b', act BrowserPush b = Some b' /\
      (browser b' = BCheck /\ resizeCh b' = Some c \/ browser b = BPush1 c /\ browser b' = BPush2 c).
Proof.
  intros Ho E. assert (Hb : bounded b).
  { eapply execute_inv; [apply bounded_act| |exact E]. split_and!; [|simpl; unfold stdinQueue; lia|done].
    unfold len. simpl. lia. }
  destruct Hb as (H1 & H2 & H3). split_and!; [done..|]. intros c Hc. simpl. unfold pushResize.
  destruct Hc as [Hc|Hc]; rewrite Hc.
  - destruct (resizeCh b) eqn:Er; eexists; (split; [reflexivity|]); fields; auto.
  - rewrite (H3 c Hc). eexists. split; [reflexivity|]. fields. auto.
Qed.
End Facts.

Lemma ansi_chunks f raws :
  concat (filterChunks (F:=ANSIFilter) f raws).2 = (run (withLimits f) (concat raws)).2.
Proof.
  revert f. induction raws as [|r raws IH]; intros f; simpl; [done|].
  unfold ansiFilterOutput. rewrite Filter_run, run_app.
  destruct (run (withLimits f) r) as [f1 o] eqn:E. specialize (IH f1).
  destruct (filterChunks f1 raws) as [f2 os]. simpl in *. rewrite IH.
  pose proof (run_withLimits f r) as Hw. rewrite E in Hw. simpl in Hw. rewrite Hw.
  by destruct (run f1 (concat raws)).
Qed.

(** C25: The browser only ever receives filtered output. For every interleaving of
    the bridge's goroutines, every slow or failing client and every controller
    output: the frames accepted have strictly increasing sequence numbers and
    payloads within the limit, and the bytes sent to the browser so far are
    exactly what the ANSI filter makes of the payloads of the first few of them,
    in order, so they consist of plain text and allowed sequences only. *)
Theorem terminal_output_safe (decodeRecord : list byte -> option controllerRecord)
    (decodeCommand : list byte -> option browserCommand) (opts : Options)
    (ls : list (list byte)) (ms : list browserMessage) (acts : list action) (b : bridge (F:=ANSIFilter)) :
  execute decodeRecord decodeCommand opts acts (start ls ms) = Some b ->
  let fs := frames decodeRecord decodeCommand opts acts (start (F:=ANSIFilter) ls ms) in
  StronglySorted Z.lt fs.*1 /\
  Forall (fun raw => Z.of_nat (length raw) <= MaxOutputFrameBytes opts) fs.*2 /\
  exists j f r, Filter NewANSIFilter (concat (take j fs.*2)) = Some (f, concat (binaries (wrote b))) /\
    safe defaultMaxSeqBytes 0 (concat (binaries (wrote b))) r.
Proof.
  intros E fs. destruct (received_filtered _ _ _ _ _ _ _ E) as (H1 & H2 & j & Hj). fold fs in H1, H2, Hj.
  split; [done|]. split; [done|]. exists j. rewrite Hj, ansi_chunks, Filter_run.
  change (withLimits newFilter) with NewANSIFilter. change (withLimits NewANSIFilter) with NewANSIFilter.
  destruct (run_safe_out NewANSIFilter (concat (take j fs.*2)) 0 wf_new) as (r & Hs & _).
  { unfold pending; simpl; lia. }
  destruct (run NewANSIFilter _) as [f out]. exists f, r. done.
Qed.

(** ** A session: one frame, one keystroke, then the browser leaves *)

Definition sampleDecode (l : list byte) : option controllerRecord :=
  match l with b :: s => Some (mkRecord recordFrame (bz b) 80 24 true (stdEncode s) []) | [] => None end.
Definition sampleCommand (_ : list byte) : option browserCommand := None.
Definition sampleOptions : Options := applyDefaults (mkOptions 0 0 0).
(** Text followed by a clipboard write the filter removes. *)
Definition sampleLines : list (list byte) := [[x01; x68; x69; x1b; x5d; x35; x32; x3b; x63; x07]].
Definition sampleMsgs : list browserMessage := [MessageBinary [x79]].
Definition sampleTraffic : list action :=
  [CtrlLine true; CtrlQueue; WriterWrite true; WriterWrite true; WriterWrite true;
   BrowserCheck; BrowserMsg false; BrowserSend; StdinTake; StdinWrite true; PingTick; PingOk; ResizeTick; BrowserCheck].
Definition sampleEnd : list action :=
  [MainTerminate; WriterStop; WriterEnd; MainClose; CtrlEOF; StdinStop; ResizeStop; PingStop; MainJoin; MainReap].

Definition sampleStart : bridge (F:=ANSIFilter) := start sampleLines sampleMsgs.
Definition sampleRun (acts : list action) : bridge (F:=ANSIFilter) :=
  default sampleStart (execute sampleDecode sampleCommand sampleOptions acts sampleStart).

Lemma sample_execute acts :
  is_Some (execute sampleDecode sampleCommand sampleOptions acts sampleStart) ->
  execute sampleDecode sampleCommand sampleOptions acts (start sampleLines sampleMsgs) = Some (sampleRun acts).
Proof. intros [b E]. unfold sampleRun. fold sampleStart. by rewrite E. Qed.

Lemma terminal_output_safe_witness :
  binaries (wrote (sampleRun sampleTraffic)) = [[x68; x69]] /\
  exists r, safe defaultMaxSeqBytes 0 (concat (binaries (wrote (sampleRun sampleTraffic)))) r.
Proof.
  split; [vm_compute; reflexivity|].
  destruct (terminal_output_safe sampleDecode sampleCommand sampleOptions sampleLines sampleMsgs
    sampleTraffic (sampleRun sampleTraffic)) as (_ & _ & _ & _ & r & _ & H).
  - apply sample_execute. vm_compute. eauto.
  - exists r. exact H.
Defined.


Lemma terminal_input_intact_witness :
  inputsOf (stdinWrote (sampleRun sampleTraffic)) = [[x79]] /\
  inputsOf (stdinWrote (sampleRun sampleTraffic)) `prefix_of`
    inputs sampleDecode sampleCommand sampleOptions sampleTraffic sampleStart.
Proof.
  split; [vm_compute; reflexivity|].
  apply (terminal_input_intact sampleDecode sampleCommand sampleOptions sampleLines sampleMsgs
    sampleTraffic (sampleRun sampleTraffic)).
  apply sample_execute. vm_compute. eauto.
Defined.

(** The browser leaves, and then the controller's stream ends: the first is told. *)
Lemma first_close_wins_witness :
  let b := sampleRun (sampleTraffic ++ [BrowserErr]) in
  socket (sampleRun (sampleTraffic ++ [BrowserErr] ++ sampleEnd)) =
  Some (closeWith closeNormal "client disconnected").
Proof.
  intros b. apply (first_close_wins sampleDecode sampleCommand sampleOptions sampleLines sampleMsgs
    (sampleTraffic ++ [BrowserErr]) sampleEnd b (sampleRun (sampleTraffic ++ [BrowserErr] ++ sampleEnd))
    (closeWith closeNormal "client disconnected")).
  - apply sample_execute. vm_compute. eauto.
  - vm_compute. reflexivity.
  - vm_compute. reflexivity.
  - vm_compute. reflexivity.
  - vm_compute. reflexivity.
Defined.

Lemma bridge_bounded_witness : len (outCh (sampleRun sampleTraffic)) <= OutQueue sampleOptions.
Proof.
  apply (bridge_bounded sampleDecode sampleCommand sampleOptions sampleLines sampleMsgs
    sampleTraffic (sampleRun sampleTraffic)).
  - vm_compute. reflexivity.
  - apply sample_execute. vm_compute. eauto.
Defined.
