(* ===== verification/Attach.v ===== *)
(** * Attach: opening a terminal (internal/server/terminalroute.go) and the
    command that controls it (internal/terminal/controller.go)

    The request that opens a terminal passes the guards of [handleTerminal] in
    their order; only then is the connection upgraded and the bridge of Terminal.v
    run for the pane. The takeover confirmation is the one of Stores.v, issued by
    the confirmation endpoint of Mutations.v. *)

From stdpp Require Import pretty.
From S2P Require Import Prelude GoStr Session Stores Json Mutations Interpret Runs Terminal.

(** ** The controller command *)

Record Spec := mkSpecT { sp_PaneID : string; sp_Cols : Z; sp_Rows : Z; sp_Takeover : bool }.

Record ExecLauncher := mkLauncher { BinPath : string; SocketPath : string }.

(** [Launch]: the program, its arguments and its environment, or an error. *)
Definition Launch (l : ExecLauncher) (environ : list string) (spec : Spec)
    : option (string * list string * list string) :=
  if bool_decide (BinPath l = "") then None
  else
    let args := ["terminal"; "session"; "control"; sp_PaneID spec; "--cols"; pretty (sp_Cols spec);
                 "--rows"; pretty (sp_Rows spec)] ++ (if sp_Takeover spec then ["--takeover"] else []) in
    let env := environ ++
      (if bool_decide (SocketPath l = "") then [] else ["HERDR_SOCKET_PATH=" +:+ SocketPath l]) in
    Some (BinPath l, args, env).

(** ** The request *)

Definition defaultTermCols : Z := 80.
Definition defaultTermRows : Z := 24.
Definition maxTermDim : Z := 10000.

Definition queryDim (v : string) (def : Z) : Z :=
  if bool_decide (v = "") then def
  else match Atoi v with
       | None => def
       | Some n => if n <=? 0 then def else if maxTermDim <? n then maxTermDim else n
       end.

Definition takeoverDetail (takeover : bool) : string := if takeover then "takeover" else "attach".

(** The audit entry of a terminal; a bridge event has its byte count and reason. *)
Record terminalAudit := mkTerminalAudit {
  ta_Event : string; ta_Subject : string; ta_SessionID : string; ta_Resource : string;
  ta_Bytes : Z; ta_Detail : list byte
}.

(** What happened to the request: rejected with a response, or upgraded and
    bridged to a controller for a spec. *)
Inductive terminalOutcome := TRejected (status : Z) (code message : string) | TBridged (spec : Spec).

Section Handler.
(** SHA-256 in hexadecimal and the canonical form of parameters. *)
Context (canonical : json -> option (list byte)) (hash : list byte -> string).

(** The asserted generation; an absent one is zero. *)
Definition assertedGeneration (q : query) : option Z :=
  if bool_decide (q "expected_generation" = "") then Some 0 else ParseUint (q "expected_generation").

Definition takeoverAsked (q : query) : bool :=
  bool_decide (q "takeover" = "1") || bool_decide (q "takeover" = "true").

(** The hash of the empty takeover parameters; the error of [normalizeParams] is
    ignored and leaves no bytes. *)
Definition takeoverHash : string := hash (default [] (normalizeParams canonical None)).

(** The confirmation of a takeover: the store after it and whether to go on. *)
Definition confirmTakeover (who : caller) (paneID : string) (q : query) (gen now : Z) (nonces : nonceStore)
    : nonceStore * bool :=
  if takeoverAsked q then
    if bool_decide (q "confirmation" = "") then (nonces, false)
    else consume nonces now (q "confirmation") opTakeover paneID gen (c_session who) takeoverHash
  else (nonces, true).

Definition terminalSpec (paneID : string) (q : query) : Spec :=
  mkSpecT paneID (queryDim (q "cols") defaultTermCols) (queryDim (q "rows") defaultTermRows) (takeoverAsked q).

Definition eventAudit (who : caller) (paneID : string) (ev : Event) : terminalAudit :=
  mkTerminalAudit ("terminal." +:+ ev_Kind ev) "" (c_session who) paneID (ev_Bytes ev) (ev_Reason ev).

(** [launcher] and [filter] say whether these dependencies are injected, [now] is
    the clock reading of the consumption, [gens] the engine's later answer to
    [Generation], [accepted] whether the upgrade succeeded and [events] the events
    the bridge reports while it runs. *)
Definition handleTerminal (launcher filter : bool) (who : caller) (paneID : string) (q : query) (now : Z)
    (gens : string -> option Z) (accepted : bool) (events : list Event) (nonces : nonceStore)
    : nonceStore * terminalOutcome * list terminalAudit :=
  let reject nonces status code message := (nonces, TRejected status code message, []) in
  if bool_decide (paneID = "") then reject nonces 400 "bad_request" "missing pane id"
  else if negb launcher then reject nonces 503 "unavailable" "terminal launcher unavailable"
  else if negb filter then reject nonces 503 "unavailable" "terminal filtering unavailable"
  else match assertedGeneration q with
  | None => reject nonces 400 "bad_request" "invalid generation"
  | Some expectedGen =>
      if expectedGen =? 0
      then reject nonces 400 "generation_stale" "expected_generation is required to attach a terminal"
      else
        let '(nonces, confirmed) := confirmTakeover who paneID q expectedGen now nonces in
        if negb confirmed then reject nonces 403 "confirmation_invalid" "takeover confirmation invalid or expired"
        else match gens paneID with
        | None => reject nonces 409 "generation_stale" "pane no longer exists"
        | Some gen =>
            if negb (gen =? expectedGen) then reject nonces 409 "generation_stale" "pane changed; refresh and retry"
            else if negb accepted then reject nonces 400 "bad_request" "websocket upgrade failed"
            else
              (nonces, TBridged (terminalSpec paneID q),
               mkTerminalAudit "terminal.open" (c_subject who) (c_session who) paneID 0
                   (bytesOf (takeoverDetail (takeoverAsked q)))
                 :: map (eventAudit who paneID) events ++
                 [mkTerminalAudit "terminal.close" "" (c_session who) paneID 0 []])
        end
  end.
End Handler.

(** ** Facts *)

Lemma queryDim_range v def : 0 < def <= maxTermDim -> 0 < queryDim v def <= maxTermDim.
Proof.
  unfold queryDim, maxTermDim. intros Hd. case_bool_decide; [done|].
  destruct (Atoi v) as [n|]; [|done]. destruct (n <=? 0) eqn:E; [done|]. destruct (10000 <? n) eqn:E'; lia.
Qed.

Section Facts.
Context (canonical : json -> option (list byte)) (hash : list byte -> string).

Definition takeoverBinding (who : caller) (paneID : string) (gen : Z) : binding :=
  mkBinding opTakeover paneID gen (c_session who) (takeoverHash canonical hash).

(** The stored nonce a takeover needs. *)
Definition takeoverConfirmed (who : caller) (paneID : string) (q : query) (gen now : Z) (nonces : nonceStore) : Prop :=
  takeoverAsked q = true -> q "confirmation" ≠ "" /\
    exists n, nonces !! q "confirmation" = Some n /\ now <= n_expiresAt n /\ bindingOf n = takeoverBinding who paneID gen.

Lemma confirmTakeover_cases who paneID q gen now nonces nonces' ok :
  confirmTakeover canonical hash who paneID q gen now nonces = (nonces', ok) ->
  (ok = true <-> takeoverConfirmed who paneID q gen now nonces) /\
  nonces' = (if takeoverAsked q && negb (bool_decide (q "confirmation" = "")) then delete (q "confirmation") nonces else nonces).
Proof.
  unfold confirmTakeover, takeoverConfirmed. destruct (takeoverAsked q); cbn [andb].
  2:{ intros [= <- <-]. naive_solver. }
  case_bool_decide as E; cbn [negb]. { intros [= <- <-]. naive_solver. }
  intros H. pose proof (consume_cases nonces now (q "confirmation") (takeoverBinding who paneID gen)) as Hc.
  cbn [b_operation b_resource b_generation b_session b_params takeoverBinding] in Hc. rewrite H in Hc.
  destruct Hc as [-> Hc]. split; [|done]. rewrite Hc. naive_solver.
Qed.

(** A request that gets as far as its confirmation: it names a pane, the launcher and
    the filter are there, it asserts a generation (a 64-bit number, not zero), and it
    asks for a takeover under a confirmation. *)
Definition takeoverPresented (launcher filter : bool) (paneID : string) (q : query) : Prop :=
  paneID ≠ "" /\ launcher = true /\ filter = true /\
  (exists gen, ParseUint (q "expected_generation") = Some gen /\ gen ≠ 0) /\
  takeoverAsked q = true /\ q "confirmation" ≠ "".

(** What becomes of the confirmations, whatever the outcome. *)
Lemma handleTerminal_nonces launcher filter accepted who paneID q now gens events nonces nonces' outcome audits :
  handleTerminal canonical hash launcher filter who paneID q now gens accepted events nonces = (nonces', outcome, audits) ->
  (takeoverPresented launcher filter paneID q -> nonces' = delete (q "confirmation") nonces) /\
  (~ takeoverPresented launcher filter paneID q -> nonces' = nonces).
Proof.
  unfold handleTerminal, assertedGeneration, takeoverPresented.
  case_bool_decide as Hp; [naive_solver|]. destruct launcher; [cbn [negb]|naive_solver].
  destruct filter; [cbn [negb]|naive_solver].
  case_bool_decide as Hq; [rewrite Hq; change (ParseUint "") with (@None Z); naive_solver|].
  destruct (ParseUint _) as [g|] eqn:Eg; [|naive_solver].
  destruct (g =? 0) eqn:E0; [apply Z.eqb_eq in E0; naive_solver|]. apply Z.eqb_neq in E0.
  destruct (confirmTakeover _ _ _ _ _ _ _ _) as [nonces1 ok] eqn:Ec.
  destruct (confirmTakeover_cases _ _ _ _ _ _ _ _ Ec) as [_ Hn].
  intros H. assert (nonces' = nonces1) as -> by (repeat case_match; by simplify_eq). rewrite Hn.
  destruct (takeoverAsked q); cbn [andb]; [|naive_solver]. case_bool_decide; naive_solver.
Qed.

(** C9: A terminal is opened for exactly the pane generation the client saw. The
    bridge runs exactly when the output filter and the launcher are there, the
    request asserts a generation (a 64-bit number, not zero) that is the pane's
    current one, a takeover presents an unexpired confirmation bound to this
    pane, generation and session, and the upgrade succeeded; it then runs for that
    pane with dimensions from 1 to 10000, taking over only when asked. Otherwise
    nothing is launched and nothing audited. Whatever the outcome, the confirmation is
    spent exactly when the request got as far as presenting it: with a pane, the launcher
    and the filter there, and a generation asserted, it asks for a takeover under a
    non-empty confirmation; a generation that turns out stale, or an upgrade that fails,
    does not give it back, and no other confirmation is touched. *)
Theorem handleTerminal_exact (launcher filter accepted : bool) (who : caller) (paneID : string) (q : query) (now : Z)
    (gens : string -> option Z) (events : list Event) (nonces : nonceStore) :
  let '(nonces', outcome, audits) :=
    handleTerminal canonical hash launcher filter who paneID q now gens accepted events nonces in
  (forall spec, outcome = TBridged spec <->
     paneID ≠ "" /\ launcher = true /\ filter = true /\ accepted = true /\ spec = terminalSpec paneID q /\
     exists gen, ParseUint (q "expected_generation") = Some gen /\ gen ≠ 0 /\ gens paneID = Some gen /\
       takeoverConfirmed who paneID q gen now nonces) /\
  (forall spec, outcome = TBridged spec ->
     sp_PaneID spec = paneID /\ 0 < sp_Cols spec <= 10000 /\ 0 < sp_Rows spec <= 10000 /\
     sp_Takeover spec = takeoverAsked q /\ length audits = S (S (length events)) /\
     Forall (fun a => ta_SessionID a = c_session who /\ ta_Resource a = paneID) audits /\
     (takeoverAsked q = true -> nonces' !! q "confirmation" = None)) /\
  (forall status code message, outcome = TRejected status code message -> audits = []) /\
  (takeoverPresented launcher filter paneID q -> nonces' = delete (q "confirmation") nonces) /\
  (~ takeoverPresented launcher filter paneID q -> nonces' = nonces).
Proof.
  destruct (handleTerminal _ _ _ _ _ _ _ _ _ _ _ _) as [[nonces' outcome] audits] eqn:Eh.
  pose proof (handleTerminal_nonces _ _ _ _ _ _ _ _ _ _ _ _ _ Eh) as Hpres. revert Eh.
  unfold handleTerminal, assertedGeneration.
  case_bool_decide as Hp; [naive_solver|]. destruct launcher; [cbn [negb]|naive_solver].
  destruct filter; [cbn [negb]|naive_solver].
  case_bool_decide as Hq; [rewrite Hq; change (ParseUint "") with (@None Z); naive_solver|].
  destruct (ParseUint _) as [g|] eqn:Eg; [|naive_solver].
  destruct (g =? 0) eqn:E0; [apply Z.eqb_eq in E0; naive_solver|]. apply Z.eqb_neq in E0.
  destruct (confirmTakeover _ _ _ _ _ _ _ _) as [nonces1 ok] eqn:Ec.
  destruct (confirmTakeover_cases _ _ _ _ _ _ _ _ Ec) as [Hc Hn].
  destruct ok; cbn [negb]; [|naive_solver].
  destruct (gens paneID) as [gen|] eqn:Egen; [|naive_solver].
  destruct (Z.eqb_spec gen g) as [->|Hne]; cbn [negb]; [|naive_solver].
  destruct accepted; cbn [negb]; [|naive_solver]. intros [= <- <- <-]. split_and!; [| |done|apply Hpres|apply Hpres].
  { intros spec. naive_solver. }
  intros spec [= <-]. unfold terminalSpec; cbn [sp_PaneID sp_Cols sp_Rows sp_Takeover].
  split_and!; try done; try (apply queryDim_range; done).
  - simpl. rewrite length_app, length_map. simpl. lia.
  - constructor; [done|]. apply Forall_app. split; [|by repeat constructor].
    apply Forall_forall. intros a Ha. apply list_elem_of_In, in_map_iff in Ha as (ev & <- & _). done.
  - intros Ht. rewrite Hn, Ht. cbn [andb]. destruct (proj1 Hc eq_refl Ht) as [Hne _].
    rewrite bool_decide_false by done. apply lookup_delete_eq.
Qed.
End Facts.

(** ** From the confirmation endpoint to the takeover *)

Section Composition.
Context {M : Type} `{HerdrMutator M}.
Context (canonical : json -> option (list byte)) (hash : list byte -> string).

Definition takeoverRequest (paneID : string) (gen : Z) : confirmationRequest := mkConfReq opTakeover paneID gen None.

(** A successful confirmation request stores exactly this nonce. *)
Lemma confirmations_takeover cfg who gens token t1 t2 paneID gen (s s' : relay M) tok exp :
  handleConfirmations canonical hash cfg who gens token t1 t2 (Some (takeoverRequest paneID gen)) s =
    (s', RConfirmation tok exp) ->
  tok = token /\ exp = t1 + ConfirmationTTL cfg /\ paneID ≠ "" /\ gens paneID = Some gen /\
  exists n, r_nonces s' !! token = Some n /\ n_expiresAt n = exp /\ bindingOf n = takeoverBinding canonical hash who paneID gen.
Proof.
  unfold handleConfirmations, takeoverRequest. cbn [f_Operation f_ResourceID f_ExpectedGeneration f_Params].
  change (assoc opTakeover confirmable) with (Some (Mutations.confirmed "pane_id")). cbv iota beta.
  cbn [Mutations.confirmed resourceField altResourceField].
  change (generationChecked _) with true. unfold Session.nonempty.
  rewrite (bool_decide_false ("pane_id" = "")) by done. cbn [negb andb].
  case_bool_decide as Hp; [done|]. change (paramString None "pane_id") with "".
  rewrite bool_decide_true by done. cbn [negb andb]. change (divergentAlt None "" paneID) with false. cbv iota.
  destruct (gens paneID) as [g|] eqn:Eg; [|done].
  destruct (Z.eqb_spec gen g) as [->|]; cbn [negb]; [|done].
  cbn [normalizeParams]. cbn [issue]. intros [= <- <- <-]. split_and!; try done.
  eexists. split; [apply lookup_insert_eq|]. split; [done|]. reflexivity.
Qed.

(** A confirmed takeover is possible exactly once. After the confirmation
    endpoint answers a takeover request with a token, the same session attaches
    with it while the confirmation lasts and the pane keeps its generation; the
    token is then spent, and every later attempt to use it is refused
    without launching anything, whoever presents it. *)
Theorem confirm_then_takeover (cfg : Config) (who who2 : caller) (gens gens1 gens2 : string -> option Z)
    (token : string) (t1 t2 now now2 : Z) (paneID : string) (gen : Z) (s s' : relay M) (tok : string) (exp : Z)
    (q : query) (ev ev2 : list Event) (a2 : bool) :
  handleConfirmations canonical hash cfg who gens token t1 t2 (Some (takeoverRequest paneID gen)) s =
    (s', RConfirmation tok exp) ->
  q "confirmation" = tok -> tok ≠ "" -> takeoverAsked q = true ->
  ParseUint (q "expected_generation") = Some gen -> gen ≠ 0 -> gens1 paneID = Some gen ->
  now <= exp ->
  let '(nonces1, outcome1, _) :=
    handleTerminal canonical hash true true who paneID q now gens1 true ev (r_nonces s') in
  let '(_, outcome2, audits2) :=
    handleTerminal canonical hash true true who2 paneID q now2 gens2 a2 ev2 nonces1 in
  outcome1 = TBridged (terminalSpec paneID q) /\ sp_Takeover (terminalSpec paneID q) = true /\
  outcome2 = TRejected 403 "confirmation_invalid" "takeover confirmation invalid or expired" /\ audits2 = [].
Proof.
  intros Hc Hq Ht Hask Hg Hg0 Hgen Hnow.
  destruct (confirmations_takeover _ _ _ _ _ _ _ _ _ _ _ _ Hc) as (-> & -> & Hp & _ & n & Hn & He & Hb).
  unfold handleTerminal, assertedGeneration.
  rewrite !(bool_decide_false (paneID = "")) by done. cbn [negb].
  rewrite !(bool_decide_false (q "expected_generation" = "")) by (intros E; by rewrite E in Hg).
  rewrite Hg. destruct (Z.eqb_spec gen 0); [done|].
  destruct (confirmTakeover canonical hash who _ _ _ _ _) as [nonces1 ok] eqn:E1.
  destruct (confirmTakeover_cases _ _ _ _ _ _ _ _ _ _ E1) as [Hok Hd].
  rewrite Hask, bool_decide_false in Hd by congruence. cbn [negb andb] in Hd.
  assert (ok = true) as ->.
  { apply Hok. intros _. rewrite Hq. split; [done|]. exists n. split_and!; [done|lia|done]. }
  cbn [negb]. rewrite Hgen, Z.eqb_refl. cbn [negb].
  destruct (confirmTakeover canonical hash who2 _ _ _ _ nonces1) as [nonces2 ok2] eqn:E2.
  destruct (confirmTakeover_cases _ _ _ _ _ _ _ _ _ _ E2) as [Hok2 _].
  destruct ok2; cbn [negb].
  { destruct (proj1 Hok2 eq_refl Hask) as (_ & n2 & Hn2 & _). rewrite Hd, lookup_delete_eq in Hn2. done. }
  split_and!; try done.
Qed.
End Composition.

(** ** Concrete values *)

Example dims :
  (queryDim "" 80, queryDim "0" 80, queryDim "-3" 80, queryDim "120" 80, queryDim "99999" 80, queryDim "9x" 80) =
  (80, 80, 80, 120, 10000, 80).
Proof. by vm_compute. Qed.

Example controller_command :
  Launch (mkLauncher "/usr/bin/herdr" "/run/h.sock") ["PATH=/bin"] (mkSpecT "p1" 120 40 true) =
  Some ("/usr/bin/herdr",
    ["terminal"; "session"; "control"; "p1"; "--cols"; "120"; "--rows"; "40"; "--takeover"],
    ["PATH=/bin"; "HERDR_SOCKET_PATH=/run/h.sock"]).
Proof. by vm_compute. Qed.

Definition sampleTakeoverQuery (k : string) : string :=
  if bool_decide (k = "takeover") then "1" else if bool_decide (k = "confirmation") then "tok2"
  else if bool_decide (k = "expected_generation") then "3" else "".

Definition sampleConfirmed : relay okHerdr * response :=
  handleConfirmations sampleCanonical sampleHash sampleCfg sampleCaller sampleGens "tok2" 100 101
    (Some (takeoverRequest "p1" 3)) (mkRelay ∅ ∅ (mkOk) [] []).

Lemma confirm_then_takeover_witness :
  sampleConfirmed.2 = RConfirmation "tok2" 30000000100 /\
  (handleTerminal sampleCanonical sampleHash true true sampleCaller "p1" sampleTakeoverQuery 200 sampleGens true []
     (r_nonces sampleConfirmed.1)).1.2 = TBridged (mkSpecT "p1" 80 24 true).
Proof.
  split; [by vm_compute|].
  assert (E : sampleConfirmed = (sampleConfirmed.1, RConfirmation "tok2" 30000000100)) by by vm_compute.
  pose proof (confirm_then_takeover sampleCanonical sampleHash sampleCfg sampleCaller sampleCaller sampleGens sampleGens
    sampleGens "tok2" 100 101 200 300 "p1" 3 (mkRelay ∅ ∅ mkOk [] []) sampleConfirmed.1 "tok2" 30000000100
    sampleTakeoverQuery [] [] true E) as Ht.
  destruct (handleTerminal sampleCanonical sampleHash true true sampleCaller "p1" sampleTakeoverQuery 200 sampleGens true []
    (r_nonces sampleConfirmed.1)) as [[n1 o1] a1].
  destruct (handleTerminal sampleCanonical sampleHash true true sampleCaller "p1" sampleTakeoverQuery 300 sampleGens true []
    n1) as [[n2 o2] a2].
  destruct Ht as [H1 _]; try done; try lia; try (by vm_compute).
Defined.
