(* ===== verification/Events.v ===== *)
(** * Events: the event stream of internal/server/events.go and the subscription
    loop of internal/integration/adapters.go

    One goroutine drains the engine subscription and broadcasts each snapshot to
    every registered client; one handler per WebSocket takes snapshots from its
    client's one-place channel and writes them. They run concurrently: the
    broadcaster holds the hub's read lock for a whole broadcast, so clients are
    added and removed only between broadcasts, but handlers take from their channel
    at any moment, also between the three selects of [enqueue]. The model is a
    machine of these atomic steps; a schedule is a list of actions. *)

From S2P Require Import Prelude.

Section Hub.
(** The snapshots as the adapter hands them to the hub. *)
Context {Snap : Type}.

(** ** State *)

(** [eventClient]: the channel of capacity one and the closed [done] channel. *)
Record eventClient := mkClient { ch : option Snap; done : bool }.
Definition newEventClient : eventClient := mkClient None false.

(** [stop] closes [done] once. *)
Definition stop (c : eventClient) : eventClient := mkClient (ch c) true.

(** Where the handler of a connection is: before its first frame, in its select,
    writing a snapshot, in its deferred clean-up, returned. *)
Inductive handlerAt := HFirst | HSelect | HSend (s : Snap) | HLeave | HReturned.

(** A connection. [joined] is the length of the broadcast history when it was
    added, [taken] the snapshots its handler received from the channel and [wrote]
    the frames written to the socket. *)
Record conn := mkConn {
  client : eventClient; ctxDone : bool; member : bool; at_ : handlerAt;
  joined : nat; taken : list Snap; wrote : list Snap
}.

Definition setClient (v : eventClient) (c : conn) : conn :=
  mkConn v (ctxDone c) (member c) (at_ c) (joined c) (taken c) (wrote c).
Definition setAt (v : handlerAt) (c : conn) : conn :=
  mkConn (client c) (ctxDone c) (member c) v (joined c) (taken c) (wrote c).
Definition setCh (v : option Snap) (c : conn) : conn := setClient (mkClient v (done (client c))) c.

(** The position in [enqueue]: before the first, second or third select. *)
Inductive enqueueAt := EPut | EDrop | EPut2.

(** [batch]: what the adapter drained and has not broadcast; [current]: the
    broadcast in progress with the clients left; [history]: every snapshot
    broadcast so far. *)
Record hub := mkHub {
  conns : gmap nat conn; batch : list Snap;
  current : option (Snap * list nat * enqueueAt); history : list Snap
}.

Definition newHub : hub := mkHub ∅ [] None [].

Definition setConns (v : gmap nat conn) (h : hub) : hub :=
  mkHub v (batch h) (current h) (history h).
Definition setCurrent (v : option (Snap * list nat * enqueueAt)) (h : hub) : hub :=
  mkHub (conns h) (batch h) v (history h).

(** The keys of the hub's client map. *)
Definition clients (h : hub) : gset nat := dom (filter (fun kv => member kv.2 = true) (conns h)).
Definition count (h : hub) : nat := size (clients h).

(** ** The broadcaster *)

(** One select of [enqueue] and the position after it; [None] when it returns. *)
Definition enqueueStep (s : Snap) (e : enqueueAt) (c : option Snap) : option Snap * option enqueueAt :=
  match e, c with
  | EPut, None => (Some s, None)
  | EPut, Some _ => (c, Some EDrop)
  | EDrop, _ => (None, Some EPut2)
  | EPut2, None => (Some s, None)
  | EPut2, Some _ => (c, None)
  end.

(** The next step of the broadcast in progress; it ends, releasing the lock, when
    no client is left. *)
Definition broadcastStep (h : hub) : option hub :=
  match current h with
  | Some (s, i :: todo, e) =>
      c ← conns h !! i;
      let '(v, next) := enqueueStep s e (ch (client c)) in
      let h := setConns (<[i := setCh v c]> (conns h)) h in
      Some (setCurrent (Some match next with Some e' => (s, i :: todo, e') | None => (s, todo, EPut) end) h)
  | Some (_, [], _) => Some (setCurrent None h)
  | None => None
  end.

(** ** The handler *)

(** Everything that may happen. [ADrain] is one round of the adapter loop,
    [ABroadcast] takes the read lock and fixes the order in which the map is
    ranged over; [ok] says whether a write succeeded. *)
Inductive action :=
| ADrain (l : list Snap)
| ABroadcast (order : list nat)
| AEnqueue
| AAccept (i : nat)
| AFirst (i : nat) (snapshot : Snap) (ok : bool)
| ATake (i : nat)
| ASent (i : nat) (ok : bool)
| APingFail (i : nat)
| AStop (i : nat)
| AReadErr (i : nat)
| AReturn (i : nat)
| ABaseDone (i : nat)
| AClose.

Definition locked (h : hub) : bool := match current h with Some _ => true | None => false end.

Definition handle (i : nat) (f : conn -> option conn) (h : hub) : option hub :=
  c ← conns h !! i; c' ← f c; Some (setConns (<[i := c']> (conns h)) h).

Definition first (s : Snap) (ok : bool) (c : conn) : option conn :=
  match at_ c with
  | HFirst => Some (if ok then setAt HSelect (mkConn (client c) (ctxDone c) (member c) HFirst (joined c) (taken c) [s])
                    else setAt HLeave c)
  | _ => None
  end.

Definition take_ (c : conn) : option conn :=
  match at_ c, ch (client c) with
  | HSelect, Some s =>
      Some (mkConn (mkClient None (done (client c))) (ctxDone c) (member c) (HSend s) (joined c) (taken c ++ [s]) (wrote c))
  | _, _ => None
  end.

Definition sent (ok : bool) (c : conn) : option conn :=
  match at_ c with
  | HSend s =>
      Some (if ok then mkConn (client c) (ctxDone c) (member c) HSelect (joined c) (taken c) (wrote c ++ [s])
            else setAt HLeave c)
  | _ => None
  end.

(** The select leaves on a failed ping, and on [done] or a cancelled context. *)
Definition pingFail (c : conn) : option conn := match at_ c with HSelect => Some (setAt HLeave c) | _ => None end.
Definition stopped (c : conn) : option conn :=
  match at_ c with HSelect => if ctxDone c || done (client c) then Some (setAt HLeave c) else None | _ => None end.

(** The reader goroutine stops the client and cancels the context. *)
Definition readErr (c : conn) : option conn :=
  Some (mkConn (stop (client c)) true (member c) (at_ c) (joined c) (taken c) (wrote c)).
Definition baseDone (c : conn) : option conn :=
  Some (mkConn (client c) true (member c) (at_ c) (joined c) (taken c) (wrote c)).

(** The deferred clean-up: removed from the hub and stopped. *)
Definition return_ (c : conn) : option conn :=
  match at_ c with
  | HLeave => Some (mkConn (stop (client c)) (ctxDone c) false HReturned (joined c) (taken c) (wrote c))
  | _ => None
  end.

(** [hub.close]: every client stopped and deleted. Cancelling the subscription ends
    the adapter loop at one of its selects; the machine lets the loop go on or not. *)
Definition evict (c : conn) : conn :=
  if member c then mkConn (stop (client c)) (ctxDone c) false (at_ c) (joined c) (taken c) (wrote c) else c.

Definition act (a : action) (h : hub) : option hub :=
  match a with
  | ADrain l =>
      if locked h then None
      else match batch h with [] => Some (mkHub (conns h) l None (history h)) | _ => None end
  | ABroadcast order =>
      if locked h || negb (bool_decide (NoDup order /\ list_to_set order = clients h)) then None
      else match batch h with
           | s :: rest => Some (mkHub (conns h) rest (Some (s, order, EPut)) (history h ++ [s]))
           | [] => None
           end
  | AEnqueue => broadcastStep h
  | AAccept i =>
      if locked h then None
      else match conns h !! i with
           | Some _ => None
           | None => Some (setConns (<[i := mkConn newEventClient false true HFirst (length (history h)) [] []]> (conns h)) h)
           end
  | AFirst i s ok => handle i (first s ok) h
  | ATake i => handle i take_ h
  | ASent i ok => handle i (sent ok) h
  | APingFail i => handle i pingFail h
  | AStop i => handle i stopped h
  | AReadErr i => handle i readErr h
  | AReturn i => if locked h then None else handle i return_ h
  | ABaseDone i => handle i baseDone h
  | AClose => if locked h then None else Some (mkHub (evict <$> conns h) (batch h) None (history h))
  end.

Fixpoint execute (acts : list action) (h : hub) : option hub :=
  match acts with [] => Some h | a :: acts' => act a h ≫= execute acts' end.

(** ** Invariant *)

(** What the client has received or can still take. *)
Definition view (c : conn) : list Snap := taken c ++ option_list (ch (client c)).

(** The client has everything up to [hist]: in order, and up to its newest. *)
Definition caughtUp (hist : list Snap) (c : conn) : Prop :=
  view c `sublist_of` drop (joined c) hist /\ last (view c) = last (drop (joined c) hist).

Definition delivery (h : hub) (i : nat) (c : conn) : Prop :=
  (joined c <= length (history h))%nat /\
  match current h with
  | Some (s, todo, e) =>
      exists hist, history h = hist ++ [s] /\
      if bool_decide (i ∈ todo)
      then (joined c <= length hist)%nat /\ view c `sublist_of` drop (joined c) hist /\
           (head todo = Some i -> e = EPut2 -> ch (client c) = None)
      else if member c then caughtUp (history h) c else view c `sublist_of` drop (joined c) (history h)
  | None => if member c then caughtUp (history h) c else view c `sublist_of` drop (joined c) (history h)
  end.

(** The frames written: the first snapshot, then what was taken, in order. *)
Definition written (c : conn) : Prop :=
  match at_ c with
  | HFirst => wrote c = [] /\ taken c = []
  | HSelect => exists s0, wrote c = s0 :: taken c
  | HSend s => exists s0 t, taken c = t ++ [s] /\ wrote c = s0 :: t
  | HLeave | HReturned => wrote c = [] \/ exists s0 t, wrote c = s0 :: t /\ t `prefix_of` taken c
  end.

Definition inv (h : hub) : Prop :=
  (forall i c, conns h !! i = Some c -> delivery h i c /\ written c) /\
  (forall s todo e, current h = Some (s, todo, e) -> NoDup todo /\
     forall i, i ∈ todo -> exists c, conns h !! i = Some c /\ member c = true).

Lemma inv_new : inv newHub.
Proof. split; [intros i c H; cbn in H; by rewrite lookup_empty in H|done]. Qed.

(** A handler step that neither changes what the client has in view nor its
    membership, nor fills its channel. *)
Lemma inv_handle h h' i f :
  inv h -> handle i f h = Some h' ->
  (forall c c', f c = Some c' -> written c ->
     written c' /\ joined c' = joined c /\ member c' = member c /\ view c' = view c /\
     (ch (client c) = None -> ch (client c') = None)) -> inv h'.
Proof.
  intros [Hd Hc] H Hf. unfold handle in H. apply bind_Some in H as (c & Ec & H).
  apply bind_Some in H as (c' & Ec' & [= <-]). destruct (Hd i c Ec) as [Hdel Hw].
  destruct (Hf c c' Ec' Hw) as (Hw' & Hj & Hm & Hv & Hch). split.
  - intros i' x. cbn [conns setConns]. destruct (decide (i' = i)) as [->|Hne].
    + rewrite lookup_insert_eq. intros [= <-]. split; [|done]. revert Hdel. unfold delivery, caughtUp.
      cbn [history current setConns]. rewrite Hj, Hm, Hv. intros [? Hx]. split; [done|].
      destruct (current h) as [[[s todo] e]|]; [|done]. destruct Hx as (hist & ? & Hx). exists hist.
      split; [done|]. case_bool_decide; [|done]. naive_solver.
    + rewrite lookup_insert_ne by done. intros Hx. exact (Hd i' x Hx).
  - cbn [current setConns conns]. intros s todo e He. destruct (Hc s todo e He) as [Hn Hall]. split; [done|].
    intros j Hj'. destruct (Hall j Hj') as (x & Ex & Hxm). destruct (decide (j = i)) as [->|Hne].
    + exists c'. rewrite lookup_insert_eq. split; [done|]. congruence.
    + exists x. by rewrite lookup_insert_ne.
Qed.

Lemma view_step c v : view (setCh v c) = taken c ++ option_list v.
Proof. done. Qed.

Lemma last_snoc_drop (l : list Snap) s n : (n <= length l)%nat -> last (drop n (l ++ [s])) = Some s.
Proof. intros H. rewrite drop_app_le by done. apply last_snoc. Qed.

Lemma caughtUp_put hist s c : (joined c <= length hist)%nat -> taken c `sublist_of` drop (joined c) hist ->
  caughtUp (hist ++ [s]) (setCh (Some s) c).
Proof.
  intros Hj Hs. unfold caughtUp. rewrite view_step. change (option_list (Some s)) with [s]. cbn [joined setCh setClient]. split.
  - rewrite drop_app_le by done. by apply sublist_app.
  - rewrite last_snoc. symmetry. by apply last_snoc_drop.
Qed.

(** One select of the broadcaster. *)
Lemma delivery_enqueue s e hist c v next :
  (joined c <= length hist)%nat -> view c `sublist_of` drop (joined c) hist ->
  (e = EPut2 -> ch (client c) = None) ->
  enqueueStep s e (ch (client c)) = (v, next) ->
  match next with
  | None => caughtUp (hist ++ [s]) (setCh v c)
  | Some e' => view (setCh v c) `sublist_of` drop (joined c) hist /\ (e' = EPut2 -> v = None)
  end.
Proof.
  intros Hj Hv He Hs.
  assert (Ht : taken c `sublist_of` drop (joined c) hist).
  { etransitivity; [|exact Hv]. unfold view. apply sublist_inserts_r. done. }
  destruct e; simpl in Hs.
  - destruct (ch (client c)) eqn:Ec; injection Hs as <- <-.
    + split; [|done]. rewrite view_step. unfold view in Hv. by rewrite Ec in Hv.
    + by apply caughtUp_put.
  - injection Hs as <- <-. split; [|done]. rewrite view_step. simpl. by rewrite app_nil_r.
  - rewrite He in Hs by done. injection Hs as <- <-. by apply caughtUp_put.
Qed.

Lemma inv_broadcastStep h h' : inv h -> broadcastStep h = Some h' -> inv h'.
Proof.
  intros [Hd Hc] H. unfold broadcastStep in H.
  destruct (current h) as [[[s [|i todo]] e]|] eqn:Ecur; [| |done].
  { injection H as <-. split; [|done]. intros i c Hi. destruct (Hd i c Hi) as [[Hj Hx] Hw]. split; [|done].
    split; [done|]. cbn [current setCurrent history]. rewrite Ecur in Hx. destruct Hx as (hist & _ & Hx).
    by rewrite bool_decide_false in Hx by set_solver. }
  apply bind_Some in H as (c & Ec & H). destruct (enqueueStep _ _ _) as [v next] eqn:Es. injection H as <-.
  destruct (Hc _ _ _ eq_refl) as [Hn Hall]. destruct (Hd i c Ec) as [[Hj Hx] Hw]. rewrite Ecur in Hx.
  destruct Hx as (hist & Eh & Hx). rewrite bool_decide_true in Hx by set_solver. destruct Hx as (Hjh & Hv & Hput).
  destruct (Hall i ltac:(set_solver)) as (c2 & Ec2 & Hm). rewrite Ec in Ec2. injection Ec2 as <-.
  pose proof (delivery_enqueue s e hist c v next Hjh Hv ltac:(naive_solver) Es) as Hdel.
  apply NoDup_cons in Hn as [Hni Hn]. split.
  - intros i' x. cbn [conns setConns setCurrent]. destruct (decide (i' = i)) as [->|Hne].
    + rewrite lookup_insert_eq. intros [= <-]. split; [|done]. split; [done|]. cbn [current setCurrent history setConns].
      destruct next as [e'|]; exists hist; (split; [done|]).
      * rewrite bool_decide_true by set_solver. destruct Hdel. split_and!; naive_solver.
      * rewrite bool_decide_false by done. cbn [member setCh setClient]. rewrite Hm. by rewrite Eh.
    + rewrite lookup_insert_ne by done. intros Hx. destruct (Hd i' x Hx) as [[Hj' Hdx] Hwx]. split; [|done].
      split; [done|]. cbn [current setCurrent history setConns]. rewrite Ecur in Hdx. destruct Hdx as (hist' & Eh' & Hdx).
      destruct next as [e'|]; exists hist'; (split; [done|]).
      * destruct (bool_decide_reflect (i' ∈ i :: todo)); [|done]. destruct Hdx as (? & ? & _). split_and!; try done. simpl. congruence.
      * rewrite (bool_decide_ext _ (i' ∈ i :: todo)) by set_solver.
        destruct (bool_decide_reflect (i' ∈ i :: todo)); [|done]. destruct Hdx as (? & ? & _). by split_and!.
  - cbn [current setCurrent conns setConns]. intros s' todo' e' [= E].
    assert (Hmem : forall j, j ∈ i :: todo -> exists x, <[i:=setCh v c]> (conns h) !! j = Some x /\ member x = true).
    { intros j Hjj. destruct (decide (j = i)) as [->|]; [rewrite lookup_insert_eq; eauto|].
      rewrite lookup_insert_ne by done. by apply Hall. }
    destruct next; injection E as <- <- <-; (split; [|set_solver]); [|done]. by constructor.
Qed.

Lemma clients_elem h i c : conns h !! i = Some c -> i ∈ clients h <-> member c = true.
Proof.
  intros Hc. unfold clients. rewrite elem_of_dom. unfold is_Some.
  setoid_rewrite map_lookup_filter_Some. simpl. rewrite Hc. naive_solver.
Qed.

Lemma sublist_view_grows hist s c : view c `sublist_of` drop (joined c) hist ->
  view c `sublist_of` drop (joined c) (hist ++ [s]).
Proof.
  intros H. etransitivity; [exact H|]. rewrite drop_app. by apply sublist_inserts_r.
Qed.

(** Between broadcasts a client may lose its membership. *)
Lemma delivery_leave h i c c' : current h = None -> joined c' = joined c -> view c' = view c -> member c' = false ->
  delivery h i c -> delivery h i c'.
Proof.
  unfold delivery. intros Hcur -> -> ->. rewrite Hcur. intros [? Hx]. split; [done|].
  destruct (member c); [by destruct Hx|done].
Qed.

Lemma inv_broadcast h s rest order : inv h -> current h = None -> NoDup order -> list_to_set order = clients h ->
  inv (mkHub (conns h) rest (Some (s, order, EPut)) (history h ++ [s])).
Proof.
  intros [Hd Hc] Hcur Hn Ho. split.
  - intros i c Hi. cbn [conns] in Hi. destruct (Hd i c Hi) as [[Hj Hx] Hw]. split; [|done].
    rewrite Hcur in Hx. split; cbn [current history]; [rewrite length_app; lia|].
    exists (history h). split; [done|]. pose proof (clients_elem h i c Hi) as Hm. rewrite <- Ho, elem_of_list_to_set in Hm.
    case_bool_decide as Hin.
    + split_and!; try done. apply Hm in Hin. rewrite Hin in Hx. by destruct Hx.
    + destruct (member c); [by destruct Hin; apply Hm|]. by apply sublist_view_grows.
  - intros s' todo e [= <- <- <-]. split; [done|]. intros i Hi. cbn [conns].
    assert (Hi' : i ∈ clients h) by (rewrite <- Ho; by apply elem_of_list_to_set).
    unfold clients in Hi'. apply elem_of_dom in Hi' as [c Hf]. apply map_lookup_filter_Some in Hf as [Hf Hm]. eauto.
Qed.

Lemma handle_quiet f c c' :
  (exists s ok, f = first s ok) \/ f = take_ \/ (exists ok, f = sent ok) \/ f = pingFail \/ f = stopped \/
    f = readErr \/ f = baseDone ->
  f c = Some c' -> written c ->
  written c' /\ joined c' = joined c /\ member c' = member c /\ view c' = view c /\
  (ch (client c) = None -> ch (client c') = None).
Proof.
  destruct c as [[v d] x m a j t w].
  intros Hf E Hw.
  destruct Hf as [(s & ok & ->)|[->|[(ok & ->)|[->|[->|[->| ->]]]]]];
    unfold first, take_, sent, pingFail, stopped, readErr, baseDone in E; unfold written, view in *; simpl in *.
  - destruct a; try done. destruct Hw as [-> ->]. destruct ok; simplify_eq/=; split_and!; eauto.
  - destruct a, v; simplify_eq/=. destruct Hw as [s0 ->]. rewrite app_nil_r. split_and!; eauto.
  - destruct a; try done. destruct Hw as (s0 & t' & -> & ->). destruct ok; simplify_eq/=; split_and!; eauto.
    right. exists s0, t'. split; [done|]. by apply prefix_app_r.
  - destruct a; simplify_eq/=. destruct Hw as [s0 ->]. split_and!; eauto.
  - destruct a; try done. destruct (x || d); simplify_eq/=. destruct Hw as [s0 ->]. split_and!; eauto.
  - simplify_eq/=. destruct a; eauto.
  - simplify_eq/=. destruct a; eauto.
Qed.

Lemma inv_act a h h' : inv h -> act a h = Some h' -> inv h'.
Proof.
  intros Hi H. unfold act in H.
  assert (Hq : forall i f, (exists s ok, f = first s ok) \/ f = take_ \/ (exists ok, f = sent ok) \/ f = pingFail \/ f = stopped \/
    f = readErr \/ f = baseDone -> handle i f h = Some h' -> inv h').
  { intros i f Hf Hh. eapply inv_handle; [exact Hi|exact Hh|]. intros c c'. by apply handle_quiet. }
  assert (Hcur : locked h = false -> current h = None) by (unfold locked; by destruct (current h)).
  destruct a; try (eapply Hq; [|exact H]; by eauto 10).
  - destruct (locked h); [done|]. specialize (Hcur eq_refl). destruct (batch h); [|done]. injection H as <-.
    destruct Hi as [Hd Hc]. split; [|done]. intros i c Hx. destruct (Hd i c Hx) as [Hdel Hw].
    revert Hdel. unfold delivery. cbn [current history]. by rewrite Hcur.
  - destruct (locked h); [done|]. specialize (Hcur eq_refl). destruct (bool_decide_reflect (NoDup order /\ list_to_set order = clients h)) as [[Hn Ho]|]; [|done].
    destruct (batch h) as [|s rest]; [done|]. injection H as <-. by apply inv_broadcast.
  - by eapply inv_broadcastStep.
  - destruct (locked h); [done|]. specialize (Hcur eq_refl). destruct (conns h !! i) eqn:Ei; [done|]. injection H as <-.
    destruct Hi as [Hd Hc]. split; [|cbn [current setConns]; by rewrite Hcur]. intros j c. cbn [conns setConns].
    destruct (decide (j = i)) as [->|Hne]; [|rewrite lookup_insert_ne by done; apply Hd].
    rewrite lookup_insert_eq. intros [= <-]. split; [|done]. split; [done|]. cbn [current history setConns]. rewrite Hcur.
    unfold caughtUp, view. cbn. by rewrite drop_all.
  - destruct (locked h); [done|]. specialize (Hcur eq_refl). unfold handle in H. apply bind_Some in H as (c & Ec & H).
    apply bind_Some in H as (c' & Ec' & [= <-]). unfold return_ in Ec'.
    destruct Hi as [Hd Hc]. split; [|cbn [current setConns]; by rewrite Hcur]. intros j x. cbn [conns setConns].
    destruct (decide (j = i)) as [->|Hne]; [|rewrite lookup_insert_ne by done; apply Hd].
    rewrite lookup_insert_eq. intros [= <-]. destruct (Hd i c Ec) as [Hdel Hw]. unfold written in *.
    destruct (at_ c) eqn:Ea; try discriminate. injection Ec' as <-. split; [|exact Hw].
    eapply (delivery_leave h i c); done.
  - destruct (locked h); [done|]. specialize (Hcur eq_refl). injection H as <-.
    destruct Hi as [Hd Hc]. split; [|done]. intros j x. cbn [conns]. rewrite lookup_fmap. intros (c & Ec & ->)%fmap_Some.
    destruct (Hd j c Ec) as [Hdel Hw]. unfold evict. destruct (member c) eqn:Em.
    + split; [|done].
      assert (Hl : delivery h j (mkConn (stop (client c)) (ctxDone c) false (at_ c) (joined c) (taken c) (wrote c))) by (eapply (delivery_leave h j c); done).
      revert Hl. unfold delivery. cbn [current history]. by rewrite Hcur.
    + split; [|done]. revert Hdel. unfold delivery. cbn [current history]. by rewrite Hcur.
Qed.

Lemma hub_inv_execute acts : forall h h', inv h -> execute acts h = Some h' -> inv h'.
Proof.
  induction acts as [|a acts IH]; intros h h' Hi H; simpl in H; [by injection H as <-|].
  apply bind_Some in H as (h1 & H1 & H). eapply IH; [|exact H]. by eapply inv_act.
Qed.

(** C27: The stream never loses the newest snapshot. Under every interleaving of
    the broadcaster with the handlers, a client that is in its loop was sent one
    first snapshot and then snapshots broadcast since it joined, in their order and
    none twice; when it is registered, no broadcast is running and its channel is
    empty, the last of them is the newest one broadcast. *)
Theorem events_newest (acts : list action) (h : hub) (i : nat) (c : conn) :
  execute acts newHub = Some h -> conns h !! i = Some c -> at_ c = HSelect ->
  exists s0 sent, wrote c = s0 :: sent /\
    sent ++ option_list (ch (client c)) `sublist_of` drop (joined c) (history h) /\
    (member c = true -> current h = None ->
       last (sent ++ option_list (ch (client c))) = last (drop (joined c) (history h))) /\
    (member c = true -> current h = None -> ch (client c) = None ->
       last sent = last (drop (joined c) (history h))).
Proof.
  intros E Hi Ha. destruct (hub_inv_execute acts _ _ inv_new E) as [Hd _].
  destruct (Hd i c Hi) as [[Hj Hx] Hw]. unfold written in Hw. rewrite Ha in Hw. destruct Hw as [s0 Hw].
  exists s0, (taken c). split; [done|].
  assert (Hq : member c = true -> current h = None -> last (view c) = last (drop (joined c) (history h))).
  { intros Hm Hcur. rewrite Hcur, Hm in Hx. apply Hx. }
  split_and!.
  - destruct (current h) as [[[s todo] e]|]; [|destruct (member c); [apply Hx|done]].
    destruct Hx as (hist & -> & Hx). case_bool_decide; [|destruct (member c); [apply Hx|done]].
    apply sublist_view_grows. apply Hx.
  - done.
  - intros Hm Hcur Hc. specialize (Hq Hm Hcur). unfold view in Hq. by rewrite Hc, app_nil_r in Hq.
Qed.

(** ** A broadcast waits for no client *)

(** The selects the broadcast in progress can still run, and its end. *)
Definition remaining (h : hub) : nat :=
  match current h with
  | None => O
  | Some (_, [], _) => 1%nat
  | Some (_, todo, e) => (3 * length todo + 1 - match e with EPut => 0 | EDrop => 1 | EPut2 => 2 end)%nat
  end.

Definition isEnqueue (a : action) : bool := match a with AEnqueue => true | _ => false end.

Lemma handle_current i f h h' : handle i f h = Some h' -> current h' = current h.
Proof.
  unfold handle. intros H. apply bind_Some in H as (c & _ & H). by apply bind_Some in H as (c' & _ & [= <-]).
Qed.

(** The broadcaster is never blocked by a client. In every reachable state
    with a broadcast in progress its next step is possible, whatever the handlers
    have done with their channels; each step brings the end nearer, at most three
    per client and one more, and no step of anyone else delays it. *)
Theorem broadcast_terminates (acts : list action) (h : hub) (s : Snap) (todo : list nat) (e : enqueueAt) :
  execute acts newHub = Some h -> current h = Some (s, todo, e) ->
  (remaining h <= 3 * length todo + 1)%nat /\
  (exists h', act AEnqueue h = Some h' /\ (remaining h' < remaining h)%nat) /\
  (forall a h', act a h = Some h' -> isEnqueue a = false -> current h' = current h /\ history h' = history h).
Proof.
  intros E Hcur. destruct (hub_inv_execute acts _ _ inv_new E) as [_ Hc]. destruct (Hc _ _ _ Hcur) as [_ Hall].
  split_and!.
  - unfold remaining. rewrite Hcur. destruct todo, e; simpl; lia.
  - simpl. unfold broadcastStep. rewrite Hcur. destruct todo as [|i todo].
    + eexists. split; [done|]. unfold remaining. rewrite Hcur. cbn [current setCurrent]. lia.
    + destruct (Hall i ltac:(set_solver)) as (c & Hi & _). rewrite Hi. cbn [mbind option_bind].
      destruct (enqueueStep _ _ _) as [v next] eqn:Es. eexists. split; [done|].
      unfold remaining. rewrite Hcur. cbn [current setCurrent].
      destruct e, (ch (client c)); simpl in Es; injection Es as <- <-; destruct todo; simpl; lia.
  - intros a h' Ha Hne. assert (Hl : locked h = true) by (unfold locked; by rewrite Hcur).
    destruct a; simpl in Ha; rewrite ?Hl in Ha; try done; split;
      try (by eapply handle_current); unfold handle in Ha; apply bind_Some in Ha as (? & _ & Ha);
      by apply bind_Some in Ha as (? & _ & [= <-]).
Qed.
End Hub.
Arguments hub : clear implicits.
Arguments action : clear implicits.

(** ** Concrete values *)

(** Two clients; the first takes its old snapshot between the broadcaster's
    selects, the second lets it be replaced. *)
Definition sampleSchedule : list (action nat) :=
  [AAccept 1%nat; AAccept 2%nat; AFirst 1%nat 10%nat true; AFirst 2%nat 10%nat true; ADrain [11; 12]%nat;
   ABroadcast [2; 1]%nat; AEnqueue; AEnqueue; AEnqueue;
   ABroadcast [1; 2]%nat; AEnqueue; ATake 1%nat; AEnqueue; AEnqueue; AEnqueue; AEnqueue; AEnqueue; AEnqueue; ASent 1%nat true;
   ATake 1%nat; ASent 1%nat true; ATake 2%nat; ASent 2%nat true].

Definition sampleHub : hub nat := default newHub (execute sampleSchedule newHub).

Lemma events_newest_witness :
  (wrote <$> conns sampleHub !! 1%nat) = Some [10; 11; 12]%nat /\ (wrote <$> conns sampleHub !! 2%nat) = Some [10; 12]%nat /\
  exists sent : list nat, last sent = Some 12%nat.
Proof.
  split; [by vm_compute|]. split; [by vm_compute|].
  destruct (conns sampleHub !! 2%nat) as [c|] eqn:E; [|by vm_compute in E].
  destruct (events_newest sampleSchedule sampleHub 2 c) as (s0 & sent & _ & _ & _ & H); [by vm_compute|done|..].
  - vm_compute in E. by injection E as <-.
  - exists sent. rewrite H; vm_compute in E; by injection E as <-.
Defined.

Definition sampleBroadcasting : hub nat := default newHub (execute (take 12 sampleSchedule) newHub).

Lemma broadcast_terminates_witness :
  exists h', act AEnqueue sampleBroadcasting = Some h' /\ (remaining h' < remaining sampleBroadcasting)%nat.
Proof.
  apply (broadcast_terminates (take 12 sampleSchedule) sampleBroadcasting 12%nat [1; 2]%nat EDrop); by vm_compute.
Defined.
