(* ===== verification/GoPath.v ===== *)
(** * GoPath: what the code uses of Go's path, environment and address functions

    [filepath.Clean], [Join], [Base] and [IsAbs] on slash-separated paths,
    [os.Expand], [net.SplitHostPort] and [net.ParseIP] with [IP.IsLoopback]. *)

From S2P Require Import Prelude GoStr GoText.

(** ** Paths *)

Definition slash : byte := x2f.
Definition dot : list byte := [x2e].
Definition dotdot : list byte := [x2e; x2e].

Definition IsAbs (p : list byte) : bool := hasPrefix p [slash].

(** [filepath.Clean], element by element: [out] is the stack of elements kept so
    far, innermost first. *)
Definition cleanElement (rooted : bool) (out : list (list byte)) (e : list byte) : list (list byte) :=
  if bool_decide (e = []) || bool_decide (e = dot) then out
  else if bool_decide (e = dotdot) then
    match out with
    | top :: rest => if bool_decide (top = dotdot) then e :: out else rest
    | [] => if rooted then [] else [e]
    end
  else e :: out.

Definition cleanElements (p : list byte) : list (list byte) :=
  reverse (foldl (cleanElement (IsAbs p)) [] (splitOn slash p)).

Definition Clean (p : list byte) : list byte :=
  let body := joinWith slash (cleanElements p) in
  if IsAbs p then slash :: body else match body with [] => dot | _ => body end.

Fixpoint Join (elems : list (list byte)) : list byte :=
  match elems with
  | [] => []
  | [] :: rest => Join rest
  | _ => Clean (joinWith slash elems)
  end.

Definition Base (p : list byte) : list byte :=
  match p with
  | [] => dot
  | _ =>
      match trimRightSet [slash] p with
      | [] => [slash]
      | q => default q (last (splitOn slash q))
      end
  end.

(** ** [os.Expand] *)

Definition isShellSpecialVar (b : byte) : bool :=
  existsb (fun c => c =b b) [x2a; x23; x24; x40; x21; x3f; x2d] || between 48 57 b.
Definition isAlphaNum (b : byte) : bool :=
  (bz b =? 95) || between 48 57 b || between 97 122 b || between 65 90 b.

(** The number of bytes before the first byte without [f]. *)
Fixpoint spanLength (f : byte -> bool) (s : list byte) : nat :=
  match s with b :: s' => if f b then S (spanLength f s') else O | [] => O end.

(** [getShellName]: the name after the dollar sign and how many bytes it takes. *)
Definition getShellName (s : list byte) : list byte * nat :=
  match s with
  | [] => ([], O)
  | b :: t =>
      if bz b =? 123 then
        match t with
        | c :: d :: _ =>
            if isShellSpecialVar c && (bz d =? 125) then ([c], 3%nat)
            else match cutAt x7d t with
                 | Some ([], _) => ([], 2%nat)
                 | Some (name, _) => (name, (length name + 2)%nat)
                 | None => ([], 1%nat)
                 end
        | _ => match cutAt x7d t with
               | Some ([], _) => ([], 2%nat)
               | Some (name, _) => (name, (length name + 2)%nat)
               | None => ([], 1%nat)
               end
        end
      else if isShellSpecialVar b then ([b], 1%nat)
      else let n := spanLength isAlphaNum s in (take n s, n)
  end.

(** The loop of [os.Expand]; the result is the text and the names looked up, in
    order. [skip] counts the bytes of the name just replaced. *)
Fixpoint expandFrom (env : list byte -> list byte) (skip : nat) (s : list byte) : list byte * list (list byte) :=
  match s with
  | [] => ([], [])
  | b :: s' =>
      match skip with
      | S n => expandFrom env n s'
      | O =>
          if (bz b =? 36) && negb (bool_decide (s' = [])) then
            match getShellName s' with
            | ([], O) => let '(out, names) := expandFrom env O s' in (b :: out, names)
            | ([], w) => expandFrom env w s'
            | (name, w) => let '(out, names) := expandFrom env w s' in (env name ++ out, name :: names)
            end
          else let '(out, names) := expandFrom env O s' in (b :: out, names)
      end
  end.

Definition Expand (s : list byte) (env : list byte -> list byte) : list byte * list (list byte) :=
  expandFrom env O s.

(** ** [net.SplitHostPort] *)

(** The text before and after the last occurrence of [c]. *)
Definition cutLast (c : byte) (s : list byte) : option (list byte * list byte) :=
  (fun '(x, y) => (reverse y, reverse x)) <$> cutAt c (reverse s).

Definition hasByte (c : byte) (s : list byte) : bool := existsb (fun b => b =b c) s.

Definition SplitHostPort (s : list byte) : option (list byte * list byte) :=
  '(before, port) ← cutLast x3a s;
  match s with
  | b :: t =>
      if bz b =? 91 then
        '(host, rest) ← cutAt x5d t;
        match rest with
        | c :: port' =>
            if (bz c =? 58) && bool_decide (port' = port) && negb (hasByte x5b t) && negb (hasByte x5d rest)
            then Some (host, port) else None
        | [] => None
        end
      else if hasByte x3a before || hasByte x5b s || hasByte x5d s then None
      else Some (before, port)
  | [] => None
  end.

(** ** [net.ParseIP] *)

Definition decimalDigit (b : byte) : option Z := if between 48 57 b then Some (bz b - 48) else None.

Definition hexDigit (b : byte) : option Z :=
  if between 48 57 b then Some (bz b - 48)
  else if between 97 102 b then Some (bz b - 87)
  else if between 65 70 b then Some (bz b - 55) else None.

(** One field of a dotted address: digits without a leading zero, at most 255. *)
Definition octet (s : list byte) : option Z :=
  match s with
  | [] => None
  | [b] => decimalDigit b
  | b :: _ =>
      if bz b =? 48 then None
      else ds ← mapM decimalDigit s;
           let v := foldl (fun acc d => acc * 10 + d) 0 (take 4 ds) in
           if (length s <=? 3)%nat && (v <=? 255) then Some v else None
  end.

Definition parseIPv4Fields (s : list byte) : option (list Z) :=
  let parts := splitOn x2e s in
  if (length parts =? 4)%nat then mapM octet parts else None.

(** A run of at most four hexadecimal digits. *)
Definition hexField (s : list byte) : option (Z * list byte) :=
  let n := spanLength (fun b => bool_decide (is_Some (hexDigit b))) s in
  if (n =? 0)%nat || (4 <? n)%nat then None
  else ds ← mapM hexDigit (take n s); Some (foldl (fun acc d => acc * 16 + d) 0 ds, drop n s).

(** The loop over the fields: [ip] are the bytes so far, [ell] where the
    ellipsis was. [fuel] is the number of fields an address can have. *)
Fixpoint ipv6Fields (fuel : nat) (ip : list Z) (ell : option nat) (s : list byte)
    : option (list Z * option nat) :=
  match fuel with
  | O => match s with [] => Some (ip, ell) | _ => None end
  | S fuel' =>
      '(acc, rest) ← hexField s;
      match rest with
      | [] => Some (ip ++ [acc / 256; acc mod 256], ell)
      | b :: t =>
          if bz b =? 46 then
            if (bool_decide (ell = None) && negb (length ip =? 12)%nat) || (12 <? length ip)%nat then None
            else v4 ← parseIPv4Fields s; Some (ip ++ v4, ell)
          else if bz b =? 58 then
            let ip' := ip ++ [acc / 256; acc mod 256] in
            match t with
            | [] => None
            | c :: t' =>
                if bz c =? 58 then
                  match ell with
                  | Some _ => None
                  | None =>
                      match t' with
                      | [] => Some (ip', Some (length ip'))
                      | _ => ipv6Fields fuel' ip' (Some (length ip')) t'
                      end
                  end
                else ipv6Fields fuel' ip' ell t
            end
          else None
      end
  end.

Definition parseIPv6 (s : list byte) : option (list Z) :=
  if hasByte x25 s then None
  else
    let '(ell, t) :=
      if hasPrefix s [x3a; x3a] then (Some O, drop 2 s) else (None, s) in
    if bool_decide (ell = Some O) && bool_decide (t = []) then Some (replicate 16 0)
    else
      '(ip, ell') ← ipv6Fields 8 [] ell t;
      if (length ip <? 16)%nat then
        k ← ell'; Some (take k ip ++ replicate (16 - length ip) 0 ++ drop k ip)
      else match ell' with Some _ => None | None => Some ip end.

(** The first dot, colon or percent sign decides the kind of address. *)
Fixpoint addressKind (s : list byte) : option byte :=
  match s with
  | [] => None
  | b :: s' => if existsb (fun c => c =b b) [x2e; x3a; x25] then Some b else addressKind s'
  end.

(** The sixteen bytes of the address; a dotted one is mapped. *)
Definition ParseIP (s : list byte) : option (list Z) :=
  k ← addressKind s;
  if bz k =? 46 then (fun v4 => replicate 10 0 ++ [255; 255] ++ v4) <$> parseIPv4Fields s
  else if bz k =? 58 then parseIPv6 s else None.

Definition IsLoopback (ip : list Z) : bool :=
  if bool_decide (take 12 ip = replicate 10 0 ++ [255; 255])
  then match ip !! 12%nat with Some v => v =? 127 | None => false end
  else bool_decide (ip = replicate 15 0 ++ [1]).

(** ** Concrete values *)

Example addresses :
  (SplitHostPort (bytesOf "127.0.0.1:0"), SplitHostPort (bytesOf "[::1]:80"), SplitHostPort (bytesOf "::1:80"),
   SplitHostPort (bytesOf "nohost"), SplitHostPort (bytesOf "[::1]x:80")) =
  (Some (bytesOf "127.0.0.1", bytesOf "0"), Some (bytesOf "::1", bytesOf "80"), None, None, None) /\
  (IsLoopback <$> ParseIP (bytesOf "127.9.0.1"), IsLoopback <$> ParseIP (bytesOf "::1"),
   IsLoopback <$> ParseIP (bytesOf "::ffff:127.0.0.1"), IsLoopback <$> ParseIP (bytesOf "10.0.0.1"),
   ParseIP (bytesOf "127.0.0.01"), ParseIP (bytesOf "1:2:3:4:5:6:7:8:9"), ParseIP (bytesOf "::1%lo"),
   ParseIP (bytesOf "256.0.0.1")) =
  (Some true, Some true, Some true, Some false, None, None, None, None).
Proof. by vm_compute. Qed.

Example paths :
  (Clean (bytesOf "/a//b/../c/./d/"), Clean (bytesOf "../../x"), Clean (bytesOf "/../.."), Clean [],
   Join [bytesOf "/home/u"; bytesOf "../x"], Base (bytesOf "/usr/bin/cloudflared/"), Base (bytesOf "//")) =
  (bytesOf "/a/c/d", bytesOf "../../x", bytesOf "/", bytesOf ".", bytesOf "/home/x", bytesOf "cloudflared", bytesOf "/") /\
  Expand (bytesOf "$HOME/${X}y$") (fun n => if bool_decide (n = bytesOf "HOME") then bytesOf "/h" else bytesOf "-") =
  (bytesOf "/h/-y$", [bytesOf "HOME"; bytesOf "X"]).
Proof. by vm_compute. Qed.
