(* ===== verification/GoPathFacts.v ===== *)
(** * GoPathFacts: facts on lexical paths (GoPath.v)

    Cleaning a path is canonical, a clean absolute path is made of ordinary
    elements, and joining an ordinary element to one extends it by that element. *)

From S2P Require Import Prelude GoStr GoText GoPath.

(** ** Lexical paths *)

(** An ordinary element: not empty, not a dot element, without a slash. *)
Definition plainElement (e : list byte) : Prop :=
  e ≠ [] /\ e ≠ dot /\ e ≠ dotdot /\ Forall (fun b => b ≠ slash) e.

(** The elements kept: leading parent references, of a relative path only, and
    ordinary elements, innermost first. *)
Definition kept (rooted : bool) (out : list (list byte)) : Prop :=
  exists names k, out = names ++ replicate k dotdot /\ Forall plainElement names /\ (rooted = true -> k = O).

Lemma splitOn_join sep es : es ≠ [] -> Forall (Forall (fun b => b ≠ sep)) es -> splitOn sep (joinWith sep es) = es.
Proof.
  intros Hne H. induction H as [|e es He Hes IH]; [done|]. destruct es as [|e' es].
  - simpl. by apply splitOn_free.
  - change (joinWith sep (e :: e' :: es)) with (e ++ [sep] ++ joinWith sep (e' :: es)).
    rewrite splitOn_app by done. by rewrite IH.
Qed.

Lemma cleanElement_plain rooted out e : plainElement e -> cleanElement rooted out e = e :: out.
Proof. intros (? & ? & ? & _). unfold cleanElement. by rewrite !bool_decide_false by done. Qed.

Lemma cleanElement_kept rooted out e : Forall (fun b => b ≠ slash) e -> kept rooted out -> kept rooted (cleanElement rooted out e).
Proof.
  intros He (names & k & -> & Hn & Hk). unfold cleanElement.
  destruct (bool_decide_reflect (e = [])) as [_|N1]; [by exists names, k|].
  destruct (bool_decide_reflect (e = dot)) as [_|N2]; [by exists names, k|]. cbn [orb].
  destruct (bool_decide_reflect (e = dotdot)) as [->|N3].
  - destruct names as [|top names]; cbn [app].
    + destruct k as [|k]; cbn [replicate].
      * destruct rooted; [by exists [], O|]. by exists [], 1%nat.
      * destruct rooted; [by specialize (Hk eq_refl)|]. rewrite bool_decide_true by done.
        by exists [], (S (S k)).
    + inversion Hn as [|? ? (_ & _ & Hdd & _) Hn']; subst. rewrite bool_decide_false by done. by exists names, k.
  - exists (e :: names), k. split_and!; [done| |done]. by repeat constructor.
Qed.

Lemma clean_kept rooted es : Forall (Forall (fun b => b ≠ slash)) es -> forall out, kept rooted out ->
  kept rooted (foldl (cleanElement rooted) out es).
Proof.
  induction 1 as [|e es He _ IH]; intros out Ho; [done|]. simpl. apply IH. by apply cleanElement_kept.
Qed.

(** Cleaning what is already clean keeps every element. *)
Lemma clean_again rooted out : kept rooted out -> foldl (cleanElement rooted) [] (reverse out) = out.
Proof.
  intros (names & k & -> & Hn & Hk). rewrite reverse_app, foldl_app.
  assert (E : foldl (cleanElement rooted) [] (reverse (replicate k dotdot)) = replicate k dotdot).
  { rewrite reverse_replicate. destruct rooted; [by rewrite Hk|]. clear.
    assert (H : forall m, foldl (cleanElement false) (replicate m dotdot) (replicate k dotdot) = replicate (m + k) dotdot).
    { induction k as [|k IH]; intros m; [by rewrite Nat.add_0_r|]. cbn [replicate foldl].
      replace (cleanElement false (replicate m dotdot) dotdot) with (replicate (S m) dotdot) by by destruct m.
      rewrite IH. f_equal. lia. }
    apply (H O). }
  rewrite E. generalize (replicate k dotdot). clear -Hn.
  induction Hn as [|e names Hp _ IH]; intros tl; [done|].
  rewrite reverse_cons, foldl_snoc, IH. by apply cleanElement_plain.
Qed.

Lemma cleanElements_kept p : kept (IsAbs p) (reverse (cleanElements p)).
Proof.
  unfold cleanElements. rewrite reverse_involutive. apply clean_kept; [apply splitOn_spec|]. by exists [], O.
Qed.

Lemma kept_slash_free rooted out : kept rooted out -> Forall (fun e => e ≠ [] /\ Forall (fun b => b ≠ slash) e) out.
Proof.
  intros (names & k & -> & Hn & _). apply Forall_app. split.
  - eapply Forall_impl; [apply Hn|]. unfold plainElement. naive_solver.
  - apply Forall_replicate. split; [done|]. by repeat constructor.
Qed.

Lemma kept_elements rooted es : kept rooted (reverse es) -> es ≠ [] ->
  splitOn slash (joinWith slash es) = es /\ joinWith slash es ≠ [] /\ IsAbs (joinWith slash es) = false.
Proof.
  intros Hk Hne. apply kept_slash_free in Hk. rewrite Forall_reverse in Hk.
  split.
  - apply splitOn_join; [done|]. eapply Forall_impl; [apply Hk|]. naive_solver.
  - destruct es as [|e es]; [done|]. inversion Hk as [|? ? [He Hs] _]; subst. destruct e as [|b e]; [done|].
    inversion Hs as [|? ? Hb _]; subst.
    assert (E : (slash =b b) = false) by (destruct (slash =b b) eqn:E; [apply byte_eqb_eq in E; by subst|done]).
    destruct es; cbn [joinWith app]; (split; [done|]); unfold IsAbs; cbn [hasPrefix]; by rewrite E.
Qed.

Lemma Clean_twice p : Clean (Clean p) = Clean p.
Proof.
  assert (Hk := cleanElements_kept p).
  destruct (decide (cleanElements p = [])) as [E|Hne].
  { unfold Clean at 2 3. rewrite E. by destruct (IsAbs p). }
  destruct (kept_elements _ _ Hk Hne) as (Hs & Hb & Ha).
  assert (E : Clean p = if IsAbs p then slash :: joinWith slash (cleanElements p) else joinWith slash (cleanElements p)).
  { unfold Clean. destruct (IsAbs p); [done|]. by destruct (joinWith slash (cleanElements p)). }
  rewrite E. clear E. revert Hk Hne Hs Hb Ha. generalize (cleanElements p). intros es Hk Hne Hs Hb Ha.
  assert (Hf : foldl (cleanElement (IsAbs p)) [] es = reverse es).
  { rewrite <- (reverse_involutive es) at 1. by apply clean_again. }
  unfold Clean, cleanElements. destruct (IsAbs p) eqn:Ep.
  - change (IsAbs (slash :: joinWith slash es)) with true.
    change (splitOn slash (slash :: joinWith slash es)) with ([] :: splitOn slash (joinWith slash es)).
    rewrite Hs. cbn [foldl]. change (cleanElement true [] []) with (@nil (list byte)).
    by rewrite Hf, reverse_involutive.
  - rewrite Ha, Hs, Hf, reverse_involutive. by destruct (joinWith slash es).
Qed.

(** Path cleaning is canonical and confined. Cleaning twice is cleaning once;
    and a cleaned absolute path is a slash followed by ordinary elements, so no
    parent reference and no dot element survives in it. *)
Theorem Clean_canonical (p : list byte) :
  Clean (Clean p) = Clean p /\
  (IsAbs p = true -> exists names, Clean p = slash :: joinWith slash names /\ Forall plainElement names).
Proof.
  split; [apply Clean_twice|].
  pose proof (cleanElements_kept p) as Hk.
  intros Ha. rewrite Ha in Hk. destruct Hk as (names & k & E & Hn & Hk). rewrite Hk, app_nil_r in E by done.
  exists (cleanElements p). split; [unfold Clean; by rewrite Ha|].
  rewrite <- (reverse_involutive (cleanElements p)), E. by rewrite Forall_reverse.
Qed.

(** A slash followed by ordinary elements is clean. *)
Lemma Clean_plain names : Forall plainElement names ->
  Clean (slash :: joinWith slash names) = slash :: joinWith slash names.
Proof.
  intros Hn. assert (Hk : kept true (reverse names)).
  { exists (reverse names), O. rewrite app_nil_r. split_and!; [done|by rewrite Forall_reverse|done]. }
  destruct (decide (names = [])) as [->|Hne]; [done|].
  destruct (kept_elements _ _ Hk Hne) as (Hs & _ & _).
  unfold Clean, cleanElements. change (IsAbs (slash :: joinWith slash names)) with true.
  change (splitOn slash (slash :: joinWith slash names)) with ([] :: splitOn slash (joinWith slash names)).
  rewrite Hs. cbn [foldl]. change (cleanElement true [] []) with (@nil (list byte)).
  rewrite <- (reverse_involutive names) at 1. by rewrite clean_again, reverse_involutive by done.
Qed.

Lemma joinWith_snoc sep names n : names ≠ [] -> joinWith sep (names ++ [n]) = joinWith sep names ++ sep :: n.
Proof.
  induction names as [|m names IH]; intros Hne; [done|]. destruct names as [|m' names]; [done|].
  change (joinWith sep ((m :: m' :: names) ++ [n])) with (m ++ [sep] ++ joinWith sep ((m' :: names) ++ [n])).
  rewrite IH by done. change (joinWith sep (m :: m' :: names)) with (m ++ [sep] ++ joinWith sep (m' :: names)).
  by rewrite <- !app_assoc.
Qed.

(** Joining an ordinary element to a clean absolute path. *)
Lemma Join_plain p n : IsAbs p = true -> Clean p = p -> plainElement n ->
  Join [p; n] = if bool_decide (p = [slash]) then slash :: n else p ++ slash :: n.
Proof.
  intros Ha Hc Hn. pose proof (cleanElements_kept p) as Hk. rewrite Ha in Hk.
  destruct Hk as (rn & k & E & Hrn & Hk). rewrite Hk, app_nil_r in E by done.
  set (names := cleanElements p). assert (Hp : p = slash :: joinWith slash names).
  { rewrite <- Hc. unfold Clean. by rewrite Ha. }
  assert (Hnames : Forall plainElement names).
  { unfold names. rewrite <- (reverse_involutive (cleanElements p)), E. by rewrite Forall_reverse. }
  clearbody names. subst p. unfold Join. cbn [joinWith].
  destruct names as [|m names'].
  - rewrite bool_decide_true by done. unfold Clean. cbn [joinWith app].
    change (IsAbs (slash :: slash :: n)) with true.
    assert (Hel : cleanElements (slash :: slash :: n) = [n]).
    { unfold cleanElements. change (IsAbs (slash :: slash :: n)) with true.
      change (splitOn slash (slash :: slash :: n)) with ([] :: [] :: splitOn slash n).
      rewrite splitOn_free by apply Hn. cbn [foldl]. change (cleanElement true (cleanElement true [] []) []) with (@nil (list byte)).
      rewrite cleanElement_plain by done. done. }
    by rewrite Hel.
  - rewrite bool_decide_false.
    + replace ((slash :: joinWith slash (m :: names')) ++ slash :: n) with (slash :: joinWith slash ((m :: names') ++ [n]))
        by (by rewrite joinWith_snoc).
      change ((slash :: joinWith slash (m :: names')) ++ [slash] ++ n) with (slash :: joinWith slash (m :: names') ++ slash :: n).
      rewrite <- joinWith_snoc by done. apply Clean_plain. apply Forall_app. split; [done|by constructor].
    + intros [= E0]. apply Forall_cons in Hnames as [(Hm & _) _]. destruct names'; [done|].
      change (joinWith slash (m :: l :: names')) with (m ++ [slash] ++ joinWith slash (l :: names')) in E0. by destruct m.
Qed.

(** ** Below a directory *)

(** The path of an entry of a directory. *)
Definition child (d n : list byte) : list byte := (if bool_decide (d = [slash]) then d else d ++ [slash]) ++ n.

(** Reached from [root] by ordinary elements, so never outside it. *)
Definition below (root p : list byte) : Prop :=
  exists names, Forall plainElement names /\ p = foldl child root names.

Lemma Join_child p n : IsAbs p = true -> Clean p = p -> plainElement n -> Join [p; n] = child p n.
Proof. intros. rewrite Join_plain by done. unfold child. case_bool_decide as E; [by subst|]. by rewrite <- app_assoc. Qed.

Lemma below_child root p n : below root p -> plainElement n -> below root (child p n).
Proof.
  intros (names & Hn & ->) Hp. exists (names ++ [n]). split; [apply Forall_app; split; [done|by constructor]|].
  by rewrite foldl_snoc.
Qed.

Lemma joinWith_app sep xs ys : xs ≠ [] -> ys ≠ [] -> joinWith sep (xs ++ ys) = joinWith sep xs ++ sep :: joinWith sep ys.
Proof.
  intros Hx Hy. induction xs as [|x xs IH]; [done|]. destruct xs as [|x' xs].
  - simpl. destruct ys; [done|]. done.
  - change (joinWith sep ((x :: x' :: xs) ++ ys)) with (x ++ [sep] ++ joinWith sep ((x' :: xs) ++ ys)).
    rewrite IH by done. change (joinWith sep (x :: x' :: xs)) with (x ++ [sep] ++ joinWith sep (x' :: xs)).
    by rewrite <- !app_assoc.
Qed.

Lemma foldl_child ps : forall d, IsAbs d = true -> d ≠ [slash] -> ps ≠ [] -> Forall plainElement ps ->
  foldl child d ps = d ++ slash :: joinWith slash ps.
Proof.
  induction ps as [|p ps IH]; intros d Ha Hd Hne Hps; [done|]. apply Forall_cons in Hps as [Hp Hps]. simpl.
  assert (Ec : child d p = d ++ slash :: p) by (unfold child; rewrite bool_decide_false by done; by rewrite <- app_assoc).
  destruct ps as [|p' ps]; [by rewrite Ec|]. rewrite IH; try done.
  - rewrite Ec. change (joinWith slash (p :: p' :: ps)) with (p ++ [slash] ++ joinWith slash (p' :: ps)). by rewrite <- !app_assoc.
  - rewrite Ec. destruct d as [|b d]; [done|]. unfold IsAbs in *. simpl in *. by destruct (slash =b b).
  - rewrite Ec. destruct d as [|b d]; [done|]. simpl. intros [= _ E]. by destruct d.
Qed.

(** The elements of a clean absolute path. *)
Lemma clean_elements p : IsAbs p = true -> Clean p = p -> exists names, p = slash :: joinWith slash names /\ Forall plainElement names.
Proof.
  intros Ha Hc. destruct (Clean_canonical p) as [_ H]. destruct (H Ha) as (names & E & Hn). exists names. by rewrite <- Hc, E.
Qed.

Lemma plain_free names : Forall plainElement names -> Forall (Forall (fun b => b ≠ slash)) names.
Proof. intros H. eapply Forall_impl; [exact H|]. by intros e (_ & _ & _ & ?). Qed.

(** A clean path that extends a clean root by a slash is below it. *)
Lemma below_prefix root p : IsAbs root = true -> Clean root = root -> Clean p = p ->
  p = root \/ hasPrefix p (root ++ [slash]) = true -> below root p.
Proof.
  intros Hr Hcr Hcp [->|Hp]; [by exists []|]. apply hasPrefix_spec in Hp as [rest E].
  destruct (clean_elements root Hr Hcr) as (rn & Er & Hrn).
  assert (Ha : IsAbs p = true).
  { rewrite E. destruct root as [|b root]; [done|]. unfold IsAbs in *. simpl in *. by destruct (slash =b b). }
  destruct (clean_elements p Ha Hcp) as (pn & Ep & Hpn).
  destruct rn as [|r rn].
  { exfalso. subst root. rewrite E in Ep. change (joinWith slash []) with (@nil byte) in Ep. simpl in Ep. injection Ep as Ep.
    destruct pn as [|n pn]; [done|]. apply Forall_cons in Hpn as [(Hn & _ & _ & Hf) _]. destruct n as [|b n]; [done|].
    apply Forall_cons in Hf as [Hb _]. destruct pn; simpl in Ep; by injection Ep as <- _. }
  assert (Hps : r :: rn ++ splitOn slash rest = pn).
  { assert (Ej : joinWith slash pn = joinWith slash ((r :: rn) ++ splitOn slash rest)).
    { rewrite joinWith_app by (try done; apply splitOn_nonempty). rewrite (proj1 (splitOn_spec slash rest)).
      rewrite E, Er in Ep. rewrite <- app_assoc in Ep. simpl app in Ep. by injection Ep as <-. }
    assert (Hpne : pn ≠ []).
    { intros ->. change (joinWith slash []) with (@nil byte) in Ej. rewrite joinWith_app in Ej by (try done; apply splitOn_nonempty).
      symmetry in Ej. apply app_eq_nil in Ej as [_ Ej]. done. }
    pose proof (splitOn_join slash pn Hpne (plain_free pn Hpn)) as S1. rewrite Ej in S1.
    rewrite splitOn_join in S1; [done|done|]. apply Forall_app. split; [by apply plain_free|]. apply (splitOn_spec slash rest). }
  exists (splitOn slash rest). rewrite <- Hps in Hpn. change (r :: rn ++ ?x) with ((r :: rn) ++ x) in Hpn.
  apply Forall_app in Hpn as [_ Hpn]. split; [done|].
  rewrite foldl_child; try done; [|intros ->|apply splitOn_nonempty].
  - rewrite (proj1 (splitOn_spec slash rest)). by rewrite E, <- app_assoc.
  - injection Er as Er. apply Forall_cons in Hrn as [(Hn & _) _]. destruct rn; [by subst|].
    change (joinWith slash (r :: l :: rn)) with (r ++ [slash] ++ joinWith slash (l :: rn)) in Er. by destruct r.
Qed.
