(* ===== verification/TunnelLog.v ===== *)
(** * TunnelLog: how internal/tunnel reads the output of cloudflared

    The line splitter of process.go ([lineWriter]), the log parser and classifier
    of logparse.go, the ring buffer of logbuf.go, what the child process record
    learns from a line ([handleLine]), the bounded writer and the secret command
    of token.go and config/secret.go.

    Decoding a JSON log record is the parameter [decodeLog]. *)

From S2P Require Import Prelude GoStr GoText Sanitize Redact.

Section json.
  Context (decodeLog : list byte -> option (list byte * list byte * list byte * list byte)).

(** ** Sanitising (logparse.go) *)

Definition maxLogLineBytes : nat := 2048.

(** The loop over the runes; [out] is the builder. *)
Fixpoint logText (out : list byte) (rs : list Z) : list byte :=
  match rs with
  | [] => out
  | r :: rs' =>
      if r =? 9 then
        let out' := out ++ [x20] in
        if (maxLogLineBytes <=? length out')%nat then out' else logText out' rs'
      else if (r <? 32) || (r =? 127) then logText out rs'
      else
        let out' := out ++ encodeRune r in
        if (maxLogLineBytes <=? length out')%nat then out' else logText out' rs'
  end.

Definition sanitizeLogText (s : list byte) : list byte :=
  match s with [] => [] | _ => trimRightSet [x20] (logText [] (runes s)) end.

(** ** Log records *)

Record LogLine := mkLogLine {
  Level : list byte; Message : list byte; Time : list byte; Raw : list byte
}.

Inductive eventKind := evOther | evQuickURL | evConnRegistered | evError.

Record logEvent := mkLogEvent { kind : eventKind; ev_url : list byte; line : LogLine }.

Definition parseLogLine (b : list byte) : LogLine :=
  let raw := sanitizeLogText b in
  let plain := mkLogLine [] [] [] raw in
  let trimmed := TrimSpace b in
  if hasPrefix trimmed [x7b] && hasSuffix trimmed [x7d] then
    match decodeLog trimmed with
    | Some (level, message, msg, time) =>
        let m := match message with [] => msg | _ => message end in
        mkLogLine (sanitizeLogText level) (sanitizeLogText m) (sanitizeLogText time) raw
    | None => plain
    end
  else plain.

(** ** The Quick Tunnel address *)

Definition httpsPrefix : list byte := bytesOf "https://".
Definition quickSuffix : list byte := bytesOf ".trycloudflare.com".
Definition hostByte (b : byte) : bool := between 97 122 b || between 48 57 b.
Definition labelByte (b : byte) : bool := hostByte b || (bz b =? 45).

Fixpoint takeWhile (f : byte -> bool) (s : list byte) : list byte :=
  match s with
  | b :: s' => if f b then b :: takeWhile f s' else []
  | [] => []
  end.

(** The expression anchored at the start of [s]. No byte of the repeated class
    can be the dot that follows it, so the greedy repetition never backtracks. *)
Definition quickURLAt (s : list byte) : option (list byte) :=
  if hasPrefix s httpsPrefix then
    match drop (length httpsPrefix) s with
    | b :: t =>
        if hostByte b && hasPrefix (dropWhile labelByte t) quickSuffix
        then Some (httpsPrefix ++ [b] ++ takeWhile labelByte t ++ quickSuffix)
        else None
    | [] => None
    end
  else None.

(** [quickURLRe.FindString]: the leftmost match, or the empty string. *)
Fixpoint findQuickURL (s : list byte) : list byte :=
  match quickURLAt s with
  | Some m => m
  | None => match s with [] => [] | _ :: s' => findQuickURL s' end
  end.

Definition connRegisteredMarkers : list (list byte) :=
  [bytesOf "registered tunnel connection"; bytesOf "connection registered";
   bytesOf "registered connection"].

(** ** [classify] *)

Definition haystacks (l : LogLine) : list (list byte) := [Message l; Raw l].

(** The first non-empty match over the haystacks. *)
Fixpoint firstURL (hs : list (list byte)) : list byte :=
  match hs with
  | [] => []
  | h :: hs' => match findQuickURL (toLower h) with [] => firstURL hs' | m => m end
  end.

Definition registered (hs : list (list byte)) : bool :=
  existsb (fun h => existsb (contains (toLower h)) connRegisteredMarkers) hs.

Definition classify (l : LogLine) : logEvent :=
  match firstURL (haystacks l) with
  | [] =>
      if registered (haystacks l) then mkLogEvent evConnRegistered [] l
      else if EqualFold (Level l) (bytesOf "error") || EqualFold (Level l) (bytesOf "fatal")
      then mkLogEvent evError [] l
      else mkLogEvent evOther [] l
  | m => mkLogEvent evQuickURL m l
  end.

(** ** Recent lines (logbuf.go, Supervisor.sink) *)

Record ringBuffer := mkRing { lines : list (list byte); cap : Z }.

Definition newRingBuffer (capacity : Z) : ringBuffer :=
  mkRing [] (if capacity <=? 0 then 200 else capacity).

Definition add (r : ringBuffer) (l : list byte) : ringBuffer :=
  match l with
  | [] => r
  | _ =>
      if cap r <=? Z.of_nat (length (lines r))
      then mkRing (drop 1 (lines r) ++ [l]) (cap r)
      else mkRing (lines r ++ [l]) (cap r)
  end.

Definition sink (r : ringBuffer) (l : LogLine) : ringBuffer :=
  match Raw l with [] => r | raw => add r (SanitizeForLog raw) end.

(** ** What the process record learns (process.go) *)

(** [p_ready]: whether [readyCh] is closed; [p_quick] is the mode [onLine]
    captured. *)
Record realProcess := mkProcess { publicURL : list byte; p_ready : bool; p_quick : bool }.

Definition markReady (p : realProcess) : realProcess := mkProcess (publicURL p) true (p_quick p).

Definition handleLine (p : realProcess) (b : list byte) : realProcess * LogLine :=
  let l := parseLogLine b in
  let ev := classify l in
  (match kind ev with
   | evQuickURL =>
       let p' := mkProcess (match publicURL p with [] => ev_url ev | u => u end) (p_ready p) (p_quick p) in
       if p_quick p then markReady p' else p'
   | evConnRegistered => if p_quick p then p else markReady p
   | _ => p
   end, l).

(** The record after some lines. *)
Definition processLines (p : realProcess) (ls : list (list byte)) : realProcess :=
  foldl (fun p b => (handleLine p b).1) p ls.

(** [handleLine] with the supervisor's sink. *)
Definition onLine (st : realProcess * ringBuffer) (b : list byte) : realProcess * ringBuffer :=
  let '(p', l) := handleLine st.1 b in (p', sink st.2 l).

(** ** The line splitter *)

Definition maxCapturedLineBytes : Z := 65536.

(** [emitted] is what [onLine] was called with, in order. *)
Record lineWriter := mkLineWriter {
  buf : list byte; maxLine : Z; dropping : bool; emitted : list (list byte)
}.

Definition newLineWriter (max : Z) : lineWriter :=
  mkLineWriter [] (if max <=? 0 then maxCapturedLineBytes else max) false [].

Definition emit (w : lineWriter) : lineWriter :=
  match buf w with
  | [] => w
  | b => mkLineWriter (buf w) (maxLine w) (dropping w) (emitted w ++ [b])
  end.

Definition writeByte (w : lineWriter) (b : byte) : lineWriter :=
  if bz b =? 10 then
    let w' := if dropping w then w else emit w in
    mkLineWriter [] (maxLine w') false (emitted w')
  else if dropping w then w
  else if maxLine w <=? Z.of_nat (length (buf w)) then
    let w' := emit w in mkLineWriter [] (maxLine w') true (emitted w')
  else mkLineWriter (buf w ++ [b]) (maxLine w) (dropping w) (emitted w).

Definition Write (w : lineWriter) (p : list byte) : lineWriter := foldl writeByte w p.

Definition flush (w : lineWriter) : lineWriter :=
  let w' := if negb (dropping w) && negb (bool_decide (buf w = [])) then emit w else w in
  mkLineWriter [] (maxLine w') false (emitted w').

(** ** The bounded writer and the token command (token.go, config/secret.go) *)

Record limitedWriter := mkLimited { lw_out : list byte; limit : Z; lw_n : Z }.

(** A buffer accepts every write, so the error branches cannot be taken. *)
Definition limitedWrite (l : limitedWriter) (p : list byte) : limitedWriter :=
  let remaining := limit l - lw_n l in
  if remaining <=? 0 then l
  else if remaining <? Z.of_nat (length p)
  then mkLimited (lw_out l ++ take (Z.to_nat remaining) p) (limit l) (lw_n l + remaining)
  else mkLimited (lw_out l ++ p) (limit l) (lw_n l + Z.of_nat (length p)).

Record limitedBuffer := mkBuffer { lb_buf : list byte; lb_max : Z; overflow : bool }.

Definition bufferWrite (b : limitedBuffer) (p : list byte) : limitedBuffer :=
  let remaining := lb_max b - Z.of_nat (length (lb_buf b)) in
  if Z.of_nat (length p) <=? remaining
  then mkBuffer (lb_buf b ++ p) (lb_max b) (overflow b)
  else mkBuffer (if 0 <? remaining then lb_buf b ++ take (Z.to_nat remaining) p else lb_buf b)
                (lb_max b) true.

Definition trimOneTrailingNewline (b : list byte) : list byte :=
  if hasSuffix b [x0d; x0a] then take (length b - 2) b
  else if hasSuffix b [x0a] || hasSuffix b [x0d] then take (length b - 1) b
  else b.

(** How a secret command ended: its exit failure, or the chunks it wrote. *)
Inductive secretError := EmptyCommand | CommandFailed | OutputTooLarge | NoOutput.

Definition SecretRunner : Type := list (list byte) -> list byte + secretError.

Definition ResolveSecretCommand (argv : list (list byte)) (runner : SecretRunner) : list byte + secretError :=
  match argv with
  | [] => inr EmptyCommand
  | _ =>
      match runner argv with
      | inr e => inr e
      | inl out =>
          match trimOneTrailingNewline out with
          | [] => inr NoOutput
          | secret => inl secret
          end
      end
  end.

Definition maxSecretOutputBytes : Z := 65536.
Definition maxTokenBytes : Z := 8192.

(** [run] gives the chunks the command writes to its standard output, or [None]
    when it cannot be run or fails. *)
Definition runSecretArgv (run : list (list byte) -> option (list (list byte))) : SecretRunner :=
  fun argv =>
    match run argv with
    | None => inr CommandFailed
    | Some chunks =>
        let out := foldl bufferWrite (mkBuffer [] maxSecretOutputBytes false) chunks in
        if overflow out then inr OutputTooLarge else inl (lb_buf out)
    end.

Definition tunnelSecretRunner (run : list (list byte) -> option (list (list byte))) : SecretRunner :=
  fun argv =>
    match run argv with
    | None => inr CommandFailed
    | Some chunks =>
        let out := foldl limitedWrite (mkLimited [] (maxTokenBytes + 1) 0) chunks in
        if maxTokenBytes <? Z.of_nat (length (lw_out out)) then inr OutputTooLarge else inl (lw_out out)
    end.

Definition runTokenCommand (run : list (list byte) -> option (list (list byte)))
    (argv : list (list byte)) : list byte + secretError :=
  ResolveSecretCommand argv (tunnelSecretRunner run).
End json.
