(* ===== verification/TunnelLogFacts.v ===== *)
(** * TunnelLogFacts: what the reader of cloudflared's output guarantees

    The splitter delivers the lines of the stream whatever its chunks; readiness
    and the public address depend on the announced lines only; recent lines are
    bounded and clean; a token is read whole or not at all. *)

From S2P Require Import Prelude GoStr GoText Sanitize Redact TunnelLog.

(** ** Lines of a stream *)

(** Reference definition: the lines of the whole stream, each cut to the bound,
    without the empty ones. *)
Definition nonempty (ls : list (list byte)) : list (list byte) :=
  List.filter (fun l => negb (bool_decide (l = []))) ls.
Definition captured (max : Z) (s : list byte) : list (list byte) :=
  nonempty (take (Z.to_nat max) <$> splitOn nl s).

Lemma nonempty_app a b : nonempty (a ++ b) = nonempty a ++ nonempty b.
Proof. apply List.filter_app. Qed.

Lemma nonempty_cons l ls : nonempty (l :: ls) = nonempty [l] ++ nonempty ls.
Proof. by rewrite <- nonempty_app. Qed.

Lemma emit_emitted w : emitted (emit w) = emitted w ++ nonempty [buf w].
Proof. unfold emit. destruct (buf w); simpl; [by rewrite app_nil_r|done]. Qed.

Lemma emit_max w : maxLine (emit w) = maxLine w.
Proof. unfold emit. by destruct (buf w). Qed.

(** What a writer still owes when the rest of its stream is [s]. *)
Definition owed (w : lineWriter) (s : list byte) : list (list byte) :=
  match splitOn nl s with
  | [] => []
  | p :: ps =>
      (if dropping w then [] else nonempty [take (Z.to_nat (maxLine w)) (buf w ++ p)]) ++
      nonempty (take (Z.to_nat (maxLine w)) <$> ps)
  end.

Definition writerOk (w : lineWriter) : Prop :=
  0 < maxLine w /\ Z.of_nat (length (buf w)) <= maxLine w /\ (dropping w = true -> buf w = []).

Lemma flush_owed w : writerOk w -> emitted (flush w) = emitted w ++ owed w [].
Proof.
  intros (Hm & Hl & Hd). unfold flush, owed. cbn [splitOn fmap list_fmap].
  destruct (dropping w); cbn [negb andb emitted app]; [by rewrite app_nil_r|].
  rewrite (app_nil_r (buf w)), take_ge by lia.
  change (nonempty []) with (@nil (list byte)). rewrite app_nil_r.
  destruct (bool_decide (buf w = [])) eqn:E; cbn [negb emitted]; [|apply emit_emitted].
  apply bool_decide_eq_true in E as ->. by rewrite app_nil_r.
Qed.

Lemma splitOn_cons_nl s : splitOn nl (nl :: s) = [] :: splitOn nl s.
Proof. done. Qed.

Lemma splitOn_cons b s p ps : bz b ≠ 10 -> splitOn nl s = p :: ps -> splitOn nl (b :: s) = (b :: p) :: ps.
Proof.
  intros Hb Hs. cbn [splitOn]. rewrite Hs. change (bz nl) with 10.
  by replace (bz b =? 10) with false by lia.
Qed.

Lemma writeByte_owed w b s : writerOk w ->
  writerOk (writeByte w b) /\ maxLine (writeByte w b) = maxLine w /\
  emitted (writeByte w b) ++ owed (writeByte w b) s = emitted w ++ owed w (b :: s).
Proof.
  intros (Hm & Hl & Hd). unfold writeByte, owed.
  destruct (splitOn nl s) as [|p ps] eqn:Es; [by apply splitOn_nonempty in Es|].
  destruct (bz b =? 10) eqn:Eb.
  - assert (b = nl) as -> by (apply bz_inj; change (bz nl) with 10; lia).
    rewrite splitOn_cons_nl, Es. cbn [emitted dropping buf maxLine].
    replace (maxLine (if dropping w then w else emit w)) with (maxLine w)
      by (destruct (dropping w); [done|by rewrite emit_max]).
    split_and!; [by repeat split; simpl; try lia|done|].
    rewrite fmap_cons. rewrite (nonempty_cons (take _ p) (take _ <$> ps)), (app_nil_r (buf w)).
    destruct (dropping w); cbn [app]; [done|]. rewrite emit_emitted, (take_ge (buf w)) by lia. by rewrite <- app_assoc.
  - rewrite (splitOn_cons b s p ps) by (lia || done).
    destruct (dropping w) eqn:Ew.
    { rewrite Ew. split_and!; [repeat split; auto|done|done]. }
    destruct (maxLine w <=? Z.of_nat (length (buf w))) eqn:Ef; cbn [emitted dropping buf maxLine].
    + rewrite emit_max. split_and!; [by repeat split; simpl; try lia|done|].
      rewrite emit_emitted, (take_app_le (buf w)), (take_ge (buf w)) by lia. by rewrite <- app_assoc.
    + split_and!; [repeat split; simpl; try done; rewrite length_app; simpl; lia|done|].
      by rewrite <- (app_assoc (buf w)).
Qed.

Lemma Write_owed p : forall w s, writerOk w ->
  writerOk (Write w p) /\ emitted (Write w p) ++ owed (Write w p) s = emitted w ++ owed w (p ++ s).
Proof.
  induction p as [|b p IH]; intros w s Hw; [done|].
  destruct (writeByte_owed w b (p ++ s) Hw) as (H1 & _ & H2).
  destruct (IH (writeByte w b) s H1) as [H3 H4].
  split; [done|]. cbn [Write foldl]. unfold Write in H4. rewrite H4, H2. done.
Qed.

Lemma Write_chunks chunks : forall w, writerOk w ->
  writerOk (foldl Write w chunks) /\
  emitted (foldl Write w chunks) ++ owed (foldl Write w chunks) [] = emitted w ++ owed w (concat chunks).
Proof.
  induction chunks as [|p chunks IH]; intros w Hw; [done|]. cbn [foldl concat].
  destruct (Write_owed p w (concat chunks) Hw) as [H1 H2].
  destruct (IH _ H1) as [H3 H4]. by rewrite H4, H2.
Qed.

Lemma newLineWriter_ok max : writerOk (newLineWriter max).
Proof. unfold newLineWriter, maxCapturedLineBytes. repeat split; simpl; try done; destruct (max <=? 0) eqn:E; lia. Qed.

(** What a stream delivers, given in chunks and then flushed. *)
Lemma splitter_lines max chunks : 0 < max ->
  emitted (flush (foldl Write (newLineWriter max) chunks)) = captured max (concat chunks).
Proof.
  intros Hm. destruct (Write_chunks chunks _ (newLineWriter_ok max)) as [H1 H2].
  rewrite flush_owed, H2 by done. unfold owed, captured, newLineWriter. cbn [maxLine emitted dropping buf].
  replace (max <=? 0) with false by lia.
  destruct (splitOn nl (concat chunks)) as [|p ps] eqn:E; [by apply splitOn_nonempty in E|].
  by rewrite fmap_cons, (nonempty_cons (take _ p) (take _ <$> ps)).
Qed.

(** ** The Quick Tunnel expression *)

Definition isQuickURL (m : list byte) : Prop :=
  exists b l, m = httpsPrefix ++ [b] ++ l ++ quickSuffix /\
    hostByte b = true /\ Forall (fun c => labelByte c = true) l.

Lemma takeWhile_dropWhile f s : takeWhile f s ++ dropWhile f s = s /\ Forall (fun b => f b = true) (takeWhile f s).
Proof.
  induction s as [|b s [IH1 IH2]]; [done|]. simpl.
  destruct (f b) eqn:E; [|done]. simpl. rewrite IH1. by repeat constructor.
Qed.

Lemma takeWhile_app f l r : Forall (fun b => f b = true) l ->
  (forall b r', r = b :: r' -> f b = false) -> takeWhile f (l ++ r) = l /\ dropWhile f (l ++ r) = r.
Proof.
  intros Hl Hr. induction Hl as [|b l Hb _ [IH1 IH2]]; simpl.
  - destruct r as [|b r]; [done|]. simpl. by rewrite (Hr b r).
  - by rewrite Hb, IH1, IH2.
Qed.

Lemma hasPrefix_app s pre : hasPrefix s pre = true -> s = pre ++ drop (length pre) s.
Proof. intros H. apply hasPrefix_spec in H as [t ->]. by rewrite drop_app_length. Qed.

Lemma prefix_hasPrefix pre t : hasPrefix (pre ++ t) pre = true.
Proof. apply hasPrefix_spec. by exists t. Qed.

(** A match is an address of the expression that starts here, and every address
    that starts here is found. *)
Lemma quickURLAt_spec s m : quickURLAt s = Some m <-> isQuickURL m /\ m `prefix_of` s.
Proof.
  unfold quickURLAt, isQuickURL. split.
  - destruct (hasPrefix s httpsPrefix) eqn:E1; [|done].
    apply hasPrefix_app in E1. destruct (drop (length httpsPrefix) s) as [|b t] eqn:E2; [done|].
    destruct (hostByte b && hasPrefix (dropWhile labelByte t) quickSuffix) eqn:E3; [|done].
    intros Em. apply (inj Some) in Em. subst m.
    apply andb_true_iff in E3 as [Hb Hs]. apply hasPrefix_app in Hs.
    destruct (takeWhile_dropWhile labelByte t) as [H1 H2]. split; [by eauto|].
    exists (drop (length quickSuffix) (dropWhile labelByte t)). rewrite E1, <- H1 at 1. rewrite Hs at 1.
    rewrite <- !app_assoc. done.
  - intros [(b & l & -> & Hb & Hl) [r ->]]. rewrite <- !app_assoc, prefix_hasPrefix, drop_app_length.
    cbn [app]. destruct (takeWhile_app labelByte l (quickSuffix ++ r) Hl) as [H1 H2].
    { intros c r' E. by simplify_eq/=. }
    by rewrite H1, H2, Hb, prefix_hasPrefix.
Qed.

Lemma quickURL_nonempty m : isQuickURL m -> m ≠ [].
Proof. by intros (b & l & -> & _). Qed.

(** [findQuickURL] returns the leftmost address of the text, if there is one. *)
Lemma findQuickURL_spec s :
  match findQuickURL s with
  | [] => forall a m c, s = a ++ m ++ c -> ~ isQuickURL m
  | m => isQuickURL m /\ exists a c, s = a ++ m ++ c /\
           forall a' m' c', s = a' ++ m' ++ c' -> isQuickURL m' -> (length a <= length a')%nat
  end.
Proof.
  induction s as [|x s IH]; cbn [findQuickURL].
  { change (quickURLAt []) with (@None (list byte)). intros a m c E Hm. apply (quickURL_nonempty m Hm).
    symmetry in E. by apply app_nil in E as [_ [-> _]%app_nil]. }
  destruct (quickURLAt (x :: s)) as [m|] eqn:E.
  - apply quickURLAt_spec in E as [Hm [c Hc]]. pose proof (quickURL_nonempty m Hm).
    destruct m as [|y m]; [done|]. split; [done|]. exists [], c. split; [done|]. intros; simpl; lia.
  - assert (Hno : forall a m c, x :: s = a ++ m ++ c -> isQuickURL m ->
              exists a', a = x :: a' /\ s = a' ++ m ++ c).
    { intros [|y a] m c Ha Hm; simplify_eq/=; [|by eauto].
      assert (quickURLAt (x :: s) = Some m) by (apply quickURLAt_spec; split; [done|by exists c]). congruence. }
    destruct (findQuickURL s) as [|y m].
    + intros a m c Ha Hm. destruct (Hno a m c Ha Hm) as (a' & -> & ->). by apply (IH a' m c).
    + destruct IH as (Hm & a & c & -> & Hmin). split; [done|]. exists (x :: a), c. split; [done|].
      intros a' m' c' Ha Hm'. destruct (Hno _ _ _ Ha Hm') as (a'' & -> & Hs). simpl.
      specialize (Hmin a'' m' c' Hs Hm'). lia.
Qed.

Lemma firstURL_quick hs : firstURL hs ≠ [] -> isQuickURL (firstURL hs).
Proof.
  induction hs as [|h hs IH]; [done|]. simpl. pose proof (findQuickURL_spec (toLower h)) as Hf.
  destruct (findQuickURL (toLower h)); [done|]. intros _. apply Hf.
Qed.

(** ** Clean text *)

Lemma trimRightSet_prefix set s : trimRightSet set s `prefix_of` s.
Proof.
  unfold trimRightSet. destruct (takeWhile_dropWhile (isOneOf set) (reverse s)) as [H _].
  exists (reverse (takeWhile (isOneOf set) (reverse s))).
  by rewrite <- reverse_app, H, reverse_involutive.
Qed.

Definition cleanByte (b : byte) : Prop := 32 <= bz b /\ bz b ≠ 127.

Lemma logText_clean rs : forall out, Forall (fun r => validRune r = true) rs ->
  Forall cleanByte out -> (length out < maxLogLineBytes)%nat ->
  Forall cleanByte (logText out rs) /\ (length (logText out rs) < maxLogLineBytes + 4)%nat.
Proof.
  induction rs as [|r rs IH]; intros out Hv Ho Hl; cbn [logText]; [split; [done|lia]|].
  inversion Hv as [|? ? Hr Hv']; subst.
  assert (Hstep : forall e, Forall cleanByte e -> (length e <= 4)%nat ->
    Forall cleanByte (if (maxLogLineBytes <=? length (out ++ e))%nat then out ++ e else logText (out ++ e) rs) /\
    (length (if (maxLogLineBytes <=? length (out ++ e))%nat then out ++ e else logText (out ++ e) rs) <
      maxLogLineBytes + 4)%nat).
  { intros e He Hel. assert (Forall cleanByte (out ++ e)) by by apply Forall_app.
    destruct (maxLogLineBytes <=? length (out ++ e))%nat eqn:E.
    - split; [done|]. rewrite length_app in *. lia.
    - apply IH; [done|done|]. apply Nat.leb_gt in E. done. }
  destruct (r =? 9) eqn:E9; [apply Hstep; [by repeat constructor|simpl; lia]|].
  destruct ((r <? 32) || (r =? 127)) eqn:Ec; [by apply IH|].
  apply Hstep.
  - pose proof (encoded_no_control [r]) as H. unfold encodeRunes in H. cbn in H. rewrite app_nil_r in H.
    apply H; repeat constructor; lia || done.
  - unfold encodeRune. repeat destruct (negb _ || _); repeat case_match; simpl; lia.
Qed.

(** Sanitised text has no C0 control and no DEL, and at most three bytes over
    the nominal bound. *)
Lemma sanitizeLogText_clean s :
  Forall cleanByte (sanitizeLogText s) /\ (length (sanitizeLogText s) <= maxLogLineBytes + 3)%nat.
Proof.
  unfold sanitizeLogText. destruct s as [|b s]; [split; [done|simpl; lia]|].
  destruct (logText_clean (runes (b :: s)) []) as [H1 H2]; [apply runes_valid|done|unfold maxLogLineBytes; simpl; lia|].
  destruct (trimRightSet_prefix [x20] (logText [] (runes (b :: s)))) as [t Ht].
  rewrite Ht in H1, H2. apply Forall_app in H1 as [H1 _]. rewrite length_app in H2. split; [done|lia].
Qed.

(** ** Recent lines *)

Definition lastN {A} (n : nat) (l : list A) : list A := drop (length l - n) l.

Lemma lastN_snoc {A} n (l : list A) x : (0 < n)%nat -> lastN n (l ++ [x]) =
  if (n <=? length (lastN n l))%nat then drop 1 (lastN n l) ++ [x] else lastN n l ++ [x].
Proof.
  intros Hn. unfold lastN. rewrite length_app, length_drop. simpl.
  destruct (n <=? length l - (length l - n))%nat eqn:E.
  - apply Nat.leb_le in E. rewrite drop_drop, drop_app_le by lia. do 2 f_equal. lia.
  - apply Nat.leb_gt in E. rewrite drop_app_le by lia. do 2 f_equal. lia.
Qed.

Lemma add_cap r l : cap (add r l) = cap r.
Proof. unfold add. destruct l; [done|]. by destruct (_ <=? _). Qed.

(** The buffer holds the last [cap] of the lines that were added. *)
Lemma ring_recent capacity ls :
  let r := foldl add (newRingBuffer capacity) ls in
  lines r = lastN (Z.to_nat (cap r)) (nonempty ls) /\ cap r = cap (newRingBuffer capacity).
Proof.
  cbv zeta. assert (Hpos : 0 < cap (newRingBuffer capacity)) by (simpl; destruct (capacity <=? 0) eqn:E; lia).
  assert (Hr0 : lines (newRingBuffer capacity) = []) by done. revert Hpos Hr0.
  generalize (newRingBuffer capacity) as r0. intros r0 Hpos Hr0. induction ls as [|l ls [IH1 IH2]] using rev_ind; [by split|].
  rewrite foldl_snoc, add_cap, IH2, nonempty_app. split; [|done].
  set (r := foldl add r0 ls) in *.
  unfold add. destruct l as [|b l]; [by rewrite IH1, IH2, app_nil_r|].
  change (nonempty [b :: l]) with [b :: l]. rewrite lastN_snoc, <- IH2, <- IH1 by lia.
  destruct (cap r <=? Z.of_nat (length (lines r))) eqn:E.
  - by replace (_ <=? _)%nat with true by (symmetry; apply Nat.leb_le; lia).
  - by replace (_ <=? _)%nat with false by (symmetry; apply Nat.leb_gt; lia).
Qed.

(** ** A secret is read whole or not at all *)

Lemma limited_total limit0 chunks : 0 <= limit0 ->
  let out := foldl limitedWrite (mkLimited [] limit0 0) chunks in
  lw_out out = take (Z.to_nat limit0) (concat chunks) /\ limit out = limit0 /\
  lw_n out = Z.of_nat (length (lw_out out)).
Proof.
  intros Hm. simpl. induction chunks as [|p chunks (IH1 & IH2 & IH3)] using rev_ind.
  { simpl. by rewrite take_nil. }
  rewrite foldl_snoc, concat_app. simpl. rewrite app_nil_r.
  set (o := foldl limitedWrite _ chunks) in *. unfold limitedWrite.
  rewrite IH2, IH3, IH1, length_take, take_app. set (c := concat chunks) in *.
  destruct (_ <=? 0) eqn:E1.
  { rewrite IH1, IH2, IH3, IH1, length_take. split_and!; [|done|done].
    apply Z.leb_le in E1. replace (Z.to_nat limit0 - length c)%nat with O by lia. by rewrite app_nil_r. }
  apply Z.leb_gt in E1. destruct (_ <? _) eqn:E2; [apply Z.ltb_lt in E2|apply Z.ltb_ge in E2]; cbn [lw_out TunnelLog.limit lw_n]; rewrite ?length_app, ?length_take.
  - split_and!; [f_equal; f_equal; lia|done|lia].
  - split_and!; [|done|lia]. rewrite (take_ge p) by lia. done.
Qed.

Lemma buffer_total max0 chunks : 0 <= max0 ->
  let out := foldl bufferWrite (mkBuffer [] max0 false) chunks in
  lb_buf out = take (Z.to_nat max0) (concat chunks) /\ lb_max out = max0 /\
  overflow out = (max0 <? Z.of_nat (length (concat chunks))).
Proof.
  intros Hm. simpl. induction chunks as [|p chunks (IH1 & IH2 & IH3)] using rev_ind.
  { simpl. split_and!; [by rewrite take_nil|done|symmetry; apply Z.ltb_ge; lia]. }
  rewrite foldl_snoc, concat_app. simpl. rewrite app_nil_r.
  set (o := foldl bufferWrite _ chunks) in *. unfold bufferWrite.
  rewrite IH2, IH3, IH1, length_take, take_app, length_app. set (c := concat chunks) in *.
  destruct (_ <=? _) eqn:E1; [apply Z.leb_le in E1|apply Z.leb_gt in E1]; cbn [lb_buf lb_max overflow].
  - split_and!; [|done|].
    2:{ destruct (max0 <? Z.of_nat (length c)) eqn:Ea; symmetry;
        [apply Z.ltb_lt in Ea; apply Z.ltb_lt|apply Z.ltb_ge in Ea; apply Z.ltb_ge]; lia. }
    destruct p as [|b p]; [by rewrite take_nil|]. simpl in E1. rewrite (take_ge (b :: p)) by (simpl; lia). done.
  - split_and!; [|done|symmetry; apply Z.ltb_lt; lia]. destruct (0 <? _) eqn:E2; [apply Z.ltb_lt in E2; f_equal; f_equal; lia|].
    apply Z.ltb_ge in E2.
    replace (Z.to_nat max0 - length c)%nat with O by lia. by rewrite app_nil_r.
Qed.

Lemma hasSuffix_spec s suf : hasSuffix s suf = true <-> suf `suffix_of` s.
Proof.
  unfold hasSuffix. rewrite hasPrefix_spec. split; intros [t Ht].
  - exists (reverse t). by rewrite <- (reverse_involutive s), Ht, reverse_app, reverse_involutive.
  - exists (reverse t). by rewrite Ht, reverse_app.
Qed.

(** A token is the output without its last line end. *)
Inductive lineEnd : list byte -> list byte -> Prop :=
  | end_crlf t : lineEnd (t ++ [x0d; x0a]) t
  | end_lf t : (forall u, t ≠ u ++ [x0d]) -> lineEnd (t ++ [x0a]) t
  | end_cr t : lineEnd (t ++ [x0d]) t
  | end_none t : (forall u, t ≠ u ++ [x0a]) -> (forall u, t ≠ u ++ [x0d]) -> lineEnd t t.

Lemma take_suffix {A} (t e : list A) n : n = length e -> take (length (t ++ e) - n) (t ++ e) = t.
Proof. intros ->. rewrite length_app. rewrite take_app_length'; [done|lia]. Qed.

Lemma trimOne_spec b : lineEnd b (trimOneTrailingNewline b).
Proof.
  unfold trimOneTrailingNewline.
  destruct (hasSuffix b [x0d; x0a]) eqn:E1.
  { apply hasSuffix_spec in E1 as [t ->]. rewrite take_suffix by done. constructor. }
  assert (N1 : forall u, b ≠ u ++ [x0d; x0a]).
  { intros u ->. assert (hasSuffix (u ++ [x0d; x0a]) [x0d; x0a] = true) by (apply hasSuffix_spec; by exists u).
    congruence. }
  destruct (hasSuffix b [x0a]) eqn:E2.
  { apply hasSuffix_spec in E2 as [t ->]. cbn [orb]. rewrite take_suffix by done. constructor.
    intros u ->. apply (N1 u). by rewrite <- app_assoc. }
  destruct (hasSuffix b [x0d]) eqn:E3; cbn [orb].
  { apply hasSuffix_spec in E3 as [t ->]. rewrite take_suffix by done. constructor. }
  constructor; intros u ->.
  - assert (hasSuffix (u ++ [x0a]) [x0a] = true) by (apply hasSuffix_spec; by exists u). congruence.
  - assert (hasSuffix (u ++ [x0d]) [x0d] = true) by (apply hasSuffix_spec; by exists u). congruence.
Qed.

Lemma snoc2 {A} (t : list A) x y : t ++ [x; y] = (t ++ [x]) ++ [y].
Proof. by rewrite <- app_assoc. Qed.

Lemma lineEnd_unique b t t' : lineEnd b t -> lineEnd b t' -> t = t'.
Proof.
  assert (forall u v : list byte, u ++ [x0a] = v ++ [x0d] -> False) by (intros u v [_ ?]%app_inj_tail; done).
  destruct 1; inversion 1; subst; rewrite ?snoc2 in *;
    repeat match goal with E : _ ++ [?x] = _ ++ [?x] |- _ => apply app_inj_tail in E as [E _] end;
    naive_solver.
Qed.

(** The tunnel token is the whole output of the token command without its
    last line end, or nothing. It is accepted exactly when the command ran, wrote
    at most 8 KiB however its output was split into writes, and something is left
    after one CRLF, LF or CR is removed; an over-long output is refused, never
    truncated. *)
Theorem token_exact (run : list (list byte) -> option (list (list byte))) (argv : list (list byte)) (t : list byte) :
  runTokenCommand run argv = inl t <->
  argv ≠ [] /\ t ≠ [] /\ exists chunks, run argv = Some chunks /\
    Z.of_nat (length (concat chunks)) <= maxTokenBytes /\ lineEnd (concat chunks) t.
Proof.
  unfold runTokenCommand, ResolveSecretCommand, tunnelSecretRunner.
  destruct argv as [|a argv]; [naive_solver|]. destruct (run (a :: argv)) as [chunks|]; [|naive_solver].
  destruct (limited_total (maxTokenBytes + 1) chunks) as (E1 & _ & _); [done|]. rewrite E1.
  assert (Hlen : length (take (Z.to_nat (maxTokenBytes + 1)) (concat chunks)) =
    Nat.min (Z.to_nat (maxTokenBytes + 1)) (length (concat chunks))) by (by rewrite length_take).
  unfold maxTokenBytes in *. destruct (8192 <? _) eqn:Ec.
  - split; [done|]. intros (_ & _ & c & [= <-] & Hc & _). rewrite Hlen in Ec. apply Z.ltb_lt in Ec. lia.
  - rewrite Hlen in Ec. apply Z.ltb_ge in Ec. rewrite take_ge by lia. pose proof (trimOne_spec (concat chunks)) as Hs.
    destruct (trimOneTrailingNewline (concat chunks)) as [|x s].
    + split; [done|]. intros (_ & Hn & c & [= <-] & _ & Ht). by rewrite (lineEnd_unique _ _ _ Ht Hs) in Hn.
    + split.
      * intros [= <-]. split_and!; [done|done|]. exists chunks. split_and!; [done|lia|done].
      * intros (_ & _ & c & [= <-] & _ & Ht). by rewrite (lineEnd_unique _ _ _ Ht Hs).
Qed.

(** ** Readiness and recent lines *)

Section process.
  Context (decodeLog : list byte -> option (list byte * list byte * list byte * list byte)).

(** A line announces readiness: an address in quick mode, a registered
    connection in named mode. *)
Definition announces (quick : bool) (l : list byte) : Prop :=
  kind (classify (parseLogLine decodeLog l)) = if quick then evQuickURL else evConnRegistered.

Definition streamLines (chunks : list (list byte)) : list (list byte) :=
  emitted (flush (foldl Write (newLineWriter maxCapturedLineBytes) chunks)).

Lemma classify_url l : kind (classify l) = evQuickURL -> isQuickURL (ev_url (classify l)).
Proof.
  unfold classify. pose proof (firstURL_quick (haystacks l)) as H.
  destruct (firstURL (haystacks l)); [|intros _; by apply H].
  destruct (registered _); [done|]. by destruct (_ || _).
Qed.

Lemma handleLine_effect p b :
  let p' := (handleLine decodeLog p b).1 in
  p_quick p' = p_quick p /\
  (p_ready p' = true <-> p_ready p = true \/ announces (p_quick p) b) /\
  (publicURL p ≠ [] -> publicURL p' = publicURL p) /\
  (publicURL p' = publicURL p \/ isQuickURL (publicURL p')) /\
  (p_quick p = true -> announces true b -> publicURL p' ≠ []).
Proof.
  unfold handleLine, announces. pose proof (classify_url (parseLogLine decodeLog b)) as Hu. simpl.
  destruct (kind (classify (parseLogLine decodeLog b))) eqn:E, p as [u r q]; simpl in *; destruct q; simpl; try naive_solver.
  - specialize (Hu eq_refl). pose proof (quickURL_nonempty _ Hu). destruct u; naive_solver.
  - specialize (Hu eq_refl). destruct u; naive_solver.
Qed.

Lemma processLines_effect ls : forall p,
  let p' := processLines decodeLog p ls in
  p_quick p' = p_quick p /\
  (p_ready p' = true <-> p_ready p = true \/ exists l, l ∈ ls /\ announces (p_quick p) l) /\
  (publicURL p ≠ [] -> publicURL p' = publicURL p) /\
  (publicURL p' = publicURL p \/ isQuickURL (publicURL p')) /\
  (p_quick p = true -> (exists l, l ∈ ls /\ announces true l) -> publicURL p' ≠ []).
Proof.
  induction ls as [|b ls IH]; intros p.
  { simpl. split_and!; [done| |done|by left|]; [split; [by left|]|]; set_solver. }
  destruct (handleLine_effect p b) as (H1 & H2 & H3 & H4 & H5).
  destruct (IH (handleLine decodeLog p b).1) as (I1 & I2 & I3 & I4 & I5). clear IH.
  change (processLines decodeLog p (b :: ls)) with (processLines decodeLog (handleLine decodeLog p b).1 ls).
  set (p1 := (handleLine decodeLog p b).1) in *. rewrite H1 in *. simpl in *. split_and!; [done| | | |].
  - rewrite I2, H2. setoid_rewrite elem_of_cons. naive_solver.
  - intros Hn. rewrite I3; [by apply H3|]. by rewrite H3.
  - destruct I4 as [->|]; [|by right]. done.
  - intros Hq (l & [->|Hl]%elem_of_cons & Ha); [|by apply I5; eauto].
    specialize (H5 Hq Ha). by rewrite I3.
Qed.

(** Readiness is exactly what cloudflared announced. However the two output
    streams are split into writes and however their lines interleave, the process
    becomes ready if and only if some captured line of either stream (cut to
    64 KiB) carries a Quick Tunnel address in quick mode or a registered
    connection in named mode. A configured public address is never replaced by
    the log, and a ready quick tunnel has an address of the strict form
    https://<label>.trycloudflare.com. *)
Theorem readiness_exact (url : list byte) (quick : bool) (outs errs ls : list (list byte)) :
  ls ≡ₚ streamLines outs ++ streamLines errs ->
  let p := processLines decodeLog (mkProcess url false quick) ls in
  (p_ready p = true <->
     exists l, l ∈ captured maxCapturedLineBytes (concat outs) ++ captured maxCapturedLineBytes (concat errs) /\
       announces quick l) /\
  (url ≠ [] -> publicURL p = url) /\
  (url = [] -> quick = true -> p_ready p = true -> isQuickURL (publicURL p)).
Proof.
  intros Hls p. destruct (processLines_effect ls (mkProcess url false quick)) as (_ & H2 & H3 & H4 & H5).
  fold p in H2, H3, H4, H5. simpl in *.
  unfold streamLines in Hls. rewrite !splitter_lines in Hls by done.
  split_and!.
  - rewrite H2. setoid_rewrite Hls. naive_solver.
  - done.
  - intros -> -> Hr. apply H2 in Hr as [|Hr]; [done|]. specialize (H5 eq_refl Hr). by destruct H4 as [|].
Qed.


Lemma onLine_fold ls : forall st,
  (foldl (onLine decodeLog) st ls).2 =
  foldl add st.2 ((fun b => match sanitizeLogText b with
                            | [] => [] | raw => SanitizeForLog raw end) <$> ls).
Proof.
  induction ls as [|b ls IH]; intros st; [done|]. cbn [foldl fmap list_fmap]. rewrite IH. f_equal.
  unfold onLine, sink, handleLine. simpl.
  assert (E : Raw (parseLogLine decodeLog b) = sanitizeLogText b).
  { unfold parseLogLine. destruct (_ && _); [|done]. by destruct (decodeLog _) as [[[[? ?] ?] ?]|]. }
  rewrite E. by destruct (sanitizeLogText b).
Qed.

(** Recent log lines are bounded and clean. After any lines of cloudflared
    the buffer holds exactly the last non-empty ones, redacted and sanitised, at
    most as many as its positive capacity, and none of their bytes is a control
    character. *)
Theorem recent_logs_clean (capacity : Z) (p : realProcess) (ls : list (list byte)) :
  let r := (foldl (onLine decodeLog) (p, newRingBuffer capacity) ls).2 in
  0 < cap r /\ Z.of_nat (length (lines r)) <= cap r /\ Forall (Forall cleanByte) (lines r) /\
  lines r = lastN (Z.to_nat (cap r))
    (nonempty ((fun b => match sanitizeLogText b with
                         | [] => [] | raw => SanitizeForLog raw end) <$> ls)).
Proof.
  simpl. rewrite onLine_fold. simpl. set (f := fun b => match sanitizeLogText b with [] => [] | _ => _ end).
  destruct (ring_recent capacity (f <$> ls)) as [E1 E2].
  set (r := foldl add (newRingBuffer capacity) (f <$> ls)) in *.
  assert (Hc : 0 < cap r) by (rewrite E2; simpl; destruct (capacity <=? 0) eqn:E; lia).
  split_and!; [done| | |done].
  - rewrite E1. unfold lastN. rewrite length_drop. lia.
  - rewrite E1. unfold lastN, nonempty. apply Forall_drop, List.Forall_forall. intros l.
    rewrite List.filter_In, List.in_map_iff. intros [(b & <- & _) _]. unfold f. simpl. destruct (sanitizeLogText b) as [|x s]; [done|].
    destruct (log_runes (RedactSecrets (x :: s))) as [_ Hp].
    apply encoded_no_control; eapply Forall_impl; try apply Hp; unfold printableRune; naive_solver.
Qed.
End process.

Lemma readiness_exact_witness :
  let p := processLines (fun _ => None) (mkProcess [] false true) [bytesOf "visit https://a-b.trycloudflare.com now"] in
  isQuickURL (publicURL p).
Proof.
  apply (readiness_exact (fun _ => None) [] true
    [bytesOf "visit https://a-b.trycl"; bytesOf "oudflare.com now"] []); [by vm_compute|done|done|by vm_compute].
Defined.
