(* ===== verification/Tunnel.v ===== *)
(** * Tunnel: the cloudflared supervisor of internal/tunnel

    Configuration and argv of mode.go and args.go, the restart delays of
    backoff.go, the orphan check of orphan.go, and the supervise loop of
    supervisor.go with the temporary token files of token.go.

    The loop is a machine: [act] is one step of [Supervisor.run] (or a request to
    stop), with the outcome of the token command, of starting and waiting for the
    process, of removing a file and of a select among ready cases given by the
    action. A run is a list of actions. The floating-point delay of
    [Backoff.Next] before its cap is the parameter [floatDelay]. *)

From stdpp Require Import pretty.
From S2P Require Import Prelude GoStr GoText GoPath TunnelLog.

#[local] Open Scope Z_scope.

(** ** Configuration (mode.go) *)

Definition second : Z := 1000000000.

Definition ModeNamed : list byte := bytesOf "named".
Definition ModeQuick : list byte := bytesOf "quick".
Definition StrategyConfig : list byte := bytesOf "config".
Definition StrategyCredentials : list byte := bytesOf "credentials".
Definition StrategyTokenFile : list byte := bytesOf "token_file".
Definition StrategyTokenCommand : list byte := bytesOf "token_command".

Definition defaultBinary : list byte := bytesOf "cloudflared".
Definition defaultMetricsAddr : list byte := bytesOf "127.0.0.1:0".
Definition defaultGracePeriod : Z := 15 * second.
Definition defaultStabilityWindow : Z := 45 * second.

Record Config := mkConfig {
  Mode : list byte; Binary : list byte; LoopbackPort : Z; PublicURL : list byte; Strategy : list byte;
  ConfigFile : list byte; CredentialsFile : list byte; TunnelName : list byte; TokenFile : list byte;
  TokenCommand : list (list byte); QuickEnabled : bool; GracePeriod : Z; StabilityWindow : Z;
  MetricsAddr : list byte; TokenDir : list byte; PidDir : list byte
}.

Definition orElse (s fallback : list byte) : list byte := match s with [] => fallback | _ => s end.

Definition applyDefaults (c : Config) : Config :=
  mkConfig (Mode c) (orElse (Binary c) defaultBinary) (LoopbackPort c) (PublicURL c) (Strategy c)
    (ConfigFile c) (CredentialsFile c) (TunnelName c) (TokenFile c) (TokenCommand c) (QuickEnabled c)
    (if GracePeriod c <=? 0 then defaultGracePeriod else GracePeriod c)
    (if StabilityWindow c <=? 0 then defaultStabilityWindow else StabilityWindow c)
    (orElse (MetricsAddr c) defaultMetricsAddr) (TokenDir c) (PidDir c).

Definition withStrategy (c : Config) (s : list byte) : Config :=
  mkConfig (Mode c) (Binary c) (LoopbackPort c) (PublicURL c) s (ConfigFile c) (CredentialsFile c)
    (TunnelName c) (TokenFile c) (TokenCommand c) (QuickEnabled c) (GracePeriod c) (StabilityWindow c)
    (MetricsAddr c) (TokenDir c) (PidDir c).

Definition metricsAddrIsLoopback (addr : list byte) : bool :=
  match SplitHostPort addr with
  | None => false
  | Some (host, _) =>
      bool_decide (host = bytesOf "localhost") ||
      match ParseIP host with Some ip => IsLoopback ip | None => false end
  end.

Inductive configError :=
  | PortOutOfRange | MetricsNotLoopback | QuickNotEnabled | NoStrategy | ManyStrategies (n : nat)
  | UnknownStrategy | NoPublicURL | IncompleteStrategy | ModeRequired | UnknownMode
  | NoTokenPath.

Definition inferred (c : Config) : list (list byte) :=
  (if isEmpty (ConfigFile c) then [] else [StrategyConfig]) ++
  (if isEmpty (CredentialsFile c) && isEmpty (TunnelName c) then [] else [StrategyCredentials]) ++
  (if isEmpty (TokenFile c) then [] else [StrategyTokenFile]) ++
  (if isEmpty (TokenCommand c) then [] else [StrategyTokenCommand]).

Definition resolveStrategy (c : Config) : list byte + configError :=
  match Strategy c with
  | [] =>
      match inferred c with
      | [] => inr NoStrategy
      | [s] => inl s
      | found => inr (ManyStrategies (length found))
      end
  | s =>
      if bool_decide (s ∈ [StrategyConfig; StrategyCredentials; StrategyTokenFile; StrategyTokenCommand])
      then inl s else inr UnknownStrategy
  end.

Definition validateStrategy (c : Config) (s : list byte) : option configError :=
  if bool_decide (s = StrategyConfig) then
    if isEmpty (ConfigFile c) then Some IncompleteStrategy else None
  else if bool_decide (s = StrategyCredentials) then
    if isEmpty (CredentialsFile c) || isEmpty (TunnelName c) then Some IncompleteStrategy else None
  else if bool_decide (s = StrategyTokenFile) then
    if isEmpty (TokenFile c) then Some IncompleteStrategy else None
  else if bool_decide (s = StrategyTokenCommand) then
    if isEmpty (TokenCommand c) then Some IncompleteStrategy else None
  else Some UnknownStrategy.

(** [Validate] changes its receiver: the new configuration and the error. *)
Definition Validate (c0 : Config) : Config * option configError :=
  let c := applyDefaults c0 in
  if (LoopbackPort c <? 1) || (65535 <? LoopbackPort c) then (c, Some PortOutOfRange)
  else if negb (metricsAddrIsLoopback (MetricsAddr c)) then (c, Some MetricsNotLoopback)
  else if bool_decide (Mode c = ModeQuick) then
    (c, if QuickEnabled c then None else Some QuickNotEnabled)
  else if bool_decide (Mode c = ModeNamed) then
    match resolveStrategy c with
    | inr e => (c, Some e)
    | inl s =>
        let c' := withStrategy c s in
        if isEmpty (PublicURL c') then (c', Some NoPublicURL) else (c', validateStrategy c' s)
    end
  else (c, Some (if isEmpty (Mode c) then ModeRequired else UnknownMode)).

Definition usesTokenCommand (c : Config) : bool :=
  bool_decide (Mode c = ModeNamed) && bool_decide (Strategy c = StrategyTokenCommand).

(** ** The command line (args.go) *)

Definition decimal (n : Z) : list byte := bytesOf (pretty n).
Definition loopbackOriginURL (port : Z) : list byte := bytesOf "http://127.0.0.1:" ++ decimal port.

Definition commonArgs (c : Config) : list (list byte) :=
  (bytesOf <$> ["tunnel"; "--no-autoupdate"; "--loglevel"; "info"; "--output"; "json"; "--metrics"]) ++ [MetricsAddr c].

Definition buildArgs (c : Config) (tokenFilePath : list byte) : list (list byte) + configError :=
  if bool_decide (Mode c = ModeQuick) then
    inl (commonArgs c ++ [bytesOf "--url"; loopbackOriginURL (LoopbackPort c)])
  else if bool_decide (Mode c = ModeNamed) then
    if bool_decide (Strategy c = StrategyConfig) then
      inl (commonArgs c ++ [bytesOf "--config"; ConfigFile c; bytesOf "run"])
    else if bool_decide (Strategy c = StrategyCredentials) then
      inl (commonArgs c ++ [bytesOf "run"; bytesOf "--credentials-file"; CredentialsFile c; TunnelName c])
    else if bool_decide (Strategy c = StrategyTokenFile) || bool_decide (Strategy c = StrategyTokenCommand) then
      if isEmpty tokenFilePath then inr NoTokenPath
      else inl (commonArgs c ++ [bytesOf "run"; bytesOf "--token-file"; tokenFilePath])
    else inr UnknownStrategy
  else inr UnknownMode.

Definition namedURL (c : Config) : list byte :=
  if bool_decide (Mode c = ModeNamed) then PublicURL c else [].

(** The record of a started process, before its first line. *)
Definition newProcess (c : Config) : realProcess :=
  mkProcess (namedURL c) false (bool_decide (Mode c = ModeQuick)).

(** ** Restart delays (backoff.go) *)

Record Backoff := mkBackoff { bo_Max : Z; attempt : Z }.

Definition boMax (b : Backoff) : Z := if bo_Max b <=? 0 then 30 * second else bo_Max b.

Section backoff.
  Context (floatDelay : Z -> Z).

Definition Next (b : Backoff) : Z * Backoff :=
  let d := floatDelay (attempt b) in
  (if boMax b <? d then boMax b else d, mkBackoff (bo_Max b) (attempt b + 1)).
End backoff.

Definition ResetBackoff (b : Backoff) : Backoff := mkBackoff (bo_Max b) 0.

(** ** Orphans (orphan.go) *)

Record pidRecord := mkPid { PID : Z; pr_Binary : list byte; CreatedUnixMs : Z }.

(** What the system answers about a process: whether signal 0 succeeds or is
    refused, its command (or [None]), its start time in nanoseconds (or [None]),
    and for every look in the grace loop whether the process is still alive. *)
Record procView := mkView {
  pv_alive : bool; pv_comm : option (list byte); pv_start : option Z; pv_looks : list bool
}.

Definition startTimeTolerance : Z := 3 * second.

Definition commandBase (s0 : list byte) : list byte :=
  match TrimSpace s0 with
  | [] => []
  | s => Base (take (spanLength (fun b => negb ((bz b =? 32) || (bz b =? 9))) s) s)
  end.

(** [readPidRecord] on the decoded file: a record without a pid is refused. *)
Definition readPidRecord (decoded : option pidRecord) : option pidRecord :=
  r ← decoded; if PID r <=? 0 then None else Some r.

Definition processAliveUnix (v : procView) (pid : Z) : bool := if pid <=? 0 then false else pv_alive v.

(** [processComm] trims the output of ps. *)
Definition processComm (v : procView) : option (list byte) := TrimSpace <$> pv_comm v.

(** [Some true] when the identity is confirmed, [None] when it cannot be. *)
Definition verifyProcessIdentity (v : procView) (r : pidRecord) : option bool :=
  match commandBase (pr_Binary r) with
  | [] => None
  | expected =>
      comm ← processComm v;
      if bool_decide (comm = []) || negb (bool_decide (commandBase comm = expected)) then Some false
      else if CreatedUnixMs r <=? 0 then None
      else
        start ← pv_start v;
        let diff := timeSub start (CreatedUnixMs r * 1000000) in
        Some (negb ((diff <? - startTimeTolerance) || (startTimeTolerance <? diff)))
  end.

Inductive signal := SIGTERM | SIGKILL.

(** What reconciliation does, in order. *)
Inductive orphanEffect := Signal (pid : Z) (sig : signal) | LogLeft (pid : Z) | LogTerminating (pid : Z) | RemovePidfile.

(** [terminateGroup]: the looks of the grace loop end with the deadline. *)
Fixpoint graceLoop (pid : Z) (looks : list bool) : list orphanEffect :=
  match looks with
  | [] => [Signal pid SIGKILL]
  | alive :: looks' => if negb alive then [] else graceLoop pid looks'
  end.
Definition terminateGroup (pid : Z) (v : procView) : list orphanEffect :=
  Signal pid SIGTERM :: graceLoop pid (pv_looks v).

Definition reconcileOrphan (decoded : option pidRecord) (v : procView) : list orphanEffect :=
  match readPidRecord decoded with
  | None => []
  | Some r =>
      if negb (processAliveUnix v (PID r)) then [RemovePidfile]
      else match verifyProcessIdentity v r with
           | Some true => LogTerminating (PID r) :: terminateGroup (PID r) v ++ [RemovePidfile]
           | _ => [LogLeft (PID r)]
           end
  end.

(** ** The supervise loop (supervisor.go) *)

Inductive State := StateIdle | StateStarting | StateReady | StateDegraded | StateStopped.

#[global] Instance State_eq_dec : EqDecision State.
Proof. solve_decision. Defined.

(** Where [run] stands. An attempt carries the path it was given and whether
    that is a temporary file; [AtReady] also the time of readiness. *)
Inductive phase :=
  | AtTop
  | AtPrepare
  | AtStart (path : list byte) (temp : bool)
  | AtWait (path : list byte) (temp : bool)
  | AtReady (path : list byte) (temp : bool) (readyAt : Z)
  | AtExited
  | AtFailed
  | AtSleep (d : Z)
  | Returned.

(** [files] are the temporary token files on disk; [attemptFile] is what the
    cleanup of the current attempt still has to remove ([once] is false);
    [child] is the running process; [pidfile] what is recorded on disk. [slept]
    collects the restart delays and [started] the processes started. *)
Record Supervisor := mkSup {
  cfg : Config; backoff : Backoff; maxConsecutive : Z; stabilityWindow : Z;
  at_ : phase; state : State; url : list byte; lastErr : bool; readyClosed : bool;
  stopClosed : bool; ctxDone : bool; doneClosed : bool;
  consecutive : Z; files : list (list byte); attemptFile : option (list byte);
  child : option Z; pidfile : option pidRecord; slept : list Z; started : list Z
}.

Definition atPhase (s : Supervisor) (p : phase) : Supervisor :=
  mkSup (cfg s) (backoff s) (maxConsecutive s) (stabilityWindow s) p (state s) (url s) (lastErr s)
    (readyClosed s) (stopClosed s) (ctxDone s) (doneClosed s) (consecutive s) (files s) (attemptFile s)
    (child s) (pidfile s) (slept s) (started s).
Definition setState (s : Supervisor) (st : State) : Supervisor :=
  mkSup (cfg s) (backoff s) (maxConsecutive s) (stabilityWindow s) (at_ s) st (url s) (lastErr s)
    (readyClosed s) (stopClosed s) (ctxDone s) (doneClosed s) (consecutive s) (files s) (attemptFile s)
    (child s) (pidfile s) (slept s) (started s).
(** [setErr]: whether an error is recorded. *)
Definition setErr (s : Supervisor) (e : bool) : Supervisor :=
  mkSup (cfg s) (backoff s) (maxConsecutive s) (stabilityWindow s) (at_ s) (state s) (url s) e
    (readyClosed s) (stopClosed s) (ctxDone s) (doneClosed s) (consecutive s) (files s) (attemptFile s)
    (child s) (pidfile s) (slept s) (started s).
Definition setURL (s : Supervisor) (u : list byte) : Supervisor :=
  mkSup (cfg s) (backoff s) (maxConsecutive s) (stabilityWindow s) (at_ s) (state s) u (lastErr s)
    (readyClosed s) (stopClosed s) (ctxDone s) (doneClosed s) (consecutive s) (files s) (attemptFile s)
    (child s) (pidfile s) (slept s) (started s).
Definition signalReady (s : Supervisor) : Supervisor :=
  mkSup (cfg s) (backoff s) (maxConsecutive s) (stabilityWindow s) (at_ s) (state s) (url s) (lastErr s)
    true (stopClosed s) (ctxDone s) (doneClosed s) (consecutive s) (files s) (attemptFile s)
    (child s) (pidfile s) (slept s) (started s).
Definition setCount (s : Supervisor) (b : Backoff) (n : Z) : Supervisor :=
  mkSup (cfg s) b (maxConsecutive s) (stabilityWindow s) (at_ s) (state s) (url s) (lastErr s)
    (readyClosed s) (stopClosed s) (ctxDone s) (doneClosed s) n (files s) (attemptFile s)
    (child s) (pidfile s) (slept s) (started s).
Definition setFiles (s : Supervisor) (fs : list (list byte)) (f : option (list byte)) : Supervisor :=
  mkSup (cfg s) (backoff s) (maxConsecutive s) (stabilityWindow s) (at_ s) (state s) (url s) (lastErr s)
    (readyClosed s) (stopClosed s) (ctxDone s) (doneClosed s) (consecutive s) fs f
    (child s) (pidfile s) (slept s) (started s).
Definition setChild (s : Supervisor) (c : option Z) (p : option pidRecord) (st : list Z) : Supervisor :=
  mkSup (cfg s) (backoff s) (maxConsecutive s) (stabilityWindow s) (at_ s) (state s) (url s) (lastErr s)
    (readyClosed s) (stopClosed s) (ctxDone s) (doneClosed s) (consecutive s) (files s) (attemptFile s)
    c p (slept s) st.
Definition addSleep (s : Supervisor) (d : Z) : Supervisor :=
  mkSup (cfg s) (backoff s) (maxConsecutive s) (stabilityWindow s) (at_ s) (state s) (url s) (lastErr s)
    (readyClosed s) (stopClosed s) (ctxDone s) (doneClosed s) (consecutive s) (files s) (attemptFile s)
    (child s) (pidfile s) (slept s ++ [d]) (started s).
Definition setSignals (s : Supervisor) (stop ctx done : bool) : Supervisor :=
  mkSup (cfg s) (backoff s) (maxConsecutive s) (stabilityWindow s) (at_ s) (state s) (url s) (lastErr s)
    (readyClosed s) stop ctx done (consecutive s) (files s) (attemptFile s)
    (child s) (pidfile s) (slept s) (started s).

(** [New] with the options' values. *)
Definition New (c0 : Config) (b : Backoff) (maxC : Z) (window : option Z) : Supervisor + configError :=
  match Validate c0 with
  | (_, Some e) => inr e
  | (c, None) =>
      inl (mkSup c b maxC (default (StabilityWindow c) window) AtTop StateIdle [] false
             false false false false 0 [] None None None [] [])
  end.

(** [Start]: the state, then the loop, which reconciles the recorded orphan
    first. [pf] is the pidfile that reconciliation leaves. *)
Definition Start (s : Supervisor) (pf : option pidRecord) : Supervisor :=
  setChild (setState s StateStarting) (child s) pf (started s).

Definition stopping (s : Supervisor) : bool := stopClosed s || ctxDone s.

(** Every return of [run] sets a state first, then drops the pidfile and closes
    [doneCh]. *)
Definition return_ (s : Supervisor) (st : State) : Supervisor :=
  setSignals (setChild (atPhase (setState s st) Returned) (child s) None (started s))
    (stopClosed s) (ctxDone s) true.

(** The cleanup of the attempt; [removed] is what os.Remove answers. A cleanup
    runs once. *)
Definition cleanup (s : Supervisor) (removed : bool) : Supervisor :=
  setFiles s
    (match attemptFile s with
     | Some f => if removed then List.filter (fun g => negb (bool_decide (g = f))) (files s) else files s
     | None => files s
     end) None.

Definition recordPid (s : Supervisor) (pid : Z) (written : bool) (nowMs : Z) : Supervisor :=
  if pid <=? 0 then s
  else setChild s (child s)
         (if written then Some (mkPid pid (Binary (cfg s)) nowMs) else pidfile s) (started s).

(** [gracefulStop]: [exited] is false when the process did not exit after the
    kill. *)
Definition gracefulStop (s : Supervisor) (exited removed : bool) : Supervisor :=
  cleanup (if exited then setChild s None (pidfile s) (started s) else s) removed.

(** [WriteFailed]: the token file that could not be written and not be removed
    either; [BecameReady]: the lines the process had handled when its address was
    read; [Wake] and [WakeStop]: the sleep ends with its timer, or with a request to
    stop. *)
Inductive action :=
  | CloseStop | CancelCtx
  | Check
  | PrepareConfigured | PrepareFailed | PrepareFile (path : list byte) | WriteFailed (leftover : option (list byte))
  | StartFailed (removed : bool)
  | Started (pid : Z) (written : bool) (nowMs : Z)
  | BecameReady (handled : list (list byte)) (now : Z) (removed : bool)
  | Exited (err : bool) (now : Z) (removed : bool)
  | SawStop (exited removed : bool)
  | Wake | WakeStop.

Section run.
  Context (floatDelay : Z -> Z).
  Context (decodeLog : list byte -> option (list byte * list byte * list byte * list byte)).

(** [afterFailure]. *)
Definition afterFailure (s : Supervisor) : Supervisor :=
  if stopping s then return_ s StateStopped
  else
    let n := consecutive s + 1 in
    let s1 := setCount s (backoff s) n in
    if (0 <? maxConsecutive s) && (maxConsecutive s <=? n) then return_ s1 StateDegraded
    else
      let '(d, b) := Next floatDelay (backoff s) in
      addSleep (atPhase (setCount (setState s1 StateStarting) b n) (AtSleep d)) d.

(** One step of the loop, or of its environment. *)
Definition act (s : Supervisor) (a : action) : option Supervisor :=
  match a, at_ s with
  | CloseStop, _ => Some (setSignals s true (ctxDone s) (doneClosed s))
  | CancelCtx, _ => Some (setSignals s (stopClosed s) true (doneClosed s))
  | Check, AtTop => Some (if stopping s then return_ s StateStopped else atPhase s AtPrepare)
  | PrepareConfigured, AtPrepare =>
      if usesTokenCommand (cfg s) then None else Some (atPhase s (AtStart (TokenFile (cfg s)) false))
  | PrepareFailed, AtPrepare =>
      if usesTokenCommand (cfg s) then Some (atPhase (setErr s true) AtFailed) else None
  | WriteFailed leftover, AtPrepare =>
      if usesTokenCommand (cfg s)
      then Some (atPhase (setErr (setFiles s (files s ++ (match leftover with Some f => [f] | None => [] end)) None) true) AtFailed) else None
  | PrepareFile path, AtPrepare =>
      if usesTokenCommand (cfg s) && negb (bool_decide (path ∈ files s)) && negb (isEmpty path)
      then Some (atPhase (setFiles s (files s ++ [path]) (Some path)) (AtStart path true)) else None
  | StartFailed removed, AtStart _ _ =>
      Some (atPhase (setErr (cleanup s removed) true) AtFailed)
  | Started pid written nowMs, AtStart path temp =>
      match buildArgs (cfg s) path with
      | inr _ => None
      | inl _ =>
          Some (atPhase (recordPid (setChild s (Some pid) (pidfile s) (started s ++ [pid])) pid written nowMs)
                  (AtWait path temp))
      end
  | BecameReady handled now removed, AtWait path temp =>
      let p := processLines decodeLog (newProcess (cfg s)) handled in
      if p_ready p then
        Some (atPhase (signalReady (setErr (setState (setURL (cleanup s removed) (publicURL p)) StateReady) false))
                (AtReady path temp now))
      else None
  | Exited err _ removed, AtWait _ _ =>
      Some (atPhase (setErr (cleanup (setChild s None (pidfile s) (started s)) removed) err) AtExited)
  | Exited _ now _, AtReady _ _ readyAt =>
      let s1 := setChild s None (pidfile s) (started s) in
      Some (atPhase (if stabilityWindow s <=? timeSub now readyAt
                     then setCount s1 (ResetBackoff (backoff s)) 0 else s1) AtExited)
  | SawStop exited removed, AtWait _ _ | SawStop exited removed, AtReady _ _ _ =>
      if stopping s then Some (return_ (gracefulStop s exited removed) StateStopped) else None
  | Check, AtExited => Some (if stopping s then return_ s StateStopped else atPhase s AtFailed)
  | Check, AtFailed => Some (afterFailure s)
  | Wake, AtSleep _ => Some (atPhase s AtTop)
  | WakeStop, AtSleep _ => if stopping s then Some (atPhase s AtTop) else None
  | _, _ => None
  end.

Definition execute (s : Supervisor) (acts : list action) : option Supervisor :=
  foldl (fun o a => s ← o; act s a) (Some s) acts.
End run.
