(* ===== verification/TunnelFacts.v ===== *)
(** * TunnelFacts: what the supervisor guarantees in every run *)

From stdpp Require Import pretty.
From S2P Require Import Prelude GoStr GoText GoPath TunnelLog TunnelLogFacts Tunnel.

#[local] Open Scope Z_scope.

(** ** Configuration *)

(** What a validated configuration satisfies. *)
Definition configOk (c : Config) : Prop :=
  1 <= LoopbackPort c <= 65535 /\ metricsAddrIsLoopback (MetricsAddr c) = true /\
  (Mode c = ModeQuick /\ QuickEnabled c = true \/
   Mode c = ModeNamed /\ PublicURL c ≠ [] /\
     (Strategy c = StrategyConfig /\ ConfigFile c ≠ [] \/
      Strategy c = StrategyCredentials /\ CredentialsFile c ≠ [] /\ TunnelName c ≠ [] \/
      Strategy c = StrategyTokenFile /\ TokenFile c ≠ [] \/
      Strategy c = StrategyTokenCommand /\ TokenCommand c ≠ [])).

#[local] Ltac cases :=
  repeat match goal with
  | H : context [bool_decide ?P] |- _ => destruct (bool_decide_reflect P)
  | H : context [if ?b then _ else _] |- _ => destruct b eqn:?
  end; simplify_eq/=.

Lemma validateStrategy_ok c s : validateStrategy c s = None ->
  s = StrategyConfig /\ ConfigFile c ≠ [] \/
  s = StrategyCredentials /\ CredentialsFile c ≠ [] /\ TunnelName c ≠ [] \/
  s = StrategyTokenFile /\ TokenFile c ≠ [] \/ s = StrategyTokenCommand /\ TokenCommand c ≠ [].
Proof.
  unfold validateStrategy. intros H. cases; rewrite ?orb_false_iff, ?isEmpty_false in *; naive_solver.
Qed.

Lemma Validate_ok c0 c : Validate c0 = (c, None) -> configOk c.
Proof.
  unfold Validate, configOk. intros H.
  destruct (_ || _) eqn:Ep; [done|]. apply orb_false_iff in Ep as [Ep1 Ep2].
  destruct (negb _) eqn:Em; [done|]. apply negb_false_iff in Em.
  destruct (bool_decide_reflect (Mode (applyDefaults c0) = ModeQuick)) as [Eq|].
  { destruct (QuickEnabled (applyDefaults c0)) eqn:E; simplify_eq. split; [lia|]. split; [done|]. by left. }
  destruct (bool_decide_reflect (Mode (applyDefaults c0) = ModeNamed)) as [En|]; [|done].
  destruct (resolveStrategy (applyDefaults c0)) as [st|]; [|done].
  destruct (isEmpty (PublicURL (withStrategy (applyDefaults c0) st))) eqn:Eu; [done|]. injection H as Hc Hv. subst c.
  apply isEmpty_false in Eu. split; [simpl in *; lia|]. split; [done|]. right. split; [done|]. split; [done|].
  by apply validateStrategy_ok in Hv.
Qed.

(** A validated configuration always gives an argv, once a token strategy has
    its file. *)
Lemma buildArgs_ok c path : configOk c ->
  (Mode c = ModeNamed -> Strategy c = StrategyTokenFile \/ Strategy c = StrategyTokenCommand -> path ≠ []) ->
  exists args, buildArgs c path = inl args.
Proof.
  intros (_ & _ & Hm) Hp. unfold buildArgs.
  destruct Hm as [[-> _]|(Em & _ & Hs)]; [by rewrite bool_decide_true; eauto|].
  rewrite Em, bool_decide_false, bool_decide_true by done.
  destruct Hs as [[-> _]|[(-> & _ & _)|[[Es _]|[Es _]]]]; [by eauto|by eauto| |];
    (rewrite Es; rewrite Es in Hp; simpl; destruct path; [by destruct Hp; auto|by eauto]).
Qed.

Lemma buildArgs_common c p args : buildArgs c p = inl args -> exists rest, args = commonArgs c ++ rest.
Proof.
  unfold buildArgs. generalize (commonArgs c) as common. intros common.
  destruct (bool_decide (Mode c = ModeQuick)); [intros [= <-]; by eexists|].
  destruct (bool_decide (Mode c = ModeNamed)); [|done].
  destruct (bool_decide (Strategy c = StrategyConfig)); [intros [= <-]; by eexists|].
  destruct (bool_decide (Strategy c = StrategyCredentials)); [intros [= <-]; by eexists|].
  destruct (_ || _); [|done]. destruct (isEmpty p); [done|]. intros [= <-]; by eexists.
Qed.

(** ** Runs *)

Section runs.
  Context (floatDelay : Z -> Z).
  Context (decodeLog : list byte -> option (list byte * list byte * list byte * list byte)).

  #[local] Abbreviation act := (act floatDelay decodeLog).
  #[local] Abbreviation execute := (execute floatDelay decodeLog).

Lemma execute_nil s : execute s [] = Some s.
Proof. done. Qed.

Lemma execute_snoc s acts a : execute s (acts ++ [a]) = s' ← execute s acts; act s' a.
Proof. unfold Tunnel.execute. by rewrite foldl_snoc. Qed.

Lemma execute_app s acts acts' : execute s (acts ++ acts') = s' ← execute s acts; execute s' acts'.
Proof.
  induction acts' as [|a acts' IH] using rev_ind.
  - rewrite app_nil_r. by destruct (execute s acts).
  - rewrite app_assoc, execute_snoc, IH. destruct (execute s acts) as [s'|]; [|done]. simpl.
    by rewrite execute_snoc.
Qed.

(** Induction over a run: what holds at the start and is kept by every action
    that is taken holds at the end. *)
Lemma run_invariant (P : list action -> Supervisor -> Prop) s0 :
  P [] s0 ->
  (forall acts s a s', execute s0 acts = Some s -> P acts s -> act s a = Some s' -> P (acts ++ [a]) s') ->
  forall acts s, execute s0 acts = Some s -> P acts s.
Proof.
  intros H0 Hstep acts. induction acts as [|a acts IH] using rev_ind; intros s Hs.
  - rewrite execute_nil in Hs. by simplify_eq.
  - rewrite execute_snoc in Hs. destruct (execute s0 acts) as [s1|] eqn:E; [|done]. simpl in Hs. eauto.
Qed.

(** Case analysis of the action [H : act s a = Some s']: the action, the phase
    and the guards. *)
#[local] Ltac step_cases H :=
  match type of H with
  | _ ?s ?a = _ =>
      destruct s as [? ? ? ? p ? ? ? ? ? ? ? ? ? ? ? ? ? ?]; cbn in *;
      unfold Tunnel.act, afterFailure, return_, gracefulStop, cleanup, recordPid, Next, stopping in H;
      destruct a, p; try discriminate H; cbn in *;
      repeat match type of H with
      | context [if ?b then _ else _] => destruct b eqn:?; try discriminate H; cbn in *
      | context [match buildArgs ?c ?q with _ => _ end] => destruct (buildArgs c q) eqn:?; try discriminate H; cbn in *
      end;
      injection H as H; subst; cbn in *
  end.

(** What never changes, and the phases of an attempt. *)
Definition settings (s : Supervisor) : Config * Z * Z * Z :=
  (cfg s, maxConsecutive s, stabilityWindow s, bo_Max (backoff s)).

Lemma act_settings s a s' : act s a = Some s' -> settings s' = settings s.
Proof. intros H. unfold settings. step_cases H; done. Qed.

Lemma run_settings s0 acts s : execute s0 acts = Some s -> settings s = settings s0.
Proof.
  revert acts s. apply run_invariant; [done|]. intros acts s a s' _ IH Ha.
  by rewrite (act_settings _ _ _ Ha).
Qed.

(** *** Status: states, the child, the address *)

Definition inAttempt (p : phase) : bool := match p with AtWait _ _ | AtReady _ _ _ => true | _ => false end.

Definition addressOk (c : Config) (u : list byte) : Prop :=
  Mode c = ModeNamed /\ u = PublicURL c \/ Mode c = ModeQuick /\ isQuickURL u.

Definition status (s : Supervisor) : Prop :=
  (state s = StateReady -> readyClosed s = true /\ addressOk (cfg s) (url s)) /\
  match at_ s with
  | Returned =>
      doneClosed s = true /\ pidfile s = None /\
      (state s = StateStopped /\ stopping s = true \/ state s = StateDegraded)
  | p =>
      doneClosed s = false /\
      match p with
      | AtReady _ _ _ => state s = StateReady /\ is_Some (child s)
      | AtWait _ _ => state s = StateStarting /\ is_Some (child s)
      | AtExited | AtFailed => (state s = StateStarting \/ state s = StateReady) /\ child s = None
      | _ => state s = StateStarting /\ child s = None
      end
  end.

Lemma ready_address c ls : configOk c ->
  p_ready (processLines decodeLog (newProcess c) ls) = true ->
  addressOk c (publicURL (processLines decodeLog (newProcess c) ls)).
Proof.
  intros (_ & _ & Hm) Hr. destruct (processLines_effect decodeLog ls (newProcess c)) as (_ & H2 & H3 & H4 & H5).
  unfold newProcess, namedURL, addressOk in *. simpl in *.
  destruct Hm as [[Em _]|(Em & Hu & _)].
  - right. split; [done|]. rewrite Em in *. simpl in *. apply H2 in Hr as [|Hr]; [done|].
    specialize (H5 eq_refl Hr). by destruct H4 as [|].
  - left. split; [done|]. rewrite Em in *. by apply H3.
Qed.

Lemma act_status s a s' : configOk (cfg s) -> status s -> act s a = Some s' -> status s'.
Proof.
  intros Hc [S1 S2] H. unfold status, stopping in *.
  step_cases H; rewrite ?orb_true_r; try by intuition (eauto; discriminate).
  all: split; [|by intuition]; intros _; split; [done|]; by apply ready_address.
Qed.

(** *** Token files *)

(** Every removal in the run succeeded. *)
Definition removes (a : action) : Prop :=
  match a with
  | StartFailed r | BecameReady _ _ r | Exited _ _ r | SawStop _ r => r = true
  | WriteFailed f => f = None
  | _ => True
  end.

Definition onDisk (s : Supervisor) : Prop :=
  match at_ s with
  | AtStart p t | AtWait p t => if t then files s = [p] /\ attemptFile s = Some p else files s = [] /\ attemptFile s = None
  | _ => files s = [] /\ attemptFile s = None
  end.

Lemma remove_only (f : list byte) : List.filter (fun g => negb (bool_decide (g = f))) [f] = [].
Proof. simpl. by rewrite bool_decide_true. Qed.

Lemma act_onDisk s a s' : removes a -> onDisk s -> act s a = Some s' -> onDisk s'.
Proof.
  intros Hr Hd H. unfold onDisk in *.
  step_cases H; subst; try done; try (by destruct Hd as [-> ->]);
    repeat match goal with t : bool |- _ => destruct t end;
    try (by destruct Hd as [-> ->]; rewrite ?remove_only); try (by destruct Hd; subst; rewrite ?app_nil_r).
Qed.

(** *** Attempts and the failure counter *)

(** How an attempt ended, at the action that ends it: [true] for a run that
    stayed ready for the stability window. *)
Definition outcome (s : Supervisor) (a : action) : list bool :=
  match a, at_ s with
  | Exited _ now _, AtReady _ _ readyAt => [stabilityWindow s <=? timeSub now readyAt]
  | Exited _ _ _, AtWait _ _ | StartFailed _, AtStart _ _ | PrepareFailed, AtPrepare | WriteFailed _, AtPrepare => [false]
  | _, _ => []
  end.

Fixpoint outcomes (s : Supervisor) (acts : list action) : list bool :=
  match acts with
  | [] => []
  | a :: acts' => match act s a with Some s' => outcome s a ++ outcomes s' acts' | None => [] end
  end.

(** The attempts since the last stable run, that run included. *)
Definition streak (os : list bool) : Z := foldl (fun (n : Z) (stable : bool) => if stable then 1 else n + 1) 0 os.

Lemma outcomes_snoc acts : forall s s1 a s', execute s acts = Some s1 -> act s1 a = Some s' ->
  outcomes s (acts ++ [a]) = outcomes s acts ++ outcome s1 a.
Proof.
  induction acts as [|b acts IH]; intros s s1 a s' H1 H2.
  - rewrite execute_nil in H1. simplify_eq. simpl. by rewrite H2, app_nil_r.
  - change (b :: acts) with ([b] ++ acts) in H1. rewrite execute_app in H1.
    change (execute s [b]) with (act s b) in H1. cbn [app outcomes].
    destruct (act s b) as [s2|]; [|done]. simpl in H1.
    rewrite (IH s2 s1 a s'), app_assoc by done. done.
Qed.

Definition owing (p : phase) : Z := match p with AtExited | AtFailed => 1 | _ => 0 end.

Definition counted (s : Supervisor) (os : list bool) : Prop :=
  (Forall (fun d => d <= boMax (backoff s)) (slept s)) /\
  match at_ s with
  | Returned =>
      (state s = StateDegraded -> 0 < maxConsecutive s /\ streak os = maxConsecutive s) /\
      (0 < maxConsecutive s -> streak os <= maxConsecutive s /\
        (Forall (fun b => b = false) os -> Z.of_nat (length (started s)) <= maxConsecutive s))
  | p =>
      0 <= consecutive s /\ consecutive s + owing p = streak os /\ attempt (backoff s) = consecutive s /\
      (0 < maxConsecutive s -> consecutive s < maxConsecutive s) /\
      Z.of_nat (length (started s)) <= Z.of_nat (length os) + (if inAttempt p then 1 else 0)
  end.

Lemma streak_snoc os b : streak (os ++ [b]) = if b then 1 else streak os + 1.
Proof. unfold streak. by rewrite foldl_snoc. Qed.

Lemma streak_failures os : Forall (fun b => b = false) os -> streak os = Z.of_nat (length os).
Proof.
  induction os as [|b os IH] using rev_ind; [done|]. intros [H Hb]%Forall_app.
  inversion Hb; subst. rewrite streak_snoc, IH, length_app by done. simpl. lia.
Qed.

Lemma act_counted s a s' os : counted s os -> act s a = Some s' -> counted s' (os ++ outcome s a).
Proof.
  intros [C1 C2] H. unfold counted in *. pose proof (streak_failures os) as Hf.
  step_cases H; rewrite ?app_nil_r, ?streak_snoc, ?length_app; cbn [length];
    (split; [try done|]); try lia; try (by intuition lia).
  4-5: apply Forall_app; split; [done|]; constructor; [|done]; change (boMax (mkBackoff _ _)) with (boMax backoff); lia.
  all: destruct C2 as (? & ? & ? & C & ?); split; [done|]; intros Hm; specialize (C Hm);
    split; [lia|]; intros Ho; specialize (Hf Ho); lia.
Qed.

(** *** Stopping *)

Definition loopAction (a : action) : Prop := a ≠ CloseStop /\ a ≠ CancelCtx.

(** How many steps are left at most once a stop is requested. *)
Definition rank (s : Supervisor) : nat :=
  match at_ s with
  | Returned => 0 | AtTop | AtFailed | AtExited => 1 | AtReady _ _ _ | AtSleep _ => 2
  | AtWait _ _ => 3 | AtStart _ _ => 4 | AtPrepare => 5
  end.

Lemma act_rank s a s' : stopping s = true -> loopAction a -> act s a = Some s' ->
  stopping s' = true /\ (rank s' < rank s)%nat /\ (at_ s' = Returned -> state s' = StateStopped).
Proof.
  intros Hs [L1 L2] H. unfold stopping, rank in *.
  step_cases H; try congruence; (split_and!; [done|lia|done]).
Qed.

(** The actions that need nothing of cloudflared and no timer: the loop goes on by
    itself, a select sees the request to stop, starting a process returns, and a token
    command is killed when the context is done. (Stop alone does not reach a token
    command.) *)
Definition unaided (s : Supervisor) (a : action) : Prop :=
  match a with
  | Check | SawStop _ _ | WakeStop | PrepareConfigured | StartFailed _ | Started _ _ _ => True
  | PrepareFailed => ctxDone s = true
  | _ => False
  end.

(** The loop is inside the token command, and only Stop was called. *)
Definition inTokenCommand (s : Supervisor) : Prop :=
  at_ s = AtPrepare /\ usesTokenCommand (cfg s) = true /\ ctxDone s = false.

Lemma act_progress s : stopping s = true -> at_ s ≠ Returned ->
  (exists a s', unaided s a /\ act s a = Some s') \/
  inTokenCommand s /\ exists s', act s PrepareFailed = Some s'.
Proof.
  intros Hs Hn. unfold Tunnel.act, inTokenCommand. destruct (at_ s) eqn:E; try done.
  - left. exists Check; eexists; done.
  - destruct (usesTokenCommand (cfg s)) eqn:Eu.
    + destruct (ctxDone s) eqn:Ec; [left; exists PrepareFailed|right; split; [done|]]; eexists; done.
    + left. exists PrepareConfigured; eexists; done.
  - left. exists (StartFailed true); eexists; done.
  - left. exists (SawStop true true). rewrite Hs. eexists; done.
  - left. exists (SawStop true true). rewrite Hs. eexists; done.
  - left. exists Check; eexists; done.
  - left. exists Check; eexists; done.
  - left. exists WakeStop. rewrite Hs. eexists; done.
Qed.



(** *** Reachable states *)

Section reachable.
  Context (c0 : Config) (bo : Backoff) (maxC : Z) (window : option Z) (pf : option pidRecord) (s0 : Supervisor).
  Context (Hnew : New c0 bo maxC window = inl s0) (Hbo : attempt bo = 0).

Lemma New_start : configOk (cfg s0) /\ status (Start s0 pf) /\ onDisk (Start s0 pf) /\ counted (Start s0 pf) [].
Proof.
  unfold New in Hnew. destruct (Validate c0) as [c [e|]] eqn:E; [done|]. apply Validate_ok in E.
  injection Hnew as <-. unfold status, onDisk, counted. cbn. rewrite Hbo. split_and!; try done; lia.
Qed.

Lemma New_fields : maxConsecutive s0 = maxC /\ boMax (backoff s0) = boMax bo.
Proof.
  unfold New in Hnew. destruct (Validate c0) as [c [e|]]; [done|]. by injection Hnew as <-.
Qed.

Lemma run_fields acts s : execute (Start s0 pf) acts = Some s ->
  cfg s = cfg s0 /\ maxConsecutive s = maxC /\ boMax (backoff s) = boMax bo.
Proof.
  intros H. apply run_settings in H. unfold settings in H. destruct New_fields as [<- <-].
  injection H as E1 E2 E3 E4. unfold boMax. by rewrite E1, E2, E4.
Qed.

Lemma reachable acts s : execute (Start s0 pf) acts = Some s ->
  cfg s = cfg s0 /\ configOk (cfg s) /\ status s /\
  (Forall removes acts -> onDisk s) /\ counted s (outcomes (Start s0 pf) acts).
Proof.
  destruct New_start as (Hc & Hs & Hd & Hn). revert acts s. apply run_invariant; [done|].
  intros acts s a s' Hrun (IH1 & IH2 & IH3 & IH4 & IH5) Ha.
  destruct (run_fields (acts ++ [a]) s') as (E1 & _ & _); [by rewrite execute_snoc, Hrun|].
  rewrite E1. split_and!; [done|done| | |].
  - eapply act_status; eauto.
  - intros [Hr Hra]%Forall_app. apply Forall_inv in Hra. apply (act_onDisk s a s'); auto.
  - erewrite outcomes_snoc by eauto. by eapply act_counted.
Qed.

(** A temporary token file lives only while cloudflared may still need it. In
    every run in which the system removes files when asked, at most one token
    file exists; once the process is ready, between attempts and after the
    supervisor has returned there is none. *)
Theorem token_file_lifetime acts s :
  execute (Start s0 pf) acts = Some s -> Forall removes acts ->
  (length (files s) <= 1)%nat /\
  (state s = StateReady \/ at_ s = Returned \/ at_ s = AtTop \/ (exists d, at_ s = AtSleep d) -> files s = []) /\
  (forall f, f ∈ files s -> at_ s = AtStart f true \/ at_ s = AtWait f true).
Proof.
  intros Hrun Hrm. destruct (reachable acts s Hrun) as (_ & _ & [_ S2] & Hd & _).
  specialize (Hd Hrm). unfold onDisk in Hd.
  destruct (at_ s); try (destruct Hd as [-> _]; split_and!; [simpl; lia|done|by intros f ?%elem_of_nil]).
  all: destruct temp; destruct Hd as [-> _]; split_and!; try (simpl; lia); try (by intros f ?%elem_of_nil); try done.
  all: try (by intros f ->%list_elem_of_singleton; auto).
  all: intros [E|[E|[E|[d E]]]]; try discriminate E; destruct S2 as (_ & S2 & _); congruence.
Qed.

(** The supervisor gives up exactly after [maxConsecutive] attempts in a row
    without a stable run (readiness alone does not reset the count). The streak of
    attempts since the last stable run never exceeds the cap; degraded means it
    reached the cap; and the attempt that reaches it ends the loop, unless a stop
    was requested. Without a stable run at most [maxConsecutive] processes are ever
    started, and no restart delay exceeds the backoff maximum. *)
Theorem degrades_exactly acts s :
  0 < maxC -> execute (Start s0 pf) acts = Some s ->
  let os := outcomes (Start s0 pf) acts in
  streak os <= maxC /\
  (state s = StateDegraded -> streak os = maxC) /\
  (at_ s = AtFailed -> stopping s = false -> streak os = maxC ->
     exists s', act s Check = Some s' /\ at_ s' = Returned /\ state s' = StateDegraded) /\
  (Forall (fun b => b = false) os -> Z.of_nat (length (started s)) <= maxC) /\
  Forall (fun d => d <= boMax bo) (slept s).
Proof.
  intros Hmax Hrun. destruct (reachable acts s Hrun) as (_ & _ & [_ S2] & _ & [C1 C2]).
  destruct (run_fields acts s Hrun) as (_ & Em & Eb). rewrite Eb in C1. rewrite Em in C2.
  set (os := outcomes (Start s0 pf) acts) in *. cbv zeta. pose proof (streak_failures os) as Hf.
  split_and!; [| | | |done].
  - destruct (at_ s); cbn in C2; destruct_and?; try lia. all: naive_solver lia.
  - intros Hd. destruct (at_ s); try (exfalso; destruct S2 as (_ & S2); clear -S2 Hd; intuition congruence).
    destruct C2 as [C2 _]. by destruct (C2 Hd).
  - intros Ea Es Estr. rewrite Ea in C2. cbn in C2. unfold Tunnel.act. rewrite Ea. eexists. split; [done|].
    unfold afterFailure. rewrite Es, Em. replace (_ && _) with true by lia. done.
  - intros Ho. specialize (Hf Ho). destruct (at_ s); cbn in C2; try lia. naive_solver lia.
Qed.

(** What the supervisor reports is true. While it says ready, Ready() is
    closed and URL() is the configured address in named mode and an address
    https://<label>.trycloudflare.com in quick mode; a child is recorded exactly
    while an attempt is under way, so two never run at once; Done() is closed
    exactly when the loop has returned, which leaves no pidfile and a stopped or
    degraded state; and stopped is reported at the end only after a request. *)
Theorem published_state acts s :
  execute (Start s0 pf) acts = Some s ->
  (state s = StateReady -> readyClosed s = true /\ addressOk (cfg s0) (url s)) /\
  (doneClosed s = true <-> at_ s = Returned) /\
  (at_ s ≠ Returned -> is_Some (child s) <-> inAttempt (at_ s) = true) /\
  (at_ s = Returned -> pidfile s = None /\
     (state s = StateStopped /\ stopping s = true \/ state s = StateDegraded)).
Proof.
  intros Hrun. destruct (reachable acts s Hrun) as (Ec & _ & [S1 S2] & _). rewrite Ec in S1.
  destruct (at_ s); destruct S2 as (Hd & S2); rewrite Hd; destruct_and?; split_and!; try done;
    try (by intros _; split; [intros [? ?]; congruence|]); by intuition.
Qed.

Definition startPath (s : Supervisor) : Prop :=
  match at_ s with
  | AtStart p _ => p ≠ [] \/ usesTokenCommand (cfg s) = false /\ p = TokenFile (cfg s)
  | _ => True
  end.

Lemma act_startPath s a s' : startPath s -> act s a = Some s' -> startPath s'.
Proof.
  intros Hp H. unfold startPath in *. step_cases H; try done; [by right|].
  left. match goal with E : _ && _ = true |- _ => apply andb_true_iff in E as [_ E]; by destruct path end.
Qed.

(** A supervisor that was created can always start cloudflared. Whenever the
    loop is about to start the process, the argv can be built: the mode and the
    strategy are known and complete, a token strategy has its file, the metrics
    address is loopback and the origin port is valid. *)
Theorem start_has_args acts s p t :
  execute (Start s0 pf) acts = Some s -> at_ s = AtStart p t ->
  exists args, buildArgs (cfg s) p = inl args /\ bytesOf "--metrics" ∈ args /\ MetricsAddr (cfg s) ∈ args /\
    metricsAddrIsLoopback (MetricsAddr (cfg s)) = true.
Proof.
  intros Hrun Hat. destruct (reachable acts s Hrun) as (_ & Hc & _).
  assert (Hp : startPath s).
  { clear Hat Hc. revert acts s Hrun. apply (run_invariant (fun _ s => startPath s)); [|].
    - unfold startPath. unfold New in Hnew. destruct (Validate c0) as [c [e|]]; [done|]. by injection Hnew as <-.
    - intros acts' s1 a s2 _ IH Ha. by eapply act_startPath. }
  unfold startPath in Hp. rewrite Hat in Hp.
  destruct (buildArgs_ok (cfg s) p Hc) as [args Ha].
  { intros Em Es. destruct Hp as [|[Eu ->]]; [done|]. unfold usesTokenCommand in Eu.
    rewrite Em in Eu. destruct Es as [Es|Es]; [|by rewrite Es in Eu].
    destruct Hc as (_ & _ & [[Hq _]|(_ & _ & Hs)]); [by rewrite Em in Hq|].
    rewrite Es in Hs. destruct Hs as [[? _]|[[? _]|[[_ ?]|[? _]]]]; done. }
  assert (exists rest, args = commonArgs (cfg s) ++ rest) as [rest ->].
  { by eapply buildArgs_common. }
  exists (commonArgs (cfg s) ++ rest). split_and!; [done| | |by apply Hc].
  - apply elem_of_app; left. apply elem_of_app; left. apply list_elem_of_fmap_2. by do 6 right; left.
  - apply elem_of_app; left. apply elem_of_app; right. by apply list_elem_of_singleton.
Qed.
End reachable.
End runs.

(** ** Orphans *)

Lemma graceLoop_signals pid looks p sig : Signal p sig ∈ graceLoop pid looks ->
  p = pid /\ sig = SIGKILL /\ Forall (fun alive => alive = true) looks.
Proof.
  induction looks as [|b looks IH]; simpl; intros H.
  - apply list_elem_of_singleton in H. naive_solver.
  - destruct b; simpl in H; [|by apply elem_of_nil in H]. destruct (IH H) as (-> & -> & ?). by repeat constructor.
Qed.

Lemma verify_exact v r : verifyProcessIdentity v r = Some true <->
  exists comm start, pv_comm v = Some comm /\ pv_start v = Some start /\
    commandBase (pr_Binary r) ≠ [] /\ TrimSpace comm ≠ [] /\ commandBase (TrimSpace comm) = commandBase (pr_Binary r) /\
    0 < CreatedUnixMs r /\ Z.abs (start - CreatedUnixMs r * 1000000) <= startTimeTolerance.
Proof.
  unfold verifyProcessIdentity, processComm, startTimeTolerance, timeSub, minDuration, maxDuration, second.
  destruct (commandBase (pr_Binary r)) as [|x base] eqn:Eb; [naive_solver|].
  destruct (pv_comm v) as [comm|] eqn:Ec; [|naive_solver]. cbn [fmap option_fmap option_map mbind option_bind].
  destruct (bool_decide_reflect (TrimSpace comm = [])) as [|Hc]; [naive_solver|]. cbn [orb].
  destruct (bool_decide_reflect (commandBase (TrimSpace comm) = x :: base)) as [Hb|]; cbn [negb]; [|naive_solver].
  destruct (CreatedUnixMs r <=? 0) eqn:E0; [naive_solver lia|].
  destruct (pv_start v) as [start|]; [|naive_solver]. cbn [mbind option_bind]. split.
  - intros E. exists comm, start. split_and!; try done; [lia|].
    destruct (_ || _) eqn:Et in E; [done|]. lia.
  - intros (? & ? & [= <-] & [= <-] & _ & _ & _ & _ & Ht). do 2 f_equal. destruct (_ || _) eqn:Et; [lia|done].
Qed.

(** Only a verified orphan is ever signalled. A signal goes to the recorded
    pid only if that process is alive, runs a command with the recorded binary's
    base name and started within three seconds of the recorded creation time, so
    a recycled pid is left alone; it is killed only if it was still alive at every
    look of the grace period; and then the pidfile is removed. *)
Theorem orphan_signal_verified (decoded : option pidRecord) (v : procView) (pid : Z) (sig : signal) :
  Signal pid sig ∈ reconcileOrphan decoded v ->
  exists r comm start, decoded = Some r /\ PID r = pid /\ 0 < pid /\ pv_alive v = true /\
    pv_comm v = Some comm /\ commandBase (TrimSpace comm) = commandBase (pr_Binary r) /\ commandBase (pr_Binary r) ≠ [] /\
    pv_start v = Some start /\ Z.abs (start - CreatedUnixMs r * 1000000) <= startTimeTolerance /\
    (sig = SIGKILL -> Forall (fun alive => alive = true) (pv_looks v)) /\
    last (reconcileOrphan decoded v) = Some RemovePidfile.
Proof.
  unfold reconcileOrphan, readPidRecord, processAliveUnix. intros H.
  destruct decoded as [r|]; [|by apply elem_of_nil in H]. simpl in *.
  destruct (PID r <=? 0) eqn:E0; simpl in *; [by apply elem_of_nil in H|]. rewrite E0 in *.
  destruct (pv_alive v) eqn:Ea; simpl in *; [|by apply list_elem_of_singleton in H].
  destruct (verifyProcessIdentity v r) as [[|]|] eqn:Ev; [|by apply list_elem_of_singleton in H..].
  apply verify_exact in Ev as (comm & start & ? & ? & ? & _ & ? & _ & ?).
  exists r, comm, start. apply elem_of_cons in H as [?|H]; [done|].
  unfold terminateGroup in *. cbn [app] in H. apply elem_of_cons in H as [H|H].
  - injection H as -> ->. split_and!; try done; [lia|]. rewrite app_comm_cons, app_comm_cons. apply last_snoc.
  - apply elem_of_app in H as [H|H]; [|by apply list_elem_of_singleton in H].
    apply graceLoop_signals in H as (-> & -> & ?).
    split_and!; try done; [lia|]. rewrite app_comm_cons, app_comm_cons. apply last_snoc.
Qed.

(** ** Witnesses *)

Definition sampleConfig : Config :=
  mkConfig ModeNamed [] 8787 (bytesOf "https://x.example") [] [] [] [] [] [bytesOf "get-token"] false 0 0 [] [] [].
Definition sampleSup : Supervisor :=
  match New sampleConfig (mkBackoff 0 0) 2 None with inl s => s | inr _ => mkSup sampleConfig (mkBackoff 0 0) 2 0 AtTop StateIdle [] false false false false false 0 [] None None None [] [] end.
Definition sampleDelay (n : Z) : Z := 1000000000 * 2 ^ n.
Definition noJSON (b : list byte) : option (list byte * list byte * list byte * list byte) := None.
Definition connected : list byte := bytesOf "INF Registered tunnel connection".

(** Two attempts: one becomes ready and dies at once, one never becomes ready. *)
Definition flapping : list action :=
  [Check; PrepareFile (bytesOf "t1"); Started 10 true 5; BecameReady [connected] 0 true; Exited true 1 true; Check; Check;
   Wake; Check; PrepareFile (bytesOf "t2"); Started 11 true 9; Exited true 20 true; Check].
Definition flapped : Supervisor := default sampleSup (execute sampleDelay noJSON (Start sampleSup None) flapping).
Definition waiting : Supervisor :=
  default sampleSup (execute sampleDelay noJSON (Start sampleSup None) (take 3 flapping ++ [CloseStop])).

Lemma token_file_lifetime_witness : (length (files flapped) <= 1)%nat.
Proof.
  apply (token_file_lifetime sampleDelay noJSON sampleConfig (mkBackoff 0 0) 2 None None sampleSup
           eq_refl eq_refl flapping flapped); [by vm_compute|]. repeat constructor.
Defined.

Lemma degrades_exactly_witness :
  streak (outcomes sampleDelay noJSON (Start sampleSup None) flapping) <= 2 /\
  exists s', act sampleDelay noJSON flapped Check = Some s' /\ at_ s' = Returned /\ state s' = StateDegraded.
Proof.
  destruct (degrades_exactly sampleDelay noJSON sampleConfig (mkBackoff 0 0) 2 None None sampleSup
    eq_refl eq_refl flapping flapped) as (H1 & _ & H3 & _); [lia|by vm_compute|].
  split; [done|]. apply H3; by vm_compute.
Defined.


Lemma published_state_witness :
  let s := default sampleSup (execute sampleDelay noJSON (Start sampleSup None) (take 4 flapping)) in
  readyClosed s = true /\ addressOk (cfg sampleSup) (url s).
Proof.
  cbv zeta. eapply (published_state sampleDelay noJSON sampleConfig (mkBackoff 0 0) 2 None None sampleSup
    eq_refl eq_refl (take 4 flapping)); by vm_compute.
Defined.

Lemma start_has_args_witness :
  let s := default sampleSup (execute sampleDelay noJSON (Start sampleSup None) (take 2 flapping)) in
  exists args, buildArgs (cfg s) (bytesOf "t1") = inl args.
Proof.
  cbv zeta. edestruct (start_has_args sampleDelay noJSON sampleConfig (mkBackoff 0 0) 2 None None sampleSup
    eq_refl eq_refl (take 2 flapping)) as (args & H & _); [by vm_compute|by vm_compute|]. by exists args.
Defined.

Lemma orphan_signal_verified_witness :
  exists r, Some (mkPid 42 (bytesOf "/opt/bin/cloudflared") 1000) = Some r /\ PID r = 42.
Proof.
  edestruct (orphan_signal_verified (Some (mkPid 42 (bytesOf "/opt/bin/cloudflared") 1000))
    (mkView true (Some (bytesOf "cloudflared")) (Some 2000000000) [true]) 42 SIGKILL) as (r & _ & _ & H1 & H2 & _).
  - by vm_compute; right; right; left.
  - by exists r.
Defined.
