(* ===== verification/HerdrClient.v ===== *)
(** * HerdrClient: one request to Herdr's socket, and the event subscription

    client.go, wire.go, ping.go and events.go of internal/herdr: request ids,
    framing, the round trip with its deadline, response checks, the protocol
    handshake, and the reconnecting subscriber.

    A connection is what the peer will send ([inbound]) and how it ends. Decoding
    JSON is the parameters [decodeEnvelope], [decodeType] and [decodeOut]; the
    floating-point growth of the reconnect delay is the parameter [scale]. *)

From stdpp Require Import pretty.
From S2P Require Import Prelude GoStr GoText Sanitize.

#[local] Open Scope Z_scope.

(** ** Errors (errors.go) *)

Definition CodeConnect := "connect".
Definition CodeTransport := "transport".
Definition CodeTimeout := "timeout".
Definition CodeCanceled := "canceled".
Definition CodeProtocol := "protocol".
Definition CodeUnexpectedTyp := "unexpected_type".
Definition CodeFrameTooLarge := "frame_too_large".
Definition CodeIncompatible := "incompatible".

Record Error := mkError { Code : string; Message : list byte }.
Definition newError (code : string) (msg : list byte) : Error := mkError code (sanitizeMessage msg).

(** ** Framing *)

Inductive ioError := EOF | UnexpectedEOF | FrameTooLarge | OtherIO (msg : list byte).

(** [readFrame] on the bytes that arrive, however they were fragmented, and the
    error that ends them. The result also holds the bytes after the frame. *)
Fixpoint readFrameFrom (max : Z) (buf inbound : list byte) (ending : ioError) : list byte * list byte + ioError :=
  match inbound with
  | [] => inr (match ending, buf with EOF, _ :: _ => UnexpectedEOF | e, _ => e end)
  | b :: rest =>
      if bz b =? 10 then inl (buf, rest)
      else if max <=? Z.of_nat (length buf) then inr FrameTooLarge
      else readFrameFrom max (buf ++ [b]) rest ending
  end.
Definition readFrame (max : Z) (inbound : list byte) (ending : ioError) : list byte * list byte + ioError :=
  readFrameFrom max [] inbound ending.

Definition classifyIOError (e : ioError) : Error :=
  match e with
  | FrameTooLarge => newError CodeFrameTooLarge (bytesOf "response frame exceeds byte bound")
  | EOF | UnexpectedEOF => newError CodeTransport (bytesOf "connection closed before a complete response")
  | OtherIO msg => newError CodeTransport msg
  end.

(** ** Responses *)

Record envelope := mkEnvelope {
  env_ID : string; env_Result : list byte; env_Error : option (string * list byte)
}.

Record Client := mkClient { idPrefix : string; seq : Z; maxBytes : Z; timeout : Z }.
Definition DefaultTimeout : Z := 5000000000.
Definition DefaultMaxResponseBytes : Z := 8388608.

Definition nextID (c : Client) : string * Client :=
  let n := u64 (seq c + 1) in
  (idPrefix c +:+ "-" +:+ pretty n, mkClient (idPrefix c) n (maxBytes c) (timeout c)).

Section decode.
  Context (decodeEnvelope : list byte -> option envelope) (decodeType : list byte -> option string).

Definition decodeResponse {A} (decodeOut : list byte -> option A) (frame : list byte) (wantID wantType : string) : A + Error :=
  match decodeEnvelope frame with
  | None => inr (newError CodeProtocol (bytesOf "malformed response frame"))
  | Some env =>
      match env_Error env with
      | Some (code, msg) => inr (newError code msg)
      | None =>
          if negb (bool_decide (env_ID env = "")) && negb (bool_decide (env_ID env = wantID))
          then inr (newError CodeProtocol (bytesOf "response id mismatch"))
          else match env_Result env with
          | [] => inr (newError CodeProtocol (bytesOf "response has neither result nor error"))
          | result =>
              let out :=
                match decodeOut result with
                | Some v => inl v
                | None => inr (newError CodeProtocol (bytesOf "cannot decode result"))
                end in
              if bool_decide (wantType = "") then out
              else match decodeType result with
                   | None => inr (newError CodeProtocol (bytesOf "result missing type discriminator"))
                   | Some t => if bool_decide (t = wantType) then out
                               else inr (newError CodeUnexpectedTyp (bytesOf "unexpected result type"))
                   end
          end
      end
  end.

(** ** The round trip *)

(** A dialled connection: the error of the write, if any, what the peer sends and
    how that ends. *)
Record conn := mkConn { writeErr : option ioError; inbound : list byte; ending : ioError }.

(** Which case of the select ran. *)
Inductive selected := CtxDeadline | CtxCanceled | TimedOut | RoundTrip.

Definition call {A} (decodeOut : list byte -> option A) (c : Client) (wantType : string)
    (dial : conn + list byte) (sel : selected) : (A + Error) * Client :=
  let '(id, c') := nextID c in
  (match dial with
   | inr msg => inr (newError CodeConnect msg)
   | inl cn =>
       match sel with
       | CtxDeadline => inr (newError CodeTimeout (bytesOf "context deadline exceeded"))
       | CtxCanceled => inr (newError CodeCanceled (bytesOf "request canceled"))
       | TimedOut => inr (newError CodeTimeout (bytesOf "no response"))
       | RoundTrip =>
           match writeErr cn with
           | Some e => inr (classifyIOError e)
           | None =>
               match readFrame (maxBytes c) (inbound cn) (ending cn) with
               | inr e => inr (classifyIOError e)
               | inl (frame, _) => decodeResponse decodeOut frame id wantType
               end
           end
       end
   end, c').

(** ** Handshake (ping.go) *)

Record Pong := mkPong { Version : list byte; ProtocolOf : Z }.
Definition Protocol : Z := 19.
Definition MinHerdrVersion : list byte := bytesOf "0.8.0".

Definition trimV (s : list byte) : list byte := match s with b :: t => if bz b =? 118 then t else s | [] => [] end.

(** The text before a dash or a plus. *)
Definition beforeMeta (s : list byte) : list byte :=
  (fix go (s : list byte) := match s with b :: t => if (bz b =? 45) || (bz b =? 43) then [] else b :: go t | [] => [] end) s.

(** One component; the sum is an [int]. *)
Fixpoint versionPart (n : Z) (rs : list Z) : option Z :=
  match rs with
  | [] => Some n
  | r :: rs' => if (r <? 48) || (57 <? r) then None else versionPart (int64 (int64 (n * 10) + (r - 48))) rs'
  end.

Definition parseVersion (s0 : list byte) : option (Z * Z * Z) :=
  match trimV (TrimSpace s0) with
  | [] => None
  | s =>
      let parts := splitOn x2e (beforeMeta s) in
      if (3 <? length parts)%nat then None
      else ns ← mapM (fun p => match p with [] => None | _ => versionPart 0 (runes p) end) parts;
           Some (nth 0 ns 0, nth 1 ns 0, nth 2 ns 0)
  end.

Definition versionLess (a b : Z * Z * Z) : bool :=
  let '(a1, a2, a3) := a in let '(b1, b2, b3) := b in
  if negb (a1 =? b1) then a1 <? b1 else if negb (a2 =? b2) then a2 <? b2 else if negb (a3 =? b3) then a3 <? b3 else false.

(** [None] when either version does not parse. *)
Definition versionOlderThan (v min : list byte) : option bool :=
  vv ← parseVersion v; mm ← parseVersion min; Some (versionLess vv mm).

Definition Handshake (decodePong : list byte -> option Pong) (c : Client) (dial : conn + list byte) (sel : selected)
    : (Pong + Error) * Client :=
  let '(r, c') := call decodePong c "pong" dial sel in
  (match r with
   | inr e => inr e
   | inl p =>
       if negb (ProtocolOf p =? Protocol) then inr (newError CodeIncompatible (bytesOf "protocol is not supported"))
       else match versionOlderThan (Version p) MinHerdrVersion with
            | Some true => inr (newError CodeIncompatible (bytesOf "version is older than the required"))
            | _ => inl p
            end
   end, c').

(** ** The event subscription (events.go) *)

(** The factor is part of [scale] below, which is [d * Factor] in floating point. *)
Record Backoff := mkBackoff { Initial : Z; Max : Z }.
Definition DefaultBackoff : Backoff := mkBackoff 500000000 15000000000.
Definition DefaultStableSubscription : Z := 5000000000.

(** [normalized]; a factor below one is replaced by the default one. *)
Definition normalized (b : Backoff) : Backoff :=
  let initial := if Initial b <=? 0 then Initial DefaultBackoff else Initial b in
  mkBackoff initial (if Max b <? initial then initial else Max b).

Section subscriber.
  Context (scale : Z -> Z).

Definition next (b : Backoff) (d : Z) : Z := Z.max (Z.min (scale d) (Max b)) (Initial b).

Definition frameIsSubscriptionStarted (frame : list byte) : bool :=
  match decodeEnvelope frame with
  | None => false
  | Some env =>
      match env_Error env, env_Result env with
      | None, _ :: _ =>
          match decodeType (env_Result env) with Some t => bool_decide (t = "subscription_started") | None => false end
      | _, _ => false
      end
  end.

(** The read loop after the start: the number of complete frames. *)
Fixpoint eventFrames (fuel : nat) (max : Z) (s : list byte) (e : ioError) : nat :=
  match fuel with
  | O => O
  | S f => match readFrame max s e with inl (_, rest) => S (eventFrames f max rest e) | inr _ => O end
  end.

(** [session]: whether it was stable, and how often it signalled. [startedAt] and
    [endedAt] are the clock readings. *)
Definition session (max stableAfter : Z) (dial : option conn) (startedAt endedAt : Z) : bool * nat :=
  match dial with
  | None => (false, O)
  | Some cn =>
      match writeErr cn with
      | Some _ => (false, O)
      | None =>
          match readFrame max (inbound cn) (ending cn) with
          | inr _ => (false, O)
          | inl (first, rest) =>
              if negb (frameIsSubscriptionStarted first) then (false, O)
              else
                let n := eventFrames (S (length rest)) max rest (ending cn) in
                (if (0 <? n)%nat then true else stableAfter <=? timeSub endedAt startedAt, S n)
          end
      end
  end.

(** The delays [Run] waits for, given which sessions were stable. *)
Fixpoint runDelays (b : Backoff) (delay : Z) (stables : list bool) : list Z :=
  match stables with
  | [] => []
  | stable :: rest =>
      let waited := if stable then Initial b else delay in
      waited :: runDelays b (if stable then waited else next b waited) rest
  end.

End subscriber.
End decode.

(** ** Facts *)

Definition noNewline (s : list byte) : Prop := Forall (fun b => bz b ≠ 10) s.

Lemma readFrameFrom_exact max s e : forall buf f rest, Z.of_nat (length buf) <= max ->
  readFrameFrom max buf s e = inl (f, rest) <->
  exists t, f = buf ++ t /\ s = t ++ nl :: rest /\ noNewline t /\ Z.of_nat (length f) <= max.
Proof.
  induction s as [|b s IH]; intros buf f rest Hb; cbn [readFrameFrom].
  { split; [done|]. intros (t & _ & E & _). by destruct t. }
  destruct (bz b =? 10) eqn:Eb.
  - assert (b = nl) as -> by (apply bz_inj; change (bz nl) with 10; lia). split.
    + intros [= <- <-]. exists []. rewrite app_nil_r. split_and!; [done|done|constructor|done].
    + intros (t & -> & E & Ht & _). destruct t as [|c t]; simplify_eq/=; [by rewrite app_nil_r|].
      inversion Ht; subst. done.
  - destruct (max <=? Z.of_nat (length buf)) eqn:Em.
    { split; [done|]. intros (t & -> & E & _ & Hl). destruct t as [|c t]; simplify_eq/=.
      rewrite length_app in Hl. simpl in Hl. lia. }
    rewrite IH by (rewrite length_app; simpl; lia). split.
    + intros (t & -> & -> & Ht & Hl). exists (b :: t). split_and!; [by rewrite <- app_assoc|done| |done].
      constructor; [lia|done].
    + intros (t & -> & E & Ht & Hl). destruct t as [|c t]; simplify_eq/=. inversion Ht; subst.
      exists t. split_and!; [by rewrite <- app_assoc|done|done|done].
Qed.

(** A frame is a whole line within the bound; what follows is left. *)
Lemma readFrame_exact max s e f rest : 0 <= max ->
  readFrame max s e = inl (f, rest) <-> s = f ++ nl :: rest /\ noNewline f /\ Z.of_nat (length f) <= max.
Proof.
  intros Hm. unfold readFrame. rewrite readFrameFrom_exact by done. split.
  - by intros (t & -> & ? & ? & ?).
  - intros (-> & ? & ?). by exists f.
Qed.

Section facts.
  Context (decodeEnvelope : list byte -> option envelope) (decodeType : list byte -> option string).

Lemma decodeResponse_exact {A} (decodeOut : list byte -> option A) frame id wantType v :
  decodeResponse decodeEnvelope decodeType decodeOut frame id wantType = inl v <->
  exists env, decodeEnvelope frame = Some env /\ env_Error env = None /\
    (env_ID env = "" \/ env_ID env = id) /\ env_Result env ≠ [] /\
    (wantType = "" \/ decodeType (env_Result env) = Some wantType) /\ decodeOut (env_Result env) = Some v.
Proof.
  unfold decodeResponse. split.
  - destruct (decodeEnvelope frame) as [env|]; [|done]. destruct (env_Error env) as [[? ?]|] eqn:Ee; [done|].
    destruct (_ && _) eqn:Eid; [done|]. intros H. exists env. split; [done|]. split; [done|].
    split. { apply andb_false_iff in Eid. rewrite !negb_false_iff, !bool_decide_eq_true in Eid. done. }
    destruct (env_Result env) as [|x r]; [done|]. split; [done|].
    destruct (bool_decide_reflect (wantType = "")) as [->|].
    + split; [by left|]. destruct (decodeOut (x :: r)); by simplify_eq.
    + destruct (decodeType (x :: r)) as [t|]; [|done]. destruct (bool_decide_reflect (t = wantType)) as [Et|]; [|done].
      split; [right; by rewrite Et|]. destruct (decodeOut (x :: r)); by simplify_eq.
  - intros (env & -> & -> & Hid & Hne & Ht & Ho).
    replace (_ && _) with false by (symmetry; apply andb_false_iff; rewrite !negb_false_iff, !bool_decide_eq_true; done).
    destruct (env_Result env) as [|x r]; [done|]. rewrite Ho.
    destruct (bool_decide_reflect (wantType = "")); [done|]. destruct Ht as [?| ->]; [done|]. by rewrite bool_decide_true.
Qed.

Lemma call_meaning {A} (decodeOut : list byte -> option A) (c : Client) (wantType : string)
    (dial : conn + list byte) (sel : selected) (v : A) :
  0 <= maxBytes c ->
  (call decodeEnvelope decodeType decodeOut c wantType dial sel).1 = inl v <->
  exists cn frame rest env, dial = inl cn /\ sel = RoundTrip /\ writeErr cn = None /\
    inbound cn = frame ++ nl :: rest /\ noNewline frame /\ Z.of_nat (length frame) <= maxBytes c /\
    decodeEnvelope frame = Some env /\ env_Error env = None /\
    (env_ID env = "" \/ env_ID env = (nextID c).1) /\ env_Result env ≠ [] /\
    (wantType = "" \/ decodeType (env_Result env) = Some wantType) /\ decodeOut (env_Result env) = Some v.
Proof.
  intros Hm. unfold call. destruct (nextID c) as [id c'] eqn:Eid. simpl.
  destruct dial as [cn|]; [|naive_solver]. destruct sel; try naive_solver.
  destruct (writeErr cn) as [we|] eqn:Ew; [naive_solver|].
  destruct (readFrame (maxBytes c) (inbound cn) (ending cn)) as [[frame rest]|e] eqn:Er.
  2:{ split; [done|]. intros (cn' & f & r & env & [= <-] & _ & _ & H1 & H2 & H3 & _).
      assert (readFrame (maxBytes c) (inbound cn) (ending cn) = inl (f, r)) by by apply readFrame_exact. congruence. }
  assert (Hf := Er). apply readFrame_exact in Hf; [|done].
  rewrite decodeResponse_exact. split.
  - intros (env & H). exists cn, frame, rest, env. naive_solver.
  - intros (cn' & f & r & env & [= <-] & _ & _ & H1 & H2 & H3 & H).
    assert (readFrame (maxBytes c) (inbound cn) (ending cn) = inl (f, r)) as E by by apply readFrame_exact.
    rewrite Er in E. injection E as -> ->. by exists env.
Qed.

(** A call returns a result exactly when the peer sent one for it. The
    connection was dialled, the request written, and the first line of the answer
    came whole within the byte bound before the deadline; it decodes to an
    envelope without an error, with no id or the id of this very request, and
    with a result of the wanted type that decodes to the value returned. Everything else
    is an error. *)
Theorem call_exact {A} (decodeOut : list byte -> option A) (c : Client) (wantType : string)
    (dial : conn + list byte) (sel : selected) (v : A) :
  0 <= maxBytes c ->
  (call decodeEnvelope decodeType decodeOut c wantType dial sel).1 = inl v <->
  exists cn frame rest env, dial = inl cn /\ sel = RoundTrip /\ writeErr cn = None /\
    inbound cn = frame ++ nl :: rest /\ noNewline frame /\ Z.of_nat (length frame) <= maxBytes c /\
    decodeEnvelope frame = Some env /\ env_Error env = None /\
    (env_ID env = "" \/ env_ID env = (nextID c).1) /\ env_Result env ≠ [] /\
    (wantType = "" \/ decodeType (env_Result env) = Some wantType) /\ decodeOut (env_Result env) = Some v.
Proof. apply call_meaning. Qed.

Lemma append_inj (p a b : string) : p +:+ a = p +:+ b -> a = b.
Proof. induction p as [|c p IH]; simpl; [done|]. intros [= H]. by apply IH. Qed.

(** Two calls of a client never share a request id within 2^64 calls, so an
    answer to another request is refused. *)
Theorem nextID_distinct (c c' : Client) :
  idPrefix c = idPrefix c' -> 0 <= seq c < 2 ^ 64 - 1 -> 0 <= seq c' < 2 ^ 64 - 1 ->
  (nextID c).1 = (nextID c').1 -> seq c = seq c'.
Proof.
  intros Hp Hc Hc' H. unfold nextID in H. simpl in H. rewrite Hp in H.
  apply append_inj in H. rewrite !u64_small in H by lia. simplify_eq/=. lia.
Qed.

(** ** Reconnecting *)

Context (scale : Z -> Z).

Lemma next_range b d : Initial b <= Max b -> Initial b <= next scale b d <= Max b.
Proof. unfold next. lia. Qed.

(** [increases ds stables]: between two waits without a stable session the delay
    does not shrink. *)
Fixpoint increases (prev : Z) (ds : list Z) (stables : list bool) : Prop :=
  match ds, stables with
  | d :: ds', st :: stables' => (st = true \/ prev <= d) /\ increases d ds' stables'
  | _, _ => True
  end.

Lemma runDelays_range b : Initial b <= Max b -> (forall d, Initial b <= d <= Max b -> d <= scale d) ->
  forall stables delay, Initial b <= delay <= Max b ->
  Forall (fun d => Initial b <= d <= Max b) (runDelays scale b delay stables) /\
  length (runDelays scale b delay stables) = length stables /\
  (forall prev, prev <= delay -> increases prev (runDelays scale b delay stables) stables) /\
  (forall i, stables !! i = Some true -> runDelays scale b delay stables !! i = Some (Initial b)).
Proof.
  intros Hb Hs. induction stables as [|st stables IH]; intros delay Hd; [by split_and!|].
  cbn [runDelays]. set (waited := if st then Initial b else delay).
  assert (Hw : Initial b <= waited <= Max b) by (destruct st; unfold waited; lia).
  set (delay' := if st then waited else next scale b waited).
  assert (Hd' : Initial b <= delay' <= Max b) by (destruct st; unfold delay'; [lia|by apply next_range]).
  assert (Hle : waited <= delay') by (destruct st; unfold delay', next; [lia|specialize (Hs waited Hw); lia]).
  destruct (IH delay' Hd') as (I1 & I2 & I3 & I4). split_and!.
  - by constructor.
  - simpl. by rewrite I2.
  - intros prev Hp. simpl. split; [destruct st; [by left|right; unfold waited; lia]|]. by apply I3.
  - intros [|i] Hi; simpl in *; [by simplify_eq|]. by apply I4.
Qed.

(** Reconnection backs off and recovers. The subscriber waits once per
    session, never less than the initial delay and never more than the maximum;
    a stable session is followed by the initial delay, and while sessions stay
    unstable the delays do not shrink. *)
Theorem reconnect_backoff (b0 : Backoff) (stables : list bool) :
  let b := normalized b0 in
  (forall d, Initial b <= d <= Max b -> d <= scale d) ->
  let ds := runDelays scale b (Initial b) stables in
  0 < Initial b /\ Forall (fun d => Initial b <= d <= Max b) ds /\ length ds = length stables /\
  increases (Initial b) ds stables /\ (forall i, stables !! i = Some true -> ds !! i = Some (Initial b)).
Proof.
  intros b Hs ds.
  assert (0 < Initial b /\ Initial b <= Max b) as [H0 Hb].
  { unfold b, normalized. cbn [Initial Max]. destruct (Initial b0 <=? 0) eqn:E; [|];
      cbn [Initial DefaultBackoff]; destruct (_ <? _) eqn:E'; lia. }
  destruct (runDelays_range b Hb Hs stables (Initial b)) as (I1 & I2 & I3 & I4); [lia|].
  split_and!; [done|done|done| |done]. apply I3. lia.
Qed.

(** The handshake accepts exactly compatible servers: the protocol number is
    the required one, and the version, when it parses, is not older than the
    minimum in its numeric components. *)
Theorem handshake_exact (decodePong : list byte -> option Pong) (c : Client) (dial : conn + list byte) (sel : selected) (p : Pong) :
  (Handshake decodeEnvelope decodeType decodePong c dial sel).1 = inl p <->
  (call decodeEnvelope decodeType decodePong c "pong" dial sel).1 = inl p /\ ProtocolOf p = 19 /\
  (forall v, parseVersion (Version p) = Some v -> versionLess v (0, 8, 0) = false).
Proof.
  unfold Handshake. destruct (call _ _ _ _ _ _ _) as [[q|e] c'] eqn:E; simpl; [|naive_solver].
  unfold Protocol. destruct (ProtocolOf q =? 19) eqn:Ep; cbn [negb].
  2:{ split; [done|]. intros ([= <-] & Hp & _). lia. }
  unfold versionOlderThan. change (parseVersion MinHerdrVersion) with (Some (0, 8, 0)).
  destruct (parseVersion (Version q)) as [v|] eqn:Ev; cbn [mbind option_bind].
  - destruct (versionLess v (0, 8, 0)) eqn:El.
    + split; [done|]. intros ([= <-] & _ & H). specialize (H v Ev). congruence.
    + split; [|naive_solver]. intros [= <-]. split_and!; [done|lia|]. intros v' Hv. rewrite Ev in Hv. by simplify_eq.
  - split; [|naive_solver]. intros [= <-]. split_and!; [done|lia|]. intros v' Hv. by rewrite Ev in Hv.
Qed.
End facts.

(** ** Concrete values *)

Example versions :
  (parseVersion (bytesOf " v0.8.1-rc1 "), parseVersion (bytesOf "1"), parseVersion (bytesOf "1..2"), parseVersion (bytesOf "a"),
   versionOlderThan (bytesOf "0.7.9") MinHerdrVersion, versionOlderThan (bytesOf "0.10.0") MinHerdrVersion) =
  (Some (0, 8, 1), Some (1, 0, 0), None, None, Some true, Some false).
Proof. by vm_compute. Qed.

(** A component is an int without a bound: a huge one wraps. *)
Example version_wraps : versionOlderThan (bytesOf "18446744073709551616.0.0") MinHerdrVersion = Some true.
Proof. by vm_compute. Qed.

Definition sampleEnvelope (f : list byte) : option envelope := Some (mkEnvelope "phone-1" f None).
Definition sampleClient : Client := mkClient "phone" 0 DefaultMaxResponseBytes DefaultTimeout.
Definition sampleConn : conn := mkConn None (bytesOf "{}" ++ nl :: bytesOf "rest") EOF.

Lemma call_exact_witness :
  exists frame rest, inbound sampleConn = frame ++ nl :: rest /\ noNewline frame.
Proof.
  destruct (proj1 (call_exact sampleEnvelope (fun _ => Some "pong") (fun r => Some r) sampleClient "pong" (inl sampleConn)
    RoundTrip (bytesOf "{}") ltac:(unfold sampleClient, DefaultMaxResponseBytes; simpl; lia)))
    as (cn & f & r & env & [= <-] & _ & _ & H1 & H2 & _); [by vm_compute|]. by exists f, r.
Defined.

Lemma nextID_distinct_witness : seq sampleClient = 0.
Proof.
  apply (nextID_distinct sampleClient (mkClient "phone" 0 1 1)); simpl; [done|lia|lia|done].
Defined.

Lemma reconnect_backoff_witness :
  runDelays (fun d => 2 * d) (normalized (mkBackoff 0 3000000000)) 500000000 [false; false; false; false; true; false] =
    [500000000; 1000000000; 2000000000; 3000000000; 500000000; 500000000] /\ 0 < Initial (normalized (mkBackoff 0 3000000000)).
Proof.
  split; [by vm_compute|]. apply (reconnect_backoff (fun d => 2 * d) (mkBackoff 0 3000000000) []).
  cbn. intros d Hd. lia.
Defined.
