(* ===== verification/Config.v ===== *)
(** * Config: internal/config

    Defaults, overlay of the decoded file, path expansion and validation of
    config.go, path expansion of paths.go, the file checks of verify.go. The TOML
    decoder is outside: its result is the record [rawConfig] of optional fields
    and the list of unknown keys. [time.ParseDuration] and [url.Parse] are the
    parameters [ParseDuration] and [ParseURL]. The environment gives the empty
    string for an unset variable, as in the source. *)

From S2P Require Import Prelude GoStr GoText GoPath.

Definition second : Z := 1000000000.
Definition millisecond : Z := 1000000.
Definition minute : Z := 60 * second.
Definition hour : Z := 60 * minute.

(** ** Modes, defaults and bounds *)

Definition ModeNamed : list byte := bytesOf "named".
Definition ModeQuick : list byte := bytesOf "quick".
Definition ModeExternal : list byte := bytesOf "external".

Definition ModeManagesTunnel (mode : list byte) : bool :=
  bool_decide (mode = ModeNamed) || bool_decide (mode = ModeQuick).
Definition ModeUsesAccess (mode : list byte) : bool :=
  bool_decide (mode = ModeNamed) || bool_decide (mode = ModeExternal).

Definition ThemeSystem : list byte := bytesOf "system".
Definition ThemeLight : list byte := bytesOf "light".
Definition ThemeDark : list byte := bytesOf "dark".

Definition LoopbackHost : list byte := bytesOf "127.0.0.1".

Definition DefaultPort : Z := 8787.
Definition DefaultSessionTTL : Z := 12 * hour.
Definition DefaultIdleLock : Z := 30 * minute.
Definition DefaultCloudflareBinary : list byte := bytesOf "cloudflared".
Definition DefaultGracePeriod : Z := 15 * second.
Definition DefaultJWKSTTL : Z := hour.
Definition DefaultPollHot : Z := 1500 * millisecond.
Definition DefaultPollCold : Z := 12 * second.
Definition DefaultTerminalFontSize : Z := 13.
Definition DefaultMaxInterpretedTurns : Z := 60.

Definition minPort : Z := 1.
Definition maxPort : Z := 65535.
Definition minPollHot : Z := 250 * millisecond.
Definition maxTTL : Z := 30 * 24 * hour.
Definition maxGracePeriod : Z := 5 * minute.
Definition maxPollInterval : Z := 10 * minute.
Definition minTerminalFont : Z := 8.
Definition maxTerminalFont : Z := 72.
Definition maxInterpretedTurn : Z := 500.
Definition maxIdentityRuneLen : nat := 320.

(** ** Data *)

Record Server := mkServer {
  Host : list byte; Port : Z; SessionTTL : Z; IdleLock : Z; AllowedWorkspaceRoots : list (list byte)
}.
Record Cloudflare := mkCloudflare {
  Mode : list byte; Binary : list byte; PublicURL : list byte; ConfigFile : list byte; TunnelName : list byte;
  CredentialsFile : list byte; TokenFile : list byte; TokenCommand : list (list byte);
  QuickEnabled : bool; GracePeriod : Z
}.
Record Access := mkAccess {
  Enabled : bool; TeamDomain : list byte; Audience : list byte; AllowedIdentities : list (list byte);
  AllowAnyIdentity : bool; JWKSTTL : Z
}.
Record Herdr := mkHerdr { SocketPath : list byte; HerdrBinary : list byte; PollHot : Z; PollCold : Z }.
Record UI := mkUI { Theme : list byte; TerminalFontSize : Z }.
Record Experimental := mkExperimental {
  AgentOutputParsing : bool; AgentOutputParsers : list (list byte); MaxInterpretedTurns : Z
}.
Record Config := mkConfig {
  server : Server; cloudflare : Cloudflare; access : Access; herdr : Herdr; ui : UI; experimental : Experimental;
  SourcePath : list byte
}.

(** The parsers of [interpret.ParserKinds]. *)
Definition ParserKinds : list (list byte) := [bytesOf "claude"; bytesOf "opencode"].
Definition Supported (s : list byte) : bool := existsb (fun k => bool_decide (k = s)) ParserKinds.

Definition Default : Config :=
  mkConfig (mkServer LoopbackHost DefaultPort DefaultSessionTTL DefaultIdleLock [[x7e]])
    (mkCloudflare ModeNamed DefaultCloudflareBinary [] [] [] [] [] [] false DefaultGracePeriod)
    (mkAccess true [] [] [] false DefaultJWKSTTL)
    (mkHerdr [] [] DefaultPollHot DefaultPollCold)
    (mkUI ThemeSystem DefaultTerminalFontSize)
    (mkExperimental false ParserKinds DefaultMaxInterpretedTurns) [].

(** ** Errors, with the field or the index they name *)

Inductive pathError := PathEmpty | Unresolved (names : list (list byte)) | NoHome | EmptyAfterExpansion.

Inductive configError :=
  | UnknownKeys (keys : list (list byte))
  | BadDuration (field : list byte)
  | EmptyRoot (i : nat) | BadPath (field : list byte) (e : pathError) | BadRoot (i : nat) (e : pathError)
  | HostNotLoopback | PortOutOfRange | NotPositive (field : list byte) | TooLong (field : list byte)
  | IdleExceedsTTL | EmptyBinary | EmptyTokenArg (i : nat) | BadPublicURL | QuickNotEnabled | UnknownMode
  | AccessRequired | PublicURLRequired | NoStrategy | ManyStrategies (n : nat) | StrategyForbidden
  | EmptyTeamDomain | BadTeamDomain | EmptyAudience | EmptyIdentity (i : nat) | BadIdentity (i : nat)
  | IdentityGate | PollTooFast | ColdFasterThanHot | BadTheme | BadFontSize
  | UnknownParser (name : list byte) | NothingParsed | BadTurns
  | ReadFailed | DecodeFailed.

Definition blank (s : list byte) : bool := isEmpty (TrimSpace s).

(** ** Overlay of the file on the defaults *)

Record rawServer := mkRawServer {
  r_Host : option (list byte); r_Port : option Z; r_SessionTTL : option (list byte); r_IdleLock : option (list byte);
  r_Roots : option (list (list byte))
}.
Record rawCloudflare := mkRawCloudflare {
  r_Mode : option (list byte); r_Binary : option (list byte); r_PublicURL : option (list byte);
  r_ConfigFile : option (list byte); r_Tunnel : option (list byte); r_CredentialsFile : option (list byte);
  r_TokenFile : option (list byte); r_TokenCommand : option (list (list byte)); r_QuickEnabled : option bool;
  r_GracePeriod : option (list byte)
}.
Record rawAccess := mkRawAccess {
  r_Enabled : option bool; r_TeamDomain : option (list byte); r_Audience : option (list byte);
  r_AllowedIdentities : option (list (list byte)); r_AllowAny : option bool; r_JWKSTTL : option (list byte)
}.
Record rawHerdr := mkRawHerdr {
  r_SocketPath : option (list byte); r_HerdrBinary : option (list byte);
  r_PollHot : option (list byte); r_PollCold : option (list byte)
}.
Record rawUI := mkRawUI { r_Theme : option (list byte); r_Font : option Z }.
Record rawExperimental := mkRawExperimental {
  r_Parsing : option bool; r_Parsers : option (list (list byte)); r_MaxTurns : option Z
}.
(** [r_access] is the access table inside the auth table. *)
Record rawConfig := mkRaw {
  r_server : option rawServer; r_cloudflare : option rawCloudflare; r_access : option rawAccess;
  r_herdr : option rawHerdr; r_ui : option rawUI; r_experimental : option rawExperimental
}.

Record URL := mkURL { Scheme : list byte; URLHost : list byte; Hostname : list byte; hasUser : bool }.

Notation "'try' x <- e ; k" := (match e with inl x => k | inr err => inr err end)
  (at level 200, x pattern, e at level 100, k at level 200) : herdr_scope.

Section config.
  Context (ParseDuration : list byte -> option Z).
  Context (ParseURL : list byte -> option URL).
  Context (env : list byte -> list byte).

Definition applyDuration (src : option (list byte)) (dst : Z) (field : list byte) : Z + configError :=
  match src with
  | None => inl dst
  | Some s => match ParseDuration s with Some d => inl d | None => inr (BadDuration field) end
  end.

Definition applyServer (r : rawServer) (s : Server) : Server + configError :=
  try ttl <- applyDuration (r_SessionTTL r) (SessionTTL s) (bytesOf "server.session_ttl");
  try idle <- applyDuration (r_IdleLock r) (IdleLock s) (bytesOf "server.idle_lock");
  inl (mkServer (default (Host s) (r_Host r)) (default (Port s) (r_Port r)) ttl idle
         (default (AllowedWorkspaceRoots s) (r_Roots r))).

Definition applyCloudflare (r : rawCloudflare) (c : Cloudflare) : Cloudflare + configError :=
  try grace <- applyDuration (r_GracePeriod r) (GracePeriod c) (bytesOf "cloudflare.grace_period");
  inl (mkCloudflare (default (Mode c) (r_Mode r)) (default (Binary c) (r_Binary r))
         (default (PublicURL c) (r_PublicURL r)) (default (ConfigFile c) (r_ConfigFile r))
         (default (TunnelName c) (r_Tunnel r)) (default (CredentialsFile c) (r_CredentialsFile r))
         (default (TokenFile c) (r_TokenFile r)) (default (TokenCommand c) (r_TokenCommand r))
         (default (QuickEnabled c) (r_QuickEnabled r)) grace).

Definition applyAccess (r : rawAccess) (a : Access) : Access + configError :=
  try ttl <- applyDuration (r_JWKSTTL r) (JWKSTTL a) (bytesOf "auth.access.jwks_ttl");
  inl (mkAccess (default (Enabled a) (r_Enabled r)) (default (TeamDomain a) (r_TeamDomain r))
         (default (Audience a) (r_Audience r)) (default (AllowedIdentities a) (r_AllowedIdentities r))
         (default (AllowAnyIdentity a) (r_AllowAny r)) ttl).

Definition applyHerdr (r : rawHerdr) (h : Herdr) : Herdr + configError :=
  try hot <- applyDuration (r_PollHot r) (PollHot h) (bytesOf "herdr.poll_hot");
  try cold <- applyDuration (r_PollCold r) (PollCold h) (bytesOf "herdr.poll_cold");
  inl (mkHerdr (default (SocketPath h) (r_SocketPath r)) (default (HerdrBinary h) (r_HerdrBinary r)) hot cold).

(** A missing table leaves the section as it is. *)
Definition overlay {R S} (f : R -> S -> S + configError) (r : option R) (s : S) : S + configError :=
  match r with Some t => f t s | None => inl s end.

Definition applyTo (r : rawConfig) (c : Config) : Config + configError :=
  try sv <- overlay applyServer (r_server r) (server c);
  try cf <- overlay applyCloudflare (r_cloudflare r) (cloudflare c);
  try ac <- overlay applyAccess (r_access r) (access c);
  try he <- overlay applyHerdr (r_herdr r) (herdr c);
  let u := match r_ui r with
           | Some t => mkUI (default (Theme (ui c)) (r_Theme t)) (default (TerminalFontSize (ui c)) (r_Font t))
           | None => ui c
           end in
  let x := match r_experimental r with
           | Some t => mkExperimental (default (AgentOutputParsing (experimental c)) (r_Parsing t))
                         (default (AgentOutputParsers (experimental c)) (r_Parsers t))
                         (default (MaxInterpretedTurns (experimental c)) (r_MaxTurns t))
           | None => experimental c
           end in
  inl (mkConfig sv cf ac he u x (SourcePath c)).

(** [decodeInto] on what the TOML decoder answers: [None] for a parse error, else
    the tables and the keys it could not place. *)
Definition decodeInto (decoded : option (rawConfig * list (list byte))) (c : Config) : Config + configError :=
  match decoded with
  | None => inr DecodeFailed
  | Some (raw, undecoded) => if isEmpty undecoded then applyTo raw c else inr (UnknownKeys undecoded)
  end.

(** ** Paths (paths.go) *)

Definition HOME : list byte := bytesOf "HOME".

Definition ExpandPath (p : list byte) : list byte + pathError :=
  if blank p then inr PathEmpty
  else
    let '(expanded, names) := Expand p env in
    let missing := List.filter (fun n => isEmpty (env n)) names in
    if negb (isEmpty missing) then inr (Unresolved missing)
    else
      let tilde := bool_decide (expanded = [x7e]) || hasPrefix expanded [x7e; x2f] in
      if tilde && isEmpty (env HOME) then inr NoHome
      else
        let q := if negb tilde then expanded
                 else if bool_decide (expanded = [x7e]) then env HOME
                 else Join [env HOME; drop 2 expanded] in
        if blank q then inr EmptyAfterExpansion else inl (Clean q).

Definition looksLikePath (s : list byte) : bool := existsb (isOneOf [x2f; x7e; x24]) s.

Definition expandIfPath (s : list byte) : list byte + pathError :=
  if isEmpty s || negb (looksLikePath s) then inl s else ExpandPath s.

Fixpoint expandRoots (i : nat) (roots : list (list byte)) : list (list byte) + configError :=
  match roots with
  | [] => inl []
  | r :: rest =>
      if blank r then inr (EmptyRoot i)
      else match ExpandPath r with
           | inr e => inr (BadRoot i e)
           | inl q => try qs <- expandRoots (S i) rest; inl (q :: qs)
           end
  end.

Definition expandField (field : list byte) (s : list byte) : list byte + configError :=
  match expandIfPath s with inl q => inl q | inr e => inr (BadPath field e) end.

Definition expand (c : Config) : Config + configError :=
  let sv := server c in let cf := cloudflare c in let he := herdr c in
  try roots <- expandRoots 0 (AllowedWorkspaceRoots sv);
  try file <- expandField (bytesOf "cloudflare.config_file") (ConfigFile cf);
  try creds <- expandField (bytesOf "cloudflare.credentials_file") (CredentialsFile cf);
  try tok <- expandField (bytesOf "cloudflare.token_file") (TokenFile cf);
  try bin <- expandField (bytesOf "cloudflare.binary") (Binary cf);
  try sock <- expandField (bytesOf "herdr.socket_path") (SocketPath he);
  try hbin <- expandField (bytesOf "herdr.binary") (HerdrBinary he);
  inl (mkConfig (mkServer (Host sv) (Port sv) (SessionTTL sv) (IdleLock sv) roots)
         (mkCloudflare (Mode cf) bin (PublicURL cf) file (TunnelName cf) creds tok (TokenCommand cf)
            (QuickEnabled cf) (GracePeriod cf))
         (access c) (mkHerdr sock hbin (PollHot he) (PollCold he)) (ui c) (experimental c) (SourcePath c)).

(** ** Validation *)

(** The first error of a sequence of checks. *)
Fixpoint firstError (checks : list (option configError)) : option configError :=
  match checks with [] => None | Some e :: _ => Some e | None :: rest => firstError rest end.
Definition reject (bad : bool) (e : configError) : option configError := if bad then Some e else None.

Definition checkDuration (field : list byte) (d max : Z) : option configError :=
  if d <=? 0 then Some (NotPositive field) else if max <? d then Some (TooLong field) else None.

(** The first index whose element is rejected. *)
Fixpoint firstBad (check : nat -> list byte -> option configError) (i : nat) (l : list (list byte)) : option configError :=
  match l with
  | [] => None
  | x :: rest => match check i x with Some e => Some e | None => firstBad check (S i) rest end
  end.

Definition validateServer (s : Server) : option configError :=
  firstError [
    reject (negb (bool_decide (Host s = LoopbackHost))) HostNotLoopback;
    reject ((Port s <? minPort) || (maxPort <? Port s)) PortOutOfRange;
    checkDuration (bytesOf "server.session_ttl") (SessionTTL s) maxTTL;
    checkDuration (bytesOf "server.idle_lock") (IdleLock s) maxTTL;
    reject (SessionTTL s <? IdleLock s) IdleExceedsTTL ].

Definition validateHTTPSURL (raw : list byte) : bool :=
  match ParseURL raw with
  | None => false
  | Some u => bool_decide (Scheme u = bytesOf "https") && negb (isEmpty (URLHost u)) && negb (isEmpty (Hostname u)) &&
              negb (hasUser u)
  end.

Definition validateTeamDomain (s : list byte) : bool :=
  negb (existsb (isOneOf [x2f; x20; x09]) s || contains s (bytesOf "://")) && contains s [x2e].

Definition containsControl (s : list byte) : bool := existsb (fun r => (r <? 32) || (r =? 127)) (runes s).

Definition checkIdentity (i : nat) (id : list byte) : option configError :=
  if blank id then Some (EmptyIdentity i)
  else if (maxIdentityRuneLen <? length (runes id))%nat || containsControl id then Some (BadIdentity i) else None.

Definition validateAccess (a : Access) : option configError :=
  firstError [
    checkDuration (bytesOf "auth.access.jwks_ttl") (JWKSTTL a) maxTTL;
    reject (isEmpty (TeamDomain a)) EmptyTeamDomain;
    reject (negb (validateTeamDomain (TeamDomain a))) BadTeamDomain;
    reject (blank (Audience a)) EmptyAudience;
    firstBad checkIdentity 0 (AllowedIdentities a) ].

Definition HasIdentityAllowlist (a : Access) : bool := existsb (fun id => negb (blank id)) (AllowedIdentities a).

Definition validateIdentityGate (a : Access) : option configError :=
  if HasIdentityAllowlist a || AllowAnyIdentity a then None else Some IdentityGate.

Definition credentialStrategies (c : Cloudflare) : list (list byte) :=
  (if negb (isEmpty (ConfigFile c)) || negb (isEmpty (CredentialsFile c)) || negb (isEmpty (TunnelName c))
   then [bytesOf "config/credentials"] else []) ++
  (if isEmpty (TokenFile c) then [] else [bytesOf "token file"]) ++
  (if isEmpty (TokenCommand c) then [] else [bytesOf "token command"]).

Definition validateExternal (c : Cloudflare) (a : Access) : option configError :=
  firstError [
    reject (negb (Enabled a)) AccessRequired;
    reject (isEmpty (PublicURL c)) PublicURLRequired;
    reject (negb (isEmpty (credentialStrategies c))) StrategyForbidden;
    validateAccess a; validateIdentityGate a ].

Definition validateNamed (c : Cloudflare) (a : Access) : option configError :=
  firstError [
    reject (negb (Enabled a)) AccessRequired;
    reject (isEmpty (PublicURL c)) PublicURLRequired;
    match credentialStrategies c with
    | [] => Some NoStrategy | [_] => None | found => Some (ManyStrategies (length found))
    end;
    validateAccess a; validateIdentityGate a ].

Definition validateCloudflare (c : Cloudflare) (a : Access) : option configError :=
  firstError [
    reject (isEmpty (Binary c)) EmptyBinary;
    checkDuration (bytesOf "cloudflare.grace_period") (GracePeriod c) maxGracePeriod;
    firstBad (fun i arg => reject (blank arg) (EmptyTokenArg i)) 0 (TokenCommand c);
    reject (negb (isEmpty (PublicURL c)) && negb (validateHTTPSURL (PublicURL c))) BadPublicURL;
    if bool_decide (Mode c = ModeNamed) then validateNamed c a
    else if bool_decide (Mode c = ModeExternal) then validateExternal c a
    else if bool_decide (Mode c = ModeQuick) then reject (negb (QuickEnabled c)) QuickNotEnabled
    else Some UnknownMode ].

Definition validateHerdr (h : Herdr) : option configError :=
  firstError [
    checkDuration (bytesOf "herdr.poll_hot") (PollHot h) maxPollInterval;
    reject (PollHot h <? minPollHot) PollTooFast;
    checkDuration (bytesOf "herdr.poll_cold") (PollCold h) maxPollInterval;
    reject (PollCold h <? PollHot h) ColdFasterThanHot ].

Definition validateUI (u : UI) : option configError :=
  firstError [
    reject (negb (bool_decide (Theme u ∈ [ThemeSystem; ThemeLight; ThemeDark]))) BadTheme;
    reject ((TerminalFontSize u <? minTerminalFont) || (maxTerminalFont <? TerminalFontSize u)) BadFontSize ].

Definition validateExperimental (e : Experimental) : option configError :=
  firstError [
    firstBad (fun _ name => reject (negb (Supported name)) (UnknownParser name)) 0 (AgentOutputParsers e);
    reject (AgentOutputParsing e && isEmpty (AgentOutputParsers e)) NothingParsed;
    reject ((MaxInterpretedTurns e <? 1) || (maxInterpretedTurn <? MaxInterpretedTurns e)) BadTurns ].

Definition Validate (c : Config) : option configError :=
  firstError [
    validateServer (server c);
    validateCloudflare (cloudflare c) (access c);
    validateHerdr (herdr c);
    validateExperimental (experimental c);
    validateUI (ui c) ].

Definition ParsesAgentKind (e : Experimental) (kind : list byte) : bool :=
  if negb (AgentOutputParsing e) || isEmpty kind then false
  else existsb (fun k => bool_decide (k = kind)) (AgentOutputParsers e).

(** ** Loading *)

Definition candidatePaths : list (list byte) :=
  let plugin := env (bytesOf "HERDR_PLUGIN_CONFIG_DIR") in
  let xdg := env (bytesOf "XDG_CONFIG_HOME") in
  let home := env HOME in
  (if isEmpty plugin then [] else [Join [plugin; bytesOf "config.toml"]]) ++
  (if isEmpty xdg then [] else [Join [xdg; bytesOf "herdr-phone"; bytesOf "config.toml"]]) ++
  (if isEmpty home then [] else [Join [home; bytesOf ".config"; bytesOf "herdr-phone"; bytesOf "config.toml"]]).

(** [fileExists] answers for a regular file. *)
Definition Path (fileExists : list byte -> bool) : list byte :=
  match List.find fileExists candidatePaths with
  | Some c => c
  | None => match candidatePaths with c :: _ => c | [] => [] end
  end.

Definition finish (c : Config) : Config + configError :=
  try e <- expand c; match Validate e with Some err => inr err | None => inl e end.

Definition LoadData (decoded : option (rawConfig * list (list byte))) : Config + configError :=
  try c <- decodeInto decoded Default; finish c.

(** What reading a file gives. *)
Inductive fileRead := FileMissing | FileError | FileContents (decoded : option (rawConfig * list (list byte))).

Definition withSource (c : Config) (p : list byte) : Config :=
  mkConfig (server c) (cloudflare c) (access c) (herdr c) (ui c) (experimental c) p.

Definition Load (fileExists : list byte -> bool) (read : list byte -> fileRead) : Config + configError :=
  let path := Path fileExists in
  if isEmpty path then finish Default
  else match read path with
       | FileContents decoded => try c <- decodeInto decoded Default; finish (withSource c path)
       | FileMissing => finish Default
       | FileError => inr ReadFailed
       end.
End config.

(** ** Files that hold secrets (verify.go) *)

Record fileInfo := mkInfo { fi_regular : bool; fi_owner : option Z; fi_perm : Z }.

Definition VerifySecretFile (uid : Z) (lstat : option fileInfo) : bool :=
  match lstat with
  | None => false
  | Some i =>
      fi_regular i &&
      match fi_owner i with Some o => o =? uid | None => false end &&
      (Z.land (fi_perm i) 63 =? 0)
  end.

(** [VerifyWorkspaceRoots]: the resolved roots, or an error at the first that is
    not absolute, does not resolve, cannot be read or is no directory. *)
Definition VerifyWorkspaceRoots (evalSymlinks : list byte -> option (list byte)) (isDir : list byte -> option bool)
    (roots : list (list byte)) : option (list (list byte)) :=
  mapM (fun root =>
    if negb (IsAbs root) then None
    else real ← evalSymlinks root;
         match isDir real with Some true => Some real | _ => None end) roots.
