(* ===== verification/Views.v ===== *)
(** * Views: the snapshot and directory endpoints and the audit record
    (internal/server/snapshot.go, directories.go and audit.go, and
    internal/integration/directories.go)

    gzip, the JSON encoder and the file system are parameters: resolving symbolic
    links, reading an entry's type and listing a directory are functions of a
    path. *)

From S2P Require Import Prelude GoStr GoText GoPath GoPathFacts Sanitize Redact Config Runs.

(** ** The snapshot *)

Definition quote : byte := x22.
Definition etagOf (h : list byte) : list byte := quote :: h ++ [quote].

Definition trimWeak (c : list byte) : list byte := if hasPrefix c (bytesOf "W/") then drop 2 c else c.

Definition etagMatches (header etag : list byte) : bool :=
  let header := TrimSpace header in
  if bool_decide (header = bytesOf "*") then true
  else existsb (fun candidate => bool_decide (trimWeak (TrimSpace candidate) = etag)) (splitOn x2c header).

(** The text before the first semicolon. *)
Definition beforeSemi (s : list byte) : list byte := match cutAt x3b s with Some (x, _) => x | None => s end.

Definition acceptsGzip (acceptEncoding : list byte) : bool :=
  existsb (fun enc => EqualFold (TrimSpace (beforeSemi enc)) (bytesOf "gzip")) (splitOn x2c acceptEncoding).

(** A response: the status, whether [Content-Encoding: gzip] is set, the entity
    tag and the body. *)
Record viewResponse := mkView { v_status : Z; v_gzip : bool; v_etag : list byte; v_body : list byte }.

Section Snapshot.
(** The compressor, which may fail. *)
Context (gzip : list byte -> option (list byte)).

Definition writeMaybeGzip (acceptEncoding : list byte) (status : Z) (etag body : list byte) : viewResponse :=
  if acceptsGzip acceptEncoding && (512 <=? Z.of_nat (length body)) then
    match gzip body with
    | Some z => mkView status true etag z
    | None => mkView status false etag body
    end
  else mkView status false etag body.

(** [marshal] is the encoding of the snapshot, or nothing when it fails; [hash]
    its content hash. *)
Definition handleSnapshot (ifNoneMatch acceptEncoding hash : list byte) (marshal : option (list byte)) : viewResponse :=
  let etag := etagOf hash in
  if negb (bool_decide (ifNoneMatch = [])) && etagMatches ifNoneMatch etag then mkView 304 false etag []
  else match marshal with
       | None => mkView 500 false etag (bytesOf "snapshot encode failed")
       | Some body => writeMaybeGzip acceptEncoding 200 etag body
       end.
End Snapshot.

(** ** Directories *)

Section Directories.
Context (evalSymlinks : list byte -> option (list byte)) (isDir : list byte -> option bool).

(** [dirValidator.Resolve] *)
Definition Resolve (roots : list (list byte)) (path : list byte) : option (list byte) :=
  if bool_decide (TrimSpace path = []) then None
  else
    real ← evalSymlinks (Clean path);
    match isDir real with
    | Some true =>
        if existsb (fun root => bool_decide (real = root) || hasPrefix real (root ++ [slash])) roots
        then Some real else None
    | _ => None
    end.

(** A directory entry as [os.ReadDir] reports it: a symbolic link is not a
    directory. *)
Record dirent := mkDirent { de_Name : list byte; de_IsDir : bool }.
Record DirectoryEntry := mkEntry { e_Name : list byte; e_Path : list byte }.
Record directoriesResponse := mkDirectories { d_Path : list byte; d_Entries : list DirectoryEntry }.

Context (readDir : list byte -> option (list dirent)).

Definition nameKey (e : DirectoryEntry) : string * string := (String.string_of_list_byte (e_Name e), "").

Definition handleDirectories (roots : list (list byte)) (path : list byte) : reply directoriesResponse :=
  if bool_decide (path = []) then Reject 400 "bad_request" "missing path"
  else match Resolve roots path with
  | None => Reject 403 "forbidden" "path not allowed"
  | Some resolved =>
      match readDir resolved with
      | None => Reject 404 "not_found" "directory not readable"
      | Some dirents =>
          let entries := (fun de => mkEntry (de_Name de) (Join [resolved; de_Name de])) <$> List.filter de_IsDir dirents in
          Reply (mkDirectories resolved (sortBy nameKey entries))
      end
  end.
End Directories.

(** ** The audit record *)

Definition maxAuditFieldLen : nat := 512.

Definition auditRune (r : Z) : option Z := if (r =? 27) || (r <? 32) || (r =? 127) then None else Some r.

Definition sanitizeField (s : list byte) : list byte :=
  match s with
  | [] => s
  | _ =>
      let out := encodeRunes (omap auditRune (runes (SanitizeForLog s))) in
      if (maxAuditFieldLen <? length out)%nat then take maxAuditFieldLen out else out
  end.

Record AuditEntry := mkAuditEntry {
  ae_Time : option Z; ae_Event : list byte; ae_Subject : list byte; ae_SessionID : list byte; ae_Operation : list byte;
  ae_Resource : list byte; ae_RequestID : list byte; ae_Result : list byte; ae_Bytes : Z; ae_Detail : list byte
}.

Definition sanitizeEntry (e : AuditEntry) : AuditEntry :=
  mkAuditEntry (ae_Time e) (sanitizeField (ae_Event e)) (sanitizeField (ae_Subject e)) (sanitizeField (ae_SessionID e))
    (sanitizeField (ae_Operation e)) (sanitizeField (ae_Resource e)) (sanitizeField (ae_RequestID e))
    (sanitizeField (ae_Result e)) (ae_Bytes e) (sanitizeField (ae_Detail e)).

(** [Record]: the entry appended to the file; an unset time is stamped. *)
Definition Record_ (file : list AuditEntry) (now : Z) (e : AuditEntry) : list AuditEntry :=
  let e := match ae_Time e with
           | None => mkAuditEntry (Some now) (ae_Event e) (ae_Subject e) (ae_SessionID e) (ae_Operation e) (ae_Resource e)
                       (ae_RequestID e) (ae_Result e) (ae_Bytes e) (ae_Detail e)
           | Some _ => e end in
  file ++ [sanitizeEntry e].

(** ** Facts *)

(** *** Revalidation *)

(** Hash text: no blank, quote, comma or star; a hexadecimal digest is such. *)
Definition hashByte (b : byte) : bool := between 48 57 b || between 97 102 b.

Lemma hashByte_plain b : hashByte b = true -> plainByte b = true.
Proof. unfold hashByte, plainByte, between, isSpace. intros H. lia. Qed.

Lemma etag_trim h : Forall (fun b => hashByte b = true) h -> TrimSpace (etagOf h) = etagOf h.
Proof.
  intros H. apply TrimSpace_plain. unfold etagOf. constructor; [done|]. apply Forall_app. split; [|by constructor].
  eapply Forall_impl; [exact H|]. apply hashByte_plain.
Qed.

Lemma etagMatches_etag h e : Forall (fun b => hashByte b = true) h ->
  etagMatches (etagOf h) e = bool_decide (etagOf h = e).
Proof.
  intros H. unfold etagMatches. rewrite etag_trim by done. rewrite bool_decide_false by (unfold etagOf; by destruct h).
  rewrite splitOn_free.
  2:{ unfold etagOf. constructor; [done|]. apply Forall_app. split; [|by constructor].
      eapply Forall_impl; [exact H|]. intros b Hb ->. done. }
  simpl. rewrite orb_false_r, etag_trim by done. done.
Qed.

(** A client's cached snapshot is revalidated exactly. A request that presents
    the tag of a snapshot with hash [old] gets an empty 304 exactly when the current
    hash is [old]; otherwise, and without a tag, it gets a 200 whose body
    decodes to the current snapshot, compressed only for a client that accepts it.
    Every answer carries the current tag. *)
Theorem snapshot_revalidates (gzip gunzip : list byte -> option (list byte)) (old new ae body : list byte) (tagged : bool) :
  (forall b z, gzip b = Some z -> gunzip z = Some b) ->
  Forall (fun b => hashByte b = true) old -> Forall (fun b => hashByte b = true) new ->
  let r := handleSnapshot gzip (if tagged then etagOf old else []) ae new (Some body) in
  v_etag r = etagOf new /\
  (v_status r = 304 <-> tagged = true /\ old = new) /\
  (v_status r = 304 -> v_body r = []) /\
  (v_status r ≠ 304 -> v_status r = 200 /\ (if v_gzip r then gunzip (v_body r) else Some (v_body r)) = Some body /\
     (v_gzip r = true -> acceptsGzip ae = true)).
Proof.
  intros Hg Ho Hn. unfold handleSnapshot.
  assert (Hinj : etagOf old = etagOf new <-> old = new).
  { split; [|by intros ->]. unfold etagOf. intros [= E]. by apply app_inj_tail in E as [-> _]. }
  assert (Hw : forall st e, let r := writeMaybeGzip gzip ae st e body in
    v_etag r = e /\ v_status r = st /\ (if v_gzip r then gunzip (v_body r) else Some (v_body r)) = Some body /\
    (v_gzip r = true -> acceptsGzip ae = true)).
  { intros st e. unfold writeMaybeGzip. destruct (acceptsGzip ae); simpl; [|done].
    destruct (512 <=? _); [|done]. destruct (gzip body) eqn:Eg; simpl; [|done]. split_and!; auto. }
  destruct (Hw 200 (etagOf new)) as (W1 & W2 & W3 & W4).
  assert (H200 : 200 ≠ 304) by done.
  destruct tagged; simpl.
  - rewrite etagMatches_etag by done. case_bool_decide as E; simpl.
    + apply Hinj in E. naive_solver.
    + rewrite W1, W2. split_and!; try done. split; [done|]. intros [_ ->]. done.
  - rewrite W1, W2. split_and!; try done. split; [done|]. by intros [? _].
Qed.

(** *** Directories *)

Section Confinement.
Context (evalSymlinks : list byte -> option (list byte)) (isDir : list byte -> option bool)
        (readDir : list byte -> option (list dirent)).
(** A resolved path is clean, and absolute when the path was; a directory's
    entries are named by ordinary elements. *)
Context (eval_clean : forall p r, evalSymlinks p = Some r -> Clean r = r /\ (IsAbs p = true -> IsAbs r = true)).
Context (names_plain : forall d l, readDir d = Some l -> Forall (fun de => plainElement (de_Name de)) l).

Lemma verified_roots cfg roots : VerifyWorkspaceRoots evalSymlinks isDir cfg = Some roots ->
  Forall (fun r => IsAbs r = true /\ Clean r = r) roots.
Proof.
  unfold VerifyWorkspaceRoots. intros H. apply mapM_Some in H. apply Forall_forall. intros r Hr.
  apply list_elem_of_lookup in Hr as [i Hi]. destruct (Forall2_lookup_r _ _ _ _ _ H Hi) as (p & _ & Hp).
  destruct (IsAbs p) eqn:Ea; [|done]. simpl in Hp. apply bind_Some in Hp as (real & He & Hp).
  destruct (isDir real) as [[]|]; try done. injection Hp as <-. destruct (eval_clean p real He) as [? ?]. auto.
Qed.

Lemma Resolve_below cfg roots p real : VerifyWorkspaceRoots evalSymlinks isDir cfg = Some roots ->
  Resolve evalSymlinks isDir roots p = Some real ->
  evalSymlinks (Clean p) = Some real /\ isDir real = Some true /\ IsAbs real = true /\ Clean real = real /\
  exists root, root ∈ roots /\ below root real.
Proof.
  intros Hv H. apply verified_roots in Hv. rewrite Forall_forall in Hv. unfold Resolve in H.
  case_bool_decide; [done|]. apply bind_Some in H as (x & He & H). destruct (isDir x) as [[]|] eqn:Ed; try done.
  destruct (existsb _ roots) eqn:Ex; [|done]. injection H as ->. apply existsb_exists in Ex as (root & Hin & Hr).
  apply list_elem_of_In in Hin. destruct (Hv root Hin) as [Ha Hc]. destruct (eval_clean _ _ He) as [Hcl _].
  apply orb_true_iff in Hr. rewrite bool_decide_eq_true in Hr.
  assert (Habs : IsAbs real = true).
  { destruct Hr as [-> |Hr]; [done|]. apply hasPrefix_spec in Hr as [r ->]. destruct root as [|b root]; [done|].
    unfold IsAbs in *. simpl in *. by destruct (slash =b b). }
  split_and!; try done. exists root. split; [done|]. by apply below_prefix.
Qed.

(** C14: Directory listing is confined to the workspace roots. A listing is given
    only for a directory whose real location, links resolved, is a verified root or
    below one by ordinary elements; it holds exactly the sub-directories that are
    not links, sorted by name, each with the path of that name in the real
    directory, so again below the root. Every other request is rejected with one of
    three constant answers, which say nothing of the file system but that no path was
    given, that the path does not resolve below a root, or that the directory it
    resolves to cannot be read. *)
Theorem directories_confined (cfg roots : list (list byte)) (path : list byte) :
  VerifyWorkspaceRoots evalSymlinks isDir cfg = Some roots ->
  match handleDirectories evalSymlinks isDir readDir roots path with
  | Reply r =>
      evalSymlinks (Clean path) = Some (d_Path r) /\ isDir (d_Path r) = Some true /\
      (exists root, root ∈ roots /\ below root (d_Path r) /\ Forall (fun e => below root (e_Path e)) (d_Entries r)) /\
      (exists l, readDir (d_Path r) = Some l /\
         d_Entries r ≡ₚ (fun de => mkEntry (de_Name de) (child (d_Path r) (de_Name de))) <$> List.filter de_IsDir l) /\
      StronglySorted (keyLe nameKey) (d_Entries r)
  | Reject status code message =>
      (path = [] /\ (status, code, message) = (400, "bad_request", "missing path")) \/
      (path ≠ [] /\ Resolve evalSymlinks isDir roots path = None /\
         (status, code, message) = (403, "forbidden", "path not allowed")) \/
      (exists real, Resolve evalSymlinks isDir roots path = Some real /\ readDir real = None /\
         (status, code, message) = (404, "not_found", "directory not readable"))
  end.
Proof.
  intros Hv. unfold handleDirectories. case_bool_decide; [by left|].
  destruct (Resolve _ _ _ _) as [real|] eqn:Er; [|by right; left].
  destruct (readDir real) as [l|] eqn:El; [|right; right; by exists real].
  destruct (Resolve_below cfg roots path real Hv Er) as (H1 & H2 & Ha & Hc & root & Hin & Hb).
  specialize (names_plain real l El). cbv beta zeta iota. cbn [d_Path d_Entries].
  assert (Hmap : (fun de => mkEntry (de_Name de) (Join [real; de_Name de])) <$> List.filter de_IsDir l =
    (fun de => mkEntry (de_Name de) (child real (de_Name de))) <$> List.filter de_IsDir l).
  { apply list_fmap_ext. intros i de Hde. apply list_elem_of_lookup_2, list_elem_of_In, List.filter_In in Hde as [Hde _].
    f_equal. apply Join_child; [done|done|]. rewrite Forall_forall in names_plain. by apply names_plain, list_elem_of_In. }
  split_and!; try done.
  - exists root. split_and!; try done. rewrite Hmap, sortBy_perm. apply Forall_fmap, Forall_forall. intros de Hde.
    apply list_elem_of_In, List.filter_In in Hde as [Hde _]. apply below_child; [done|].
    rewrite Forall_forall in names_plain. by apply names_plain, list_elem_of_In.
  - exists l. split; [done|]. by rewrite Hmap, sortBy_perm.
  - apply sortBy_sorted.
Qed.
End Confinement.

(** *** Audit *)

Definition auditByte (b : byte) : Prop := 32 <= bz b /\ bz b ≠ 127.

Lemma sanitizeField_clean s : Forall auditByte (sanitizeField s) /\ (length (sanitizeField s) <= maxAuditFieldLen)%nat.
Proof.
  unfold sanitizeField. destruct s as [|b s]; [split; [done|unfold maxAuditFieldLen; simpl; lia]|].
  set (o := encodeRunes _). assert (Ho : Forall auditByte o).
  { destruct (omap_valid auditRune (fun r => 32 <= r /\ r ≠ 127) (SanitizeForLog (b :: s))) as [Hv Hq].
    - unfold auditRune. intros r r' E Hr. destruct ((r =? 27) || (r <? 32) || (r =? 127)) eqn:Ec; [done|]. injection E as <-.
      split; [done|lia].
    - by apply encoded_no_control. }
  destruct (maxAuditFieldLen <? length o)%nat eqn:E.
  - split; [by apply Forall_take|]. rewrite length_take. lia.
  - split; [done|]. apply Nat.ltb_ge in E. lia.
Qed.

Definition textFields (e : AuditEntry) : list (list byte) :=
  [ae_Event e; ae_Subject e; ae_SessionID e; ae_Operation e; ae_Resource e; ae_RequestID e; ae_Result e; ae_Detail e].

(** The audit log only grows, by bounded single-line records. Whatever is
    recorded, the records already in the file stay as they are; each record has a
    time, and none of its fields has a control byte or is longer than the bound. *)
Theorem audit_records (file : list AuditEntry) (es : list (Z * AuditEntry)) :
  exists added, foldl (fun f ne => Record_ f ne.1 ne.2) file es = file ++ added /\ length added = length es /\
    Forall (fun e => is_Some (ae_Time e) /\
      Forall (fun s => Forall auditByte s /\ (length s <= maxAuditFieldLen)%nat) (textFields e)) added.
Proof.
  revert file. induction es as [|[now e] es IH]; intros file; simpl; [by exists []; rewrite app_nil_r|].
  destruct (IH (Record_ file now e)) as (added & -> & Hl & Ha). unfold Record_ at 1.
  eexists (_ :: added). rewrite <- app_assoc. split; [reflexivity|]. split; [simpl; by rewrite Hl|].
  constructor; [|done]. split; [by destruct (ae_Time e) eqn:E; simpl; rewrite ?E|].
  change (textFields (sanitizeEntry ?x)) with (sanitizeField <$> textFields x).
  apply Forall_fmap, Forall_forall. intros f _. apply sanitizeField_clean.
Qed.

(** ** Concrete values *)

(** A root that is the file system root admits only itself. *)
Example root_slash :
  Resolve (fun p => Some p) (fun _ => Some true) [bytesOf "/"] (bytesOf "/home") = None /\
  Resolve (fun p => Some p) (fun _ => Some true) [bytesOf "/home"] (bytesOf "/home/./u/../v") = Some (bytesOf "/home/v").
Proof. by vm_compute. Qed.

Example etags :
  (etagMatches (bytesOf " W/" ++ etagOf (bytesOf "ab") ++ bytesOf " , x") (etagOf (bytesOf "ab")),
   etagMatches (bytesOf "*") (etagOf (bytesOf "ab")), acceptsGzip (bytesOf "br, GZIP;q=0.5")) = (true, true, true).
Proof. by vm_compute. Qed.

Lemma snapshot_revalidates_witness :
  v_status (handleSnapshot (fun _ => None) (etagOf (bytesOf "ab12")) [] (bytesOf "ab12") (Some [x7b])) = 304.
Proof.
  apply (snapshot_revalidates (fun _ => None) (fun _ => None) (bytesOf "ab12") (bytesOf "ab12") [] [x7b] true);
    [done|by repeat constructor|by repeat constructor|done].
Defined.

Definition sampleEval (p : list byte) : option (list byte) := Some (Clean p).
Definition sampleDir (p : list byte) : option bool := Some true.
Definition sampleRead (p : list byte) : option (list dirent) :=
  Some [mkDirent (bytesOf "src") true; mkDirent (bytesOf "link") false; mkDirent (bytesOf "doc") true].

Lemma sampleEval_clean p r : sampleEval p = Some r -> Clean r = r /\ (IsAbs p = true -> IsAbs r = true).
Proof.
  intros [= <-]. destruct (Clean_canonical p) as [H1 H2]. split; [done|]. intros Ha. by destruct (H2 Ha) as (n & -> & _).
Qed.

Lemma sampleRead_plain d l : sampleRead d = Some l -> Forall (fun de => plainElement (de_Name de)) l.
Proof. intros [= <-]. repeat constructor; done. Qed.

Lemma directories_confined_witness :
  match handleDirectories sampleEval sampleDir sampleRead [bytesOf "/w"] (bytesOf "/w//p/") with
  | Reply r => e_Path <$> d_Entries r = [bytesOf "/w/p/doc"; bytesOf "/w/p/src"] /\ sampleDir (d_Path r) = Some true
  | Reject _ _ _ => False
  end.
Proof.
  pose proof (directories_confined sampleEval sampleDir sampleRead sampleEval_clean sampleRead_plain
    [bytesOf "/w"] [bytesOf "/w"] (bytesOf "/w//p/") ltac:(by vm_compute)) as H.
  destruct (handleDirectories sampleEval sampleDir sampleRead [bytesOf "/w"] (bytesOf "/w//p/")) as [a b c|r] eqn:E.
  - by vm_compute in E.
  - destruct H as (_ & H & _). split; [|exact H]. vm_compute in E. by injection E as <-.
Defined.
