(* ===== verification/ConfigFacts.v ===== *)
(** * ConfigFacts: what a loaded configuration satisfies

    Validation against its declarative meaning, and what loading adds to it. *)

From S2P Require Import Prelude GoStr GoText GoPath GoPathFacts Config.

(** ** Checks *)

Lemma firstError_none l : firstError l = None <-> Forall (fun o => o = None) l.
Proof.
  induction l as [|[e|] l IH]; simpl; [done|split; [done|by inversion 1]|].
  rewrite IH. split; [by constructor|by inversion 1].
Qed.

Lemma reject_none b e : reject b e = None <-> b = false.
Proof. by destruct b. Qed.

Lemma checkDuration_none f d max : checkDuration f d max = None <-> 0 < d <= max.
Proof. unfold checkDuration. destruct (d <=? 0) eqn:E1; [split; [done|lia]|]. destruct (max <? d) eqn:E2; [split; [done|lia]|]. split; [lia|done]. Qed.

Lemma firstBad_none check (P : list byte -> Prop) l : (forall i x, check i x = None <-> P x) ->
  forall i, firstBad check i l = None <-> Forall P l.
Proof.
  intros Hc. induction l as [|x l IH]; intros i; simpl; [done|].
  rewrite Forall_cons, <- IH, <- (Hc i x). destruct (check i x); naive_solver.
Qed.

#[local] Ltac checks :=
  rewrite ?firstError_none, ?Forall_cons, ?Forall_nil, ?reject_none, ?checkDuration_none,
    ?orb_false_iff, ?andb_false_iff, ?negb_false_iff, ?bool_decide_eq_true, ?isEmpty_false.

(** ** The meaning of a valid configuration *)

Section valid.
  Context (ParseURL : list byte -> option URL).

Definition serverOk (s : Server) : Prop :=
  Host s = LoopbackHost /\ 1 <= Port s <= 65535 /\
  0 < IdleLock s <= SessionTTL s /\ SessionTTL s <= maxTTL.

(** An absolute https URL with a host and no user. *)
Definition httpsOk (raw : list byte) : Prop :=
  exists u, ParseURL raw = Some u /\ Scheme u = bytesOf "https" /\ URLHost u ≠ [] /\ Hostname u ≠ [] /\ hasUser u = false.

Definition identityOk (id : list byte) : Prop :=
  blank id = false /\ (length (runes id) <= maxIdentityRuneLen)%nat /\ Forall (fun r => 32 <= r /\ r ≠ 127) (runes id).

Definition accessOk (a : Access) : Prop :=
  0 < JWKSTTL a <= maxTTL /\ TeamDomain a ≠ [] /\ validateTeamDomain (TeamDomain a) = true /\
  blank (Audience a) = false /\ Forall identityOk (AllowedIdentities a) /\
  (AllowedIdentities a ≠ [] \/ AllowAnyIdentity a = true).

(** How many of the three credential strategies are configured. *)
Definition strategies (c : Cloudflare) : nat :=
  ((if bool_decide (ConfigFile c ≠ [] \/ CredentialsFile c ≠ [] \/ TunnelName c ≠ []) then 1 else 0) +
   (if bool_decide (TokenFile c ≠ []) then 1 else 0) + (if bool_decide (TokenCommand c ≠ []) then 1 else 0))%nat.

Definition cloudflareOk (c : Cloudflare) (a : Access) : Prop :=
  Binary c ≠ [] /\ 0 < GracePeriod c <= maxGracePeriod /\ Forall (fun arg => blank arg = false) (TokenCommand c) /\
  (PublicURL c ≠ [] -> httpsOk (PublicURL c)) /\
  (Mode c = ModeNamed /\ strategies c = 1%nat /\ Enabled a = true /\ PublicURL c ≠ [] /\ accessOk a \/
   Mode c = ModeExternal /\ strategies c = 0%nat /\ Enabled a = true /\ PublicURL c ≠ [] /\ accessOk a \/
   Mode c = ModeQuick /\ QuickEnabled c = true).

Definition herdrOk (h : Herdr) : Prop :=
  250 * millisecond <= PollHot h <= PollCold h /\ PollCold h <= maxPollInterval.

Definition experimentalOk (e : Experimental) : Prop :=
  Forall (fun k => k ∈ ParserKinds) (AgentOutputParsers e) /\
  (AgentOutputParsing e = true -> AgentOutputParsers e ≠ []) /\ 1 <= MaxInterpretedTurns e <= 500.

Definition uiOk (u : UI) : Prop :=
  (Theme u = ThemeSystem \/ Theme u = ThemeLight \/ Theme u = ThemeDark) /\ 8 <= TerminalFontSize u <= 72.

Definition wellFormed (c : Config) : Prop :=
  serverOk (server c) /\ cloudflareOk (cloudflare c) (access c) /\ herdrOk (herdr c) /\
  experimentalOk (experimental c) /\ uiOk (ui c).

Lemma validateServer_ok s : validateServer s = None <-> serverOk s.
Proof.
  unfold validateServer, serverOk, minPort, maxPort. checks. unfold maxTTL, hour, minute, second. split.
  - intros (? & [? ?] & ? & ? & ? & _). split_and!; try done; lia.
  - intros (? & ? & ? & ?). split_and!; try done; lia.
Qed.

Lemma validateHerdr_ok h : validateHerdr h = None <-> herdrOk h.
Proof.
  unfold validateHerdr, herdrOk, minPollHot, maxPollInterval, minute, second, millisecond. checks. split.
  - intros (? & ? & ? & ? & _). lia.
  - intros ?. split_and!; try done; lia.
Qed.

Lemma validateUI_ok u : validateUI u = None <-> uiOk u.
Proof.
  unfold validateUI, uiOk, minTerminalFont, maxTerminalFont. checks. rewrite !elem_of_cons, elem_of_nil. split.
  - intros (? & [? ?] & _). split; [naive_solver|lia].
  - intros [? ?]. split_and!; [naive_solver|lia|lia|done].
Qed.

Lemma Supported_spec s : Supported s = true <-> s ∈ ParserKinds.
Proof.
  unfold Supported. rewrite existsb_exists. setoid_rewrite bool_decide_eq_true. setoid_rewrite <- list_elem_of_In. naive_solver.
Qed.

Lemma validateExperimental_ok e : validateExperimental e = None <-> experimentalOk e.
Proof.
  unfold validateExperimental, experimentalOk, maxInterpretedTurn. checks.
  rewrite (firstBad_none _ (fun k => k ∈ ParserKinds)).
  2:{ intros i x. by rewrite reject_none, negb_false_iff, Supported_spec. }
  split.
  - intros (? & H & [? ?] & _). split_and!; [done| |lia|lia]. intros E. rewrite E in H. by destruct H.
  - intros (? & H & ?). split_and!; [done| |lia|lia|done]. destruct (AgentOutputParsing e); [right; auto|by left].
Qed.

Lemma containsControl_spec s : containsControl s = false <-> Forall (fun r => 32 <= r /\ r ≠ 127) (runes s).
Proof.
  unfold containsControl. induction (runes s) as [|r rs IH]; simpl; [done|].
  rewrite orb_false_iff, IH, Forall_cons. apply and_iff_compat_r. lia.
Qed.

Lemma checkIdentity_ok i id : checkIdentity i id = None <-> identityOk id.
Proof.
  unfold checkIdentity, identityOk. destruct (blank id); [naive_solver|].
  destruct (maxIdentityRuneLen <? length (runes id))%nat eqn:E; cbn [orb].
  { apply Nat.ltb_lt in E. split; [done|]. intros (_ & ? & _). lia. }
  apply Nat.ltb_ge in E. rewrite <- containsControl_spec. destruct (containsControl id); naive_solver.
Qed.

Lemma access_ok a : validateAccess a = None /\ validateIdentityGate a = None <-> accessOk a.
Proof.
  unfold validateAccess, validateIdentityGate, accessOk. checks.
  rewrite (firstBad_none _ identityOk) by apply checkIdentity_ok.
  assert (Hg : Forall identityOk (AllowedIdentities a) ->
    (if HasIdentityAllowlist a || AllowAnyIdentity a then None else Some IdentityGate) = None <->
    AllowedIdentities a ≠ [] \/ AllowAnyIdentity a = true).
  { intros Hi. unfold HasIdentityAllowlist. destruct (AllowedIdentities a) as [|id ids]; cbn [existsb orb].
    - destruct (AllowAnyIdentity a); naive_solver.
    - inversion Hi as [|? ? [Hb _] _]; subst. rewrite Hb. cbn [negb orb]. naive_solver. }
  naive_solver.
Qed.

Lemma strategies_spec c : length (credentialStrategies c) = strategies c.
Proof.
  unfold credentialStrategies, strategies. rewrite !length_app.
  destruct (ConfigFile c), (CredentialsFile c), (TunnelName c), (TokenFile c), (TokenCommand c); reflexivity.
Qed.

Lemma named_ok c a : validateNamed c a = None <->
  strategies c = 1%nat /\ Enabled a = true /\ PublicURL c ≠ [] /\ accessOk a.
Proof.
  unfold validateNamed. checks. rewrite <- access_ok, <- strategies_spec.
  destruct (credentialStrategies c) as [|? [|? ?]]; naive_solver.
Qed.

Lemma external_ok c a : validateExternal c a = None <->
  strategies c = 0%nat /\ Enabled a = true /\ PublicURL c ≠ [] /\ accessOk a.
Proof.
  unfold validateExternal. checks. rewrite <- access_ok, <- strategies_spec.
  destruct (credentialStrategies c); naive_solver.
Qed.

Lemma https_ok raw : validateHTTPSURL ParseURL raw = true <-> httpsOk raw.
Proof.
  unfold validateHTTPSURL, httpsOk. destruct (ParseURL raw) as [u|]; [|naive_solver].
  rewrite !andb_true_iff, bool_decide_eq_true, !negb_true_iff, !isEmpty_false. naive_solver.
Qed.

Lemma validateCloudflare_ok c a : validateCloudflare ParseURL c a = None <-> cloudflareOk c a.
Proof.
  unfold validateCloudflare, cloudflareOk. checks.
  rewrite (firstBad_none _ (fun arg => blank arg = false)) by (intros; apply reject_none).
  assert (Hu : isEmpty (PublicURL c) = true \/ validateHTTPSURL ParseURL (PublicURL c) = true <->
               (PublicURL c ≠ [] -> httpsOk (PublicURL c))).
  { rewrite <- https_ok, isEmpty_true. destruct (PublicURL c); naive_solver. }
  rewrite Hu.
  assert (Hm : (if bool_decide (Mode c = ModeNamed) then validateNamed c a
      else if bool_decide (Mode c = ModeExternal) then validateExternal c a
      else if bool_decide (Mode c = ModeQuick) then reject (negb (QuickEnabled c)) QuickNotEnabled
      else Some UnknownMode) = None <->
    (Mode c = ModeNamed /\ strategies c = 1%nat /\ Enabled a = true /\ PublicURL c ≠ [] /\ accessOk a \/
     Mode c = ModeExternal /\ strategies c = 0%nat /\ Enabled a = true /\ PublicURL c ≠ [] /\ accessOk a \/
     Mode c = ModeQuick /\ QuickEnabled c = true)).
  { rewrite <- named_ok, <- external_ok.
    destruct (bool_decide_reflect (Mode c = ModeNamed)) as [->|]; [naive_solver|].
    destruct (bool_decide_reflect (Mode c = ModeExternal)) as [->|]; [naive_solver|].
    destruct (bool_decide_reflect (Mode c = ModeQuick)) as [->|]; [|naive_solver].
    rewrite reject_none, negb_false_iff. naive_solver. }
  rewrite Hm. tauto.
Qed.

Lemma Validate_meaning c : Validate ParseURL c = None <-> wellFormed c.
Proof.
  unfold Validate, wellFormed. checks.
  rewrite validateServer_ok, validateCloudflare_ok, validateHerdr_ok, validateExperimental_ok, validateUI_ok. tauto.
Qed.

(** C35: Validation accepts exactly the well-formed configurations: a loopback
    origin and a valid port, an idle lock within a session lifetime of at most 30
    days, polling between 250 ms and ten minutes, known themes and parsers, and a
    front door that is gated: named and external mode need Access with a team
    domain, an audience and either a list of valid identities or the explicit
    waiver, exactly one respectively no tunnel credential, and an https address;
    quick mode needs the explicit opt-in. *)
Theorem Validate_exact (c : Config) : Validate ParseURL c = None <-> wellFormed c.
Proof. apply Validate_meaning. Qed.
End valid.

(** ** Loading *)

Section load.
  Context (ParseDuration : list byte -> option Z) (ParseURL : list byte -> option URL) (env : list byte -> list byte).

Lemma ExpandPath_clean p q : ExpandPath env p = inl q -> Clean q = q.
Proof.
  unfold ExpandPath. destruct (blank p); [done|]. destruct (Expand p env) as [x names].
  destruct (negb _); [done|]. destruct (_ && _); [done|]. destruct (blank _); [done|].
  intros [= <-]. apply Clean_twice.
Qed.

(** A path field after expansion: a bare name, or a cleaned path. *)
Definition settled (s : list byte) : Prop := looksLikePath s = false \/ Clean s = s.

Lemma expandField_settled f s q : expandField env f s = inl q -> settled q.
Proof.
  unfold expandField, expandIfPath, settled. destruct s as [|b s]; [intros [= <-]; by left|]. cbn [isEmpty orb].
  destruct (looksLikePath (b :: s)) eqn:E; cbn [negb]; [|intros [= <-]; by left].
  destruct (ExpandPath env (b :: s)) eqn:Ee; [|done]. intros [= <-]. right. by eapply ExpandPath_clean.
Qed.

Lemma expandRoots_clean roots : forall i qs, expandRoots env i roots = inl qs -> Forall (fun q => Clean q = q) qs.
Proof.
  induction roots as [|r roots IH]; intros i qs; simpl; [intros [= <-]; done|].
  destruct (blank r); [done|]. destruct (ExpandPath env r) as [q|] eqn:E; [|done].
  destruct (expandRoots env (S i) roots) as [qs'|] eqn:E'; [|done]. intros [= <-].
  constructor; [by eapply ExpandPath_clean|by eapply IH].
Qed.

(** What expansion leaves alone, and what it settles. *)
Lemma expand_ok c c' : expand env c = inl c' ->
  Port (server c') = Port (server c) /\ access c' = access c /\
  QuickEnabled (cloudflare c') = QuickEnabled (cloudflare c) /\ experimental c' = experimental c /\
  Forall (fun q => Clean q = q) (AllowedWorkspaceRoots (server c')) /\
  Forall settled [ConfigFile (cloudflare c'); CredentialsFile (cloudflare c'); TokenFile (cloudflare c');
                  Binary (cloudflare c'); SocketPath (herdr c'); HerdrBinary (herdr c')].
Proof.
  unfold expand. destruct (expandRoots _ _ _) as [roots|] eqn:Er; [|done].
  repeat match goal with |- context [match expandField env ?f ?s with _ => _ end] =>
    destruct (expandField env f s) eqn:?; [|done] end.
  intros [= <-]. split_and!; try done; [by eapply expandRoots_clean|].
  repeat (constructor; [by eapply expandField_settled|]). constructor.
Qed.

Lemma finish_ok c c' : finish ParseURL env c = inl c' -> expand env c = inl c' /\ wellFormed ParseURL c'.
Proof.
  unfold finish. destruct (expand env c) as [e|]; [|done].
  destruct (Validate ParseURL e) eqn:E; [done|]. intros [= <-]. split; [done|].
  by apply Validate_meaning.
Qed.

Lemma applyTo_switches r c c' : applyTo ParseDuration r c = inl c' ->
  Port (server c') = default (Port (server c)) (r_server r ≫= r_Port) /\
  Enabled (access c') = default (Enabled (access c)) (r_access r ≫= r_Enabled) /\
  AllowAnyIdentity (access c') = default (AllowAnyIdentity (access c)) (r_access r ≫= r_AllowAny) /\
  QuickEnabled (cloudflare c') = default (QuickEnabled (cloudflare c)) (r_cloudflare r ≫= r_QuickEnabled) /\
  AgentOutputParsing (experimental c') = default (AgentOutputParsing (experimental c)) (r_experimental r ≫= r_Parsing).
Proof.
  unfold applyTo, overlay, applyServer, applyCloudflare, applyAccess, applyHerdr. intros H.
  repeat match type of H with
  | context [match (match ?o with Some _ => _ | None => _ end) with _ => _ end] => destruct o; simpl in H
  | context [match applyDuration ?p ?a ?b ?f with _ => _ end] => destruct (applyDuration p a b f); simpl in H; [|done]
  end; injection H as <-; destruct (r_experimental r); by split_and!.
Qed.

(** C36: A configuration that loads is safe to use. It was decoded without unknown
    keys, is well formed, its workspace roots are cleaned paths and every other
    path field is a cleaned path or a bare name, and each switch that weakens the
    front door (Access off, any identity, quick mode, output parsing) is off
    unless the file sets it. *)
Theorem Load_safe (decoded : option (rawConfig * list (list byte))) (c : Config) :
  LoadData ParseDuration ParseURL env decoded = inl c ->
  wellFormed ParseURL c /\
  Forall (fun q => Clean q = q) (AllowedWorkspaceRoots (server c)) /\
  Forall settled [ConfigFile (cloudflare c); CredentialsFile (cloudflare c); TokenFile (cloudflare c);
                  Binary (cloudflare c); SocketPath (herdr c); HerdrBinary (herdr c)] /\
  exists raw, decoded = Some (raw, []) /\
    Enabled (access c) = default true (r_access raw ≫= r_Enabled) /\
    AllowAnyIdentity (access c) = default false (r_access raw ≫= r_AllowAny) /\
    QuickEnabled (cloudflare c) = default false (r_cloudflare raw ≫= r_QuickEnabled) /\
    AgentOutputParsing (experimental c) = default false (r_experimental raw ≫= r_Parsing).
Proof.
  unfold LoadData, decodeInto. destruct decoded as [[raw un]|]; [|done].
  destruct un as [|k un]; [|done]. cbn [isEmpty].
  destruct (applyTo ParseDuration raw Default) as [c1|] eqn:Ea; [|done]. intros H.
  apply finish_ok in H as [He Hw]. apply expand_ok in He as (_ & E1 & E2 & E3 & H1 & H2).
  apply applyTo_switches in Ea as (_ & A1 & A2 & A3 & A4).
  split_and!; [done|done|done|]. exists raw. rewrite E1, E2, E3. by split_and!.
Qed.
End load.

(** ** A concrete file *)

Definition sampleURL (raw : list byte) : option URL :=
  if hasPrefix raw (bytesOf "https://")
  then Some (mkURL (bytesOf "https") (drop 8 raw) (drop 8 raw) false) else None.
Definition sampleEnv (name : list byte) : list byte := if bool_decide (name = HOME) then bytesOf "/home/me" else [].
Definition sampleRaw : rawConfig :=
  mkRaw None
    (Some (mkRawCloudflare (Some ModeExternal) None (Some (bytesOf "https://h.example")) None None None None None None None))
    (Some (mkRawAccess None (Some (bytesOf "t.cloudflareaccess.com")) (Some (bytesOf "aud"))
             (Some [bytesOf "me@example.com"]) None None))
    None None None.
Definition sampleLoaded : Config :=
  match LoadData (fun _ => None) sampleURL sampleEnv (Some (sampleRaw, [])) with inl c => c | inr _ => Default end.

Lemma Load_safe_witness :
  AllowedWorkspaceRoots (server sampleLoaded) = [bytesOf "/home/me"] /\ wellFormed sampleURL sampleLoaded.
Proof.
  split; [by vm_compute|].
  eapply (Load_safe (fun _ => None) sampleURL sampleEnv (Some (sampleRaw, []))); by vm_compute.
Defined.
