(* ===== verification/Assembly.v ===== *)
(** * Assembly: how internal/integration puts the parts together

    The mappings of configmap.go and paths.go and the wiring of stack.go that
    decides the front door: the effective mode, the tunnel and server
    configurations, the verifier of the Access modes and the wait for a Quick
    Tunnel address. The theorems relate what one component is configured to
    accept to what the next one promises.

    [strings.ToLower] of arbitrary text is the parameter [ToLower]. *)

From stdpp Require Import pretty.
From S2P Require Import Prelude GoStr GoText GoPath.
From S2P Require Import Access.
From S2P Require Import Routes.
From S2P Require Import Runs.
From S2P Require Import TunnelLog TunnelLogFacts.
From S2P Require Import Tunnel TunnelFacts.
From S2P Require Import Config ConfigFacts.

#[local] Open Scope Z_scope.

(** ** Environment (paths.go) *)

Definition resolveStateDir (env : list byte -> list byte) : option (list byte) :=
  let plugin := env (bytesOf "HERDR_PLUGIN_STATE_DIR") in
  let xdg := env (bytesOf "XDG_STATE_HOME") in
  let home := env HOME in
  if negb (isEmpty plugin) then Some plugin
  else if negb (isEmpty xdg) then Some (Join [xdg; bytesOf "herdr-phone"])
  else if negb (isEmpty home) then Some (Join [home; bytesOf ".local"; bytesOf "state"; bytesOf "herdr-phone"])
  else None.

Definition resolveHerdrSocket (cfg : Config.Config) (env : list byte -> list byte) : list byte :=
  let p := env (bytesOf "HERDR_SOCKET_PATH") in
  let xdg := env (bytesOf "XDG_CONFIG_HOME") in
  let home := env HOME in
  if negb (isEmpty (SocketPath (herdr cfg))) then SocketPath (herdr cfg)
  else if negb (isEmpty p) then p
  else if negb (isEmpty xdg) then Join [xdg; bytesOf "herdr"; bytesOf "herdr.sock"]
  else if negb (isEmpty home) then Join [home; bytesOf ".config"; bytesOf "herdr"; bytesOf "herdr.sock"]
  else [].

Definition resolveHerdrBin (cfg : Config.Config) (env : list byte -> list byte) : list byte :=
  let p := env (bytesOf "HERDR_BIN_PATH") in
  if negb (isEmpty (HerdrBinary (herdr cfg))) then HerdrBinary (herdr cfg)
  else if negb (isEmpty p) then p
  else bytesOf "herdr".

(** The text after the first occurrence of [needle]. *)
Fixpoint afterFirst (needle s : list byte) : option (list byte) :=
  if hasPrefix s needle then Some (drop (length needle) s)
  else match s with [] => None | _ :: s' => afterFirst needle s' end.

Definition hostOnly (rawURL : list byte) : list byte :=
  let s := TrimSpace rawURL in
  let s := default s (afterFirst (bytesOf "://") s) in
  match cutAt x2f s with Some (host, _) => host | None => s end.

(** ** Modes and mappings (configmap.go) *)

Definition tunnelStabilityWindow : Z := 45 * Config.second.

Definition effectiveMode (cfg : Config.Config) (quick : bool) : option (list byte) :=
  if quick then
    if negb (Config.QuickEnabled (cloudflare cfg)) then None else Some Config.ModeQuick
  else if bool_decide (Config.Mode (cloudflare cfg) = Config.ModeQuick) && negb (Config.QuickEnabled (cloudflare cfg))
  then None
  else Some (Config.Mode (cloudflare cfg)).

Definition tunnelConfig (cfg : Config.Config) (mode : list byte) (port : Z) (stateDir : list byte) : Tunnel.Config :=
  let c := cloudflare cfg in
  Tunnel.mkConfig mode (Config.Binary c) port (Config.PublicURL c) [] (Config.ConfigFile c) (Config.CredentialsFile c)
    (Config.TunnelName c) (Config.TokenFile c) (Config.TokenCommand c) (Config.QuickEnabled c) (Config.GracePeriod c)
    tunnelStabilityWindow [] stateDir stateDir.

Definition strOf (s : list byte) : string := String.string_of_list_byte s.

Definition interpretationConfig (e : Experimental) : Interpretation :=
  if negb (AgentOutputParsing e) then mkInterpretation false [] 0
  else mkInterpretation true (strOf <$> AgentOutputParsers e) (MaxInterpretedTurns e).

(** The host allowlist of the server, whether it runs in quick mode, and its view
    of the experimental section. *)
Definition serverConfig (mode publicURL : list byte) (port : Z) (e : Experimental) : hostConfig * bool * Interpretation :=
  let hostPort := bytesOf "127.0.0.1:" ++ decimal port in
  let localHost := bytesOf "localhost:" ++ decimal port in
  let origins := [bytesOf "http://" ++ hostPort; bytesOf "http://" ++ localHost] in
  let dev := [strOf hostPort; strOf localHost] in
  (match publicURL with
   | [] => mkHosts "" dev origins
   | _ => let host := hostOnly publicURL in
          mkHosts (strOf host) dev ((bytesOf "https://" ++ host) :: origins)
   end, bool_decide (mode = Config.ModeQuick), interpretationConfig e).

(** [validateForServe]; [lstat] answers for the credential files. *)
Definition validateForServe (cfg : Config.Config) (mode : list byte) (uid : Z) (lstat : list byte -> option fileInfo) : bool :=
  let ok p := isEmpty p || VerifySecretFile uid (lstat p) in
  if bool_decide (mode = Config.ModeNamed)
  then ok (Config.CredentialsFile (cloudflare cfg)) && ok (Config.TokenFile (cloudflare cfg))
  else true.

(** ** The front door (stack.go) *)

(** [waitQuickTunnelURL] once one of its cases is ready: [None] is an error. *)
Inductive waitCase := SupReady | SupDone | TimedOut | CtxDone.
Definition waitQuickTunnelURL (s : Supervisor) (c : waitCase) : option (list byte) :=
  match c with
  | SupReady => match Tunnel.url s with [] => None | u => Some u end
  | _ => None
  end.

Section auth.
  Context (ToLower : list byte -> list byte).

Definition trimPrefix (p s : list byte) : list byte := if hasPrefix s p then drop (length p) s else s.
Definition trimSuffix (p s : list byte) : list byte := if hasSuffix s p then take (length s - length p) s else s.

Definition NormalizeTeamDomain (teamDomain : list byte) : list byte :=
  let d := TrimSpace teamDomain in
  let d := trimPrefix (bytesOf "https://") d in
  let d := trimPrefix (bytesOf "http://") d in
  ToLower (trimSuffix [x2f] d).

Definition IssuerForTeam (teamDomain : list byte) : list byte := bytesOf "https://" ++ NormalizeTeamDomain teamDomain.

(** The verifier [buildAuth] gives the authenticator: [inl None] in a mode
    without Access, [inr] when construction fails. *)
Definition buildAuth (cfg : Config.Config) (mode : list byte) : option Verifier + unit :=
  if ModeUsesAccess mode then
    let a := access cfg in
    if isEmpty (NormalizeTeamDomain (TeamDomain a)) then inr tt
    else match NewVerifier (IssuerForTeam (TeamDomain a)) (Audience a) (AllowedIdentities a) DefaultClockSkew with
         | Some v => inl (Some v)
         | None => inr tt
         end
  else inl None.
End auth.

(** ** Configuration against tunnel *)

Lemma default_metrics_loopback : metricsAddrIsLoopback defaultMetricsAddr = true.
Proof. by vm_compute. Qed.

(** C40: Which validated configurations the tunnel supervisor accepts. config.go counts
    config file, credentials file and tunnel name as one strategy, but the
    mapping leaves the strategy to be inferred, and there the config file and
    the credentials count as two and the credentials need both fields. So a valid
    named configuration starts exactly when it uses a token, or a config file
    alone, or credentials file and tunnel name without a config file; the locally
    managed tunnel of the README, with all three, is refused. *)
Theorem tunnel_accepts_exactly (ParseURL : list byte -> option URL) (cfg : Config.Config) (port : Z) (stateDir : list byte) :
  wellFormed ParseURL cfg -> Config.Mode (cloudflare cfg) = Config.ModeNamed -> 1 <= port <= 65535 ->
  let c := cloudflare cfg in
  (Tunnel.Validate (tunnelConfig cfg Config.ModeNamed port stateDir)).2 = None <->
  Config.TokenFile c ≠ [] \/ Config.TokenCommand c ≠ [] \/
  Config.ConfigFile c ≠ [] /\ Config.CredentialsFile c = [] /\ Config.TunnelName c = [] \/
  Config.ConfigFile c = [] /\ Config.CredentialsFile c ≠ [] /\ Config.TunnelName c ≠ [].
Proof.
  intros (_ & (_ & _ & _ & _ & Hm) & _) Hmode Hport c.
  destruct Hm as [(_ & Hs & _ & Hu & _)|[[Hm _]|[Hm _]]]; [|by rewrite Hmode in Hm..].
  unfold Tunnel.Validate, Tunnel.applyDefaults, tunnelConfig. cbn [Tunnel.LoopbackPort Tunnel.MetricsAddr orElse].
  replace ((port <? 1) || (65535 <? port)) with false by lia. rewrite default_metrics_loopback. cbn [negb].
  cbn [Tunnel.Mode]. rewrite bool_decide_false, bool_decide_true by done.
  unfold resolveStrategy, inferred, validateStrategy, withStrategy, strategies in *. subst c.
  cbn [Tunnel.Strategy Tunnel.ConfigFile Tunnel.CredentialsFile Tunnel.TunnelName Tunnel.TokenFile Tunnel.TokenCommand
    Tunnel.PublicURL].
  destruct (Config.PublicURL (cloudflare cfg)); [done|].
  destruct (Config.ConfigFile (cloudflare cfg)), (Config.CredentialsFile (cloudflare cfg)),
    (Config.TunnelName (cloudflare cfg)), (Config.TokenFile (cloudflare cfg)), (Config.TokenCommand (cloudflare cfg));
    simpl in Hs; try discriminate Hs; cbn; split; try done; naive_solver.
Qed.

(** ** The front door *)

Lemma allowed_nonempty (ids : list (list byte)) : ids ≠ [] -> Forall identityOk ids ->
  list_to_set (C:=gset string)
    (Access.strOf <$> List.filter (fun a => negb (bool_decide (a = []))) (TrimSpace <$> ids)) ≠ ∅.
Proof.
  intros Hne H. destruct ids as [|id ids]; [done|]. inversion H as [|? ? [Hb _] _]; subst.
  unfold blank in Hb. cbn [fmap list_fmap List.filter]. destruct (TrimSpace id) as [|x s]; [done|].
  rewrite bool_decide_false by done. cbn [negb fmap list_fmap list_to_set]. set_solver.
Qed.

(** Every front door the relay opens is gated. For a valid configuration the
    effective mode is quick only with the explicit opt-in; every other mode is
    the configured one, enforces Access with a verifier (never none), and a
    verifier without an identity list exists only if the operator waived it. *)
Theorem front_door_gated (ToLower : list byte -> list byte) (ParseURL : list byte -> option URL)
    (cfg : Config.Config) (quick : bool) (m : list byte) :
  wellFormed ParseURL cfg -> effectiveMode cfg quick = Some m ->
  m = Config.ModeQuick /\ Config.QuickEnabled (cloudflare cfg) = true \/
  quick = false /\ m = Config.Mode (cloudflare cfg) /\ Enabled (access cfg) = true /\
  buildAuth ToLower cfg m ≠ inl None /\
  (forall v, buildAuth ToLower cfg m = inl (Some v) ->
     Access.audience v = Access.strOf (TrimSpace (Audience (access cfg))) /\
     (allowed v = ∅ -> AllowAnyIdentity (access cfg) = true)).
Proof.
  intros (_ & (_ & _ & _ & _ & Hm) & _) He. unfold effectiveMode in He. destruct quick.
  { destruct (Config.QuickEnabled (cloudflare cfg)) eqn:E; [|done]. injection He as <-. by left. }
  destruct (_ && _) eqn:Eq; [done|]. injection He as <-.
  assert (Hg : Config.Mode (cloudflare cfg) = Config.ModeQuick /\ Config.QuickEnabled (cloudflare cfg) = true \/
    ModeUsesAccess (Config.Mode (cloudflare cfg)) = true /\ Enabled (access cfg) = true /\ accessOk (access cfg)).
  { destruct Hm as [(Em & _ & ? & _ & ?)|[(Em & _ & ? & _ & ?)|[? ?]]]; [right|right|by left];
      unfold ModeUsesAccess; rewrite Em; by split_and!. }
  destruct Hg as [?|(Ha & Hen & _ & _ & _ & _ & Hids & Hany)]; [by left|right].
  split_and!; [done|done|done| |].
  - unfold buildAuth. rewrite Ha. destruct (isEmpty _); [done|]. by destruct (NewVerifier _ _ _ _).
  - intros v. unfold buildAuth. rewrite Ha. destruct (isEmpty _); [done|].
    unfold NewVerifier. cbv zeta.
    destruct (bool_decide (TrimSpace (IssuerForTeam _ _) = [])); [done|].
    destruct (bool_decide (TrimSpace (Audience _) = [])); [done|].
    intros [= <-]. cbn [Access.audience allowed]. split; [done|]. intros Hempty.
    destruct Hany as [Hne|]; [|done]. by apply allowed_nonempty in Hempty.
Qed.

(** ** Quick mode: from the log line to the host allowlist *)

Lemma hostByte_plain b : labelByte b = true -> plainByte b = true.
Proof. unfold labelByte, hostByte, between, plainByte, isSpace. intros H. bool_hyps. lia. Qed.

Lemma labelByte_no_slash b : labelByte b = true -> (b =b x2f) = false.
Proof. unfold labelByte, hostByte, between. intros H. change (bz x2f) with 47. bool_hyps. lia. Qed.

Lemma cutAt_free c s t : Forall (fun b => (b =b c) = false) s -> cutAt c t = None -> cutAt c (s ++ t) = None.
Proof. intros Hs Ht. induction Hs as [|b s Hb _ IH]; [done|]. simpl. by rewrite Hb, IH. Qed.

Lemma hostOnly_quick b l : hostByte b = true -> Forall (fun c => labelByte c = true) l ->
  hostOnly (httpsPrefix ++ [b] ++ l ++ quickSuffix) = [b] ++ l ++ quickSuffix.
Proof.
  intros Hb Hl. assert (Hbl : labelByte b = true) by (unfold labelByte; by rewrite Hb).
  unfold hostOnly. rewrite TrimSpace_plain.
  2:{ apply Forall_app; split; [by repeat constructor|]. constructor; [by apply hostByte_plain|].
      apply Forall_app; split; [|by repeat constructor]. eapply Forall_impl; [done|]. apply hostByte_plain. }
  change (afterFirst (bytesOf "://") (httpsPrefix ++ [b] ++ l ++ quickSuffix)) with (Some ([b] ++ l ++ quickSuffix)).
  assert (E : cutAt x2f ((b :: l) ++ quickSuffix) = None).
  2:{ transitivity (match cutAt x2f ((b :: l) ++ quickSuffix) with Some (h, _) => h | None => (b :: l) ++ quickSuffix end);
      [reflexivity|by rewrite E]. }
  apply cutAt_free; [|done].
  constructor; [by apply labelByte_no_slash|]. eapply Forall_impl; [done|]. apply labelByte_no_slash.
Qed.

Lemma hostAllowed_spec c h : PublicHost c ≠ "" -> "" ∉ DevHosts c ->
  hostAllowed c h = true <-> h = PublicHost c \/ h ∈ DevHosts c.
Proof.
  intros Hp Hd. unfold hostAllowed, Session.nonempty.
  rewrite (bool_decide_false (PublicHost c = "")) by done. cbn [negb andb].
  destruct (bool_decide_reflect (h = "")) as [->|Hh]; cbn [negb]; [naive_solver|].
  destruct (bool_decide_reflect (h = PublicHost c)); rewrite ?bool_decide_eq_true; naive_solver.
Qed.

(** In quick mode the server serves exactly the tunnel's own host. Once a
    supervised quick tunnel reports ready, the wait yields an address of the form
    https://<label>.trycloudflare.com that cloudflared announced, and the server
    built from it admits that host and the two loopback hosts, and no other, with
    exactly the matching origins. *)
Theorem quick_front_door (floatDelay : Z -> Z)
    (decodeLog : list byte -> option (list byte * list byte * list byte * list byte))
    (c0 : Tunnel.Config) (bo : Backoff) (maxC : Z) (window : option Z) (pf : option pidRecord) (s0 s : Supervisor)
    (acts : list action) (port : Z) (e : Experimental) :
  New c0 bo maxC window = inl s0 -> attempt bo = 0 -> execute floatDelay decodeLog (Start s0 pf) acts = Some s ->
  Tunnel.Mode (cfg s0) = Tunnel.ModeQuick -> state s = StateReady ->
  exists host, waitQuickTunnelURL s SupReady = Some (httpsPrefix ++ host) /\ isQuickURL (httpsPrefix ++ host) /\
    let '(hosts, quick, _) := serverConfig Config.ModeQuick (httpsPrefix ++ host) port e in
    let dev := [strOf (bytesOf "127.0.0.1:" ++ decimal port); strOf (bytesOf "localhost:" ++ decimal port)] in
    quick = true /\ (forall h, hostAllowed hosts h = true <-> h = strOf host \/ h ∈ dev) /\
    AllowedOrigins hosts = [httpsPrefix ++ host; bytesOf "http://127.0.0.1:" ++ decimal port; bytesOf "http://localhost:" ++ decimal port].
Proof.
  intros Hn Hb Hrun Hq Hr.
  destruct (reachable floatDelay decodeLog c0 bo maxC window pf s0 Hn Hb acts s Hrun) as (Ec & _ & [Hst _] & _).
  destruct (Hst Hr) as [_ [[Hm _]|[_ Hu]]]; [by rewrite Ec, Hq in Hm|].
  destruct Hu as (b & l & Eu & Hb1 & Hl). exists ([b] ++ l ++ quickSuffix).
  split_and!; [unfold waitQuickTunnelURL; by rewrite Eu|by exists b, l|].
  unfold serverConfig. rewrite hostOnly_quick by done.
  change (httpsPrefix ++ [b] ++ l ++ quickSuffix) with (x68 :: drop 1 httpsPrefix ++ [b] ++ l ++ quickSuffix).
  cbv iota zeta. split_and!; [done| |done].
  intros h. apply hostAllowed_spec; cbn [PublicHost DevHosts]; [done|].
  rewrite !not_elem_of_cons. split_and!; [done|done|apply not_elem_of_nil].
Qed.

(** ** Concrete values *)

(** The locally managed tunnel of the README. *)
Definition readmeConfig : Config.Config :=
  Config.mkConfig (server Default)
    (mkCloudflare Config.ModeNamed DefaultCloudflareBinary (bytesOf "https://h.example")
       (bytesOf "/home/me/.cloudflared/config.yml") (bytesOf "my-tunnel") (bytesOf "/home/me/.cloudflared/id.json")
       [] [] false DefaultGracePeriod)
    (mkAccess true (bytesOf "t.cloudflareaccess.com") (bytesOf "aud") [bytesOf "me@example.com"] false DefaultJWKSTTL)
    (herdr Default) (ui Default) (experimental Default) [].

Lemma readme_wellFormed : wellFormed sampleURL readmeConfig.
Proof. apply Validate_meaning. by vm_compute. Qed.

Lemma tunnel_accepts_exactly_witness :
  (Tunnel.Validate (tunnelConfig readmeConfig Config.ModeNamed 8787 (bytesOf "/state"))).2 = Some (Tunnel.ManyStrategies 2) /\
  ~ (Tunnel.Validate (tunnelConfig readmeConfig Config.ModeNamed 8787 (bytesOf "/state"))).2 = None.
Proof.
  split; [by vm_compute|]. intros H.
  apply (tunnel_accepts_exactly sampleURL readmeConfig 8787 (bytesOf "/state") readme_wellFormed eq_refl) in H; [|lia].
  destruct H as [H|[H|[(_ & H & _)|(H & _)]]]; by vm_compute in H.
Defined.

Lemma front_door_gated_witness : exists v, buildAuth (fun s => s) readmeConfig Config.ModeNamed = inl (Some v) /\
  (allowed v = ∅ -> AllowAnyIdentity (access readmeConfig) = true).
Proof.
  destruct (front_door_gated (fun s => s) sampleURL readmeConfig false Config.ModeNamed readme_wellFormed eq_refl)
    as [[H _]|(_ & _ & _ & _ & H)]; [by vm_compute in H|].
  eexists. split; [reflexivity|]. by apply H.
Defined.

Definition quickConfig : Tunnel.Config :=
  Tunnel.mkConfig Tunnel.ModeQuick [] 8787 [] [] [] [] [] [] [] true 0 0 [] [] [].
Definition quickSup : Supervisor :=
  match New quickConfig (mkBackoff 0 0) 5 None with inl s => s | inr _ => sampleSup end.
Definition quickActs : list action :=
  [Check; PrepareConfigured; Started 7 true 1; BecameReady [bytesOf "https://a-b.trycloudflare.com"] 0 true].

Lemma quick_front_door_witness : exists host,
  waitQuickTunnelURL (default quickSup (execute sampleDelay noJSON (Start quickSup None) quickActs)) SupReady =
  Some (httpsPrefix ++ host).
Proof.
  destruct (quick_front_door sampleDelay noJSON quickConfig (mkBackoff 0 0) 5 None None quickSup
    (default quickSup (execute sampleDelay noJSON (Start quickSup None) quickActs)) quickActs 8787 (experimental Default))
    as (host & H & _); [by vm_compute..|]. by exists host.
Defined.
