(* ===== verification/Control.v ===== *)
(** * Control: the control socket of internal/daemon/control.go

    One request and one response per connection, each a line of JSON within a byte
    bound. Encoding and decoding JSON are parameters; the connection is the bytes
    one side sends to the other. *)

From S2P Require Import Prelude GoStr GoText Sanitize.

(** ** Messages *)

Definition controlFileName : list byte := bytesOf "control.sock".
Definition controlReadLimit : nat := 65536.

Definition CmdStatus := "status".
Definition CmdRotatePairing := "rotate-pairing".
Definition CmdStop := "stop".

Record controlRequest := mkRequest { rq_Command : string; rq_RequestID : string }.

Inductive Health := HealthStarting | HealthReady | HealthDegraded | HealthStopping.
#[export] Instance Health_dec : EqDecision Health.
Proof. solve_decision. Defined.

Record ComponentStatus := mkComponent { c_Name : string; c_Ready : bool; c_Detail : list byte }.

Record StatusResult := mkStatus {
  st_Health : Health; st_Mode : string; st_PublicURL : list byte; st_LocalAddr : list byte; st_Version : string;
  st_InstanceID : string; st_PID : Z; st_StartUnixMs : Z; st_ClientCount : Z; st_Components : list ComponentStatus
}.

Record PairingResult := mkPairing { pr_URL : list byte }.

Record controlResponse := mkResponse {
  rs_RequestID : string; rs_OK : bool; rs_Error : list byte; rs_Status : option StatusResult;
  rs_Pairing : option PairingResult
}.

(** ** Errors *)

Definition maxErrRunes : nat := 500.

(** [sanitizeErr] of an error's text. *)
Definition errRune (r : Z) : option Z := if (r <? 32) || (r =? 127) then None else Some r.
Definition sanitizeErr (msg : list byte) : list byte := encodeRunes (take maxErrRunes (omap errRune (runes msg))).

(** ** The server *)

(** The callbacks; a missing one is [None]. A result is a value or the text of an
    error. *)
Record Handlers := mkHandlers {
  h_Status : option (StatusResult + list byte);
  h_RotatePairing : option (PairingResult + list byte);
  h_Stop : option (unit + list byte)
}.

Definition failed (id : string) (msg : list byte) : controlResponse := mkResponse id false msg None None.

(** [%q] of an arbitrary string is a parameter. *)
Section Wire.
Context (quoted : string -> list byte).

Definition dispatch (h : Handlers) (req : controlRequest) : controlResponse :=
  let id := rq_RequestID req in
  if bool_decide (rq_Command req = CmdStatus) then
    match h_Status h with
    | None => failed id (bytesOf "status unsupported")
    | Some (inr e) => failed id (sanitizeErr e)
    | Some (inl st) => mkResponse id true [] (Some st) None
    end
  else if bool_decide (rq_Command req = CmdRotatePairing) then
    match h_RotatePairing h with
    | None => failed id (bytesOf "rotate-pairing unsupported")
    | Some (inr e) => failed id (sanitizeErr e)
    | Some (inl pr) => mkResponse id true [] None (Some pr)
    end
  else if bool_decide (rq_Command req = CmdStop) then
    match h_Stop h with
    | None => failed id (bytesOf "stop unsupported")
    | Some (inr e) => failed id (sanitizeErr e)
    | Some (inl _) => mkResponse id true [] None None
    end
  else failed id (bytesOf "unknown command " ++ quoted (rq_Command req)).

(** [ReadBytes] of a line: up to and with the newline, or all there is. *)
Fixpoint readLine (s : list byte) : list byte :=
  match s with [] => [] | b :: s' => if bz b =? 10 then [b] else b :: readLine s' end.

Definition trimNewline (s : list byte) : list byte := trimRightSet [x0a; x0d] s.

(** What is read of a connection on which the peer sends [inbound]. *)
Definition readBounded (inbound : list byte) : list byte := readLine (take controlReadLimit inbound).

Context (decodeRequest : list byte -> option controlRequest) (encodeRequest : controlRequest -> list byte).
Context (decodeResponse : list byte -> option controlResponse) (encodeResponse : controlResponse -> list byte).

(** [handleConn]: what is written back, if anything. *)
Definition handleConn (h : Handlers) (inbound : list byte) : list byte :=
  match readBounded inbound with
  | [] => []
  | line =>
      let resp := match decodeRequest (trimNewline line) with
                  | None => failed "" (bytesOf "invalid request")
                  | Some req => dispatch h req end in
      encodeResponse resp ++ [x0a]
  end.

(** ** The client *)

Definition clientError (msg : list byte) : list byte := bytesOf "daemon: " ++ msg.

(** [call] on a connection whose peer answers what is written with [peer]. *)
Definition call (peer : list byte -> list byte) (command : string) : controlResponse + list byte :=
  match readBounded (peer (encodeRequest (mkRequest command "") ++ [x0a])) with
  | [] => inr (clientError (bytesOf "read control response"))
  | line =>
      match decodeResponse (trimNewline line) with
      | None => inr (clientError (bytesOf "decode control response"))
      | Some resp =>
          if rs_OK resp then inl resp
          else inr (clientError (match rs_Error resp with [] => bytesOf "control command failed" | e => e end))
      end
  end.

Definition Status (peer : list byte -> list byte) : StatusResult + list byte :=
  match call peer CmdStatus with
  | inr e => inr e
  | inl resp => match rs_Status resp with Some st => inl st | None => inr (clientError (bytesOf "status response missing payload")) end
  end.

Definition RotatePairing (peer : list byte -> list byte) : PairingResult + list byte :=
  match call peer CmdRotatePairing with
  | inr e => inr e
  | inl resp => match rs_Pairing resp with Some pr => inl pr | None => inr (clientError (bytesOf "pairing response missing payload")) end
  end.

Definition Stop (peer : list byte -> list byte) : option (list byte) :=
  match call peer CmdStop with inr e => Some e | inl _ => None end.
End Wire.

(** ** Accept errors *)

Definition Millisecond : Z := 1000000.
Definition oneSecond : Z := 1000000000.

(** [5 * time.Millisecond << (fail - 1)] as an int64; a shift by 64 or more is 0. *)
Definition acceptBackoff (fail : Z) : Z :=
  let d := int64 (Z.shiftl (5 * Millisecond) (fail - 1)) in
  if (oneSecond <? d) || (d <=? 0) then oneSecond else d.

(** ** Facts *)

(** An encoded message: not empty, and without control characters. *)
Definition printed (s : list byte) : Prop := s ≠ [] /\ Forall (fun b => 32 <= bz b) s.

Lemma printed_take s n : printed s -> (0 < n)%nat -> printed (take n s).
Proof. intros [Hne Hs] Hn. split; [destruct s, n; done || lia|by apply Forall_take]. Qed.

Lemma readLine_line s r : Forall (fun b => bz b ≠ 10) s -> readLine (s ++ x0a :: r) = s ++ [x0a].
Proof.
  induction 1 as [|b s Hb _ IH]; [done|]. simpl. destruct (Z.eqb_spec (bz b) 10); [done|]. by rewrite IH.
Qed.

Lemma readLine_open s : Forall (fun b => bz b ≠ 10) s -> readLine s = s.
Proof. induction 1 as [|b s Hb _ IH]; [done|]. simpl. destruct (Z.eqb_spec (bz b) 10); [done|]. by rewrite IH. Qed.

Lemma printed_line s : printed s -> Forall (fun b => bz b ≠ 10) s.
Proof. intros [_ Hs]. eapply Forall_impl; [exact Hs|]. cbn. lia. Qed.

Lemma trim_printed l b r : 32 <= bz b -> dropWhile (isOneOf [x0a; x0d]) r = [] ->
  reverse (dropWhile (isOneOf [x0a; x0d]) (r ++ b :: l)) = reverse l ++ [b].
Proof.
  intros Hb Hr. assert (E : isOneOf [x0a; x0d] b = false).
  { unfold isOneOf. cbn [existsb]. change (bz x0a) with 10. change (bz x0d) with 13. lia. }
  induction r as [|c r IH]; cbn [app dropWhile] in *; [by rewrite E, reverse_cons|]. destruct (isOneOf [x0a; x0d] c); [by apply IH|done].
Qed.

Lemma trimNewline_printed s : printed s -> trimNewline s = s /\ trimNewline (s ++ [x0a]) = s.
Proof.
  intros [Hne Hs]. destruct s as [|b s _] using rev_ind; [done|]. apply Forall_app in Hs as [_ Hb].
  apply Forall_cons in Hb as [Hb _]. unfold trimNewline, trimRightSet. rewrite !reverse_app. simpl app. split.
  - etrans; [by apply (trim_printed (reverse s) b [])|]. by rewrite reverse_involutive.
  - etrans; [by apply (trim_printed (reverse s) b [x0a])|]. by rewrite reverse_involutive.
Qed.

(** What the other side reads of a message: the line, or as much of it as the bound
    leaves. *)
Lemma readBounded_printed s : printed s ->
  exists t, readBounded (s ++ [x0a]) = t /\ t ≠ [] /\ trimNewline t = take controlReadLimit s.
Proof.
  intros Hp. eexists. split; [reflexivity|]. unfold readBounded. pose proof (printed_line s Hp) as Hl.
  assert (Hlim : (0 < controlReadLimit)%nat) by (apply Nat.ltb_lt; by vm_compute).
  destruct (Nat.lt_ge_cases (length s) controlReadLimit) as [Hlt|Hge].
  - rewrite !take_ge by (rewrite ?length_app; simpl; lia). rewrite readLine_line by done.
    split; [by destruct s|]. by apply trimNewline_printed.
  - rewrite take_app_le by lia. pose proof (printed_take s _ Hp Hlim) as Ht.
    rewrite readLine_open by by apply printed_line. split; [apply Ht|]. by apply trimNewline_printed.
Qed.

Lemma sanitizeErr_clean msg :
  Forall (fun b => 32 <= bz b /\ bz b ≠ 127) (sanitizeErr msg) /\ (length (runes (sanitizeErr msg)) <= maxErrRunes)%nat.
Proof.
  unfold sanitizeErr. set (rs := omap errRune (runes msg)).
  assert (H : Forall (fun r => validRune r = true) rs /\ Forall (fun r => 32 <= r /\ r ≠ 127) rs).
  { apply omap_valid. unfold errRune. intros r r' E Hv. destruct ((r <? 32) || (r =? 127)) eqn:Ec; [done|].
    injection E as <-. split; [done|lia]. }
  destruct H as [H1 H2]. split.
  - apply encoded_no_control; by apply Forall_take.
  - rewrite runes_encodeRunes_nil by by apply Forall_take. rewrite length_take. lia.
Qed.

(** ** What JSON makes of a text: bytes that are not UTF-8 arrive as replacement runes *)

Definition coerceText (s : list byte) : list byte := encodeRunes (runes s).
Definition coerceString (s : string) : string := String.string_of_list_byte (coerceText (bytesOf s)).

Definition coerceComponent (c : ComponentStatus) : ComponentStatus :=
  mkComponent (coerceString (c_Name c)) (c_Ready c) (coerceText (c_Detail c)).
Definition coerceStatus (st : StatusResult) : StatusResult :=
  mkStatus (st_Health st) (coerceString (st_Mode st)) (coerceText (st_PublicURL st)) (coerceText (st_LocalAddr st))
    (coerceString (st_Version st)) (coerceString (st_InstanceID st)) (st_PID st) (st_StartUnixMs st) (st_ClientCount st)
    (coerceComponent <$> st_Components st).
Definition coercePairing (pr : PairingResult) : PairingResult := Control.mkPairing (coerceText (pr_URL pr)).
Definition coerceResponse (r : controlResponse) : controlResponse :=
  mkResponse (coerceString (rs_RequestID r)) (rs_OK r) (coerceText (rs_Error r)) (coerceStatus <$> rs_Status r)
    (coercePairing <$> rs_Pairing r).

(** A text that is UTF-8 arrives as it is. *)
Lemma coerceText_id s : Forall (fun r => r ≠ RuneError) (runes s) -> coerceText s = s.
Proof. apply encode_all. Qed.

Lemma coerce_sanitized msg : coerceText (sanitizeErr msg) = sanitizeErr msg.
Proof.
  unfold coerceText. unfold sanitizeErr at 1. rewrite runes_encodeRunes_nil; [done|].
  apply Forall_take, omap_valid. unfold errRune. intros r r' E Hv. destruct (_ || _); [done|]. by injection E as <-.
Qed.

Section Exchange.
Context (quoted : string -> list byte).
Context (decodeRequest : list byte -> option controlRequest) (encodeRequest : controlRequest -> list byte).
Context (decodeResponse : list byte -> option controlResponse) (encodeResponse : controlResponse -> list byte).

(** What encoding/json documents of the three requests: each is a text without control
    characters, within the bound, that decodes to itself. *)
Definition requestsCoded : Prop := forall c, c ∈ [CmdStatus; CmdRotatePairing; CmdStop] ->
  let line := encodeRequest (mkRequest c "") in
  printed line /\ (length line <= controlReadLimit)%nat /\ decodeRequest line = Some (mkRequest c "").

(** And of a response: a text without control characters, which decodes to the response
    with its texts as UTF-8, while no shorter part of it decodes (an object that is cut
    off is not JSON). *)
Definition responseCoded (r : controlResponse) : Prop :=
  printed (encodeResponse r) /\ decodeResponse (encodeResponse r) = Some (coerceResponse r) /\
  forall n, (n < length (encodeResponse r))%nat -> decodeResponse (take n (encodeResponse r)) = None.

(** The client's view of a server with these handlers. *)
Definition peer (h : Handlers) : list byte -> list byte := handleConn quoted decodeRequest encodeResponse h.

Definition answered (h : Handlers) (c : string) : controlResponse := dispatch quoted h (mkRequest c "").

Definition refusal (r : controlResponse) : list byte :=
  clientError (match rs_Error r with [] => bytesOf "control command failed" | e => e end).

(** The answer fits the bound on a line. *)
Definition fits (h : Handlers) (c : string) : bool := (length (encodeResponse (answered h c)) <=? controlReadLimit)%nat.

Definition cutOff : list byte := clientError (bytesOf "decode control response").

Lemma call_dispatch h c : requestsCoded -> c ∈ [CmdStatus; CmdRotatePairing; CmdStop] -> responseCoded (answered h c) ->
  call encodeRequest decodeResponse (peer h) c =
    let r := coerceResponse (answered h c) in
    if negb (fits h c) then inr cutOff else if rs_OK r then inl r else inr (refusal r).
Proof.
  intros Hq Hc (Hp & Hd & Hcut). unfold call, peer, handleConn, fits.
  destruct (Hq c Hc) as (Hqp & Hql & Hqd). destruct (readBounded_printed _ Hqp) as (t & -> & Ht & E).
  destruct t as [|b t]; [done|]. rewrite E, take_ge, Hqd by lia.
  change (dispatch quoted h (mkRequest c "")) with (answered h c).
  destruct (readBounded_printed _ Hp) as (t' & -> & Ht' & E'). destruct t' as [|b' t']; [done|]. rewrite E'.
  destruct (Nat.leb_spec (length (encodeResponse (answered h c))) controlReadLimit) as [Hle|Hlt]; cbn [negb].
  - by rewrite take_ge, Hd by lia.
  - by rewrite Hcut by lia.
Qed.

(** What a client gets from a missing callback, a failed one, or its value. *)
Definition outcome {A} (r : option (A + list byte)) (coerce : A -> A) (name : string) : A + list byte :=
  match r with
  | None => inr (clientError (bytesOf (name +:+ " unsupported")))
  | Some (inr e) => inr (clientError (match sanitizeErr e with [] => bytesOf "control command failed" | e => e end))
  | Some (inl v) => inl (coerce v)
  end.

(** Unless the answer is cut off. *)
Definition received {A} (h : Handlers) (c : string) (r : A + list byte) : A + list byte :=
  if fits h c then r else inr cutOff.

End Exchange.

(** An overflowing backoff cannot come out small: the exact delay is five
    milliseconds doubled per failure, at most a second. *)
Lemma acceptBackoff_exact (fail : Z) : 1 <= fail ->
  acceptBackoff fail = Z.min (5 * Millisecond * 2 ^ (fail - 1)) oneSecond.
Proof.
  intros Hf. unfold acceptBackoff. rewrite Z.shiftl_mul_pow2 by lia. set (k := fail - 1).
  assert (Hk : 0 <= k) by lia. clearbody k. clear fail Hf. change (5 * Millisecond) with 5000000. unfold oneSecond.
  destruct (Z.le_gt_cases k 40) as [Hs|Hb].
  - assert (Hp : 2 ^ k <= 2 ^ 40) by (apply Z.pow_le_mono_r; lia).
    assert (0 < 2 ^ k) by (apply Z.pow_pos_nonneg; lia). change (2 ^ 40) with 1099511627776 in Hp.
    unfold int64. rewrite Z.mod_small by lia.
    destruct (1000000000 <? _) eqn:E1; simpl; [lia|]. destruct (_ <=? 0) eqn:E2; lia.
  - assert (Hbig : 1000000000 < 5000000 * 2 ^ k).
    { assert (2 ^ 40 <= 2 ^ k) by (apply Z.pow_le_mono_r; lia). change (2 ^ 40) with 1099511627776 in *. lia. }
    rewrite Z.min_r by lia.
    assert (Hd : exists m, int64 (5000000 * 2 ^ k) = 2 ^ 40 * m).
    { replace (2 ^ k) with (2 ^ 40 * 2 ^ (k - 40)) by (rewrite <- Z.pow_add_r by lia; f_equal; lia).
      unfold int64. set (x := 2 ^ (k - 40)). change (2 ^ 64) with (2 ^ 40 * 2 ^ 24). change (2 ^ 63) with (2 ^ 40 * 2 ^ 23).
      replace (5000000 * (2 ^ 40 * x) + 2 ^ 40 * 2 ^ 23) with (2 ^ 40 * (5000000 * x + 2 ^ 23)) by ring.
      rewrite Z.mul_mod_distr_l by lia. exists ((5000000 * x + 2 ^ 23) mod 2 ^ 24 - 2 ^ 23). ring. }
    destruct Hd as [m ->]. change (2 ^ 40) with 1099511627776.
    destruct (1000000000 <? _) eqn:E1; simpl; [done|]. destruct (_ <=? 0) eqn:E2; lia.
Qed.

(** ** Concrete values *)

Example backoffs : acceptBackoff <$> [1; 2; 8; 9; 43; 60; 65; 200] =
  [5000000; 10000000; 640000000; 1000000000; 1000000000; 1000000000; 1000000000; 1000000000].
Proof. by vm_compute. Qed.

Definition sampleStatus : StatusResult :=
  mkStatus HealthReady "quick" (bytesOf "https://a.trycloudflare.com") (bytesOf "127.0.0.1:8390") "1.0" "id" 42 0 1 [].
Definition sampleHandlers : Handlers := mkHandlers (Some (inl sampleStatus)) (Some (inr (bytesOf "no" ++ [x07]))) None.

(** A code whose texts end in their only full stop. *)
Definition sampleEncode (r : controlResponse) : list byte :=
  match rs_Status r with
  | Some _ => [x73; x2e]
  | None => bytesOf "!" ++ rs_Error r ++ [x2e]
  end.
Definition sampleDecode (s : list byte) : option controlResponse :=
  match reverse s, s with
  | b :: _, c :: t =>
      if negb (bz b =? 46) then None
      else if bz c =? 33 then Some (failed "" (take (length t - 1) t))
      else Some (mkResponse "" true [] (Some sampleStatus) None)
  | _, _ => None
  end.

Lemma sampleDecode_cut s t n : s = t ++ [x2e] -> Forall (fun b => bz b ≠ 46) t -> (n < length s)%nat ->
  sampleDecode (take n s) = None.
Proof.
  intros -> Ht Hn. rewrite length_app in Hn. simpl in Hn. rewrite take_app_le by lia. unfold sampleDecode.
  destruct (reverse (take n t)) as [|b l] eqn:E; [done|]. destruct (take n t) as [|c u] eqn:Eu; [done|].
  assert (Hb : b ∈ t).
  { apply (subseteq_take n t). rewrite Eu, <- elem_of_reverse, E. by left. }
  rewrite Forall_forall in Ht. specialize (Ht b Hb). by destruct (Z.eqb_spec (bz b) 46).
Qed.

Definition sampleAccept (s : list byte) : option controlRequest := Some (mkRequest (String.string_of_list_byte s) "").
Definition sampleAsk (r : controlRequest) : list byte := bytesOf (rq_Command r).

Lemma sample_requests : requestsCoded sampleAccept sampleAsk.
Proof.
  intros c Hc. assert (Hf : c = CmdStatus \/ c = CmdRotatePairing \/ c = CmdStop) by set_solver.
  destruct Hf as [-> |[-> | ->]];
    (split_and!; [split; [done|apply (bool_decide_unpack _); by vm_compute]|apply Nat.leb_le; by vm_compute|by vm_compute]).
Qed.

Lemma sampleCoded r t : sampleEncode r = t ++ [x2e] ->
  forallb (fun b => (32 <=? bz b) && negb (bz b =? 46)) t = true ->
  sampleDecode (sampleEncode r) = Some (coerceResponse r) -> responseCoded sampleDecode sampleEncode r.
Proof.
  intros E Ht Hd. rewrite forallb_forall in Ht. split_and!; [|done|].
  - rewrite E. split; [by destruct t|]. apply Forall_app. split; [|by repeat constructor].
    apply Forall_forall. intros b Hb. apply list_elem_of_In, Ht in Hb. bool_hyps. lia.
  - intros n. apply sampleDecode_cut with t; [done|]. apply Forall_forall.
    intros b Hb. apply list_elem_of_In, Ht in Hb. bool_hyps. lia.
Qed.

