(* ===== verification/Supervise.v ===== *)
(** * Supervise: the child supervisor of internal/daemon/supervise.go and the
    tunnel child of internal/daemon/tunnelchild.go

    [Run] is a loop; one round of it is a function of what happens in the round:
    whether a stop is seen at each check, whether the child starts, and how it
    exits. *)

From S2P Require Import Prelude.

Inductive SupervisorState := SupStopped | SupRunning | SupRestarting | SupDegraded.
#[export] Instance SupervisorState_dec : EqDecision SupervisorState.
Proof. solve_decision. Defined.

(** An error of the child; [errDeliberateStop] is [context.Canceled]. *)
Inductive childErr := Canceled | Failure (msg : string).
Definition errDeliberateStop : childErr := Canceled.

(** The factor is part of [grow] below. *)
Record RestartPolicy := mkPolicy { Base : Z; MaxDelay : Z; MaxConsecutive : Z }.

Section Supervisor.
(** [float64(base) * math.Pow(factor, attempt)], as an integer. *)
Context (grow : Z -> Z -> Z).

Definition delay (p : RestartPolicy) (attempt : Z) : Z :=
  let base := if Base p <=? 0 then 1000000000 else Base p in
  let max := if MaxDelay p <=? 0 then 30000000000 else MaxDelay p in
  let d := grow base attempt in
  if max <? d then max else d.

(** [awaitExit]: the child's own result, or a stop request, after which the child
    is stopped and awaited. *)
Inductive exit := Exited (err : option childErr) | Asked.

Definition awaitExit (e : exit) : option childErr :=
  match e with Exited err => err | Asked => Some errDeliberateStop end.

(** What happens in a round; [r_stop] are the answers of [shouldStop] at the top
    of the loop, after the exit and in [giveUpOrWait]. *)
Record round := mkRound {
  r_stop0 : bool; r_start : option childErr; r_exit : exit; r_stop1 : bool; r_stop2 : bool
}.

(** [sv_starts], [sv_waited] and [sv_stops] are what was done to the child: the
    calls of [Start], the restart delays and the calls of [Stop]. *)
Record supervisor := mkSupervisor {
  sv_state : SupervisorState; sv_err : option childErr; consecutive : Z; sv_done : bool;
  sv_starts : nat; sv_waited : list Z; sv_stops : nat
}.

Definition NewChildSupervisor : supervisor := mkSupervisor SupStopped None 0 false O [] O.

Definition set (st : SupervisorState) (err : option childErr) (s : supervisor) : supervisor :=
  mkSupervisor st (match err with Some e => Some e | None => sv_err s end) (consecutive s) (sv_done s)
    (sv_starts s) (sv_waited s) (sv_stops s).
Definition return_ (s : supervisor) : supervisor :=
  mkSupervisor (sv_state s) (sv_err s) (consecutive s) true (sv_starts s) (sv_waited s) (sv_stops s).
Definition started (s : supervisor) : supervisor :=
  mkSupervisor (sv_state s) (sv_err s) (consecutive s) (sv_done s) (S (sv_starts s)) (sv_waited s) (sv_stops s).
Definition stopChild (s : supervisor) : supervisor :=
  mkSupervisor (sv_state s) (sv_err s) (consecutive s) (sv_done s) (sv_starts s) (sv_waited s) (S (sv_stops s)).

Definition giveUpOrWait (p : RestartPolicy) (stop : bool) (err : option childErr) (s : supervisor) : supervisor :=
  if stop then return_ (set SupStopped None s)
  else
    let attempt := consecutive s in
    let s := mkSupervisor (sv_state s) (sv_err s) (consecutive s + 1) (sv_done s) (sv_starts s) (sv_waited s) (sv_stops s) in
    if (0 <? MaxConsecutive p) && (MaxConsecutive p <=? consecutive s) then return_ (set SupDegraded err s)
    else mkSupervisor (sv_state s) (sv_err s) (consecutive s) (sv_done s) (sv_starts s)
           (sv_waited s ++ [delay p attempt]) (sv_stops s).

(** One round of the loop of [Run]. *)
Definition loopRound (p : RestartPolicy) (r : round) (s : supervisor) : supervisor :=
  if r_stop0 r then return_ (set SupStopped None s)
  else
    let s := started s in
    match r_start r with
    | Some err => giveUpOrWait p (r_stop2 r) (Some err) (set SupRestarting (Some err) s)
    | None =>
        let s := set SupRunning None s in
        let s := match r_exit r with Asked => stopChild s | Exited _ => s end in
        match awaitExit (r_exit r) with
        | Some Canceled => return_ (set SupStopped None s)
        | waitErr =>
            if r_stop1 r then return_ (set SupStopped None s)
            else giveUpOrWait p (r_stop2 r) waitErr (set SupRestarting waitErr s)
        end
    end.

Definition Run (p : RestartPolicy) (rs : list round) (s : supervisor) : supervisor :=
  foldl (fun s r => if sv_done s then s else loopRound p r s) s rs.

(** ** Facts *)

(** A supervisor that has not returned counted one failure per start and waited
    after each. *)
Definition supInv (p : RestartPolicy) (s : supervisor) : Prop :=
  0 <= consecutive s /\ Z.of_nat (length (sv_waited s)) <= consecutive s /\
  (0 < MaxConsecutive p -> Z.of_nat (length (sv_waited s)) < MaxConsecutive p) /\
  Forall (fun d => d <= if MaxDelay p <=? 0 then 30000000000 else MaxDelay p) (sv_waited s) /\
  if sv_done s
  then (sv_state s = SupStopped \/ sv_state s = SupDegraded /\ 0 < MaxConsecutive p /\ consecutive s = MaxConsecutive p) /\
       Z.of_nat (sv_starts s) <= consecutive s + 1 /\
       (0 < MaxConsecutive p -> consecutive s <= MaxConsecutive p /\ Z.of_nat (sv_starts s) <= MaxConsecutive p)
  else Z.of_nat (sv_starts s) = consecutive s /\ Z.of_nat (length (sv_waited s)) = consecutive s /\
       (0 < MaxConsecutive p -> consecutive s < MaxConsecutive p).

Lemma delay_max p a : delay p a <= if MaxDelay p <=? 0 then 30000000000 else MaxDelay p.
Proof. unfold delay. destruct (_ <? _) eqn:E; lia. Qed.

Lemma supInv_new p : supInv p NewChildSupervisor.
Proof. split_and!; simpl; try lia. constructor. Qed.

Lemma giveUp_inv p stop err s : sv_done s = false ->
  0 <= consecutive s -> Z.of_nat (length (sv_waited s)) = consecutive s ->
  Forall (fun d => d <= if MaxDelay p <=? 0 then 30000000000 else MaxDelay p) (sv_waited s) ->
  Z.of_nat (sv_starts s) = consecutive s + 1 -> (0 < MaxConsecutive p -> consecutive s < MaxConsecutive p) ->
  supInv p (giveUpOrWait p stop err s) /\
  (sv_done (giveUpOrWait p stop err s) = false -> consecutive (giveUpOrWait p stop err s) = consecutive s + 1).
Proof.
  intros Hd H0 Hw Hf Hs Hm. unfold giveUpOrWait. destruct stop.
  { split; [|done]. unfold supInv. cbn. split_and!; try done; try lia; try (by left). }
  cbn [consecutive]. destruct (0 <? MaxConsecutive p) eqn:E1; cbn [andb].
  - destruct (MaxConsecutive p <=? consecutive s + 1) eqn:E2.
    + split; [|done]. unfold supInv. cbn. split_and!; try done; try lia. right. split_and!; [done|lia|lia].
    + split; [|done]. unfold supInv. cbn. rewrite Hd, length_app. cbn. split_and!; try lia.
      apply Forall_app. split; [done|]. constructor; [apply delay_max|done].
  - split; [|done]. unfold supInv. cbn. rewrite Hd, length_app. cbn. split_and!; try lia.
    apply Forall_app. split; [done|]. constructor; [apply delay_max|done].
Qed.

Lemma round_inv p r s : supInv p s -> sv_done s = false ->
  supInv p (loopRound p r s) /\
  (sv_done (loopRound p r s) = false -> consecutive (loopRound p r s) = consecutive s + 1).
Proof.
  intros (H0 & _ & _ & Hf & Hi) Hd. rewrite Hd in Hi. destruct Hi as (Hs & Hw & Hm).
  assert (Hstop : forall s', consecutive s' = consecutive s -> sv_waited s' = sv_waited s -> (sv_starts s' <= S (sv_starts s))%nat ->
    supInv p (return_ (set SupStopped None s'))).
  { intros s' E1 E2 E3. unfold supInv. cbn. rewrite E1, E2. split_and!; try done; try lia. by left. }
  assert (Hgive : forall s' stop err, consecutive s' = consecutive s -> sv_waited s' = sv_waited s -> sv_done s' = false ->
    sv_starts s' = S (sv_starts s) -> supInv p (giveUpOrWait p stop err s') /\
    (sv_done (giveUpOrWait p stop err s') = false -> consecutive (giveUpOrWait p stop err s') = consecutive s + 1)).
  { intros s' stop err E1 E2 E3 E4. rewrite <- E1. apply giveUp_inv; rewrite ?E1, ?E2, ?E4; try done; lia. }
  unfold loopRound. destruct (r_stop0 r); [split; [apply Hstop; [done|done|simpl; lia]|done]|].
  destruct (r_start r) as [e|]; [apply Hgive; done|].
  destruct (r_exit r) as [[[|m]|]|]; cbn [awaitExit errDeliberateStop]; destruct (r_stop1 r);
    try (split; [apply Hstop; [done|done|simpl; lia]|done]); apply Hgive; done.
Qed.

Lemma Run_inv p rs : forall s, supInv p s -> supInv p (Run p rs s).
Proof.
  induction rs as [|r rs IH]; intros s Hs; [done|]. simpl. apply IH.
  destruct (sv_done s) eqn:E; [done|]. by apply round_inv.
Qed.

Lemma Run_done p rs s : sv_done s = true -> Run p rs s = s.
Proof. intros H. induction rs as [|r rs IH]; [done|]. simpl. by rewrite H. Qed.

Lemma Run_counts p rs : forall s, supInv p s ->
  sv_done (Run p rs s) = true \/ consecutive (Run p rs s) = consecutive s + Z.of_nat (length rs).
Proof.
  induction rs as [|r rs IH]; intros s Hs; [right; simpl; lia|]. simpl.
  destruct (sv_done s) eqn:E.
  - fold (Run p rs s). rewrite Run_done by done. by left.
  - destruct (round_inv p r s Hs E) as [Hi Hc]. fold (Run p rs (loopRound p r s)).
    destruct (sv_done (loopRound p r s)) eqn:Ed; [left; by rewrite Run_done|].
    destruct (IH _ Hi) as [?|H]; [by left|right]. rewrite H, Hc by done. lia.
Qed.

(** C38: A supervised child is restarted a bounded number of times. With a cap on
    failures, [Run] returns after at most that many rounds, stopped or degraded; it
    starts the child at most that often, waits strictly fewer times than the cap and never
    longer than the maximal delay; degraded means that all the allowed failures
    happened. The count is of all the failures since the start: a run that was
    healthy in between does not reset it. *)
Theorem child_restarts (p : RestartPolicy) (rs : list round) :
  0 < MaxConsecutive p ->
  let s := Run p rs NewChildSupervisor in
  (MaxConsecutive p <= Z.of_nat (length rs) -> sv_done s = true) /\
  Z.of_nat (sv_starts s) <= MaxConsecutive p /\ Z.of_nat (length (sv_waited s)) < MaxConsecutive p /\
  Forall (fun d => d <= if MaxDelay p <=? 0 then 30000000000 else MaxDelay p) (sv_waited s) /\
  (sv_done s = true -> sv_state s = SupStopped \/ sv_state s = SupDegraded /\ consecutive s = MaxConsecutive p) /\
  (sv_done s = false -> consecutive s = Z.of_nat (length rs)).
Proof.
  intros Hm s. pose proof (Run_inv p rs _ (supInv_new p)) as Hi. pose proof (Run_counts p rs _ (supInv_new p)) as Hc.
  fold s in Hi, Hc. destruct Hi as (H0 & Hw & Hlt & Hf & Hi). specialize (Hlt Hm). simpl in Hc.
  destruct (sv_done s) eqn:Ed.
  - destruct Hi as (Hst & Hs & Hcap). specialize (Hcap Hm). split_and!; try done; try lia. intros _. naive_solver.
  - destruct Hi as (Hs & Hwait & Hcap). specialize (Hcap Hm). destruct Hc as [?|Hc]; [done|].
    split_and!; try done; try lia.
Qed.
End Supervisor.

(** A child that ran well for any time between two failures is still given up
    after the second when two are allowed. *)
Example failures_not_consecutive :
  let fails := mkRound false None (Exited (Some (Failure "x"))) false false in
  sv_state (Run (fun b a => b * 2 ^ a) (mkPolicy 0 0 2) [fails; fails] NewChildSupervisor) = SupDegraded.
Proof. by vm_compute. Qed.

(** ** The tunnel child *)

(** What [Ready] reads of the tunnel supervisor: whether it became ready and has
    ended, its address and its last error. *)
Definition tunnelReady (ready ended : bool) (url : string) (err : option string) : bool * string :=
  if ready then (true, if bool_decide (url = "") then "connected" else "connected: " +:+ url)
  else if ended then (false, match err with Some e => "unavailable: " +:+ e | None => "stopped" end)
  else (false, "starting").

(** [AddTunnel]: an outer supervisor that never restarts. *)
Definition tunnelPolicy : RestartPolicy := mkPolicy 0 0 1.

Lemma child_restarts_witness (grow := fun b a => b * 2 ^ a) :
  let s := Run grow tunnelPolicy [mkRound false None (Exited None) false false] NewChildSupervisor in
  sv_done s = true /\ sv_state s = SupDegraded /\ Z.of_nat (sv_starts s) <= 1.
Proof.
  destruct (child_restarts grow tunnelPolicy [mkRound false None (Exited None) false false]) as (H1 & H2 & _); [done|].
  split_and!; [by apply H1|done|exact H2].
Defined.
