(* ===== verification/Daemon.v ===== *)
(** * Daemon: the daemon of internal/daemon (daemon.go, runtime.go, reconcile.go,
    socket.go, statelock.go)

    First the daemon object: its health, its probes and its shutdown; then the
    choice of the socket's path; then the state directory that daemons, and the
    commands that start and stop them, share: a lock, a runtime file and a socket,
    as a transition system whose events are the processes' steps. *)

From stdpp Require Import gmap pretty.
From S2P Require Import Prelude GoStr GoText GoPath Control Supervise.

(** ** Runtime state *)

Record Runtime := mkRuntime {
  rt_PID : Z; rt_InstanceID : string; rt_Mode : string; rt_LocalAddr : list byte; rt_PublicURL : list byte;
  rt_Version : string; rt_StartUnixMs : Z; rt_Health : Health
}.

Definition withHealth (h : Health) (r : Runtime) : Runtime :=
  mkRuntime (rt_PID r) (rt_InstanceID r) (rt_Mode r) (rt_LocalAddr r) (rt_PublicURL r) (rt_Version r)
    (rt_StartUnixMs r) h.

(** The runtime file: its bytes do not decode, or they decode to a record. Writing
    renames a complete temporary file over it, so no other content is seen. *)
Inductive file := Undecodable | Decodes (r : Runtime).

Inductive loadErr := NotExist | Invalid.

Definition LoadRuntime (f : option file) : Runtime + loadErr :=
  match f with
  | None => inr NotExist
  | Some Undecodable => inr Invalid
  | Some (Decodes r) => if (rt_PID r <=? 0) || bool_decide (rt_InstanceID r = "") then inr Invalid else inl r
  end.

(** [UpdateRuntimeHealth]: the file afterwards. *)
Definition UpdateRuntimeHealth (f : option file) (h : Health) : option file :=
  match LoadRuntime f with inl r => Some (Decodes (withHealth h r)) | inr _ => f end.

(** ** The daemon object *)

(** What [Shutdown] does, in order. *)
Inductive effect := SetStopping | RecordStopping | OnStop | StopChildren | CloseControl | ReleaseLock.
#[export] Instance effect_dec : EqDecision effect.
Proof. solve_decision. Defined.

Record daemon := mkDaemon {
  d_runtime : Runtime; d_health : Health; d_probes : gmap string (bool * list byte);
  d_pairing : option (PairingResult + list byte); d_clients : option Z;
  d_onStop : bool; d_control : bool; d_locked : bool; d_stopped : bool
}.

Definition healthOf (h : Health) (d : daemon) : daemon :=
  mkDaemon (d_runtime d) h (d_probes d) (d_pairing d) (d_clients d) (d_onStop d) (d_control d) (d_locked d) (d_stopped d).

(** [New]; the zero health is [None]. *)
Definition New (rt : Runtime) (h : option Health) (probes : gmap string (bool * list byte))
    (pairing : option (PairingResult + list byte)) (clients : option Z) (onStop locked : bool) : daemon :=
  mkDaemon rt (default HealthStarting h) probes pairing clients onStop false locked false.

Definition AddProbe (name : string) (answer : bool * list byte) (d : daemon) : daemon :=
  mkDaemon (d_runtime d) (d_health d) (<[name := answer]> (d_probes d)) (d_pairing d) (d_clients d)
    (d_onStop d) (d_control d) (d_locked d) (d_stopped d).

(** Names in byte order. *)
Definition probeKey (p : string * (bool * list byte)) : string * string := (p.1, "").

Definition probeComponents (d : daemon) : list ComponentStatus :=
  (fun p => mkComponent p.1 p.2.1 p.2.2) <$> sortBy probeKey (map_to_list (d_probes d)).

Definition reconcileHealth (allReady : bool) (d : daemon) : Health * daemon :=
  match d_health d with
  | HealthStopping => (HealthStopping, d)
  | _ => let h := if allReady then HealthReady else HealthDegraded in (h, healthOf h d)
  end.

Definition handleStatus (d : daemon) : StatusResult * daemon :=
  let components := probeComponents d in
  let allReady := match components with [] => false | _ => forallb c_Ready components end in
  let (health, d') := reconcileHealth allReady d in
  let rt := d_runtime d in
  (mkStatus health (rt_Mode rt) (rt_PublicURL rt) (rt_LocalAddr rt) (rt_Version rt) (rt_InstanceID rt) (rt_PID rt)
     (rt_StartUnixMs rt) (default 0 (d_clients d)) components, d').

Definition handleRotatePairing (d : daemon) : PairingResult + list byte :=
  match d_pairing d with None => inr (bytesOf "pairing rotation not configured") | Some r => r end.

(** [Shutdown]: what it does now; nothing the second time. *)
Definition Shutdown (d : daemon) : list effect * daemon :=
  if d_stopped d then ([], d)
  else
    ([SetStopping; RecordStopping] ++ (if d_onStop d then [OnStop] else []) ++ [StopChildren] ++
     (if d_control d then [CloseControl] else []) ++ (if d_locked d then [ReleaseLock] else []),
     mkDaemon (d_runtime d) HealthStopping (d_probes d) (d_pairing d) (d_clients d) (d_onStop d) (d_control d) false true).

(** The callbacks the control socket gets from the daemon; [Stop] answers at once
    and shuts down in the background. *)
Definition handlers (d : daemon) : Handlers :=
  mkHandlers (Some (inl (handleStatus d).1)) (Some (handleRotatePairing d)) (Some (inl tt)).

(** ** The socket's path *)

Definition maxSocketPathLen : Z := 100.

Inductive pathErr := NoDir (e : string) | TooLong.

(** What is found at a directory's path, by [Lstat] and after each later call. *)
Record stat := mkStat { s_symlink : bool; s_dir : bool; s_uid : Z; s_perm : Z }.

(** What [Lstat] says of the path. *)
Inductive entry := Absent | Unreadable | Found (s : stat).

(** [mkdir] and [chmod] are what [Lstat] finds after each call, or that one of the
    two failed. *)
Definition ensureSecureDir (lstat : entry) (mkdir chmod : option stat) (uid : Z) : option string :=
  match (match lstat with Found s => Some s | Absent => mkdir | Unreadable => None end) with
  | None => Some "lstat or mkdir"
  | Some fi =>
      if s_symlink fi then Some "is a symlink; refusing"
      else if negb (s_dir fi) then Some "is not a directory"
      else if negb (s_uid fi =? uid) then Some "owned by another uid"
      else if negb (Z.land (s_perm fi) 63 =? 0) then
        match chmod with
        | None => Some "chmod runtime dir"
        | Some fi' => if negb (Z.land (s_perm fi') 63 =? 0) then Some "remains group/other accessible" else None
        end
      else None
  end.

(** [ensureUserRuntimeDir]: the first candidate that is secure and short. *)
Fixpoint userRuntimeDir (secure : list byte -> option string) (candidates : list (list byte)) (lastErr : option pathErr) :
    list byte + pathErr :=
  match candidates with
  | [] => inr (default (NoDir "no usable runtime directory") lastErr)
  | dir :: rest =>
      match secure dir with
      | Some e => userRuntimeDir secure rest (Some (NoDir e))
      | None =>
          if maxSocketPathLen - 21 <? Z.of_nat (length dir) then userRuntimeDir secure rest (Some TooLong)
          else inl dir
      end
  end.

Definition hexByte (v : Z) : byte := zb (if v <? 10 then 48 + v else 87 + v).
Definition hexEncode (s : list byte) : list byte := s ≫= fun b => [hexByte (bz b / 16); hexByte (bz b mod 16)].

(** [runtimeCandidates]: below XDG_RUNTIME_DIR when it is absolute, then in /tmp. *)
Definition runtimeCandidates (xdg : list byte) (uid : Z) : list (list byte) :=
  (if negb (isEmpty xdg) && IsAbs xdg then [Join [xdg; bytesOf "herdr-phone"]] else []) ++
  [Join [bytesOf "/tmp"; bytesOf "herdr-phone-" ++ bytesOf (pretty uid)]].

Definition ControlPath (stateDir : list byte) : list byte := Join [stateDir; controlFileName].
Definition RuntimePath (stateDir : list byte) : list byte := Join [stateDir; bytesOf "runtime.json"].

(** SHA-256, the working directory's answer to [filepath.Abs] and what is known of
    each candidate directory are parameters. *)
Section SocketPath.
Context (sha256 : list byte -> list byte) (abs : list byte -> option (list byte)).
Context (secure : list byte -> option string).

Definition socketName (stateDir : list byte) : list byte :=
  let key := match abs stateDir with Some p => Clean p | None => stateDir end in
  bytesOf "hp-" ++ hexEncode (take 6 (sha256 key)) ++ bytesOf ".sock".

Definition SocketPath (xdg : list byte) (uid : Z) (stateDir : list byte) : list byte + pathErr :=
  let inState := ControlPath stateDir in
  if Z.of_nat (length inState) <=? maxSocketPathLen then inl inState
  else
    match userRuntimeDir secure (runtimeCandidates xdg uid) None with
    | inr e => inr e
    | inl base =>
        let short := Join [base; socketName stateDir] in
        if maxSocketPathLen <? Z.of_nat (length short) then inr TooLong else inl short
    end.
End SocketPath.

(** ** Reconciliation *)

Inductive Liveness := LivenessAbsent | LivenessRunning | LivenessStale.
#[export] Instance Liveness_dec : EqDecision Liveness.
Proof. solve_decision. Defined.

Record ReconcileResult := mkReconcile {
  rc_Liveness : Liveness; rc_Runtime : option Runtime; rc_Status : option StatusResult; rc_Reason : string
}.

Definition stale (r : option Runtime) (why : string) : ReconcileResult := mkReconcile LivenessStale r None why.

(** [alive] is [ProcessAlive]; [path] says whether the socket's path resolves,
    [present] whether it exists, and [ping] what the status request answers. *)
Definition Reconcile (f : option file) (alive : Z -> bool) (path present : bool) (ping : option StatusResult) : ReconcileResult :=
  match LoadRuntime f with
  | inr NotExist => mkReconcile LivenessAbsent None None "no runtime state"
  | inr Invalid => stale None "unreadable runtime state"
  | inl rt =>
      if negb ((0 <? rt_PID rt) && alive (rt_PID rt)) then stale (Some rt) "recorded pid is not running"
      else if negb path then stale (Some rt) "control socket path unresolved"
      else if negb present then stale (Some rt) "control socket missing"
      else
        match ping with
        | None => stale (Some rt) "control socket unreachable"
        | Some st =>
            if negb (bool_decide (st_InstanceID st = rt_InstanceID rt)) then stale (Some rt) "instance id mismatch"
            else mkReconcile LivenessRunning (Some rt) (Some st) "healthy daemon already running"
        end
  end.

(** ** Processes on one state directory

    A process is an identity of the run, never used twice; its pid may be. Its
    phases are those of [buildStack], [Serve] and [Shutdown]; a process lives on
    after it released the lock, while [stack.shutdown] drains its HTTP server and
    closes the audit log. The lock is an flock: the kernel drops it with its holder.
    The socket's path names a socket bound by a process, alive or not. *)

Inductive phase := Started | Locked | Recorded | Unlinked | Serving | Stopping | Closed | Released.
#[export] Instance phase_dec : EqDecision phase.
Proof. solve_decision. Defined.

(** What a clean-up removes, in order: the runtime file, the socket in the state
    directory, and what is at [SocketPath], the same socket or the relocated one. *)
Inductive removal := RemoveRuntime | RemoveControl | RemoveSocket.
#[export] Instance removal_dec : EqDecision removal.
Proof. solve_decision. Defined.

(** [w_lock] is the holder, [w_sock] the process that bound the socket, [w_pending]
    how many commands have a removal as their next step. Ghost state: [w_wiped], a
    removal ran since the runtime file was last written. *)
Record world := mkWorld {
  w_next : nat; w_procs : gmap nat phase; w_lock : option nat; w_file : option file; w_sock : option nat;
  w_pending : removal -> nat; w_wiped : bool
}.

Definition setProc (p : nat) (ph : phase) (w : world) : world :=
  mkWorld (w_next w) (<[p := ph]> (w_procs w)) (w_lock w) (w_file w) (w_sock w) (w_pending w) (w_wiped w).
Definition endProc (p : nat) (w : world) : world :=
  mkWorld (w_next w) (delete p (w_procs w)) (w_lock w) (w_file w) (w_sock w) (w_pending w) (w_wiped w).
Definition setLock (l : option nat) (w : world) : world :=
  mkWorld (w_next w) (w_procs w) l (w_file w) (w_sock w) (w_pending w) (w_wiped w).
Definition setFile (f : option file) (wiped : bool) (w : world) : world :=
  mkWorld (w_next w) (w_procs w) (w_lock w) f (w_sock w) (w_pending w) wiped.
Definition setSock (s : option nat) (w : world) : world :=
  mkWorld (w_next w) (w_procs w) (w_lock w) (w_file w) s (w_pending w) (w_wiped w).
Definition setPending (r : removal) (n : nat) (w : world) : world :=
  mkWorld (w_next w) (w_procs w) (w_lock w) (w_file w) (w_sock w)
    (fun r' => if decide (r' = r) then n else w_pending w r') (w_wiped w).

(** What a process does, in the order of the phases; [Lose] is a daemon whose
    [AcquireStateLock] fails, [Abort] one that fails before it serves, [Crash] the
    end of a process at any point, [Exit] its end after the lock's release. [Judge] is
    a command's [Reconcile], [CleanUp] the next removal of a command that judged the
    directory stale. *)
Inductive event :=
  Spawn | Acquire (p : nat) | Lose (p : nat) | Record_ (p : nat) | Unlink (p : nat) | Bind (p : nat)
| BeginStop (p : nat) | CloseSocket (p : nat) | Release (p : nat) | Abort_ (p : nat) | Crash (p : nat)
| Exit (p : nat) | Judge (answers : bool) | CleanUp (r : removal).

Section World.
(** The runtime record of a process; whether an unrelated process has a pid; whether
    the socket's path is the one in the state directory. *)
Context (rtOf : nat -> Runtime) (foreign : Z -> bool) (inState : bool).

Definition ProcessAlive (w : world) (pid : Z) : bool :=
  foreign pid || existsb (fun p => bool_decide (rt_PID (rtOf p) = pid)) (map_to_list (w_procs w)).*1.

(** A daemon answers while it serves and until it closes its socket. *)
Definition statusOf (p : nat) : StatusResult :=
  mkStatus HealthReady (rt_Mode (rtOf p)) (rt_PublicURL (rtOf p)) (rt_LocalAddr (rtOf p)) (rt_Version (rtOf p))
    (rt_InstanceID (rtOf p)) (rt_PID (rtOf p)) (rt_StartUnixMs (rtOf p)) 0 [].

Definition ping (w : world) (answers : bool) : option StatusResult :=
  p ← w_sock w; ph ← w_procs w !! p;
  if answers && bool_decide (ph = Serving \/ ph = Stopping) then Some (statusOf p) else None.

Definition reconcile (w : world) (answers : bool) : ReconcileResult :=
  Reconcile (w_file w) (ProcessAlive w) true (bool_decide (is_Some (w_sock w))) (ping w answers).

Definition at_ (p : nat) (ph : phase) (w : world) : bool := bool_decide (w_procs w !! p = Some ph).

Definition guardW (b : bool) (w : world) : option world := if b then Some w else None.

Definition spawn (w : world) : world :=
  mkWorld (S (w_next w)) (<[w_next w := Started]> (w_procs w)) (w_lock w) (w_file w) (w_sock w) (w_pending w) (w_wiped w).

(** [AcquireStateLock] without blocking: the lock, or [ErrStateLocked], which ends
    the process. *)
Definition AcquireStateLock (p : nat) (w : world) : option world :=
  guardW (at_ p Started w && bool_decide (w_lock w = None)) (setLock (Some p) (setProc p Locked w)).
Definition stateLocked (p : nat) (w : world) : option world :=
  guardW (at_ p Started w && bool_decide (is_Some (w_lock w))) (endProc p w).

(** [Serve]: the runtime file, then [Listen], which removes what is at the socket's
    path and binds it. *)
Definition WriteRuntime (p : nat) (w : world) : option world :=
  guardW (at_ p Locked w) (setFile (Some (Decodes (withHealth HealthStarting (rtOf p)))) false (setProc p Recorded w)).
Definition removeSocket (p : nat) (w : world) : option world :=
  guardW (at_ p Recorded w) (setSock None (setProc p Unlinked w)).
Definition bindSocket (p : nat) (w : world) : option world :=
  guardW (at_ p Unlinked w && bool_decide (w_sock w = None)) (setSock (Some p) (setProc p Serving w)).

(** [Shutdown]: the health in the runtime file, the control socket's [Close], which
    removes the path, and the lock's [Release]. *)
Definition beginShutdown (p : nat) (w : world) : option world :=
  guardW (at_ p Serving w) (setFile (UpdateRuntimeHealth (w_file w) HealthStopping) (w_wiped w) (setProc p Stopping w)).
Definition closeControl (p : nat) (w : world) : option world :=
  guardW (at_ p Stopping w) (setSock None (setProc p Closed w)).
Definition releaseLock (p : nat) (w : world) : option world :=
  guardW (at_ p Closed w) (setLock None (setProc p Released w)).

(** A daemon that fails before it serves, and releases the lock last; a process that
    ends at any point; one that is done. *)
Definition abort (p : nat) (w : world) : option world :=
  guardW (at_ p Locked w || at_ p Recorded w || at_ p Unlinked w) (setLock None (setProc p Released w)).
Definition exit (p : nat) (w : world) : option world := guardW (at_ p Released w) (endProc p w).
Definition crash (p : nat) (w : world) : option world :=
  guardW (bool_decide (is_Some (w_procs w !! p)))
    (endProc p (setLock (if bool_decide (w_lock w = Some p) then None else w_lock w) w)).

(** One more command has [r] as its next step. *)
Definition nextRemoval (r : removal) (w : world) : world := setPending r (S (w_pending w r)) w.

(** A command that judged the directory stale may clean up at any later time, and
    others may run between its removals. *)
Definition judge (answers : bool) (w : world) : option world :=
  guardW (bool_decide (rc_Liveness (reconcile w answers) = LivenessStale))
    (nextRemoval RemoveRuntime w).

Definition CleanupStale (r : removal) (w : world) : option world :=
  match w_pending w r with
  | O => None
  | S n =>
      let w1 := setPending r n w in
      Some (match r with
      | RemoveRuntime => nextRemoval RemoveControl (setFile None true w1)
      | RemoveControl => nextRemoval RemoveSocket (setFile (w_file w1) true (if inState then setSock None w1 else w1))
      | RemoveSocket => setFile (w_file w1) true (setSock None w1)
      end)
  end.

Definition step (e : event) : world -> option world :=
  match e with
  | Spawn => fun w => Some (spawn w)
  | Acquire p => AcquireStateLock p
  | Lose p => stateLocked p
  | Record_ p => WriteRuntime p
  | Unlink p => removeSocket p
  | Bind p => bindSocket p
  | BeginStop p => beginShutdown p
  | CloseSocket p => closeControl p
  | Release p => releaseLock p
  | Abort_ p => abort p
  | Crash p => crash p
  | Exit p => exit p
  | Judge answers => judge answers
  | CleanUp r => CleanupStale r
  end.

Definition run (es : list event) (w : world) : option world := foldl (fun o e => o ≫= step e) (Some w) es.

(** A directory with whatever earlier daemons left, a file, a socket or neither, and
    no process. *)
Definition initial (f : option file) (socket : bool) : world :=
  mkWorld 1 ∅ None f (if socket then Some O else None) (fun _ => O) false.

Inductive reachable : world -> Prop :=
| reach_init f socket : reachable (initial f socket)
| reach_step e w w' : reachable w -> step e w = Some w' -> reachable w'.
End World.

(** ** Facts: the state directory *)

Section WorldFacts.
Context (rtOf : nat -> Runtime) (foreign : Z -> bool) (inState : bool).
(** Every process has a pid and an instance id. *)
Context (rtOf_valid : forall p, 0 < rt_PID (rtOf p) /\ rt_InstanceID (rtOf p) ≠ "").

(** The runtime file is the holder's, or a clean-up took it. *)
Definition fileOf (p : nat) (w : world) : Prop :=
  w_wiped w = true /\ w_file w = None \/ exists h, w_file w = Some (Decodes (withHealth h (rtOf p))).

(** The process has taken the lock and not given it back. *)
Definition active (ph : phase) : Prop := ph ≠ Started /\ ph ≠ Released.

(** What the holder [p] of the lock in phase [ph] can rely on. *)
Definition owns (p : nat) (ph : phase) (w : world) : Prop :=
  match ph with
  | Started | Locked | Released => True
  | Recorded => fileOf p w
  | Unlinked | Closed => fileOf p w /\ w_sock w = None
  | Serving | Stopping => fileOf p w /\ (w_sock w = Some p \/ w_wiped w = true /\ w_sock w = None)
  end.

Record Inv (w : world) : Prop := mkInv {
  inv_fresh : forall p, is_Some (w_procs w !! p) -> (p < w_next w)%nat;
  inv_lock : forall p ph, w_procs w !! p = Some ph -> active ph <-> w_lock w = Some p;
  inv_holder : forall p, w_lock w = Some p -> is_Some (w_procs w !! p);
  inv_sock : forall q, w_sock w = Some q ->
    (q < w_next w)%nat /\ forall ph, w_procs w !! q = Some ph -> ph = Serving \/ ph = Stopping;
  inv_owns : forall p ph, w_procs w !! p = Some ph -> owns p ph w
}.

#[local] Instance active_dec ph : Decision (active ph).
Proof. unfold active. apply _. Defined.

Lemma idle_owns p ph w : ~ active ph -> owns p ph w.
Proof. unfold active. destruct ph; simpl; intros H; try done; destruct H; done. Qed.

Lemma Load_own h p : LoadRuntime (Some (Decodes (withHealth h (rtOf p)))) = inl (withHealth h (rtOf p)).
Proof.
  destruct (rtOf_valid p) as [Hp Hi]. unfold LoadRuntime, withHealth. cbn.
  rewrite bool_decide_false by done. by replace (rt_PID (rtOf p) <=? 0) with false by lia.
Qed.

Lemma Inv_initial f socket : Inv (initial f socket).
Proof.
  split; simpl; try (intros *; rewrite lookup_empty; by try intros [??]); try done.
  intros q. destruct socket; intros [= <-]. split; [lia|]. intros ph. by rewrite lookup_empty.
Qed.

(** The holder moves on, and may change the files. *)
Lemma Inv_advance w p ph ph' f wi s : Inv w -> w_procs w !! p = Some ph -> active ph -> active ph' ->
  owns p ph' (setFile f wi (setSock s (setProc p ph' w))) ->
  (forall q, s = Some q -> (q < w_next w)%nat /\ (q = p /\ (ph' = Serving \/ ph' = Stopping) \/ w_procs w !! q = None)) ->
  Inv (setFile f wi (setSock s (setProc p ph' w))).
Proof.
  intros [I1 I2 I3 I4 I5] Hp Hn Hn' Ho Hs. pose proof (proj1 (I2 p ph Hp) Hn) as Hl. split; cbn.
  - intros q [x Hq]. destruct (decide (q = p)) as [->|N]; [eauto|]. rewrite lookup_insert_ne in Hq by done. eauto.
  - intros q x Hq. destruct (decide (q = p)) as [->|N].
    + rewrite lookup_insert_eq in Hq. injection Hq as <-. split; [by intros _|by intros _].
    + rewrite lookup_insert_ne in Hq by done. by apply I2.
  - intros q Hq. assert (q = p) as -> by congruence. rewrite lookup_insert_eq. by eexists.
  - intros q Hq. destruct (Hs q Hq) as [Hlt Hc]. split; [done|]. intros x Hx. destruct (decide (q = p)) as [->|N].
    + rewrite lookup_insert_eq in Hx. injection Hx as <-. destruct Hc as [[_ ?]|?]; [done|congruence].
    + rewrite lookup_insert_ne in Hx by done. destruct Hc as [[? _]|?]; congruence.
  - intros q x Hq. destruct (decide (q = p)) as [->|N].
    + rewrite lookup_insert_eq in Hq. injection Hq as <-. done.
    + rewrite lookup_insert_ne in Hq by done. destruct (decide (active x)) as [Hx|Hx].
      * apply (I2 q x Hq) in Hx. congruence.
      * by apply idle_owns.
Qed.

(** A process ends, and its lock with it. *)
Lemma Inv_end w p l : Inv w -> l = (if bool_decide (w_lock w = Some p) then None else w_lock w) ->
  Inv (endProc p (setLock l w)).
Proof.
  intros [I1 I2 I3 I4 I5] ->. split; cbn.
  - intros q [x Hq]. apply lookup_delete_Some in Hq as [_ Hq]. eauto.
  - intros q x Hq. apply lookup_delete_Some in Hq as [Hne Hq]. rewrite (I2 q x Hq).
    case_bool_decide as E; [|done]. split; congruence.
  - intros q Hq. case_bool_decide as E; [done|]. rewrite lookup_delete_ne by congruence. auto.
  - intros q Hq. destruct (I4 q Hq) as [? Hx]. split; [done|]. intros x Hqx. apply lookup_delete_Some in Hqx as [_ Hqx]. auto.
  - intros q x Hq. apply lookup_delete_Some in Hq as [_ Hq]. exact (I5 q x Hq).
Qed.

(** A process without the lock ends. *)
Lemma Inv_exit w p ph : Inv w -> w_procs w !! p = Some ph -> ~ active ph -> Inv (endProc p w).
Proof.
  intros I Hp Hn. replace (endProc p w) with (endProc p (setLock (w_lock w) w)) by by destruct w.
  apply Inv_end; [done|]. rewrite bool_decide_false; [done|]. intros E. by apply (inv_lock w I p ph Hp) in E.
Qed.

(** The holder, which has no socket, gives the lock back. *)
Lemma Inv_release w p ph : Inv w -> w_procs w !! p = Some ph -> active ph -> ph ≠ Serving -> ph ≠ Stopping ->
  Inv (setLock None (setProc p Released w)).
Proof.
  intros [I1 I2 I3 I4 I5] Hp Ha N1 N2. pose proof (proj1 (I2 p ph Hp) Ha) as Hl. split; cbn.
  - intros q [x Hq]. destruct (decide (q = p)) as [->|N]; [eauto|]. rewrite lookup_insert_ne in Hq by done. eauto.
  - intros q x Hq. destruct (decide (q = p)) as [->|N].
    + rewrite lookup_insert_eq in Hq. injection Hq as <-. split; [by intros [_ []]|done].
    + rewrite lookup_insert_ne in Hq by done. rewrite (I2 q x Hq), Hl. split; congruence.
  - done.
  - intros q Hq. destruct (I4 q Hq) as [? Hx]. split; [done|]. intros x. destruct (decide (q = p)) as [->|N].
    + destruct (Hx _ Hp); done.
    + rewrite lookup_insert_ne by done. apply Hx.
  - intros q x Hq. destruct (decide (q = p)) as [->|N].
    + rewrite lookup_insert_eq in Hq. by injection Hq as <-.
    + rewrite lookup_insert_ne in Hq by done. exact (I5 q x Hq).
Qed.

Lemma Inv_spawn w : Inv w -> Inv (spawn w).
Proof.
  intros [I1 I2 I3 I4 I5].
  assert (Hf : w_procs w !! w_next w = None).
  { destruct (w_procs w !! w_next w) as [x|] eqn:E; [|done]. specialize (I1 (w_next w) (mk_is_Some _ _ E)). lia. }
  split; cbn.
  - intros q [x Hq]. destruct (decide (q = w_next w)) as [->|N]; [lia|]. rewrite lookup_insert_ne in Hq by done.
    specialize (I1 q (mk_is_Some _ _ Hq)). lia.
  - intros q x Hq. destruct (decide (q = w_next w)) as [->|N].
    + rewrite lookup_insert_eq in Hq. injection Hq as <-. split; [by intros [[] _]|].
      intros H. destruct (I3 _ H) as [? ?]. congruence.
    + rewrite lookup_insert_ne in Hq by done. by apply I2.
  - intros q Hq. destruct (I3 q Hq) as [x Hx]. rewrite lookup_insert_ne by congruence. by eexists.
  - intros q Hq. destruct (I4 q Hq) as [? Hx]. split; [lia|]. intros x. rewrite lookup_insert_ne by lia. apply Hx.
  - intros q x Hq. destruct (decide (q = w_next w)) as [->|N].
    + rewrite lookup_insert_eq in Hq. by injection Hq as <-.
    + rewrite lookup_insert_ne in Hq by done. exact (I5 q x Hq).
Qed.

Lemma Inv_acquire w p : Inv w -> w_procs w !! p = Some Started -> w_lock w = None -> Inv (setLock (Some p) (setProc p Locked w)).
Proof.
  intros [I1 I2 I3 I4 I5] Hp Hl. split; cbn.
  - intros q [x Hq]. destruct (decide (q = p)) as [->|N]; [eauto|]. rewrite lookup_insert_ne in Hq by done. eauto.
  - intros q x Hq. destruct (decide (q = p)) as [->|N].
    + rewrite lookup_insert_eq in Hq. by injection Hq as <-.
    + rewrite lookup_insert_ne in Hq by done. rewrite (I2 q x Hq), Hl. split; congruence.
  - intros q [= <-]. rewrite lookup_insert_eq. by eexists.
  - intros q Hq. destruct (I4 q Hq) as [? Hx]. split; [done|]. intros x. destruct (decide (q = p)) as [->|N].
    + destruct (Hx _ Hp); done.
    + rewrite lookup_insert_ne by done. apply Hx.
  - intros q x Hq. destruct (decide (q = p)) as [->|N].
    + rewrite lookup_insert_eq in Hq. by injection Hq as <-.
    + rewrite lookup_insert_ne in Hq by done. exact (I5 q x Hq).
Qed.

(** A clean-up's removal only takes the file or the socket. *)
Lemma Inv_clean w f s pend : Inv w -> f = w_file w \/ f = None -> s = w_sock w \/ s = None ->
  Inv (mkWorld (w_next w) (w_procs w) (w_lock w) f s pend true).
Proof.
  intros [I1 I2 I3 I4 I5] Hf Hs. split; cbn; try done.
  - intros q Hq. apply I4. destruct Hs; congruence.
  - intros q x Hq. specialize (I5 q x Hq). unfold owns, fileOf in *. cbn.
    assert (w_file w = None \/ (exists h, w_file w = Some (Decodes (withHealth h (rtOf q)))) ->
      true = true /\ f = None \/ exists h, f = Some (Decodes (withHealth h (rtOf q)))) as Hf'.
    { destruct Hf; subst; naive_solver. }
    destruct x, Hs; subst; naive_solver.
Qed.

Lemma cleanup_inv r w w' : Inv w -> CleanupStale inState r w = Some w' -> Inv w'.
Proof.
  intros I. unfold CleanupStale. destruct (w_pending w r) as [|n]; [done|]. intros [= <-].
  destruct r; [| destruct inState |]; apply (Inv_clean w); auto.
Qed.

Lemma guardW_Some b w w' : guardW b w = Some w' -> b = true /\ w = w'.
Proof. destruct b; [|done]. by intros [= <-]. Qed.

Lemma at_spec p ph w : at_ p ph w = true -> w_procs w !! p = Some ph.
Proof. apply bool_decide_eq_true. Qed.

(** A socket left behind while the holder is not serving belongs to a process that
    has ended. *)
Lemma sock_dead w p ph : Inv w -> w_procs w !! p = Some ph -> ph = Locked \/ ph = Recorded ->
  forall q, w_sock w = Some q -> (q < w_next w)%nat /\ w_procs w !! q = None.
Proof.
  intros I Hp Hph q Hq. destruct (inv_sock w I q Hq) as [Hlt Hx]. split; [done|].
  destruct (w_procs w !! q) as [x|] eqn:E; [|done]. pose proof (Hx x eq_refl) as Hs.
  assert (w_lock w = Some q) by (apply (inv_lock w I q x E); split; destruct Hs; congruence).
  assert (w_lock w = Some p) by (apply (inv_lock w I p ph Hp); split; destruct Hph; congruence).
  destruct Hph, Hs; congruence.
Qed.

(** The guard of a step and its effect. *)
Ltac inv_step H :=
  unfold step, AcquireStateLock, stateLocked, WriteRuntime, removeSocket, bindSocket, beginShutdown, closeControl,
    releaseLock, abort, crash, exit, judge in H;
  try (apply guardW_Some in H as [G <-]).

Lemma step_inv e w w' : Inv w -> step rtOf foreign inState e w = Some w' -> Inv w'.
Proof.
  intros I H. destruct e; inv_step H.
  - injection H as <-. by apply Inv_spawn.
  - apply andb_prop in G as [G%at_spec L%bool_decide_eq_true]. by apply Inv_acquire.
  - apply andb_prop in G as [G%at_spec _]. by eapply Inv_exit; [..|intros []].
  - apply at_spec in G. replace (setProc p Recorded w) with (setSock (w_sock w) (setProc p Recorded w)) by by destruct w.
    eapply Inv_advance; eauto; try done.
    + right. by eexists.
    + intros q Hq. destruct (sock_dead w p Locked I G ltac:(by left) q Hq) as [? ?]. auto.
  - apply at_spec in G. pose proof (inv_owns w I p _ G) as Ho.
    replace (setSock None (setProc p Unlinked w)) with
      (setFile (w_file w) (w_wiped w) (setSock None (setProc p Unlinked w))) by by destruct w.
    eapply Inv_advance; eauto; done.
  - apply andb_prop in G as [G%at_spec L%bool_decide_eq_true]. destruct (inv_owns w I p _ G) as [Ho _].
    replace (setSock (Some p) (setProc p Serving w)) with
      (setFile (w_file w) (w_wiped w) (setSock (Some p) (setProc p Serving w))) by by destruct w.
    eapply Inv_advance; eauto; try done.
    + split; [done|by left].
    + intros q [= <-]. split; [eapply inv_fresh; eauto|]. left. auto.
  - apply at_spec in G. destruct (inv_owns w I p _ G) as [Ho Hs].
    replace (setProc p Stopping w) with (setSock (w_sock w) (setProc p Stopping w)) by by destruct w.
    eapply Inv_advance; eauto; try done.
    + split; [|exact Hs]. unfold fileOf in *. cbn. destruct Ho as [[? ->]|[h ->]]; [by left|right].
      exists HealthStopping. unfold UpdateRuntimeHealth. by rewrite Load_own.
    + intros q Hq. split; [eapply inv_sock; eauto|]. left. destruct Hs as [Hs|[_ Hs]]; [|congruence]. split; [congruence|auto].
  - apply at_spec in G. destruct (inv_owns w I p _ G) as [Ho _].
    replace (setSock None (setProc p Closed w)) with
      (setFile (w_file w) (w_wiped w) (setSock None (setProc p Closed w))) by by destruct w.
    eapply Inv_advance; eauto; done.
  - apply at_spec in G. by eapply Inv_release.
  - rewrite <- orb_assoc in G. apply orb_prop in G as [G|G]; [|apply orb_prop in G as [G|G]]; apply at_spec in G;
      by eapply Inv_release.
  - by apply Inv_end.
  - apply at_spec in G. by eapply Inv_exit; [..|intros []].
  - destruct I; split; done.
  - by eapply cleanup_inv.
Qed.

Lemma reachable_inv w : reachable rtOf foreign inState w -> Inv w.
Proof. induction 1; [apply Inv_initial|by eapply step_inv]. Qed.

(** Who loses the lock, and when. *)
Lemma cleanup_lock r w w' : CleanupStale inState r w = Some w' -> w_lock w' = w_lock w /\ w_procs w' = w_procs w.
Proof. unfold CleanupStale. destruct (w_pending w r); [done|]. intros [= <-]. by destruct r; [|destruct inState|]. Qed.

Lemma holder_unique w p q ph : Inv w -> w_lock w = Some p -> w_procs w !! q = Some ph -> active ph -> q = p.
Proof. intros I Hl Hq Ha. apply (inv_lock w I q ph Hq) in Ha. congruence. Qed.

Lemma idle_sock w p ph : Inv w -> w_procs w !! p = Some ph -> ph ≠ Serving -> ph ≠ Stopping -> w_sock w ≠ Some p.
Proof. intros I Hp N1 N2 Hs. destruct (inv_sock w I p Hs) as [_ Hx]. by destruct (Hx _ Hp). Qed.

Lemma lock_given_up e w w' p : Inv w -> step rtOf foreign inState e w = Some w' -> w_lock w = Some p -> w_lock w' ≠ Some p ->
  e = Crash p \/ w_sock w' ≠ Some p /\ w_procs w' !! p = Some Released.
Proof.
  intros I H Hl Hl'. destruct e; inv_step H; cbn in *; try done.
  - by injection H as <-.
  - apply andb_prop in G as [_ G%bool_decide_eq_true]. congruence.
  - right. apply at_spec in G. assert (p0 = p) as -> by by eapply holder_unique.
    split; [by eapply idle_sock|apply lookup_insert_eq].
  - right. rewrite <- orb_assoc in G.
    assert (exists ph, w_procs w !! p0 = Some ph /\ active ph /\ ph ≠ Serving /\ ph ≠ Stopping) as (ph & Hp & ? & ? & ?).
    { apply orb_prop in G as [G|G]; [|apply orb_prop in G as [G|G]]; apply at_spec in G; by eexists. }
    assert (p0 = p) as -> by by eapply holder_unique.
    split; [by eapply idle_sock|apply lookup_insert_eq].
  - case_bool_decide; [left; congruence|done].
  - apply cleanup_lock in H as [H _]. congruence.
Qed.

(** A process that released the lock only ends. *)
Lemma released_only_ends e w w' p : Inv w -> step rtOf foreign inState e w = Some w' -> w_procs w !! p = Some Released ->
  w_procs w' !! p = Some Released \/ w_procs w' !! p = None.
Proof.
  intros I H Hp. destruct e; inv_step H; cbn in *; try (by left).
  1: { injection H as <-. left. cbn. rewrite lookup_insert_ne; [done|].
       specialize (inv_fresh w I p (mk_is_Some _ _ Hp)). lia. }
  all: try (apply cleanup_lock in H as [_ ->]; by left).
  all: destruct (decide (p0 = p)) as [->|N]; [|left; by rewrite ?lookup_insert_ne, ?lookup_delete_ne].
  all: try (right; apply lookup_delete_eq).
  all: unfold at_ in G; rewrite Hp in G; by cbn in G.
Qed.

(** C8: The state directory belongs to one daemon at a time. Whatever the
    interleaving of starts, stops, crashes, commands and the single removals of their
    clean-ups: two processes that took the lock and have not released it are the same;
    the lock's holder is alive, so a crash frees it; a serving daemon holds the lock,
    and unless a clean-up removed something since it wrote the runtime file, the socket
    is its own and the file records it; the lock is given up only with the daemon's
    socket gone, unless it crashed; and a process that released the lock and lives on
    has neither the lock nor the socket, and never takes part again. *)
Theorem state_dir_exclusive (w : world) : reachable rtOf foreign inState w ->
  (forall p q x y, w_procs w !! p = Some x -> w_procs w !! q = Some y -> active x -> active y -> p = q) /\
  (forall p, w_lock w = Some p -> exists x, w_procs w !! p = Some x /\ active x) /\
  (forall p, w_procs w !! p = Some Serving -> w_lock w = Some p /\
     (w_wiped w = false -> w_sock w = Some p /\ exists h, w_file w = Some (Decodes (withHealth h (rtOf p))))) /\
  (forall e w' p, step rtOf foreign inState e w = Some w' -> w_lock w = Some p -> w_lock w' ≠ Some p ->
     e = Crash p \/ w_sock w' ≠ Some p /\ w_procs w' !! p = Some Released) /\
  (forall p, w_procs w !! p = Some Released -> w_lock w ≠ Some p /\ w_sock w ≠ Some p /\
     forall e w', step rtOf foreign inState e w = Some w' -> w_procs w' !! p = Some Released \/ w_procs w' !! p = None).
Proof.
  intros I%reachable_inv. split_and!.
  - intros p q x y Hp Hq Nx Ny. apply (inv_lock w I p x Hp) in Nx. by eapply eq_sym, holder_unique.
  - intros p Hl. destruct (inv_holder w I p Hl) as [x Hx]. exists x. split; [done|]. by apply (inv_lock w I p x Hx).
  - intros p Hp. split; [by apply (inv_lock w I p _ Hp)|]. intros Hw.
    destruct (inv_owns w I p _ Hp) as [Hf Hs]. rewrite Hw in Hs. destruct Hf as [[? _]|Hf]; [congruence|].
    split; [|done]. destruct Hs as [?|[? _]]; congruence.
  - intros e w' p. by apply lock_given_up.
  - intros p Hp. split_and!; [|by eapply idle_sock|intros e w' H; by eapply released_only_ends].
    intros Hl. by apply (inv_lock w I p _ Hp) in Hl as [_ []].
Qed.

Lemma alive_process w p ph : w_procs w !! p = Some ph -> ProcessAlive rtOf foreign w (rt_PID (rtOf p)) = true.
Proof.
  intros Hp. unfold ProcessAlive. apply orb_true_iff. right. apply existsb_exists. exists p. split; [|by rewrite bool_decide_true].
  apply list_elem_of_In. apply list_elem_of_fmap. exists (p, ph). split; [done|]. by apply elem_of_map_to_list.
Qed.

(** A serving daemon that answers is judged running. *)
Lemma running_inv w p : Inv w -> w_procs w !! p = Some Serving -> w_wiped w = false ->
  rc_Liveness (reconcile rtOf foreign w true) = LivenessRunning /\
  rc_Status (reconcile rtOf foreign w true) = Some (statusOf rtOf p).
Proof.
  intros I Hp Hw. pose proof (inv_owns w I p _ Hp) as [Hf Hs]. unfold fileOf in Hf. rewrite Hw in Hf, Hs.
  destruct Hf as [[? _]|[h Hf]]; [done|]. destruct Hs as [Hs|[? _]]; [|done].
  unfold reconcile, Reconcile, ping. rewrite Hf, Load_own, Hs. simpl. rewrite Hp. simpl.
  rewrite !bool_decide_true by (by eauto). rewrite (alive_process w p _ Hp).
  destruct (rtOf_valid p) as [Hv _]. by replace (0 <? rt_PID (rtOf p)) with true by lia.
Qed.

Lemma running_serving w p : reachable rtOf foreign inState w -> w_procs w !! p = Some Serving -> w_wiped w = false ->
  rc_Liveness (reconcile rtOf foreign w true) = LivenessRunning /\
  rc_Status (reconcile rtOf foreign w true) = Some (statusOf rtOf p).
Proof. intros H%reachable_inv. by apply running_inv. Qed.

(** A command's verdict on the directory. "Running" is only said of the daemon that
    holds the lock and bound the socket, with its own record in the file; such a
    daemon that answers in time, its files not cleaned up since, is always judged
    running, with its own status; and "absent" means there is no runtime file. *)
Theorem reconcile_verdict (w : world) (answers : bool) : reachable rtOf foreign inState w ->
  let r := reconcile rtOf foreign w answers in
  (rc_Liveness r = LivenessRunning -> answers = true /\ exists p ph h, (ph = Serving \/ ph = Stopping) /\
     w_procs w !! p = Some ph /\ w_lock w = Some p /\ w_sock w = Some p /\
     w_file w = Some (Decodes (withHealth h (rtOf p))) /\ rc_Status r = Some (statusOf rtOf p)) /\
  (forall p, w_procs w !! p = Some Serving -> w_wiped w = false -> answers = true ->
     rc_Liveness r = LivenessRunning /\ rc_Status r = Some (statusOf rtOf p)) /\
  (rc_Liveness r = LivenessAbsent <-> w_file w = None).
Proof.
  intros I%reachable_inv r. split_and!.
  - unfold r, reconcile, Reconcile. destruct (LoadRuntime (w_file w)) as [rt|[]] eqn:El; [|done..].
    case_match; [done|]. cbn [negb]. case_match; [done|].
    destruct (ping rtOf w answers) as [st|] eqn:Ep; [|done]. case_match eqn:Ei; [done|]. intros _. cbn.
    unfold ping in Ep. destruct (w_sock w) as [p|] eqn:Es; [|done]. simpl in Ep.
    destruct (w_procs w !! p) as [ph|] eqn:Eph; [|done]. simpl in Ep.
    destruct (answers && _) eqn:Ea in Ep; [|done]. apply andb_prop in Ea as [-> Hph%bool_decide_eq_true].
    assert (Est : st = statusOf rtOf p) by congruence. subst st.
    split; [done|]. assert (Hl : w_lock w = Some p) by (apply (inv_lock w I p _ Eph); split; destruct Hph; congruence).
    assert (Hf : fileOf p w) by (destruct Hph as [->| ->]; by apply (inv_owns w I p _) in Eph as [? _]).
    destruct Hf as [[_ Hf]|[h Hf]]; [by rewrite Hf in El|].
    exists p, ph, h. done.
  - intros p Hp Hw ->. by apply running_inv.
  - unfold r, reconcile, Reconcile. destruct (w_file w) as [[|x]|]; cbn; [done| |done].
    split; [|done]. repeat case_match; done.
Qed.
End WorldFacts.

(** A sample run: processes 1, 2 and 3 with pids 101, 102 and 103. *)
Definition sampleRuntime (p : nat) : Runtime :=
  mkRuntime (100 + Z.of_nat p) ("instance-" +:+ pretty p) "named" [] [] "1.0.0" 0 HealthStarting.

Definition serving (p : nat) : list event := [Spawn; Acquire p; Record_ p; Unlink p; Bind p].
Definition cleanUp : list event := CleanUp <$> [RemoveRuntime; RemoveControl; RemoveSocket].

(** Two commands find the leftovers of a crashed daemon. One cleans up and starts a
    daemon; the clean-up of the other then takes the live daemon's socket and runtime
    file, although it holds the lock. From then on it is judged absent, and a new one
    cannot start. *)
Definition cleanupRace : option world :=
  run sampleRuntime (fun _ => false) true
    (serving 1 ++ [Crash 1; Judge true; Judge true] ++ cleanUp ++ serving 2 ++ cleanUp ++ [Spawn]) (initial None false).

Example cleanup_takes_live_daemon :
  (w ← cleanupRace; Some (w_procs w !! 2%nat, w_lock w, w_sock w, w_file w,
     rc_Liveness (reconcile sampleRuntime (fun _ => false) w true), step sampleRuntime (fun _ => false) true (Acquire 3) w)) =
  Some (Some Serving, Some 2%nat, None, None, LivenessAbsent, None).
Proof. by vm_compute. Qed.

(** A daemon that does not answer within the probe's two seconds is judged stale;
    its answer to a status request may take the three of its Herdr probe. *)
Example slow_daemon_judged_stale :
  (w ← run sampleRuntime (fun _ => false) true (serving 1 ++ [Judge false] ++ cleanUp) (initial None false);
   Some (w_procs w !! 1%nat, w_lock w, w_sock w)) = Some (Some Serving, Some 1%nat, None).
Proof. by vm_compute. Qed.

Lemma sample_valid p : 0 < rt_PID (sampleRuntime p) /\ rt_InstanceID (sampleRuntime p) ≠ "".
Proof. split; [simpl; lia|done]. Qed.

Lemma run_reachable rtOf foreign inState es w w' :
  reachable rtOf foreign inState w -> run rtOf foreign inState es w = Some w' -> reachable rtOf foreign inState w'.
Proof.
  unfold run. revert w. induction es as [|e es IH]; intros w Hw H; simpl in H; [by injection H as <-|].
  destruct (step rtOf foreign inState e w) as [w1|] eqn:E.
  - eapply IH; [|exact H]. by eapply reach_step.
  - exfalso. clear -H. induction es; [done|]. auto.
Qed.

(** ** Facts: the daemon object *)

Lemma probes_sorted d : StronglySorted (keyLe probeKey) (sortBy probeKey (map_to_list (d_probes d))).
Proof. apply sortBy_sorted. Qed.

Lemma probeComponents_spec d name ready detail :
  mkComponent name ready detail ∈ probeComponents d <-> d_probes d !! name = Some (ready, detail).
Proof.
  unfold probeComponents. rewrite list_elem_of_fmap. split.
  - intros ([n [r dt]] & [= -> -> ->] & H). rewrite sortBy_perm in H. by apply elem_of_map_to_list in H.
  - intros H. exists (name, (ready, detail)). split; [done|]. rewrite sortBy_perm. by apply elem_of_map_to_list.
Qed.

Lemma probeComponents_names d : NoDup (c_Name <$> probeComponents d) /\ StronglySorted String.le (c_Name <$> probeComponents d).
Proof.
  unfold probeComponents. rewrite <- list_fmap_compose. split.
  - rewrite sortBy_perm. apply NoDup_fst_map_to_list.
  - pose proof (probes_sorted d) as H. induction H as [|x l Hl IH Hf]; [constructor|]. simpl. constructor; [done|].
    apply Forall_fmap. eapply Forall_impl; [exact Hf|]. intros y Hy. by apply keyLe_le in Hy.
Qed.

(** What a control client or the process does to the daemon. *)
Inductive request := AskStatus | Probed (name : string) (answer : bool * list byte) | AskStop.

Definition serve (r : request) (d : daemon) : daemon :=
  match r with AskStatus => (handleStatus d).2 | Probed n a => AddProbe n a d | AskStop => (Shutdown d).2 end.

Lemma handleStatus_stopping d : d_health d = HealthStopping -> (handleStatus d).2 = d.
Proof. intros H. unfold handleStatus, reconcileHealth. by rewrite H. Qed.

Lemma handleStatus_stopped d : d_stopped (handleStatus d).2 = d_stopped d.
Proof. unfold handleStatus, reconcileHealth. destruct (d_health d); done. Qed.

Lemma serve_stopping rs : forall d, d_stopped d = true -> d_health d = HealthStopping ->
  d_stopped (foldl (fun d r => serve r d) d rs) = true /\ d_health (foldl (fun d r => serve r d) d rs) = HealthStopping.
Proof.
  induction rs as [|r rs IH]; intros d Hs Hh; [done|]. cbn [foldl]. apply IH; destruct r; cbn [serve]; try done.
  - by rewrite handleStatus_stopped.
  - unfold Shutdown. by rewrite Hs.
  - by rewrite handleStatus_stopping.
  - unfold Shutdown. by rewrite Hs.
Qed.

(** The daemon's status. It lists exactly the registered probes with their current
    answers, each name once and in byte order; it is "ready" exactly when the daemon
    is not stopping, some probe is registered and all of them are ready; and after a
    shutdown it is "stopping" whatever is asked or probed later, while a second
    shutdown does nothing. The first one marks the health, then stops the children,
    then closes the socket, and releases the lock last. *)
Theorem daemon_status (d : daemon) (rs : list request) :
  let st := (handleStatus d).1 in
  (forall name ready detail, mkComponent name ready detail ∈ st_Components st <-> d_probes d !! name = Some (ready, detail)) /\
  NoDup (c_Name <$> st_Components st) /\ StronglySorted String.le (c_Name <$> st_Components st) /\
  (st_Health st = HealthReady <-> d_health d ≠ HealthStopping /\ d_probes d ≠ ∅ /\
     forall name answer, d_probes d !! name = Some answer -> answer.1 = true) /\
  (d_stopped d = false ->
     let stopped := foldl (fun d r => serve r d) (Shutdown d).2 rs in
     st_Health (handleStatus stopped).1 = HealthStopping /\ (Shutdown stopped).1 = [] /\
     exists mid, (Shutdown d).1 = [SetStopping; RecordStopping] ++ mid ++ (if d_locked d then [ReleaseLock] else []) /\
       StopChildren ∈ mid /\ ReleaseLock ∉ mid).
Proof.
  intros st. assert (Hc : st_Components st = probeComponents d).
  { unfold st, handleStatus. by destruct (reconcileHealth _ _). }
  rewrite Hc. split_and!.
  - intros. apply probeComponents_spec.
  - apply probeComponents_names.
  - apply probeComponents_names.
  - set (all := match probeComponents d with [] => false | _ => forallb c_Ready (probeComponents d) end).
    assert (Hall : all = true <-> d_probes d ≠ ∅ /\ forall name answer, d_probes d !! name = Some answer -> answer.1 = true).
    { transitivity (probeComponents d ≠ [] /\ forallb c_Ready (probeComponents d) = true).
      { unfold all. destruct (probeComponents d); [split; [done|by intros [? _]]|]. split; [done|by intros [_ ?]]. }
      f_equiv.
      - unfold probeComponents. rewrite <- (map_to_list_empty_iff (d_probes d)).
        pose proof (sortBy_perm probeKey (map_to_list (d_probes d))) as Hp. split; intros H E; apply H.
        + by rewrite E.
        + apply fmap_nil_inv in E. rewrite E in Hp. by apply Permutation_nil_l in Hp.
      - rewrite forallb_forall. split.
        + intros H name [r dt] Hl. apply probeComponents_spec, list_elem_of_In, H in Hl. done.
        + intros H [n r dt] Hl. apply list_elem_of_In, probeComponents_spec, H in Hl. done. }
    rewrite <- Hall. unfold st, handleStatus, reconcileHealth. fold all. destruct (d_health d), all; cbn; naive_solver.
  - intros Hs stopped. assert (d_stopped stopped = true /\ d_health stopped = HealthStopping) as [H1 H2].
    { apply serve_stopping; unfold Shutdown; by rewrite Hs. }
    split_and!.
    + unfold handleStatus, reconcileHealth. by rewrite H2.
    + unfold Shutdown. by rewrite H1.
    + unfold Shutdown. rewrite Hs. exists ((if d_onStop d then [OnStop] else []) ++ [StopChildren] ++ (if d_control d then [CloseControl] else [])).
      split; [by rewrite <- !app_assoc|]. destruct (d_onStop d), (d_control d); simpl; set_solver.
Qed.

(** ** Facts: the socket's path *)

(** A private directory: a real one of this user that no one else can enter. *)
Definition private (uid : Z) (lstat : entry) (mkdir chmod : option stat) : Prop :=
  exists fi, (lstat = Found fi \/ lstat = Absent /\ mkdir = Some fi) /\ s_symlink fi = false /\ s_dir fi = true /\
    s_uid fi = uid /\ (Z.land (s_perm fi) 63 = 0 \/ exists fi', chmod = Some fi' /\ Z.land (s_perm fi') 63 = 0).

Lemma ensureSecureDir_private lstat mkdir chmod uid : ensureSecureDir lstat mkdir chmod uid = None -> private uid lstat mkdir chmod.
Proof.
  unfold ensureSecureDir. destruct (match lstat with Found s => Some s | Absent => mkdir | Unreadable => None end) as [fi|] eqn:E; [|done].
  destruct (s_symlink fi) eqn:E1; [done|]. destruct (s_dir fi) eqn:E2; [|done]. simpl.
  destruct (Z.eqb_spec (s_uid fi) uid) as [E3|]; [|done]. simpl.
  intros H. exists fi. split_and!; try done.
  - destruct lstat; naive_solver.
  - destruct (Z.eqb_spec (Z.land (s_perm fi) 63) 0); [by left|right]. simpl in H. destruct chmod as [fi'|]; [|done].
    exists fi'. split; [done|]. destruct (Z.eqb_spec (Z.land (s_perm fi') 63) 0); done.
Qed.

Lemma userRuntimeDir_found secure cs : forall e dir, userRuntimeDir secure cs e = inl dir -> dir ∈ cs /\ secure dir = None.
Proof.
  induction cs as [|c cs IH]; intros e dir H; [done|]. simpl in H. destruct (secure c) eqn:E.
  - apply IH in H as [? ?]. split; [by right|done].
  - case_match; [apply IH in H as [? ?]; split; [by right|done]|]. injection H as <-. split; [by left|done].
Qed.

(** Where the control socket is. The path always fits a socket address: at most 100
    bytes; it is in the state directory unless that path is too long, and then in one
    of the candidate directories that is a real directory of this user, entered by no
    one else. Server and clients compute it from the same inputs, so they agree. *)
Theorem socket_path_private (sha256 : list byte -> list byte) (abs : list byte -> option (list byte))
    (lstat : list byte -> entry) (mkdir chmod : list byte -> option stat) (xdg stateDir p : list byte) (uid : Z) :
  SocketPath sha256 abs (fun dir => ensureSecureDir (lstat dir) (mkdir dir) (chmod dir) uid) xdg uid stateDir = inl p ->
  Z.of_nat (length p) <= maxSocketPathLen /\
  (if Z.of_nat (length (ControlPath stateDir)) <=? maxSocketPathLen then p = ControlPath stateDir
   else exists base, base ∈ runtimeCandidates xdg uid /\ private uid (lstat base) (mkdir base) (chmod base) /\
     p = Join [base; socketName sha256 abs stateDir]).
Proof.
  unfold SocketPath. destruct (Z.leb_spec (Z.of_nat (length (ControlPath stateDir))) maxSocketPathLen) as [Hl|Hl].
  { intros [= <-]. split; [done|done]. }
  destruct (userRuntimeDir _ _ _) as [base|e] eqn:E; [|done].
  destruct (Z.ltb_spec maxSocketPathLen (Z.of_nat (length (Join [base; socketName sha256 abs stateDir])))) as [|Hs]; [done|].
  intros [= <-]. split; [done|]. apply userRuntimeDir_found in E as [Hc Hp]. exists base. split_and!; try done.
  by apply ensureSecureDir_private.
Qed.

(** ** Witnesses *)

(** Process 1 serves. *)
Definition servingWorld : world := default (initial None false) (run sampleRuntime (fun _ => false) true (serving 1) (initial None false)).

Lemma servingWorld_reachable : reachable sampleRuntime (fun _ => false) true servingWorld.
Proof.
  apply (run_reachable sampleRuntime _ true (serving 1) (initial None false)); [apply reach_init|by vm_compute].
Qed.

Lemma state_dir_exclusive_witness :
  w_lock servingWorld = Some 1%nat /\ w_sock servingWorld = Some 1%nat /\
  exists h, w_file servingWorld = Some (Decodes (withHealth h (sampleRuntime 1))).
Proof.
  destruct (state_dir_exclusive sampleRuntime (fun _ => false) true sample_valid servingWorld servingWorld_reachable)
    as (_ & _ & H & _).
  destruct (H 1%nat) as [Hl Hf]; [by vm_compute|]. destruct Hf as [Hs Hf]; [by vm_compute|]. split_and!; assumption.
Defined.

Lemma reconcile_verdict_witness :
  rc_Liveness (reconcile sampleRuntime (fun _ => false) servingWorld true) = LivenessRunning /\
  rc_Liveness (reconcile sampleRuntime (fun _ => false) servingWorld false) ≠ LivenessRunning.
Proof.
  split.
  - apply (reconcile_verdict sampleRuntime (fun _ => false) true sample_valid servingWorld true servingWorld_reachable) with 1%nat;
      by vm_compute.
  - intros H. apply (reconcile_verdict sampleRuntime (fun _ => false) true sample_valid servingWorld false servingWorld_reachable) in H
      as [? _]. done.
Defined.

(** A state directory of a hundred bytes: the socket moves to /tmp. *)
Lemma socket_path_private_witness
    (long := x2f :: repeat x61 100)
    (digest := fun _ : list byte => [x01; x02; x03; x04; x05; xff; x00]) :
  let secure dir := ensureSecureDir Absent (Some (mkStat false true 1000 448)) None 1000 in
  let p := Join [bytesOf "/tmp/herdr-phone-1000"; bytesOf "hp-0102030405ff.sock"] in
  SocketPath digest Some secure [] 1000 long = inl p /\ Z.of_nat (length p) <= 100.
Proof.
  intros secure p. assert (H : SocketPath digest Some secure [] 1000 long = inl p) by by vm_compute.
  split; [exact H|].
  apply (socket_path_private digest Some (fun _ => Absent) (fun _ => Some (mkStat false true 1000 448)) (fun _ => None) [] long p 1000) in H
    as [H _]. exact H.
Defined.
