(* ===== verification/Launch.v ===== *)
(** * Launch: start, stop, status and setup-link of internal/integration/runtime.go

    The commands judge the state directory, spawn a detached daemon, poll it and its
    public address, and talk to its control socket. What they observe is an input:
    each poll of a loop is a record of what is seen in that turn. What they do is an
    output: the list of actions. *)

From S2P Require Import Prelude GoStr GoText GoPath Control Daemon.
From S2P Require Config.
From S2P Require Import Assembly.

(** ** Results *)

Record StartResult := mkStart { sr_Mode : string; sr_PublicURL : list byte; sr_PairingURL : list byte; sr_AlreadyRunning : bool }.

(** [NilStatus] stands for the panic on a running verdict without a status. *)
Inductive startErr :=
  QuickNotEnabled | NoStateDir | StateDirFailed | BadCredentials | NoExecutable | NoProbeToken | SpawnFailed
| NoClient | ServeExited | NotReady | NoPublicURL | NotConfirmed | NoEdge | NilStatus.

(** What a command does besides looking. *)
Inductive action := CleanedUp | Spawned (args : list string) (token : option string) | Rotated | StopSent.
#[export] Instance action_dec : EqDecision action.
Proof. solve_decision. Defined.

(** ** Waiting for the daemon *)

(** One turn of [waitReady]: the answer of the control socket, whether the child
    lives, the answer to the second question, and whether the wait is over. *)
Record readyPoll := mkReadyPoll {
  rp_status : option StatusResult; rp_alive : bool; rp_again : option StatusResult; rp_done : bool
}.

(** A loop that is still waiting is [None]. *)
Fixpoint waitReady (ps : list readyPoll) : option (StatusResult + startErr) :=
  match ps with
  | [] => None
  | p :: ps' =>
      match rp_status p with
      | Some st => Some (inl st)
      | None =>
          if negb (rp_alive p) then
            match rp_again p with Some st => Some (inl st) | None => Some (inr ServeExited) end
          else if rp_done p then Some (inr NotReady)
          else waitReady ps'
      end
  end.

(** ** The public address of a quick tunnel *)

(** A response of the probe: its status and body; [None] when the request or the
    reading failed. *)
Definition quickPublicProbe (resp : option (Z * list byte)) (instanceID : string) : bool :=
  match resp with
  | None => false
  | Some (status, body) =>
      if negb (status =? 200) then false
      else
        let got := TrimSpace (take 4096 body) in
        negb (bool_decide (instanceID = "")) && bool_decide (got = bytesOf instanceID)
  end.

(** The address the probe asks. *)
Definition probeURL (publicURL : list byte) : list byte := trimRightSet [x2f] publicURL ++ bytesOf "/health".

Record publicPoll := mkPublicPoll { pp_alive : bool; pp_resp : option (Z * list byte); pp_done : bool }.

Fixpoint confirmQuick (id : string) (ps : list publicPoll) : option (option startErr) :=
  match ps with
  | [] => None
  | p :: ps' =>
      if negb (pp_alive p) then Some (Some ServeExited)
      else if quickPublicProbe (pp_resp p) id then Some None
      else if pp_done p then Some (Some NotConfirmed)
      else confirmQuick id ps'
  end.

Definition probeQuickPublicReady (status : StatusResult) (ps : list publicPoll) : option (option startErr) :=
  if isEmpty (st_PublicURL status) then Some (Some NoPublicURL) else confirmQuick (st_InstanceID status) ps.

(** ** The edge connection of a named tunnel *)

Definition componentReady (st : StatusResult) (name : string) : bool :=
  match List.find (fun c => bool_decide (c_Name c = name)) (st_Components st) with
  | Some c => c_Ready c
  | None => false
  end.

Record edgePoll := mkEdgePoll { ep_alive : bool; ep_status : option StatusResult; ep_done : bool }.

Definition edgeReady (o : option StatusResult) : bool :=
  match o with Some st => componentReady st "tunnel" | None => false end.

Fixpoint waitEdge (ps : list edgePoll) : option (option startErr) :=
  match ps with
  | [] => None
  | p :: ps' =>
      if negb (ep_alive p) then Some (Some ServeExited)
      else if edgeReady (ep_status p) then Some None
      else if ep_done p then Some (Some NoEdge)
      else waitEdge ps'
  end.

(** [client] says whether the socket's path resolves, in [NewClientForStateDir]. *)
Definition waitNamedTunnelReady (client : bool) (ps : list edgePoll) : option (option startErr) :=
  if negb client then Some (Some NoClient) else waitEdge ps.

(** ** Start *)

(** What is observed during a start. *)
Record observed := mkObserved {
  o_ensured : bool; o_verdict : ReconcileResult; o_executable : bool; o_token : option string; o_spawned : bool;
  o_client : bool; o_ready : list readyPoll; o_public : list publicPoll; o_edge : list edgePoll;
  o_rotated : PairingResult + list byte
}.

(** [finishStart] never fails: without a pairing link the result has none. *)
Definition finishStart (o : observed) (status : StatusResult) (already : bool) : StartResult * list action :=
  let link := if o_client o then match o_rotated o with inl pr => pr_URL pr | inr _ => [] end else [] in
  (mkStart (st_Mode status) (st_PublicURL status) link already, if o_client o then [Rotated] else []).

Definition serveArgs (quick : bool) : list string := "serve" :: if quick then ["--quick"] else [].

(** Confirming a fresh daemon, by the mode of the start. *)
Definition confirm (mode : list byte) (o : observed) (status : StatusResult) : option (option startErr) :=
  if bool_decide (mode = Config.ModeQuick) then probeQuickPublicReady status (o_public o)
  else if bool_decide (mode = Config.ModeNamed) then waitNamedTunnelReady (o_client o) (o_edge o)
  else Some None.

(** The rest of a start that found no daemon running; [acts] is what it did. A start
    that still waits is [None]. *)
Definition startFresh (cfg : Config.Config) (quick : bool) (mode : list byte) (uid : Z)
    (lstat : list byte -> option Config.fileInfo) (o : observed) (acts : list action) :
    option (StartResult + startErr) * list action :=
  if negb (validateForServe cfg mode uid lstat) then (Some (inr BadCredentials), acts)
  else if negb (o_executable o) then (Some (inr NoExecutable), acts)
  else if bool_decide (mode = Config.ModeQuick) && bool_decide (o_token o = None) then (Some (inr NoProbeToken), acts)
  else if negb (o_spawned o) then (Some (inr SpawnFailed), acts)
  else
    let token := if bool_decide (mode = Config.ModeQuick) then o_token o else None in
    let acts := acts ++ [Spawned (serveArgs quick) token] in
    if negb (o_client o) then (Some (inr NoClient), acts)
    else
      match waitReady (o_ready o) with
      | None => (None, acts)
      | Some (inr e) => (Some (inr e), acts)
      | Some (inl status) =>
          match confirm mode o status with
          | None => (None, acts)
          | Some (Some e) => (Some (inr e), acts)
          | Some None =>
              let (res, more) := finishStart o status false in (Some (inl res), acts ++ more)
          end
      end.

Definition Start (cfg : Config.Config) (quick : bool) (env : list byte -> list byte) (uid : Z)
    (lstat : list byte -> option Config.fileInfo) (o : observed) : option (StartResult + startErr) * list action :=
  match effectiveMode cfg quick with
  | None => (Some (inr QuickNotEnabled), [])
  | Some mode =>
      match resolveStateDir env with
      | None => (Some (inr NoStateDir), [])
      | Some _ =>
          if negb (o_ensured o) then (Some (inr StateDirFailed), [])
          else
            match rc_Liveness (o_verdict o), rc_Status (o_verdict o) with
            | LivenessRunning, Some status =>
                let (res, acts) := finishStart o status true in (Some (inl res), acts)
            | LivenessRunning, None => (Some (inr NilStatus), [])
            | LivenessStale, _ => startFresh cfg quick mode uid lstat o [CleanedUp]
            | _, _ => startFresh cfg quick mode uid lstat o []
            end
      end
  end.

(** ** Stop, status and setup-link *)

Inductive stopErr := StopNoStateDir | StopNoClient | StopFailed (msg : list byte).

(** [sent] is the answer to the stop request. *)
Definition Stop (env : list byte -> list byte) (verdict : ReconcileResult) (client : bool) (sent : option (list byte)) :
    (bool + stopErr) * list action :=
  match resolveStateDir env with
  | None => (inr StopNoStateDir, [])
  | Some _ =>
      match rc_Liveness verdict with
      | LivenessRunning =>
          if negb client then (inr StopNoClient, [])
          else match sent with Some e => (inr (StopFailed e), [StopSent]) | None => (inl true, [StopSent]) end
      | LivenessStale => (inl false, [CleanedUp])
      | LivenessAbsent => (inl false, [])
      end
  end.

Definition HerdrProtocol : Z := 19.

Record AppStatus := mkAppStatus {
  as_Running : bool; as_Mode : string; as_PublicURL : list byte; as_LocalAddress : list byte; as_Version : string;
  as_Protocol : Z; as_PID : Z; as_StartedAt : option Z; as_Health : string; as_HerdrHealthy : bool;
  as_TunnelHealthy : bool; as_StateHealthy : bool; as_ConnectedClients : Z
}.

Definition healthName (h : Health) : string :=
  match h with HealthStarting => "starting" | HealthReady => "ready" | HealthDegraded => "degraded" | HealthStopping => "stopping" end.

(** The last component of a name decides. *)
Definition lastReady (name : string) (cs : list ComponentStatus) : bool :=
  foldl (fun b c => if bool_decide (c_Name c = name) then c_Ready c else b) false cs.

Definition statusToApp (st : StatusResult) : AppStatus :=
  mkAppStatus true (st_Mode st) (st_PublicURL st) (st_LocalAddr st) (st_Version st) HerdrProtocol (st_PID st)
    (if 0 <? st_StartUnixMs st then Some (st_StartUnixMs st) else None) (healthName (st_Health st))
    (lastReady "herdr" (st_Components st)) (lastReady "tunnel" (st_Components st)) (lastReady "state" (st_Components st))
    (st_ClientCount st).

Definition notRunning : AppStatus := mkAppStatus false "" [] [] "" 0 0 None "" false false false 0.

Definition AppStatusOf (env : list byte -> list byte) (verdict : ReconcileResult) : option AppStatus :=
  match resolveStateDir env with
  | None => None
  | Some _ =>
      match rc_Liveness verdict, rc_Status verdict with
      | LivenessRunning, Some st => Some (statusToApp st)
      | _, _ => Some notRunning
      end
  end.

Inductive linkErr := LinkNoStateDir | NotRunning | LinkNoClient | LinkFailed (msg : list byte).

Definition RotatePairing (env : list byte -> list byte) (verdict : ReconcileResult) (client : bool)
    (rotated : PairingResult + list byte) : (list byte + linkErr) * list action :=
  match resolveStateDir env with
  | None => (inr LinkNoStateDir, [])
  | Some _ =>
      if negb (bool_decide (rc_Liveness verdict = LivenessRunning)) then (inr NotRunning, [])
      else if negb client then (inr LinkNoClient, [])
      else match rotated with inl pr => (inl (pr_URL pr), [Rotated]) | inr e => (inr (LinkFailed e), [Rotated]) end
  end.

(** ** Facts *)

Lemma waitReady_answers ps st : waitReady ps = Some (inl st) ->
  exists p, p ∈ ps /\ (rp_status p = Some st \/ rp_again p = Some st).
Proof.
  induction ps as [|p ps IH]; [done|]. simpl. intros H.
  destruct (rp_status p) as [s|] eqn:E; [injection H as ->; exists p; split; [by left|auto]|].
  destruct (rp_alive p); simpl in H.
  - destruct (rp_done p); [done|]. destruct (IH H) as (q & ? & ?). exists q. split; [by right|done].
  - destruct (rp_again p) eqn:Ea; [|done]. injection H as ->. exists p. split; [by left|auto].
Qed.

Lemma waitReady_ends ps : Exists (fun p => rp_done p = true) ps -> is_Some (waitReady ps).
Proof.
  induction 1 as [p ps H|p ps _ IH]; simpl; destruct (rp_status p); try by eexists.
  - destruct (rp_alive p); simpl; [rewrite H; by eexists|destruct (rp_again p); by eexists].
  - destruct (rp_alive p); simpl; [|destruct (rp_again p); by eexists]. destruct (rp_done p); [by eexists|done].
Qed.

Lemma confirmQuick_confirmed id ps : confirmQuick id ps = Some None ->
  exists p, p ∈ ps /\ pp_alive p = true /\ quickPublicProbe (pp_resp p) id = true.
Proof.
  induction ps as [|p ps IH]; [done|]. simpl. destruct (pp_alive p) eqn:Ea; [|done]. simpl.
  destruct (quickPublicProbe (pp_resp p) id) eqn:Ep.
  - intros _. exists p. split; [by left|done].
  - destruct (pp_done p); [done|]. intros H. destruct (IH H) as (q & ? & ?). exists q. split; [by right|done].
Qed.

Lemma confirmQuick_ends id ps : Exists (fun p => pp_done p = true) ps -> is_Some (confirmQuick id ps).
Proof.
  induction 1 as [p ps H|p ps _ IH]; simpl; destruct (pp_alive p), (quickPublicProbe (pp_resp p) id); try by eexists.
  - simpl. rewrite H. by eexists.
  - simpl. destruct (pp_done p); [by eexists|done].
Qed.

Lemma waitEdge_ready ps : waitEdge ps = Some None ->
  exists p st, p ∈ ps /\ ep_status p = Some st /\ componentReady st "tunnel" = true.
Proof.
  induction ps as [|p ps IH]; [done|]. simpl. destruct (ep_alive p); [|done]. simpl.
  destruct (edgeReady (ep_status p)) eqn:Ep.
  - intros _. unfold edgeReady in Ep. destruct (ep_status p) as [st|] eqn:Es; [|done]. exists p, st. split; [by left|done].
  - destruct (ep_done p); [done|]. intros H. destruct (IH H) as (q & st & ? & ?). exists q, st. split; [by right|done].
Qed.

Lemma waitEdge_ends ps : Exists (fun p => ep_done p = true) ps -> is_Some (waitEdge ps).
Proof.
  induction 1 as [p ps H|p ps _ IH]; simpl; destruct (ep_alive p), (edgeReady (ep_status p)); try by eexists.
  - simpl. rewrite H. by eexists.
  - simpl. destruct (ep_done p); [by eexists|done].
Qed.

Lemma quickPublicProbe_spec resp id : quickPublicProbe resp id = true ->
  id ≠ "" /\ exists body, resp = Some (200, body) /\ TrimSpace (take 4096 body) = bytesOf id.
Proof.
  unfold quickPublicProbe. destruct resp as [[s body]|]; [|done]. destruct (Z.eqb_spec s 200) as [->|]; [|done]. cbn [negb].
  intros [H1%negb_true_iff%bool_decide_eq_false H2%bool_decide_eq_true]%andb_prop. split; [done|]. by exists body.
Qed.

Lemma finishStart_actions o st already : (finishStart o st already).2 = if o_client o then [Rotated] else [].
Proof. done. Qed.

(** What an observed confirmation means in each mode. *)
Definition reached (mode : list byte) (o : observed) (status : StatusResult) : Prop :=
  (mode = Config.ModeQuick -> st_PublicURL status ≠ [] /\ exists p body, p ∈ o_public o /\ pp_resp p = Some (200, body) /\
     TrimSpace (take 4096 body) = bytesOf (st_InstanceID status) /\ st_InstanceID status ≠ "") /\
  (mode = Config.ModeNamed -> exists p st, p ∈ o_edge o /\ ep_status p = Some st /\ componentReady st "tunnel" = true).

Lemma confirm_reached mode o status : confirm mode o status = Some None -> reached mode o status.
Proof.
  unfold confirm, reached. intros H. split; intros ->.
  - rewrite bool_decide_true in H by done. unfold probeQuickPublicReady in H. destruct (isEmpty (st_PublicURL status)) eqn:E; [done|].
    apply isEmpty_false in E. split; [done|]. apply confirmQuick_confirmed in H as (p & Hp & _ & H).
    apply quickPublicProbe_spec in H as (? & body & ? & ?). by exists p, body.
  - rewrite bool_decide_false, bool_decide_true in H by done. unfold waitNamedTunnelReady in H.
    destruct (o_client o); [|done]. by apply waitEdge_ready in H.
Qed.

(** A fresh start that succeeds spawned a daemon, got its status and confirmed it. *)
Definition freshlyStarted (quick : bool) (mode : list byte) (o : observed) (before acts : list action) (res : StartResult) : Prop :=
  exists status token, sr_Mode res = st_Mode status /\ sr_PublicURL res = st_PublicURL status /\ sr_AlreadyRunning res = false /\
    (exists p, p ∈ o_ready o /\ (rp_status p = Some status \/ rp_again p = Some status)) /\
    reached mode o status /\
    acts = before ++ [Spawned ("serve" :: if quick then ["--quick"] else []) token; Rotated] /\
    (is_Some token <-> mode = Config.ModeQuick).

Lemma freshlyStarted_new quick mode o before acts res : freshlyStarted quick mode o before acts res -> sr_AlreadyRunning res = false.
Proof. by intros (? & ? & _ & _ & ? & _). Qed.

(** What a fresh start does, whatever comes of it: nothing beyond [before], or a spawn
    with the fixed arguments, after which only a success asks for a link. *)
Lemma startFresh_actions cfg quick mode uid lstat o before r acts :
  startFresh cfg quick mode uid lstat o before = (r, acts) ->
  acts = before \/
  exists token, (is_Some token <-> mode = Config.ModeQuick) /\
    (acts = before ++ [Spawned (serveArgs quick) token] \/
     acts = before ++ [Spawned (serveArgs quick) token; Rotated] /\ exists res, r = Some (inl res)).
Proof.
  unfold startFresh. destruct (validateForServe cfg mode uid lstat); [|intros [= <- <-]; by left].
  destruct (o_executable o); [|intros [= <- <-]; by left].
  destruct (bool_decide _ && bool_decide _) eqn:Et; [intros [= <- <-]; by left|].
  destruct (o_spawned o); [|intros [= <- <-]; by left]. cbn [negb].
  set (token := if bool_decide (mode = Config.ModeQuick) then o_token o else None). intros H. right. exists token. split.
  { unfold token. case_bool_decide as Hm; [|split; [by intros [? ?]|done]]. split; [done|]. intros _.
    destruct (o_token o); [by eexists|]. by rewrite bool_decide_true in Et by done. }
  destruct (o_client o) eqn:Ec; [|injection H as <- <-; by left]. cbn [negb] in H.
  destruct (waitReady (o_ready o)) as [[status|e]|]; [|injection H as <- <-; by left..].
  destruct (confirm mode o status) as [[e|]|]; [injection H as <- <-; by left| |injection H as <- <-; by left].
  unfold finishStart in H. rewrite Ec in H. injection H as <- <-. right. rewrite <- app_assoc. eauto.
Qed.

Lemma startFresh_result cfg quick mode uid lstat o before res acts :
  startFresh cfg quick mode uid lstat o before = (Some (inl res), acts) -> freshlyStarted quick mode o before acts res.
Proof.
  unfold startFresh. destruct (validateForServe cfg mode uid lstat); [|done].
  destruct (o_executable o); [|done]. destruct (bool_decide _ && bool_decide _) eqn:Et; [done|].
  destruct (o_spawned o); [|done]. cbn [negb].
  set (token := if bool_decide (mode = Config.ModeQuick) then o_token o else None).
  destruct (o_client o) eqn:Ec; [|done]. cbn [negb].
  destruct (waitReady (o_ready o)) as [[status|e]|] eqn:Ew; [|done..].
  destruct (confirm mode o status) as [[e|]|] eqn:Ef; [done| |done].
  unfold finishStart. rewrite Ec. intros [= <- <-]. exists status, token. split_and!; try done.
  - by apply waitReady_answers.
  - by apply confirm_reached.
  - by rewrite <- app_assoc.
  - unfold token. case_bool_decide as Hm; [|split; [by intros [? ?]|done]]. split; [done|]. intros _.
    destruct (o_token o); [by eexists|]. by rewrite bool_decide_true in Et by done.
Qed.

(** The files a start clears before it spawns. *)
Definition cleaning (verdict : Liveness) : list action := if bool_decide (verdict = LivenessStale) then [CleanedUp] else [].

(** A start is refused before it looks at the directory, adopts a running daemon,
    panics on one without a status, or is a fresh start. *)
Lemma Start_cases cfg quick env uid lstat o r acts :
  Start cfg quick env uid lstat o = (r, acts) ->
  (acts = [] /\ exists e, r = Some (inr e)) \/
  exists mode, effectiveMode cfg quick = Some mode /\
    ((rc_Liveness (o_verdict o) = LivenessRunning /\ exists status, rc_Status (o_verdict o) = Some status /\
        r = Some (inl (finishStart o status true).1) /\ acts = (finishStart o status true).2) \/
     (rc_Liveness (o_verdict o) ≠ LivenessRunning /\
        startFresh cfg quick mode uid lstat o (cleaning (rc_Liveness (o_verdict o))) = (r, acts))).
Proof.
  unfold Start, cleaning. destruct (effectiveMode cfg quick) as [mode|]; [|intros [= <- <-]; left; eauto].
  destruct (resolveStateDir env); [|intros [= <- <-]; left; eauto].
  destruct (o_ensured o); cbn [negb]; [|intros [= <- <-]; left; eauto].
  destruct (rc_Liveness (o_verdict o)); [| |].
  - intros H. right. exists mode. split; [done|]. right. by rewrite bool_decide_false.
  - destruct (rc_Status (o_verdict o)) as [status|]; [|intros [= <- <-]; left; eauto].
    intros H. right. exists mode. split; [done|]. left. split; [done|]. exists status.
    destruct (finishStart o status true). by injection H as <- <-.
  - intros H. right. exists mode. split; [done|]. right. by rewrite bool_decide_true.
Qed.


(** A start always ends: when each of its waits is over at some turn, as its deadline
    makes it, the start returns a result or an error. *)
Theorem start_ends (cfg : Config.Config) (quick : bool) (env : list byte -> list byte) (uid : Z)
    (lstat : list byte -> option Config.fileInfo) (o : observed) :
  Exists (fun p => rp_done p = true) (o_ready o) -> Exists (fun p => pp_done p = true) (o_public o) ->
  Exists (fun p => ep_done p = true) (o_edge o) ->
  is_Some (Start cfg quick env uid lstat o).1.
Proof.
  intros Hr Hp He.
  assert (H : forall mode before, is_Some (startFresh cfg quick mode uid lstat o before).1).
  { intros mode before. unfold startFresh. repeat (case_match; [by eexists|]).
    destruct (waitReady_ends _ Hr) as [[status|e] ->]; [|by eexists].
    assert (is_Some (confirm mode o status)) as [[e|] ->]; [|by eexists|by eexists].
    unfold confirm, probeQuickPublicReady, waitNamedTunnelReady. repeat case_match; try (by eexists).
    - by apply confirmQuick_ends.
    - by apply waitEdge_ends. }
  unfold Start. repeat (case_match; try by eexists); apply H.
Qed.

(** A start finds the daemon that serves. Whatever led to a daemon serving in this
    state directory, as long as no clean-up took its files: a start that its control
    socket answers in time adopts it, with its mode and address; it spawns nothing and
    cleans up nothing. *)
Theorem start_adopts_serving (rtOf : nat -> Runtime) (foreign : Z -> bool) (inState : bool)
    (rtOf_valid : forall p, 0 < rt_PID (rtOf p) /\ rt_InstanceID (rtOf p) ≠ "")
    (w : world) (p : nat) (cfg : Config.Config) (quick : bool) (env : list byte -> list byte) (uid : Z)
    (lstat : list byte -> option Config.fileInfo) (o : observed) :
  reachable rtOf foreign inState w -> w_procs w !! p = Some Serving -> w_wiped w = false ->
  o_verdict o = reconcile rtOf foreign w true ->
  is_Some (effectiveMode cfg quick) -> is_Some (resolveStateDir env) -> o_ensured o = true ->
  exists res acts, Start cfg quick env uid lstat o = (Some (inl res), acts) /\
    sr_AlreadyRunning res = true /\ sr_Mode res = rt_Mode (rtOf p) /\ sr_PublicURL res = rt_PublicURL (rtOf p) /\
    CleanedUp ∉ acts /\ forall args token, Spawned args token ∉ acts.
Proof.
  intros Hw Hp Hwi Ho [mode Hm] [dir Hd] He.
  destruct (running_serving rtOf foreign inState rtOf_valid w p Hw Hp Hwi) as [Hv Hs].
  unfold Start. rewrite Hm, Hd, He, Ho, Hv, Hs. cbn. eexists _, _. split_and!; [done..| |].
  - destruct (o_client o); set_solver.
  - intros. destruct (o_client o); set_solver.
Qed.

(** A quick start whose child has ended because another daemon took the lock gets
    that daemon's status and fails all the same: the next wait asks for its own child
    again. *)
Definition otherDaemon : StatusResult :=
  mkStatus HealthReady "quick" (bytesOf "https://a.trycloudflare.com") [] "0.4.0" "11" 77 0 0 [mkComponent "tunnel" true []].

Example losing_start_fails :
  waitReady [mkReadyPoll None false (Some otherDaemon) false] = Some (inl otherDaemon) /\
  probeQuickPublicReady otherDaemon [mkPublicPoll false (Some (200, bytesOf "11")) false] = Some (Some ServeExited) /\
  waitNamedTunnelReady true [mkEdgePoll false (Some otherDaemon) false] = Some (Some ServeExited).
Proof. by vm_compute. Qed.

(** ** Witnesses *)

(** Commands of a user 501 with a home, on the directory of a serving daemon or an empty
    one. *)
Definition sampleEnv (k : list byte) : list byte := if bool_decide (k = Config.HOME) then bytesOf "/home/me" else [].

Definition sampleObserved (verdict : ReconcileResult) : observed :=
  mkObserved true verdict true None true true [mkReadyPoll None true None true] [mkPublicPoll true None true]
    [mkEdgePoll true None true] (inl (mkPairing (bytesOf "link"))).

Lemma start_ends_witness :
  is_Some (Start readmeConfig false sampleEnv 501 (fun _ => None) (sampleObserved (reconcile sampleRuntime (fun _ => false) (initial None false) true))).1.
Proof.
  apply start_ends; (left; reflexivity).
Defined.

Lemma start_adopts_serving_witness :
  exists res acts,
    Start readmeConfig false sampleEnv 501 (fun _ => None) (sampleObserved (reconcile sampleRuntime (fun _ => false) servingWorld true)) =
      (Some (inl res), acts) /\ sr_AlreadyRunning res = true /\ CleanedUp ∉ acts.
Proof.
  destruct (start_adopts_serving sampleRuntime (fun _ => false) true sample_valid servingWorld 1 readmeConfig false sampleEnv 501
    (fun _ => None) (sampleObserved (reconcile sampleRuntime (fun _ => false) servingWorld true)) servingWorld_reachable)
    as (res & acts & H1 & H2 & _ & _ & H3 & _).
  - by vm_compute.
  - by vm_compute.
  - reflexivity.
  - eexists. by vm_compute.
  - eexists. by vm_compute.
  - reflexivity.
  - exists res, acts. split; [exact H1|]. split; [exact H2|exact H3].
Defined.
