(* ===== verification/Stack.v ===== *)
(** * Stack: building, running and tearing down the serving process
    (internal/integration/stack.go, with [Serve] of runtime.go)

    [buildStack] goes through its subsystems in order, each of which may fail; what is
    set up so far is the record [stack], which [abort] and [shutdown] take down. What
    is done is recorded in order; whether a step succeeds is an input. *)

From stdpp Require Import gmap.
From S2P Require Import Prelude GoStr.
From S2P Require Config Assembly Tunnel.

(** ** Data *)

Inductive did :=
  LockTaken | ListenerBound | HTTPServing | EngineRunning | SubscriberRunning | TunnelStarted | JanitorStarted
| AuditOpened | ServerBuilt | ServerInstalled | DaemonServing
| ServerClosed | HTTPClosed | HTTPDrained | ListenerClosed | TunnelStopped | DaemonDown | AuditClosed | LockReleased.
#[export] Instance did_dec : EqDecision did.
Proof. solve_decision. Defined.

Inductive buildErr :=
  NoSocket | HandshakeFailed | NoAssets | FallbackAssets | StateLocked | PortBusy | EngineFailed | TunnelRejected
| NoQuickURL | NoInstanceID | AuthFailed | RootsRejected | AuditFailed | ServerRejected.

(** The fields of [stack] that are not nil, and the public address. *)
Record stack := mkStack {
  k_lock : bool; k_listener : bool; k_httpSrv : bool; k_tc : bool; k_auditor : bool; k_srv : bool; k_d : bool;
  k_publicURL : list byte
}.

Definition emptyStack : stack := mkStack false false false false false false false [].

(** Building: the stack and the trace so far, and a value or an error. *)
Definition Build (A : Type) : Type := stack * list did -> (A + buildErr) * (stack * list did).
Definition pure {A} (a : A) : Build A := fun s => (inl a, s).
Definition bind {A B} (m : Build A) (k : A -> Build B) : Build B :=
  fun s => match m s with (inl a, s') => k a s' | (inr e, s') => (inr e, s') end.
Definition require (ok : bool) (e : buildErr) : Build unit := fun s => (if ok then inl tt else inr e, s).
Definition act (d : did) (f : stack -> stack) : Build unit := fun '(k, t) => (inl tt, (f k, t ++ [d])).

#[local] Notation "'do' x <- m ; k" := (bind m (fun x => k)) (at level 200, x name, m at level 100, k at level 200).
#[local] Notation "m ;; k" := (bind m (fun _ => k)) (at level 100, k at level 200, right associativity).

Definition same (k : stack) : stack := k.
Definition withLock k := mkStack true (k_listener k) (k_httpSrv k) (k_tc k) (k_auditor k) (k_srv k) (k_d k) (k_publicURL k).
Definition withListener k := mkStack (k_lock k) true (k_httpSrv k) (k_tc k) (k_auditor k) (k_srv k) (k_d k) (k_publicURL k).
Definition withHTTP k := mkStack (k_lock k) (k_listener k) true (k_tc k) (k_auditor k) (k_srv k) (k_d k) (k_publicURL k).
Definition withTunnel k := mkStack (k_lock k) (k_listener k) (k_httpSrv k) true (k_auditor k) (k_srv k) (k_d k) (k_publicURL k).
Definition withAuditor k := mkStack (k_lock k) (k_listener k) (k_httpSrv k) (k_tc k) true (k_srv k) (k_d k) (k_publicURL k).
Definition withServer k := mkStack (k_lock k) (k_listener k) (k_httpSrv k) (k_tc k) (k_auditor k) true (k_d k) (k_publicURL k).
Definition withDaemon k := mkStack (k_lock k) (k_listener k) (k_httpSrv k) (k_tc k) (k_auditor k) (k_srv k) true (k_publicURL k).
Definition withURL u k := mkStack (k_lock k) (k_listener k) (k_httpSrv k) (k_tc k) (k_auditor k) (k_srv k) (k_d k) u.

(** Which steps succeed; [b_quickURL] is what [waitQuickTunnelURL] learns. *)
Record building := mkBuilding {
  b_handshake : bool; b_assets : bool; b_fallback : bool; b_lock : bool; b_listen : bool; b_engine : bool;
  b_quickURL : option (list byte); b_instance : bool; b_roots : bool; b_audit : bool; b_server : bool
}.

Section Stack.
Context (env : list byte -> list byte) (development : bool) (ToLower : list byte -> list byte).

(** [buildStack] up to its first error. *)
Definition build (cfg : Config.Config) (mode stateDir : list byte) (b : building) : Build unit :=
  require (negb (isEmpty (Assembly.resolveHerdrSocket cfg env))) NoSocket ;;
  require (b_handshake b) HandshakeFailed ;;
  require (b_assets b) NoAssets ;;
  require (negb (b_fallback b && negb development)) FallbackAssets ;;
  require (b_lock b) StateLocked ;;
  act LockTaken withLock ;;
  require (b_listen b) PortBusy ;;
  act ListenerBound withListener ;;
  act HTTPServing withHTTP ;;
  require (b_engine b) EngineFailed ;;
  act EngineRunning same ;;
  act SubscriberRunning same ;;
  (if Config.ModeManagesTunnel mode
   then require (bool_decide ((Tunnel.Validate (Assembly.tunnelConfig cfg mode (Config.Port (Config.server cfg)) stateDir)).2 = None)) TunnelRejected ;;
        act TunnelStarted withTunnel
   else pure tt) ;;
  (if bool_decide (mode = Config.ModeQuick)
   then match b_quickURL b with
        | Some u => fun '(k, t) => (inl tt, (withURL u k, t))
        | None => require false NoQuickURL
        end
   else fun '(k, t) => (inl tt, (withURL (Config.PublicURL (Config.cloudflare cfg)) k, t))) ;;
  require (b_instance b) NoInstanceID ;;
  require (match Assembly.buildAuth ToLower cfg mode with inl _ => true | inr _ => false end) AuthFailed ;;
  act JanitorStarted same ;;
  require (b_roots b) RootsRejected ;;
  require (b_audit b) AuditFailed ;;
  act AuditOpened withAuditor ;;
  require (b_server b) ServerRejected ;;
  act ServerBuilt withServer ;;
  act ServerInstalled same ;;
  fun '(k, t) => (inl tt, (withDaemon k, t)).

(** [abort] of what is set up, in its order. *)
Definition abort (k : stack) : list did :=
  (if k_srv k then [ServerClosed] else []) ++
  (if k_httpSrv k then [HTTPClosed] else if k_listener k then [ListenerClosed] else []) ++
  (if k_tc k then [TunnelStopped] else []) ++
  (if k_auditor k then [AuditClosed] else []) ++
  (if k_lock k then [LockReleased] else []).

(** [shutdown]; the daemon's own shutdown stops its children, closes the control
    socket and releases the lock. *)
Definition shutdown (k : stack) : list did :=
  (if k_srv k then [ServerClosed] else []) ++ (if k_httpSrv k then [HTTPDrained] else []) ++
  (if k_d k then [DaemonDown] else []) ++ (if k_auditor k then [AuditClosed] else []).

(** [buildStack]: the deferred [abort] runs once the lock is taken. *)
Definition buildStack (cfg : Config.Config) (mode stateDir : list byte) (b : building) : (stack + buildErr) * list did :=
  match build cfg mode stateDir b (emptyStack, []) with
  | (inl _, (k, t)) => (inl k, t)
  | (inr e, (k, t)) => (inr e, t ++ (if k_lock k then abort k else []))
  end.

(** [run]: serve until the context ends, then shut down. *)
Definition run (served : bool) (k : stack) : list did :=
  if served then DaemonServing :: shutdown k else abort k.

(** The whole life of a serving process after its checks. *)
Definition serveLife (cfg : Config.Config) (mode stateDir : list byte) (b : building) (served : bool) : list did :=
  match buildStack cfg mode stateDir b with
  | (inl k, t) => t ++ run served k
  | (inr _, t) => t
  end.
End Stack.

(** [swapHandler]: 503 until the server is installed. *)
Definition swapServe {A} (h : option (A -> Z * list byte)) (r : A) : Z * list byte :=
  match h with None => (503, bytesOf "starting" ++ [x0a]) | Some f => f r end.

(** [herdrHealth] and [stateHealth]. *)
Definition herdrHealth (pinged : bool) : bool * string := if pinged then (true, "connected") else (false, "unreachable").
Definition stateHealth (snapshot lastPollOk : bool) : bool * string :=
  if negb snapshot then (false, "no snapshot yet") else if negb lastPollOk then (false, "poll error") else (true, "ok").

(** ** Facts *)

(** What has to be taken down; the other workers end with the serve context. *)
Inductive resource := RLock | RPort | RTunnel | RAudit | RServer.
#[export] Instance resource_dec : EqDecision resource.
Proof. solve_decision. Defined.

Definition takes (d : did) : list resource :=
  match d with
  | LockTaken => [RLock] | ListenerBound => [RPort] | TunnelStarted => [RTunnel] | AuditOpened => [RAudit]
  | ServerBuilt => [RServer] | _ => []
  end.

Definition frees (d : did) : list resource :=
  match d with
  | ServerClosed => [RServer] | HTTPClosed | HTTPDrained | ListenerClosed => [RPort] | TunnelStopped => [RTunnel]
  | DaemonDown => [RTunnel; RLock] | AuditClosed => [RAudit] | LockReleased => [RLock] | _ => []
  end.

(** What is held after a trace. *)
Definition heldStep (h : list resource) (d : did) : list resource :=
  List.filter (fun r => negb (bool_decide (r ∈ frees d))) h ++ takes d.
Definition held (t : list did) : list resource := foldl heldStep [] t.

(** The port, the tunnel and the server are only held together with the lock. *)
Definition covered (h : list resource) : bool :=
  bool_decide (RLock ∈ h) || forallb (fun r => bool_decide (r = RAudit)) h.

Fixpoint coveredFrom (h : list resource) (t : list did) : bool :=
  match t with [] => true | d :: t' => covered (heldStep h d) && coveredFrom (heldStep h d) t' end.

Lemma coveredFrom_prefix t : forall h n, covered h = true -> coveredFrom h t = true ->
  covered (foldl heldStep h (take n t)) = true.
Proof.
  induction t as [|d t IH]; intros h n Hh H; [by rewrite take_nil|]. destruct n as [|n]; [done|].
  simpl in H. apply andb_prop in H as [H1 H2]. simpl. by apply IH.
Qed.

Lemma covered_spec h : covered h = true -> forall r, r ∈ [RPort; RTunnel; RServer] -> r ∈ h -> RLock ∈ h.
Proof.
  unfold covered. intros [H%bool_decide_eq_true|H]%orb_prop r Hr Hh; [done|]. rewrite forallb_forall in H.
  apply list_elem_of_In, H, bool_decide_eq_true in Hh as ->. set_solver.
Qed.

(** Every way a life can go, by the step that fails. *)
Definition lifeOk (t : list did) : bool :=
  isEmpty (held t) && coveredFrom [] t && (isEmpty t || bool_decide (head t = Some LockTaken)).

Lemma serveLife_ok env development ToLower cfg mode stateDir b served :
  lifeOk (serveLife env development ToLower cfg mode stateDir b served) = true.
Proof.
  unfold serveLife, buildStack, build, bind, require, act, pure, same.
  destruct (negb (isEmpty _)); [|done]. destruct (b_handshake b); [|done]. destruct (b_assets b); [|done].
  destruct (negb (_ && _)); [|done]. destruct (b_lock b); [|done]. destruct (b_listen b); [|done].
  destruct (b_engine b); [|done]. destruct (Config.ModeManagesTunnel mode).
  - destruct (bool_decide (_ = None)); [|done]. destruct (bool_decide (mode = _)); [destruct (b_quickURL b); [|done]|].
    all: destruct (b_instance b); [|done]; destruct (Assembly.buildAuth _ _ _); [|done].
    all: destruct (b_roots b); [|done]; destruct (b_audit b); [|done]; destruct (b_server b); [|done]; by destruct served.
  - destruct (bool_decide (mode = _)); [destruct (b_quickURL b); [|done]|].
    all: destruct (b_instance b); [|done]; destruct (Assembly.buildAuth _ _ _); [|done].
    all: destruct (b_roots b); [|done]; destruct (b_audit b); [|done]; destruct (b_server b); [|done]; by destruct served.
Qed.

(** A serving process leaves nothing behind. Whichever step of building fails, or
    when serving fails, or after the shutdown: the port, the tunnel, the server, the
    audit log and the lock are all released. At every moment in between, the port, the
    tunnel and the server are held only together with the state lock, which is the
    first thing taken; so a second daemon on the directory never competes for them. *)
Theorem serve_releases (env : list byte -> list byte) (development : bool) (ToLower : list byte -> list byte)
    (cfg : Config.Config) (mode stateDir : list byte) (b : building) (served : bool) :
  let t := serveLife env development ToLower cfg mode stateDir b served in
  held t = [] /\
  (forall n r, r ∈ [RPort; RTunnel; RServer] -> r ∈ held (take n t) -> RLock ∈ held (take n t)) /\
  (t = [] \/ head t = Some LockTaken).
Proof.
  intros t. pose proof (serveLife_ok env development ToLower cfg mode stateDir b served) as H. fold t in H.
  apply andb_prop in H as [[H1%isEmpty_true H2]%andb_prop H3]. split_and!; [done| |].
  - intros n r. apply covered_spec. by apply (coveredFrom_prefix t [] n).
  - apply orb_prop in H3 as [H3%isEmpty_true|H3%bool_decide_eq_true]; auto.
Qed.

(** The server is installed only with the public address it pins, which in quick
    mode is the learned one. *)
Theorem server_pins_address (env : list byte -> list byte) (development : bool) (ToLower : list byte -> list byte)
    (cfg : Config.Config) (mode stateDir : list byte) (b : building) :
  match buildStack env development ToLower cfg mode stateDir b with
  | (inl k, t) =>
      (if bool_decide (mode = Config.ModeQuick) then Some (k_publicURL k) = b_quickURL b
       else k_publicURL k = Config.PublicURL (Config.cloudflare cfg)) /\
      k_tc k = Config.ModeManagesTunnel mode /\
      held t = [RLock; RPort] ++ (if k_tc k then [RTunnel] else []) ++ [RAudit; RServer] /\ ServerInstalled ∈ t
  | (inr _, t) => ServerInstalled ∉ t
  end.
Proof.
  unfold buildStack, build, bind, require, act, pure, same.
  assert (Hno : forall t : list did, bool_decide (ServerInstalled ∈ t) = false -> ServerInstalled ∉ t) by (intros t; apply bool_decide_eq_false).
  assert (Hin : forall t : list did, bool_decide (ServerInstalled ∈ t) = true -> ServerInstalled ∈ t) by (intros t; apply bool_decide_eq_true).
  destruct (negb (isEmpty _)); [|by apply Hno]. destruct (b_handshake b); [|by apply Hno]. destruct (b_assets b); [|by apply Hno].
  destruct (negb (_ && _)); [|by apply Hno]. destruct (b_lock b); [|by apply Hno]. destruct (b_listen b); [|by apply Hno].
  destruct (b_engine b); [|by apply Hno].
  destruct (Config.ModeManagesTunnel mode); [destruct (bool_decide (_ = None)); [|by apply Hno]|].
  all: destruct (bool_decide (mode = _)); [destruct (b_quickURL b); [|by apply Hno]|].
  all: destruct (b_instance b); [|by apply Hno]; destruct (Assembly.buildAuth _ _ _); [|by apply Hno].
  all: destruct (b_roots b); [|by apply Hno]; destruct (b_audit b); [|by apply Hno]; destruct (b_server b); [|by apply Hno].
  all: split_and!; [done|done|done|by apply Hin].
Qed.
