(* ===== verification/Cli.v ===== *)
(** * Cli: the command line of internal/app (cli.go, commands.go, doctor.go) and the
    environment diagnostics of internal/integration/doctor.go

    A command reads its arguments, the loaded configuration and the answers of the
    orchestration backend, and writes to two streams. The backend is the interface
    [Runtime] of runtime.go; quoting, times, JSON and the QR code are parameters. *)

From stdpp Require Import pretty.
From S2P Require Import Prelude GoStr GoText Launch.
From S2P Require Config Assembly Tunnel.

#[local] Open Scope Z_scope.

(** ** Output *)

Definition exitOK : Z := 0.
Definition exitError : Z := 1.
Definition exitUsage : Z := 2.

Record output := mkOutput { code : Z; stdout : list byte; stderr : list byte }.

Definition newline : list byte := [x0a].
Definition num (z : Z) : list byte := bytesOf (pretty z).

Definition NameText : list byte := bytesOf "herdr-phone".
Definition VersionText : list byte := bytesOf "0.4.0".

Definition usage : list byte := bytesOf "Herdr Phone 0.4.0 — use your Mac's Herdr session from your phone

Usage:
  herdr-phone <command> [flags]

Commands:
  start [--quick] [--foreground]   Start the relay daemon and print the URL to open
  stop                             Gracefully stop the relay daemon
  toggle                           Stop the relay if running, otherwise start it
  status [--json]                  Show relay status
  setup-link                       Rotate the pairing secret and print a new link
  doctor                           Validate config, Herdr, cloudflared, and state
  serve                            Run the daemon in the foreground (internal)
  version                          Print the version
  help                             Show this help

Flags:
  -h, --help       Show this help
  -v, --version    Print the version

Configuration is loaded from $HERDR_PLUGIN_CONFIG_DIR/config.toml,
$XDG_CONFIG_HOME/herdr-phone/config.toml, or
$HOME/.config/herdr-phone/config.toml. See config.example.toml for the full
reference.
".

(** ** The orchestration backend *)

Record DoctorCheck := mkCheck { ck_Name : list byte; ck_OK : bool; ck_Detail : list byte }.

(** The interface [Runtime]; an error is its text. *)
Class Runtime := mkBackend {
  rtStart : Config.Config -> bool -> StartResult + list byte;
  rtServe : Config.Config -> bool -> option (list byte);
  rtStop : Config.Config -> bool + list byte;
  rtStatus : Config.Config -> AppStatus + list byte;
  rtRotatePairing : Config.Config -> list byte + list byte;
  rtDoctor : Config.Config -> list DoctorCheck + list byte
}.

(** What the process gives a command: the configuration or the error of loading it,
    and the backend, absent in a build without one. *)
Record Environment := mkEnvironment { loadConfig : Config.Config + list byte; backend : option Runtime }.

Definition errRuntimeUnavailable : list byte :=
  bytesOf "orchestration backend not configured: this build cannot manage the daemon".

Definition ok (out : list byte) : output := mkOutput exitOK out [].
Definition fail (cmd : string) (err : list byte) : output :=
  mkOutput exitError [] (bytesOf "herdr-phone " ++ bytesOf cmd ++ bytesOf ": " ++ err ++ newline).

(** [loadConfigOrReport], then [env.runtime()]. *)
Definition withRuntime (env : Environment) (cmd : string) (k : Config.Config -> Runtime -> output) : output :=
  match loadConfig env with
  | inr err => fail cmd err
  | inl cfg => match backend env with None => fail cmd errRuntimeUnavailable | Some rt => k cfg rt end
  end.

(** ** Arguments *)

Definition hasHelp (args : list string) : bool := existsb (fun a => bool_decide (a = "-h") || bool_decide (a = "--help")) args.

Section Commands.
(** [%q]; the QR code of a link; RFC 3339 of Unix milliseconds; JSON. *)
Context (quoted : string -> list byte) (qr : list byte -> list byte) (rfc3339 : Z -> list byte)
  (encodeStatus : list (string * (bool + Z + list byte)) -> list byte + list byte).

(** The flags seen, or the complaint about the first bad argument. *)
Definition parseBoolFlags (args : list string) (allowed : list string) : list string + list byte :=
  foldl (fun acc a =>
    match acc with
    | inr e => inr e
    | inl seen =>
        if negb (String.prefix "--" a) then inr (bytesOf "unexpected argument " ++ quoted a)
        else
          let name := String.substring 2 (String.length a - 2) a in
          if bool_decide (name ∈ allowed) then inl (seen ++ [name]) else inr (bytesOf "unknown flag " ++ quoted a)
    end) (inl []) args.

Definition usageError (cmd : string) (err : list byte) : output :=
  mkOutput exitUsage [] (bytesOf "herdr-phone " ++ bytesOf cmd ++ bytesOf ": " ++ err ++ newline ++ newline ++ usage).

Definition requireNoArgs (cmd : string) (rest : list string) : option output :=
  if hasHelp rest then Some (ok usage)
  else match rest with
       | [] => None
       | _ => Some (mkOutput exitUsage [] (bytesOf "herdr-phone " ++ bytesOf cmd ++ bytesOf " takes no arguments (got " ++
                quoted (String.concat " " rest) ++ bytesOf ")" ++ newline ++ newline ++ usage))
       end.

(** ** Start, toggle, serve and stop *)

Definition line (s : list byte) : list byte := s ++ newline.

(** The address to open and whether it is a pairing link. *)
Definition openURL (res : StartResult) : list byte * bool :=
  if bool_decide (sr_Mode res = "quick") then
    if negb (isEmpty (sr_PairingURL res)) then (sr_PairingURL res, true) else (sr_PublicURL res, false)
  else if negb (isEmpty (sr_PublicURL res)) then (sr_PublicURL res, false)
  else (sr_PairingURL res, negb (isEmpty (sr_PairingURL res))).

Definition printStartResult (res : StartResult) : list byte :=
  let quick := bool_decide (sr_Mode res = "quick") in
  (if sr_AlreadyRunning res
   then line (bytesOf "herdr-phone is already running (" ++ bytesOf (sr_Mode res) ++ bytesOf " mode).")
   else line (bytesOf "herdr-phone started in " ++ bytesOf (sr_Mode res) ++ bytesOf " mode.")) ++
  (if negb (isEmpty (sr_PublicURL res)) then line (bytesOf "Public URL: " ++ sr_PublicURL res) else []) ++
  (if quick && negb (isEmpty (sr_PairingURL res)) then line (bytesOf "Pairing:    " ++ sr_PairingURL res) else []) ++
  let (url, isPairing) := openURL res in
  if isEmpty url then []
  else
    newline ++ line (bytesOf "Open on your phone: " ++ url) ++
    line (if isPairing then bytesOf "This pairing link works once; run `herdr-phone setup-link` for a new one."
          else if quick then bytesOf "Quick mode needs a pairing link to get in; run `herdr-phone setup-link` for one."
          else bytesOf "Cloudflare Access signs you in; no pairing link is needed.").

Definition reportStart (cmd : string) (r : StartResult + list byte) : output :=
  match r with inr err => fail cmd err | inl res => ok (printStartResult res) end.

Definition runStart (env : Environment) (args : list string) : output :=
  if hasHelp args then ok usage
  else
    match parseBoolFlags args ["quick"; "foreground"] with
    | inr err => usageError "start" err
    | inl flags =>
        withRuntime env "start" (fun cfg rt =>
          let quick := bool_decide ("quick" ∈ flags) in
          if bool_decide ("foreground" ∈ flags)
          then match rtServe cfg quick with Some err => fail "start" err | None => ok [] end
          else reportStart "start" (rtStart cfg quick))
    end.

Definition runToggle (env : Environment) : output :=
  withRuntime env "toggle" (fun cfg rt =>
    match rtStatus cfg with
    | inr err => fail "toggle" err
    | inl st =>
        if as_Running st then
          match rtStop cfg with
          | inr err => fail "toggle" err
          | inl true => ok (line (bytesOf "herdr-phone is now off (stopped)."))
          | inl false => ok (line (bytesOf "herdr-phone is now off (was not running)."))
          end
        else reportStart "toggle" (rtStart cfg false)
    end).

Definition runServe (env : Environment) (args : list string) : output :=
  if hasHelp args then ok usage
  else
    match parseBoolFlags args ["quick"] with
    | inr err => usageError "serve" err
    | inl flags =>
        withRuntime env "serve" (fun cfg rt =>
          match rtServe cfg (bool_decide ("quick" ∈ flags)) with Some err => fail "serve" err | None => ok [] end)
    end.

Definition runStop (env : Environment) : output :=
  withRuntime env "stop" (fun cfg rt =>
    match rtStop cfg with
    | inr err => fail "stop" err
    | inl true => ok (line (bytesOf "herdr-phone stopped."))
    | inl false => ok (line (bytesOf "herdr-phone was not running."))
    end).

(** ** Status and setup-link *)

Definition healthy (b : bool) : list byte := if b then bytesOf "healthy" else bytesOf "unhealthy".

Definition printStatusJSON (st : AppStatus) : output :=
  let text s := inr (bytesOf s) in
  let payload : list (string * (bool + Z + list byte)) :=
    [("running", inl (inl (as_Running st))); ("mode", text (as_Mode st)); ("public_url", inr (as_PublicURL st));
     ("local_address", inr (as_LocalAddress st)); ("version", text (as_Version st));
     ("protocol", inl (inr (as_Protocol st))); ("pid", inl (inr (as_PID st))); ("health", text (as_Health st));
     ("herdr_healthy", inl (inl (as_HerdrHealthy st))); ("tunnel_healthy", inl (inl (as_TunnelHealthy st)));
     ("state_healthy", inl (inl (as_StateHealthy st))); ("connected_clients", inl (inr (as_ConnectedClients st)))] ++
    match as_StartedAt st with Some t => [("started_at", inr (rfc3339 t))] | None => [] end in
  match encodeStatus payload with
  | inl out => ok out
  | inr err => fail "status" err
  end.

Definition printStatusText (st : AppStatus) : list byte :=
  if negb (as_Running st) then line (bytesOf "herdr-phone: not running")
  else
    line (bytesOf "herdr-phone: running (" ++ bytesOf (as_Health st) ++ bytesOf ")") ++
    line (bytesOf "  mode:              " ++ bytesOf (as_Mode st)) ++
    (if isEmpty (as_PublicURL st) then [] else line (bytesOf "  public URL:        " ++ as_PublicURL st)) ++
    (if isEmpty (as_LocalAddress st) then [] else line (bytesOf "  local address:     " ++ as_LocalAddress st)) ++
    (if bool_decide (as_Version st = "") then [] else line (bytesOf "  version:           " ++ bytesOf (as_Version st))) ++
    (if as_PID st =? 0 then [] else line (bytesOf "  pid:               " ++ num (as_PID st))) ++
    match as_StartedAt st with Some t => line (bytesOf "  started:           " ++ rfc3339 t) | None => [] end ++
    line (bytesOf "  herdr:             " ++ healthy (as_HerdrHealthy st)) ++
    line (bytesOf "  tunnel:            " ++ healthy (as_TunnelHealthy st)) ++
    line (bytesOf "  state engine:      " ++ healthy (as_StateHealthy st)) ++
    line (bytesOf "  connected clients: " ++ num (as_ConnectedClients st)).

Definition runStatus (env : Environment) (args : list string) : output :=
  if hasHelp args then ok usage
  else
    match parseBoolFlags args ["json"] with
    | inr err => usageError "status" err
    | inl flags =>
        withRuntime env "status" (fun cfg rt =>
          match rtStatus cfg with
          | inr err => fail "status" err
          | inl st => if bool_decide ("json" ∈ flags) then printStatusJSON st else ok (printStatusText st)
          end)
    end.

Definition runSetupLink (env : Environment) : output :=
  withRuntime env "setup-link" (fun cfg rt =>
    match rtRotatePairing cfg with
    | inr err => fail "setup-link" err
    | inl url =>
        ok (line (bytesOf "Scan this QR code or open the link on your phone (single use):") ++ newline ++
            qr url ++ newline ++ line url)
    end).

(** ** Doctor *)

(** A reported line and whether its check passed. *)
Definition report (good : bool) (msg : list byte) : list byte :=
  (if good then bytesOf "[ok]    " else bytesOf "[fail]  ") ++ msg ++ newline.

(** A list of reported checks: their lines, and whether all passed. *)
Definition reportAll (checks : list (bool * list byte)) : list byte * bool :=
  (checks ≫= fun c => report c.1 c.2, forallb fst checks).

(** The user, the credential files and the workspace roots as the checks see them,
    with the text of their errors. *)
Context (uid : Z) (lstat : list byte -> option Config.fileInfo) (secretErr : list byte -> list byte).
Context (evalSymlinks : list byte -> option (list byte)) (isDir : list byte -> option bool) (rootsErr : list byte).

Definition checkCredentialFiles (cfg : Config.Config) : list (bool * list byte) :=
  let files := [(bytesOf "cloudflare.credentials_file", Config.CredentialsFile (Config.cloudflare cfg));
                (bytesOf "cloudflare.token_file", Config.TokenFile (Config.cloudflare cfg))] in
  let configured := List.filter (fun f => negb (isEmpty f.2)) files in
  if isEmpty configured then [(true, bytesOf "Credential files: none configured")]
  else (fun '(label, path) =>
          if Config.VerifySecretFile uid (lstat path) then (true, label ++ bytesOf ": " ++ path ++ bytesOf " (permissions ok)")
          else (false, label ++ bytesOf ": " ++ secretErr path)) <$> configured.

Definition checkWorkspaceRoots (cfg : Config.Config) : list (bool * list byte) :=
  let roots := Config.AllowedWorkspaceRoots (Config.server cfg) in
  if isEmpty roots then [(true, bytesOf "Workspace roots: none configured (directory browsing disabled)")]
  else match Config.VerifyWorkspaceRoots evalSymlinks isDir roots with
       | None => [(false, bytesOf "Workspace roots: " ++ rootsErr)]
       | Some resolved => (fun r => (true, bytesOf "Workspace root: " ++ r)) <$> resolved
       end.

Definition environmentChecks (env : Environment) (cfg : Config.Config) : list (bool * list byte) :=
  match backend env with
  | None => [(false, bytesOf "Environment diagnostics: " ++ errRuntimeUnavailable)]
  | Some rt =>
      match rtDoctor cfg with
      | inr err => [(false, bytesOf "Environment diagnostics: " ++ err)]
      | inl checks => (fun c => (ck_OK c, ck_Name c ++ bytesOf ": " ++ ck_Detail c)) <$> checks
      end
  end.

(** All the checks after the configuration has loaded. *)
Definition doctorChecks (env : Environment) (cfg : Config.Config) : list (bool * list byte) :=
  checkCredentialFiles cfg ++ checkWorkspaceRoots cfg ++ environmentChecks env cfg.

Definition runDoctor (env : Environment) : output :=
  match loadConfig env with
  | inr err =>
      mkOutput exitError (report false (bytesOf "Configuration: " ++ err) ++ newline ++
        line (bytesOf "Configuration is invalid; fix it before running other checks.")) []
  | inl cfg =>
      let source := if isEmpty (Config.SourcePath cfg) then bytesOf "built-in defaults (no config file)" else Config.SourcePath cfg in
      let (lines, good) := reportAll (doctorChecks env cfg) in
      let head := report true (bytesOf "Configuration: valid — " ++ source) ++ lines ++ newline in
      if good then ok (head ++ line (bytesOf "All checks passed."))
      else mkOutput exitError (head ++ line (bytesOf "Some checks failed; see above.")) []
  end.

(** ** Dispatch *)

Definition Main (env : Environment) (args : list string) : output :=
  match args with
  | [] => mkOutput exitUsage [] usage
  | cmd :: rest =>
      let noArgs k := match requireNoArgs cmd rest with Some o => o | None => k end in
      if bool_decide (cmd ∈ ["help"; "--help"; "-h"]) then ok usage
      else if bool_decide (cmd ∈ ["version"; "--version"; "-v"]) then noArgs (ok (line (NameText ++ bytesOf " " ++ VersionText)))
      else if bool_decide (cmd = "start") then runStart env rest
      else if bool_decide (cmd = "serve") then runServe env rest
      else if bool_decide (cmd = "stop") then noArgs (runStop env)
      else if bool_decide (cmd = "toggle") then noArgs (runToggle env)
      else if bool_decide (cmd = "status") then runStatus env rest
      else if bool_decide (cmd = "setup-link") then noArgs (runSetupLink env)
      else if bool_decide (cmd = "doctor") then noArgs (runDoctor env)
      else mkOutput exitUsage [] (bytesOf "herdr-phone: unknown command " ++ quoted cmd ++ newline ++ newline ++ usage)
  end.

(** [main] of cmd/herdr-phone: the arguments are those after the program's name; an
    empty argument vector is a slice out of range, a panic. *)
Definition processMain (env : Environment) (argv : list string) : option output :=
  match argv with [] => None | _ :: args => Some (Main env args) end.
End Commands.

(** ** The environment diagnostics *)

Section Diagnostics.
(** What the machine answers: the handshake, the lookup of the binary and the
    creation of the state directory; error texts are parameters. *)
Context (handshake : list byte -> (list byte * Z) + list byte) (lookPath : list byte -> option (list byte)).
Context (tunnelErr : Tunnel.configError -> list byte) (ensureStateDir : list byte -> option (list byte)) (darwin : bool).
Context (env : list byte -> list byte).

Definition MacOSKillWindowNote : list byte :=
  bytesOf "macOS has no parent-death signal: a cloudflared child can outlive a SIGKILLed daemon and keep the public tunnel up until the next start reconciles and terminates the verified orphan.".

Definition errNoStateDir : list byte :=
  bytesOf "cannot resolve a state directory: set HERDR_PLUGIN_STATE_DIR, XDG_STATE_HOME, or HOME".

Definition accessIdentityGateName : list byte := bytesOf "Access identity allowlist".

Definition accessIdentityGateCheck (cfg : Config.Config) : option DoctorCheck :=
  let a := Config.access cfg in
  if negb (Config.ModeUsesAccess (Config.Mode (Config.cloudflare cfg))) then None
  else if Config.HasIdentityAllowlist a then
    Some (mkCheck accessIdentityGateName true
      (num (Z.of_nat (length (Config.AllowedIdentities a))) ++ bytesOf " identity/identities allowed, matched exactly at the origin"))
  else if Config.AllowAnyIdentity a then
    Some (mkCheck accessIdentityGateName true
      (bytesOf "WARNING: allow_any_identity = true with an empty allowed_identities — every identity your Cloudflare Access policy admits gets a shell-equivalent session, and Access is the only gate (named mode needs no pairing). Set auth.access.allowed_identities to your own email unless the Access policy itself is the intended boundary"))
  else
    Some (mkCheck accessIdentityGateName false
      (bytesOf "empty auth.access.allowed_identities without auth.access.allow_any_identity — this configuration is invalid in named mode")).

Definition herdrCheck (cfg : Config.Config) : DoctorCheck :=
  let socket := Assembly.resolveHerdrSocket cfg env in
  if isEmpty socket
  then mkCheck (bytesOf "Herdr") false (bytesOf "socket path unresolved: set herdr.socket_path or HERDR_SOCKET_PATH")
  else match handshake socket with
       | inr err => mkCheck (bytesOf "Herdr") false (bytesOf "unreachable at " ++ socket ++ bytesOf " (" ++ err ++ bytesOf ")")
       | inl (version, protocol) =>
           mkCheck (bytesOf "Herdr") true
             (bytesOf "v" ++ version ++ bytesOf " protocol " ++ num protocol ++ bytesOf " at " ++ socket)
       end.

Definition cloudflaredCheck (cfg : Config.Config) : DoctorCheck :=
  let bin := match Config.Binary (Config.cloudflare cfg) with [] => bytesOf "cloudflared" | b => b end in
  match lookPath bin with
  | None => mkCheck (bytesOf "cloudflared") false
              (bytesOf "not found (" ++ bin ++ bytesOf "); install it, e.g. `brew install cloudflared`")
  | Some path => mkCheck (bytesOf "cloudflared") true path
  end.

Definition tunnelCheck (cfg : Config.Config) : DoctorCheck :=
  let mode := Config.Mode (Config.cloudflare cfg) in
  match (Tunnel.Validate (Assembly.tunnelConfig cfg mode (Config.Port (Config.server cfg)) [])).2 with
  | Some err => mkCheck (bytesOf "Tunnel config") false (tunnelErr err)
  | None => mkCheck (bytesOf "Tunnel config") true (bytesOf "mode " ++ mode)
  end.

Definition stateDirCheck : DoctorCheck :=
  match Assembly.resolveStateDir env with
  | None => mkCheck (bytesOf "State directory") false errNoStateDir
  | Some dir =>
      match ensureStateDir dir with
      | Some err => mkCheck (bytesOf "State directory") false err
      | None => mkCheck (bytesOf "State directory") true dir
      end
  end.

Definition Doctor (cfg : Config.Config) : list DoctorCheck :=
  [herdrCheck cfg; cloudflaredCheck cfg] ++
  match accessIdentityGateCheck cfg with Some c => [c] | None => [] end ++
  [tunnelCheck cfg; stateDirCheck] ++
  (if darwin then [mkCheck (bytesOf "macOS tunnel note") true MacOSKillWindowNote] else []).
End Diagnostics.

(** ** Facts *)

Section Facts.
Context (quoted : string -> list byte) (qr : list byte -> list byte) (rfc3339 : Z -> list byte)
  (encodeStatus : list (string * (bool + Z + list byte)) -> list byte + list byte).
Context (uid : Z) (lstat : list byte -> option Config.fileInfo) (secretErr : list byte -> list byte).
Context (evalSymlinks : list byte -> option (list byte)) (isDir : list byte -> option bool) (rootsErr : list byte).

#[local] Abbreviation runMain := (Main quoted qr rfc3339 encodeStatus uid lstat secretErr evalSymlinks isDir rootsErr).
#[local] Abbreviation doctor := (runDoctor uid lstat secretErr evalSymlinks isDir rootsErr).

(** Success writes nothing to the error stream; a failed command nothing to the
    output; a wrong command line ends with the usage. *)
Definition wellBehaved (o : output) : Prop :=
  (code o = exitOK /\ stderr o = []) \/
  (code o = exitError /\ stdout o = [] /\ stderr o ≠ []) \/
  (code o = exitUsage /\ stdout o = [] /\ exists msg, stderr o = msg ++ usage).

Lemma ok_behaved out : wellBehaved (ok out).
Proof. by left. Qed.

Lemma fail_behaved cmd err : wellBehaved (fail cmd err).
Proof. by right; left. Qed.

Lemma usage_behaved msg : wellBehaved (mkOutput exitUsage [] (msg ++ usage)).
Proof. right; right. eauto. Qed.

Lemma usageError_behaved cmd err : wellBehaved (usageError cmd err).
Proof. unfold usageError. rewrite !app_assoc. apply usage_behaved. Qed.

Create HintDb cli.
#[local] Hint Resolve ok_behaved fail_behaved usage_behaved usageError_behaved : cli.

Lemma withRuntime_behaved env cmd k : (forall cfg rt, wellBehaved (k cfg rt)) -> wellBehaved (withRuntime env cmd k).
Proof. intros H. unfold withRuntime. destruct (loadConfig env); [destruct (backend env)|]; auto with cli. Qed.

Lemma reportStart_behaved cmd r : wellBehaved (reportStart cmd r).
Proof. destruct r; simpl; auto with cli. Qed.

#[local] Hint Resolve withRuntime_behaved reportStart_behaved : cli.

Lemma requireNoArgs_behaved cmd rest k : wellBehaved k ->
  wellBehaved (match requireNoArgs quoted cmd rest with Some o => o | None => k end).
Proof.
  intros Hk. unfold requireNoArgs. destruct (hasHelp rest); [auto with cli|]. destruct rest; [done|].
  rewrite !app_assoc. auto with cli.
Qed.

#[local] Hint Resolve requireNoArgs_behaved : cli.

(** Each command with flags: help, a usage error or the command. *)
Lemma flags_behaved cmd args allowed k : (forall flags, wellBehaved (k flags)) ->
  wellBehaved (if hasHelp args then ok usage
    else match parseBoolFlags quoted args allowed with inr err => usageError cmd err | inl flags => k flags end).
Proof. intros Hk. destruct (hasHelp args); [auto with cli|]. destruct (parseBoolFlags _ _ _); auto with cli. Qed.

Lemma commands_behaved env args :
  wellBehaved (runStart quoted env args) /\ wellBehaved (runServe quoted env args) /\
  wellBehaved (runStatus quoted rfc3339 encodeStatus env args) /\ wellBehaved (runToggle env) /\
  wellBehaved (runStop env) /\ wellBehaved (runSetupLink qr env).
Proof.
  split_and!.
  1-3: apply flags_behaved; intros flags. all: apply withRuntime_behaved; intros cfg rt.
  3: unfold printStatusJSON. all: cbv zeta; repeat case_match; auto with cli.
Qed.

(** A process started with its name ends with exit code 0, 1 or 2. *)
Theorem processMain_exits (env : Environment) (name : string) (args : list string) :
  exists o, processMain quoted qr rfc3339 encodeStatus uid lstat secretErr evalSymlinks isDir rootsErr env (name :: args) = Some o /\
    code o ∈ [exitOK; exitError; exitUsage].
Proof.
  eexists. split; [done|]. assert (Hb : forall o, wellBehaved o -> code o ∈ [exitOK; exitError; exitUsage]).
  { intros o [[-> _]|[[-> _]|[-> _]]]; set_solver. }
  destruct args as [|cmd rest]; [apply Hb; exact (usage_behaved [])|]. unfold Main.
  destruct (commands_behaved env rest) as (? & ? & ? & ? & ? & ?).
  assert (Hd : code (match requireNoArgs quoted cmd rest with Some o => o | None => doctor env end) ∈ [exitOK; exitError; exitUsage]).
  { unfold requireNoArgs, doctor. repeat case_match; cbn; set_solver. }
  repeat (case_bool_decide; [first [exact Hd|apply Hb; auto with cli]|]). apply Hb. rewrite !app_assoc. auto with cli.
Qed.

(** The doctor's checks, one by one. *)
Lemma doctor_code env : code (doctor env) = exitOK <->
  exists cfg, loadConfig env = inl cfg /\
    Forall (fun c => c.1 = true) (doctorChecks uid lstat secretErr evalSymlinks isDir rootsErr env cfg).
Proof.
  unfold doctor. destruct (loadConfig env) as [cfg|err]; [|split; [done|by intros (? & ? & _)]].
  unfold reportAll. destruct (forallb fst _) eqn:E; cbn.
  - split; [|done]. intros _. exists cfg. split; [done|]. apply Forall_forall. intros c Hc.
    rewrite forallb_forall in E. by apply E, list_elem_of_In.
  - split; [done|]. intros (cfg' & [= <-] & H). enough (true = false) by done. rewrite <- E. symmetry.
    apply forallb_forall. intros c Hc%list_elem_of_In. rewrite Forall_forall in H. by apply H.
Qed.

Lemma credentials_pass cfg :
  Forall (fun c => c.1 = true) (checkCredentialFiles uid lstat secretErr cfg) <->
  forall p, p ∈ [Config.CredentialsFile (Config.cloudflare cfg); Config.TokenFile (Config.cloudflare cfg)] -> p ≠ [] ->
    Config.VerifySecretFile uid (lstat p) = true.
Proof.
  unfold checkCredentialFiles. set (files := [_; _]).
  assert (Hin : forall p, p ∈ [Config.CredentialsFile (Config.cloudflare cfg); Config.TokenFile (Config.cloudflare cfg)] /\ p ≠ [] <->
    exists label, (label, p) ∈ List.filter (fun f => negb (isEmpty f.2)) files).
  { intros p. setoid_rewrite list_elem_of_In. setoid_rewrite filter_In. split.
    - intros [H Hp]. apply list_elem_of_In in H. rewrite !elem_of_cons in H.
      destruct H as [->|[->|H]]; [| |by apply elem_of_nil in H]; eexists; (split; [|by apply negb_true_iff, isEmpty_false]);
        [by left|by right; left].
    - intros (label & H & Hp%negb_true_iff%isEmpty_false). split; [|done].
      destruct H as [[= <- <-]|[[= <- <-]|[]]]; [by left|by right; left]. }
  destruct (isEmpty _) eqn:E.
  - apply isEmpty_true in E. rewrite E in Hin. split; [|by repeat constructor].
    intros _ p Hp Hn. destruct (proj1 (Hin p) (conj Hp Hn)) as [label H]. by apply elem_of_nil in H.
  - rewrite Forall_fmap, Forall_forall. split.
    + intros H p Hp Hn. destruct (proj1 (Hin p) (conj Hp Hn)) as [label Hl]. specialize (H _ Hl). cbn in H. by case_match.
    + intros H [label p] Hl. destruct (proj2 (Hin p)) as [Hp Hn]; [by exists label|]. cbn. by rewrite (H p Hp Hn).
Qed.

(** How every command ends. Each command but the doctor ends in one of three ways: it
    succeeds with an empty error stream; it fails with exit code 1 and only an error
    message; or it is refused with exit code 2 and the usage. *)
Theorem command_outcome (env : Environment) (args : list string) :
  head args ≠ Some "doctor" -> wellBehaved (runMain env args).
Proof.
  intros Hd. destruct args as [|cmd rest]; [exact (usage_behaved [])|]. simpl in Hd.
  destruct (commands_behaved env rest) as (? & ? & ? & ? & ? & ?). unfold Main.
  repeat (case_bool_decide; [auto with cli|]); [congruence|]. rewrite !app_assoc. auto with cli.
Qed.

Lemma roots_pass cfg :
  Forall (fun c => c.1 = true) (checkWorkspaceRoots evalSymlinks isDir rootsErr cfg) <->
  is_Some (Config.VerifyWorkspaceRoots evalSymlinks isDir (Config.AllowedWorkspaceRoots (Config.server cfg))).
Proof.
  unfold checkWorkspaceRoots. destruct (isEmpty _) eqn:E.
  - apply isEmpty_true in E. rewrite E. split; [intros _; by eexists|by repeat constructor].
  - destruct (Config.VerifyWorkspaceRoots _ _ _); rewrite ?Forall_cons, ?Forall_fmap.
    + split; [intros _; by eexists|]. intros _. by apply Forall_true.
    + split; [by intros [? _]|by intros [? ?]].
Qed.

Lemma environment_pass env cfg :
  Forall (fun c => c.1 = true) (environmentChecks env cfg) <->
  exists rt checks, backend env = Some rt /\ @rtDoctor rt cfg = inl checks /\ Forall (fun c => ck_OK c = true) checks.
Proof.
  unfold environmentChecks. destruct (backend env) as [rt|].
  - destruct (rtDoctor cfg) as [checks|err] eqn:E; rewrite ?Forall_fmap, ?Forall_cons.
    + split; [intros H; by exists rt, checks|]. intros (rt' & checks' & [= <-] & E' & H). rewrite E in E'. by injection E' as <-.
    + split; [by intros [? _]|]. intros (rt' & checks' & [= <-] & E' & H). congruence.
  - rewrite Forall_cons. split; [by intros [? _]|by intros (? & ? & ? & _)].
Qed.

(** The doctor never reports success from part of its checks. It exits 0 exactly when
    the configuration loads, every configured secret file passes its permission
    check, every workspace root resolves to a directory, and a backend is present
    whose diagnostics all pass; and then, and only then, its last line says so. *)
Theorem doctor_exact (env : Environment) :
  (code (doctor env) = exitOK <->
   exists cfg rt checks, loadConfig env = inl cfg /\
     (forall p, p ∈ [Config.CredentialsFile (Config.cloudflare cfg); Config.TokenFile (Config.cloudflare cfg)] -> p ≠ [] ->
        Config.VerifySecretFile uid (lstat p) = true) /\
     is_Some (Config.VerifyWorkspaceRoots evalSymlinks isDir (Config.AllowedWorkspaceRoots (Config.server cfg))) /\
     backend env = Some rt /\ @rtDoctor rt cfg = inl checks /\ Forall (fun c => ck_OK c = true) checks) /\
  (code (doctor env) = exitOK <-> exists head, stdout (doctor env) = head ++ line (bytesOf "All checks passed.")).
Proof.
  split.
  - rewrite doctor_code. unfold doctorChecks. setoid_rewrite Forall_app. setoid_rewrite Forall_app.
    setoid_rewrite credentials_pass. setoid_rewrite roots_pass. setoid_rewrite environment_pass. naive_solver.
  - assert (Hd : forall a b c d : list byte, reverse (a ++ b) = reverse (c ++ d) -> reverse b ++ reverse a = reverse d ++ reverse c).
    { intros a b c d. by rewrite !reverse_app. }
    unfold doctor. destruct (loadConfig env) as [cfg|err].
    + unfold reportAll. destruct (forallb fst _); cbn [code stdout ok]; split; try done.
      * intros _. eexists. reflexivity.
      * intros [h H]. apply (f_equal reverse), Hd in H. by vm_compute in H.
    + cbn [code stdout]. split; [done|]. intros [h H]. rewrite !app_assoc in H. apply (f_equal reverse), Hd in H. by vm_compute in H.
Qed.
End Facts.

(** The pairing link is not shown where it plays no part. Outside quick mode, with a
    public address, what a start prints does not depend on the pairing link at all; in
    quick mode the link is the address to open, and it is printed. *)
Theorem link_withheld (res : StartResult) (link : list byte) :
  let with_ l := mkStart (sr_Mode res) (sr_PublicURL res) l (sr_AlreadyRunning res) in
  (sr_Mode res ≠ "quick" -> sr_PublicURL res ≠ [] ->
     printStartResult (with_ link) = printStartResult (with_ []) /\ openURL (with_ link) = (sr_PublicURL res, false)) /\
  (sr_Mode res = "quick" -> link ≠ [] ->
     openURL (with_ link) = (link, true) /\
     exists before after, printStartResult (with_ link) = before ++ bytesOf "Pairing:    " ++ link ++ newline ++ after).
Proof.
  intros with_. split.
  - intros Hm Hp. assert (E : forall l, openURL (with_ l) = (sr_PublicURL res, false)).
    { intros l. unfold openURL, with_. cbn. rewrite bool_decide_false by done. by apply isEmpty_false in Hp as ->. }
    split; [|apply E]. unfold printStartResult. rewrite !E. unfold with_. cbn [sr_Mode sr_PublicURL sr_PairingURL sr_AlreadyRunning].
    by rewrite bool_decide_false.
  - intros Hm Hl%isEmpty_false. unfold openURL, printStartResult, with_. cbn. rewrite bool_decide_true, Hl by done. cbn.
    split; [done|]. unfold line. rewrite <- !app_assoc.
    eexists (_ ++ _), _. rewrite <- app_assoc. reflexivity.
Qed.

(** Toggle is stop when a daemon runs and otherwise start without flags: the same
    calls of the backend and the same outcome, up to the command's name and the text
    of a stop. *)
Theorem toggle_exact (quoted : string -> list byte) (cfg : Config.Config) (rt : Runtime) (st : AppStatus) :
  rtStatus cfg = inl st ->
  let env := mkEnvironment (inl cfg) (Some rt) in
  if as_Running st
  then code (runToggle env) = code (runStop env) /\
       (code (runStop env) = exitOK <-> exists was, rtStop cfg = inl was)
  else code (runToggle env) = code (runStart quoted env []) /\ stdout (runToggle env) = stdout (runStart quoted env []).
Proof.
  intros Hst env. unfold runToggle, runStop, runStart, withRuntime. cbn. rewrite Hst. destruct (as_Running st).
  - destruct (rtStop cfg) as [[]|err]; cbn; (split; [done|]); naive_solver.
  - rewrite !bool_decide_false by set_solver. by destruct (rtStart cfg false).
Qed.

(** In external mode the tunnel check of the diagnostics always fails: the tunnel
    package knows no such mode. So the doctor never passes there. *)
Lemma external_rejected cfg port dir : is_Some (Tunnel.Validate (Assembly.tunnelConfig cfg Config.ModeExternal port dir)).2.
Proof. unfold Tunnel.Validate. do 2 (case_match; [by eexists|]). by eexists. Qed.

Lemma doctor_external handshake lookPath tunnelErr ensure darwin env cfg :
  Config.Mode (Config.cloudflare cfg) = Config.ModeExternal ->
  ~ Forall (fun c => ck_OK c = true) (Doctor handshake lookPath tunnelErr ensure darwin env cfg).
Proof.
  intros Hm H. unfold Doctor in H. rewrite !Forall_app in H. destruct H as (_ & _ & H & _).
  apply Forall_cons in H as [H _]. unfold tunnelCheck in H. rewrite Hm in H.
  destruct (external_rejected cfg (Config.Port (Config.server cfg)) []) as [e E]. by rewrite E in H.
Qed.

(** ** Witnesses *)

(** A backend with a daemon running in named mode. *)
Definition sampleStatus : AppStatus :=
  mkAppStatus true "named" (bytesOf "https://h.example") [] "0.4.0" 19 42 None "ready" true true true 0.

Definition sampleBackend : Runtime :=
  mkBackend (fun _ _ => inr (bytesOf "x")) (fun _ _ => None) (fun _ => inl true) (fun _ => inl sampleStatus)
    (fun _ => inl (bytesOf "link")) (fun _ => inl []).

Definition sampleEnvironment : Environment := mkEnvironment (inl Config.Default) (Some sampleBackend).

Lemma command_outcome_witness :
  let o := Main (fun _ => []) (fun _ => []) (fun _ => []) (fun _ => inl []) 501 (fun _ => None) (fun s => s) (fun _ => None)
             (fun _ => None) [] sampleEnvironment ["toggle"] in
  stdout o = line (bytesOf "herdr-phone is now off (stopped).") /\ wellBehaved o.
Proof.
  split; [by vm_compute|].
  apply (command_outcome (fun _ => []) (fun _ => []) (fun _ => []) (fun _ => inl [])). done.
Defined.

Lemma toggle_exact_witness :
  code (runToggle sampleEnvironment) = exitOK /\ code (runToggle sampleEnvironment) = code (runStop sampleEnvironment).
Proof.
  split; [by vm_compute|]. exact (proj1 (toggle_exact (fun _ => []) Config.Default sampleBackend sampleStatus eq_refl)).
Defined.
