(* ===== verification/Discover.v ===== *)
(** * Discover: which agent kinds may be started (internal/herdr/discover.go and
    internal/integration/agentkinds.go)

    The kinds come from the output of the bare [herdr agent] command and are cached.
    What the command prints and how it ends is an input. *)

From stdpp Require Import gmap.
From S2P Require Import Prelude GoStr GoText Sanitize Session Json Dispatch.

#[local] Open Scope Z_scope.

(** ** Output of the command *)

Definition DefaultMaxCommandBytes : nat := 65536.
Definition maxAgentKindLen : nat := 64.

(** [boundedBuffer]: a write keeps what there is room for and reports it all. *)
Definition bufferWrite (max : nat) (buf p : list byte) : list byte * nat :=
  (if (length buf <? max)%nat then buf ++ take (max - length buf) p else buf, length p).

(** The buffer after the writes of a command. *)
Definition captured (max : nat) (writes : list (list byte)) : list byte :=
  foldl (fun buf p => (bufferWrite max buf p).1) [] writes.

Definition kindByte (b : byte) : bool := between 97 122 b || between 48 57 b || (b =b x2d) || (b =b x5f).

Definition validKindIdent (s : list byte) : bool :=
  match s with
  | [] => false
  | b :: s' => (length s <=? maxAgentKindLen)%nat && between 97 122 b && forallb kindByte s'
  end.

(** The valid fields in order, each once. *)
Definition addKind (kinds : list (list byte)) (field : list byte) : list (list byte) :=
  let kind := TrimSpace field in
  if isEmpty kind || negb (validKindIdent kind) then kinds
  else if bool_decide (kind ∈ kinds) then kinds else kinds ++ [kind].

Definition kindsPrefix : list byte := bytesOf "kinds:".

Fixpoint firstKindsLine (lines : list (list byte)) : option (list byte) :=
  match lines with
  | [] => None
  | raw :: lines' =>
      let l := TrimSpace raw in
      if hasPrefix l kindsPrefix then Some (drop (length kindsPrefix) l) else firstKindsLine lines'
  end.

Definition parseAgentKinds (data : list byte) : option (list (list byte)) :=
  match firstKindsLine (splitOn x0a data) with
  | None => None
  | Some rest => match foldl addKind [] (splitOn x7c rest) with [] => None | kinds => Some kinds end
  end.

Inductive discoveryError := DiscoveryTimeout | DiscoveryCanceled | NoKindsLine | CannotRun (msg : list byte).

(** How the run ended: the context's end if it has ended, the process error if there
    is one and it is not a mere exit status. *)
Inductive ctxEnd := Deadline | Cancelled.
Record runResult := mkRun {
  rr_stdout : list (list byte); rr_stderr : list (list byte); rr_ctx : option ctxEnd; rr_failed : option (list byte)
}.

Definition StartableAgentKinds (r : runResult) : list (list byte) + discoveryError :=
  match rr_ctx r with
  | Some Deadline => inr DiscoveryTimeout
  | Some Cancelled => inr DiscoveryCanceled
  | None =>
      match parseAgentKinds (captured DefaultMaxCommandBytes (rr_stdout r)) with
      | Some kinds => inl kinds
      | None =>
          match parseAgentKinds (captured DefaultMaxCommandBytes (rr_stderr r)) with
          | Some kinds => inl kinds
          | None => inr (match rr_failed r with Some msg => CannotRun msg | None => NoKindsLine end)
          end
      end
  end.

(** ** The cache and the document *)

Definition strOf (s : list byte) : string := String.string_of_list_byte s.

(** What discovery answers the cache. *)
Definition found (r : runResult) : option (list string) :=
  match StartableAgentKinds r with inl kinds => Some (strOf <$> kinds) | inr _ => None end.

Definition newAgentKinds (ttl : Z) : agentKinds := mkKinds ttl [] 0 false.

(** One use of the cache: the clock before, what a discovery would answer, and the
    clock after. *)
Record use := mkUse { u_t1 : Z; u_run : runResult; u_t2 : Z; u_t3 : Z }.

Definition listAt (a : agentKinds) (u : use) : agentKinds * option (list string) :=
  listKinds a (u_t1 u) (found (u_run u)) (u_t2 u) (u_t3 u).

Definition afterUses (ttl : Z) (us : list use) : agentKinds := foldl (fun a u => (listAt a u).1) (newAgentKinds ttl) us.

Record capabilitiesBase := mkCaps { HerdrVersion : string; HerdrProtocolOf : Z; LiveHandoff : bool }.

(** [capabilitiesJSON]: the kinds, or that they are unavailable; [num] spells a
    number. *)
Definition capabilities (num : Z -> json) (b : capabilitiesBase) (listed : option (list string)) : list (string * json) :=
  [("herdr_version", JStr (HerdrVersion b)); ("herdr_protocol", num (HerdrProtocolOf b)); ("live_handoff", JBool (LiveHandoff b))] ++
  match listed with
  | None => [("agent_kinds_error", JStr "agent kinds unavailable")]
  | Some kinds => [("agent_kinds", JArr (JStr <$> kinds))]
  end.

(** ** Facts *)

Lemma captured_take max writes : captured max writes = take max (concat writes).
Proof.
  unfold captured. enough (H : forall buf, (length buf <= max)%nat ->
    foldl (fun buf p => (bufferWrite max buf p).1) buf writes = take max (buf ++ concat writes)) by (rewrite H; simpl; [done|lia]).
  induction writes as [|p writes IH]; intros buf Hb; [by rewrite app_nil_r, take_ge|]. simpl. unfold bufferWrite. cbn [fst].
  destruct (Nat.ltb_spec (length buf) max).
  - rewrite IH by (rewrite length_app, length_take; lia). rewrite <- app_assoc. rewrite !take_app.
    rewrite !(take_ge buf) by lia. f_equal. rewrite take_take, length_take.
    replace (Nat.min (max - length buf) (max - length buf)) with (max - length buf)%nat by lia. f_equal. f_equal. lia.
  - rewrite IH by done. rewrite !take_app. by replace (max - length buf)%nat with O by lia.
Qed.

Lemma captured_bound max writes : (length (captured max writes) <= max)%nat.
Proof. rewrite captured_take, length_take. lia. Qed.

(** A field of a kinds line among the rows. *)
Definition printed (data kind : list byte) : Prop :=
  exists raw rest field, raw ∈ splitOn x0a data /\ TrimSpace raw = kindsPrefix ++ rest /\
    field ∈ splitOn x7c rest /\ TrimSpace field = kind.

Lemma prefix_then_rest s pre : hasPrefix s pre = true -> s = pre ++ drop (length pre) s.
Proof.
  revert s. induction pre as [|b pre IH]; intros s H; [done|]. destruct s as [|c s]; [done|].
  simpl in H. apply andb_prop in H as [H1 H2]. apply byte_eqb_eq in H1 as ->. simpl. f_equal. by apply IH.
Qed.

Lemma firstKindsLine_row lines rest : firstKindsLine lines = Some rest -> exists raw, raw ∈ lines /\ TrimSpace raw = kindsPrefix ++ rest.
Proof.
  induction lines as [|l lines IH]; [done|]. cbn [firstKindsLine]. destruct (hasPrefix (TrimSpace l) kindsPrefix) eqn:E.
  - intros [= <-]. exists l. split; [by left|]. by apply prefix_then_rest.
  - intros H. destruct (IH H) as (raw & ? & ?). exists raw. split; [by right|done].
Qed.

Definition goodKinds (fields kinds : list (list byte)) : Prop :=
  NoDup kinds /\ Forall (fun k => validKindIdent k = true /\ exists f, f ∈ fields /\ TrimSpace f = k) kinds.

Lemma addKind_good fields kinds f : f ∈ fields -> goodKinds fields kinds -> goodKinds fields (addKind kinds f).
Proof.
  intros Hf [H1 H2]. unfold addKind. destruct (isEmpty _ || _) eqn:E; [done|]. apply orb_false_iff in E as [_ E].
  case_bool_decide as Hin; [done|]. apply negb_false_iff in E. split.
  - apply NoDup_app. split; [done|]. split; [set_solver|apply NoDup_singleton].
  - apply Forall_app. split; [done|]. constructor; [|done]. split; [done|]. by exists f.
Qed.

Lemma addKinds_good all fs : forall kinds, fs ⊆ all -> goodKinds all kinds -> goodKinds all (foldl addKind kinds fs).
Proof.
  induction fs as [|f fs IH]; intros kinds Hs H; [done|]. simpl. apply IH; [set_solver|]. apply addKind_good; [set_solver|done].
Qed.

Lemma parseAgentKinds_good data kinds : parseAgentKinds data = Some kinds ->
  kinds ≠ [] /\ NoDup kinds /\ Forall (fun k => validKindIdent k = true /\ printed data k) kinds.
Proof.
  unfold parseAgentKinds. destruct (firstKindsLine _) as [rest|] eqn:E; [|done].
  apply firstKindsLine_row in E as (raw & Hr & Et).
  destruct (addKinds_good (splitOn x7c rest) (splitOn x7c rest) [] ltac:(done)) as [H1 H2]; [split; constructor|].
  destruct (foldl addKind [] (splitOn x7c rest)) as [|k ks] eqn:Ek; [done|]. intros [= <-]. split; [done|]. split; [done|].
  eapply Forall_impl; [exact H2|]. intros x [Hv (f & Hf & Hx)]. split; [done|]. by exists raw, rest, f.
Qed.

(** The kinds of a run: valid, distinct, and printed by the command. *)
Definition printedBy (r : runResult) (k : string) : Prop :=
  exists kind stream, k = strOf kind /\ validKindIdent kind = true /\ stream ∈ [rr_stdout r; rr_stderr r] /\
    printed (take DefaultMaxCommandBytes (concat stream)) kind.

Lemma found_printed r kinds : found r = Some kinds -> kinds ≠ [] /\ Forall (printedBy r) kinds.
Proof.
  unfold found, StartableAgentKinds. destruct (rr_ctx r) as [[]|]; [done..|].
  destruct (parseAgentKinds (captured _ (rr_stdout r))) as [ks|] eqn:E1; [|destruct (parseAgentKinds (captured _ (rr_stderr r))) as [ks|] eqn:E2; [|done]].
  all: intros [= <-].
  1: apply parseAgentKinds_good in E1 as (Hn & _ & Hf). 2: apply parseAgentKinds_good in E2 as (Hn & _ & Hf).
  all: split; [by destruct ks|]. all: apply Forall_fmap; eapply Forall_impl; [exact Hf|]; intros k [Hv Hp].
  all: rewrite captured_take in Hp. all: eexists k, _. all: split; [done|]. all: split; [done|].
  all: split; [|exact Hp]. all: set_solver.
Qed.

(** The cache holds what one of the uses discovered. *)
Lemma afterUses_cached ttl us : let a := afterUses ttl us in
  k_ttl a = ttl /\ (k_loaded a = true -> exists u, u ∈ us /\ found (u_run u) = Some (cached a) /\ k_fetchedAt a = u_t3 u).
Proof.
  unfold afterUses. induction us as [|u us IH] using rev_ind; [done|]. rewrite foldl_app. simpl.
  set (a := foldl _ _ us) in *. destruct IH as [Ht Hc].
  assert (Hold : k_loaded a = true -> exists u0, u0 ∈ us ++ [u] /\ found (u_run u0) = Some (cached a) /\ k_fetchedAt a = u_t3 u0).
  { intros H. destruct (Hc H) as (u0 & ? & ?). exists u0. split; [set_solver|done]. }
  unfold listAt, listKinds. destruct (_ && _); [done|]. destruct (found (u_run u)) as [kinds|] eqn:E.
  - split; [done|]. intros _. exists u. split; [set_solver|done].
  - by destruct (_ && _).
Qed.

(** An agent is only ever started with a kind that Herdr itself printed. Whatever
    the history of the cache: if a start passes validation, its kind is a valid
    identifier and a field of a "kinds:" line in the bounded output of a run of the
    command that was not cut short; and that run is the one just made, or one whose
    answer came less than the time to live ago, or, when discovery now fails, at most
    twice that long ago. *)
Theorem started_kind_printed (numOk : kind -> string -> bool) (ttl : Z) (us : list use)
    (u : use) (raw : option json) (a' : agentKinds) (c : HerdrCall) :
  Mutate numOk (afterUses ttl us) (u_t1 u) (found (u_run u)) (u_t2 u) (u_t3 u) "agent.start" raw = (a', inl c) ->
  exists u0 kinds, u0 ∈ us ++ [u] /\ rr_ctx (u_run u0) = None /\ found (u_run u0) = Some kinds /\
    paramString raw "kind" ∈ kinds /\ printedBy (u_run u0) (paramString raw "kind") /\
    (u0 = u \/ timeSub (u_t1 u) (u_t3 u0) < ttl \/
     found (u_run u) = None /\ timeSub (u_t2 u) (u_t3 u0) <= int64 (2 * ttl)).
Proof.
  unfold Mutate, validateKind. rewrite bool_decide_true by done. destruct (nonempty (paramString raw "kind")); [|done]. cbn [negb].
  destruct (afterUses_cached ttl us) as [Ht Hc]. set (a := afterUses ttl us) in *.
  assert (Hfin : forall kinds u0, found (u_run u0) = Some kinds -> paramString raw "kind" ∈ kinds ->
    rr_ctx (u_run u0) = None /\ printedBy (u_run u0) (paramString raw "kind")).
  { intros kinds u0 Hf Hin. split.
    - unfold found, StartableAgentKinds in Hf. by destruct (rr_ctx (u_run u0)) as [[]|].
    - apply found_printed in Hf as [_ Hp]. rewrite Forall_forall in Hp. by apply Hp. }
  unfold listKinds. destruct (k_loaded a && (timeSub (u_t1 u) (k_fetchedAt a) <? k_ttl a)) eqn:E1.
  - case_bool_decide as Hin; [|done]. intros _. apply andb_prop in E1 as [El Et]. destruct (Hc El) as (u0 & Hu & Hf & Hat).
    destruct (Hfin _ _ Hf Hin) as [? ?]. exists u0, (cached a). rewrite Ht, Hat in Et. split_and!; try done; [set_solver|right; left; lia].
  - destruct (found (u_run u)) as [kinds|] eqn:Ef.
    + case_bool_decide as Hin; [|done]. intros _. destruct (Hfin _ _ Ef Hin) as [? ?].
      exists u, kinds. split_and!; try done; [set_solver|by left].
    + destruct (k_loaded a && (timeSub (u_t2 u) (k_fetchedAt a) <=? int64 (2 * k_ttl a))) eqn:E2; [|done].
      case_bool_decide as Hin; [|done]. intros _. apply andb_prop in E2 as [El Et]. destruct (Hc El) as (u0 & Hu & Hf & Hat).
      destruct (Hfin _ _ Hf Hin) as [? ?]. exists u0, (cached a). rewrite Ht, Hat in Et.
      split_and!; try done; [set_solver|right; right; split; [done|lia]].
Qed.

(** The usage text of a Herdr build on its error stream. *)
Definition sampleRun : runResult :=
  mkRun [] [bytesOf "usage: herdr agent <cmd>
  kinds: claude | codex|claude | Bad Kind|"] None None.

Example sample_kinds : found sampleRun = Some ["claude"; "codex"].
Proof. by vm_compute. Qed.

Definition sampleStart : option json :=
  Some (JObj [("name", JStr "a1"); ("kind", JStr "codex"); ("pane_id", JStr "p1")]).

Lemma started_kind_printed_witness :
  exists c, (Mutate (fun _ _ => true) (afterUses 60 []) 0 (found sampleRun) 0 0 "agent.start" sampleStart).2 = inl c /\
    printedBy sampleRun "codex".
Proof.
  eexists. split; [vm_compute; reflexivity|].
  destruct (started_kind_printed (fun _ _ => true) 60 [] (mkUse 0 sampleRun 0 0) sampleStart
    (mkKinds 60 ["claude"; "codex"] 0 true) (AgentStart "a1" "codex" "p1" [])) as (u0 & kinds & Hu & _ & _ & _ & Hp & _);
    [vm_compute; reflexivity|].
  apply list_elem_of_singleton in Hu. subst u0. exact Hp.
Defined.
