(* ===== verification/Shell.v ===== *)
(** * Shell: the application shell and the construction of the server
    (internal/webui/webui.go, the rest of internal/server/server.go and
    [spaHandler] of routes.go)

    The embedded trees and the answers of the standard library's file server are
    outside: a tree is the function that opens a name, and a file answer is what is
    handed to [http.ServeContent]. *)

From S2P Require Import Prelude GoStr GoText GoPath GoPathFacts Session Routes Interpret Runs.

(** ** The asset tree *)

(** What opening a name gives: its contents, whether it is a directory, and whether
    [Stat] and, of a file that cannot be seeked, reading it succeed. *)
Record assetFile := mkAsset {
  af_data : list byte; af_dir : bool; af_statOk : bool; af_seeks : bool; af_readOk : bool
}.
Notation assetTree := (list byte -> option assetFile).

Definition generatedIndex : list byte := bytesOf "index.html".

(** [fs.Stat]. *)
Definition statOk (t : assetTree) (name : list byte) : bool :=
  match t name with Some f => af_statOk f | None => false end.

Definition pickAssets (generated fallback : assetTree) : assetTree * bool :=
  if statOk generated generatedIndex then (generated, false) else (fallback, true).

Definition Assets (generated fallback : assetTree) : assetTree := (pickAssets generated fallback).1.
Definition IsFallback (generated fallback : assetTree) : bool := (pickAssets generated fallback).2.

Inductive newError := nilFilesystem | indexMissing.

Definition newShell (fsys : option assetTree) : assetTree + newError :=
  match fsys with
  | None => inr nilFilesystem
  | Some t => if statOk t generatedIndex then inl t else inr indexMissing
  end.

(** ** Serving the shell *)

(** A response: its status, its headers in the order set, and its body. A [Content]
    is given to the file server, which may answer a range or a revalidation of it. *)
Inductive body := Text (msg : list byte) | JSONError (code msg : string) | Content (base data : list byte).
Record response := mkResponse { r_status : Z; r_headers : list (string * list byte); r_body : body }.

(** [Header.Set]. *)
Definition setHeader (headers : list (string * list byte)) (k : string) (v : list byte) : list (string * list byte) :=
  List.filter (fun '(k', _) => negb (bool_decide (k' = k))) headers ++ [(k, v)].

Definition getHeader (headers : list (string * list byte)) (k : string) : option (list byte) :=
  snd <$> List.find (fun '(k', _) => bool_decide (k' = k)) headers.

Definition httpError (headers : list (string * list byte)) (status : Z) (msg : string) : response :=
  mkResponse status (setHeader (setHeader headers "Content-Type" (bytesOf "text/plain; charset=utf-8")) "X-Content-Type-Options" (bytesOf "nosniff"))
    (Text (bytesOf msg)).

Definition setCacheHeaders (name : list byte) : list byte :=
  if bool_decide (name = generatedIndex) then bytesOf "no-cache"
  else if hasPrefix name (bytesOf "assets/") then bytesOf "public, max-age=31536000, immutable"
  else bytesOf "public, max-age=3600".

(** [path.Ext]: the suffix of the last element from its last dot. *)
Fixpoint extRev (acc rev : list byte) : list byte :=
  match rev with
  | [] => []
  | b :: rest => if b =b slash then [] else if b =b x2e then b :: acc else extRev (b :: acc) rest
  end.
Definition Ext (p : list byte) : list byte := extRev [] (reverse p).

Definition tryServeFile (h : assetTree) (headers : list (string * list byte)) (name : list byte) : option response :=
  match h name with
  | None => None
  | Some f =>
      if negb (af_statOk f) || af_dir f then None
      else if negb (af_seeks f) && negb (af_readOk f) then None
      else Some (mkResponse 200 (setHeader headers "Cache-Control" (setCacheHeaders name)) (Content (Base name) (af_data f)))
  end.

(** The name a path asks for. *)
Definition assetName (path : list byte) : list byte :=
  let name := Clean (slash :: path) in
  let name := if hasPrefix name [slash] then drop 1 name else name in
  match name with [] => generatedIndex | _ => name end.

Definition serveShell (h : assetTree) (headers : list (string * list byte)) (method : string) (path : list byte) : response :=
  if negb (bool_decide (method = "GET")) && negb (bool_decide (method = "HEAD"))
  then httpError (setHeader headers "Allow" (bytesOf "GET, HEAD")) 405 "method not allowed"
  else
    let name := assetName path in
    match tryServeFile h headers name with
    | Some r => r
    | None =>
        if negb (bool_decide (Ext name = [])) && negb (bool_decide (name = generatedIndex))
        then httpError headers 404 "404 page not found"
        else match tryServeFile h headers generatedIndex with
             | Some r => r
             | None => httpError headers 500 "application shell missing"
             end
    end.

(** ** The server's configuration and construction *)

Fixpoint joinText (sep : list byte) (parts : list (list byte)) : list byte :=
  match parts with [] => [] | [p] => p | p :: parts' => p ++ sep ++ joinText sep parts' end.

Definition httpsScheme : list byte := bytesOf "https://".
Definition httpScheme : list byte := bytesOf "http://".

(** The WebSocket form of an origin, if it is an http one. *)
Definition socketOrigin (o : list byte) : option (list byte) :=
  if hasPrefix o httpsScheme then Some (bytesOf "wss://" ++ drop (length httpsScheme) o)
  else if hasPrefix o httpScheme then Some (bytesOf "ws://" ++ drop (length httpScheme) o)
  else None.

Definition connectSources (allowed : list (list byte)) : list (list byte) := bytesOf "'self'" :: omap socketOrigin allowed.

Definition cspDirectives (allowed : list (list byte)) : list (list byte) :=
  [ bytesOf "default-src 'self'"; bytesOf "script-src 'self'"; bytesOf "style-src 'self' 'unsafe-inline'";
    bytesOf "img-src 'self' data: blob:"; bytesOf "font-src 'self'";
    bytesOf "connect-src " ++ joinText [x20] (connectSources allowed);
    bytesOf "object-src 'none'"; bytesOf "base-uri 'none'"; bytesOf "frame-ancestors 'none'"; bytesOf "form-action 'self'" ].

Definition buildCSP (allowed : list (list byte)) : list byte := joinText (bytesOf "; ") (cspDirectives allowed).

Record Config := mkConfig {
  c_hosts : hostConfig; c_Quick : bool; c_WorkspaceRoots : list string;
  c_MaxBodyBytes : Z; c_RequestTimeout : Z; c_ServerMutationDeadline : Z; c_DeadlineSkew : Z;
  c_IdempotencyTTL : Z; c_ConfirmationTTL : Z; c_RateEvery : Z; c_RateBurst : Z; c_runs : RunConfig
}.

Definition millisecond : Z := 1000000.
Definition second : Z := 1000 * millisecond.
Definition minute : Z := 60 * second.

Definition applyDefaults (c : Config) : Config :=
  mkConfig (c_hosts c) (c_Quick c) (c_WorkspaceRoots c)
    (orDefault (c_MaxBodyBytes c) (Z.shiftl 1 20)) (orDefault (c_RequestTimeout c) (15 * second))
    (orDefault (c_ServerMutationDeadline c) (10 * second)) (orDefault (c_DeadlineSkew c) (500 * millisecond))
    (orDefault (c_IdempotencyTTL c) (5 * minute)) (orDefault (c_ConfirmationTTL c) (30 * second))
    (orDefault (c_RateEvery c) (100 * millisecond)) (orDefault (c_RateBurst c) 40) (Runs.applyDefaults (c_runs c)).

(** Which dependencies are given, and the ones the shell reads. *)
Record Deps := mkDeps {
  has_Auth : bool; has_State : bool; has_Mutator : bool; has_Daemon : bool; has_Tunnel : bool; has_Directories : bool;
  has_Audit : bool; d_Assets : option assetTree; QuickProbeToken : string; InstanceID : string
}.

Record Server := mkServed {
  sv_cfg : Config; sv_auditing : bool; sv_assets : option assetTree;
  sv_probeToken : string; sv_instanceID : string; sv_csp : list byte
}.

Definition requiredDeps (d : Deps) : list (bool * string) :=
  [(has_Auth d, "Auth"); (has_State d, "State"); (has_Mutator d, "Mutator");
   (has_Daemon d, "Daemon"); (has_Tunnel d, "Tunnel"); (has_Directories d, "Directories")].

Fixpoint firstMissing (deps : list (bool * string)) : option string :=
  match deps with
  | [] => None
  | (given, name) :: deps' => if given then firstMissing deps' else Some ("server: " +:+ name +:+ " dependency is required")
  end.

Definition New (cfg : Config) (d : Deps) : Server + string :=
  let cfg := applyDefaults cfg in
  match firstMissing (requiredDeps d) with
  | Some err => inr err
  | None =>
      if negb (nonempty (PublicHost (c_hosts cfg))) && bool_decide (DevHosts (c_hosts cfg) = [])
      then inr "server: no allowed hosts configured"
      else inl (mkServed cfg (has_Audit d) (d_Assets d) (QuickProbeToken d) (InstanceID d)
                  (buildCSP (AllowedOrigins (c_hosts cfg))))
  end.

(** ** The handler of every other path *)

Definition securityHeaders (s : Server) (api : bool) : list (string * list byte) :=
  [("X-Content-Type-Options", bytesOf "nosniff"); ("Referrer-Policy", bytesOf "no-referrer"); ("X-Frame-Options", bytesOf "DENY");
   ("Permissions-Policy", bytesOf "geolocation=(), microphone=(), camera=(), usb=()"); ("Content-Security-Policy", sv_csp s)] ++
  if api then [("Cache-Control", bytesOf "no-store")] else [].

Definition writeError (headers : list (string * list byte)) (status : Z) (code msg : string) : response :=
  mkResponse status (setHeader headers "Content-Type" (bytesOf "application/json; charset=utf-8")) (JSONError code msg).

Definition apiRoot : list byte := bytesOf (apiPrefix +:+ "/").

Definition spaHandler (s : Server) (host method : string) (path : list byte) : response :=
  if negb (hostAllowed (c_hosts (sv_cfg s)) host) then httpError [] 421 "host not allowed"
  else if hasPrefix path apiRoot then writeError [] 404 "not_found" "unknown endpoint"
  else
    let headers := securityHeaders s false in
    match sv_assets s with
    | None => httpError headers 503 "application shell unavailable"
    | Some h => serveShell h headers method path
    end.

(** ** Facts of the shell *)

(** The names the tree is asked for are sequences of ordinary elements. *)
Definition plainName (name : list byte) : Prop :=
  exists names, names ≠ [] /\ Forall plainElement names /\ name = joinWith slash names.

Lemma index_plain : plainName generatedIndex.
Proof.
  exists [generatedIndex]. split_and!; [done| |done]. constructor; [|done].
  split_and!; [by vm_compute..|]. by repeat (constructor; [done|]); constructor.
Qed.

Lemma assetName_plain path : plainName (assetName path).
Proof.
  unfold assetName. destruct (Clean_canonical (slash :: path)) as [_ H].
  destruct (H eq_refl) as (names & E & Hn). rewrite E. change (hasPrefix (slash :: joinWith slash names) [slash]) with true.
  cbn [drop]. destruct (joinWith slash names) as [|b rest] eqn:Ej; [apply index_plain|].
  exists names. split_and!; [by destruct names|done|by rewrite Ej].
Qed.

(** Cleaning first changes nothing. *)
Lemma assetName_clean path : assetName (drop 1 (Clean (slash :: path))) = assetName path.
Proof.
  unfold assetName. assert (E : slash :: drop 1 (Clean (slash :: path)) = Clean (slash :: path)) by done.
  by rewrite E, Clean_twice.
Qed.

Lemma tryServeFile_inv h headers name r : tryServeFile h headers name = Some r ->
  exists f, h name = Some f /\ af_dir f = false /\ r = mkResponse 200 (setHeader headers "Cache-Control" (setCacheHeaders name)) (Content (Base name) (af_data f)).
Proof.
  unfold tryServeFile. destruct (h name) as [f|]; [|done]. destruct (_ || _) eqn:E; [done|]. destruct (_ && _); [done|].
  intros [= <-]. exists f. apply orb_false_iff in E as [_ E]. done.
Qed.

Lemma setHeader_get headers k v : getHeader (setHeader headers k v) k = Some v.
Proof.
  unfold getHeader, setHeader. induction headers as [|[k' v'] headers IH]; cbn [List.filter app List.find].
  - by rewrite bool_decide_true.
  - case_bool_decide as E; cbn [negb]; [done|]. cbn [app List.find]. by rewrite bool_decide_false.
Qed.

Lemma setHeader_other headers k v k' : k' ≠ k -> getHeader (setHeader headers k v) k' = getHeader headers k'.
Proof.
  intros Hne. unfold getHeader, setHeader. induction headers as [|[k0 v0] headers IH]; cbn [List.filter app List.find].
  - by rewrite bool_decide_false.
  - case_bool_decide as E; cbn [negb]; cbn [app List.find].
    + subst. rewrite bool_decide_false by done. exact IH.
    + destruct (bool_decide (k0 = k')); [done|exact IH].
Qed.

Lemma serveShell_content h headers method path base data : r_body (serveShell h headers method path) = Content base data ->
  (method = "GET" \/ method = "HEAD") /\
  exists name f, plainName name /\ h name = Some f /\ af_dir f = false /\ data = af_data f /\
    r_headers (serveShell h headers method path) = setHeader headers "Cache-Control" (setCacheHeaders name) /\
    (name = assetName path \/
     name = generatedIndex /\ tryServeFile h headers (assetName path) = None /\
       (Ext (assetName path) = [] \/ assetName path = generatedIndex)).
Proof.
  unfold serveShell. destruct (negb (bool_decide (method = "GET")) && _) eqn:Em; [done|]. intros Hb.
  split.
  { destruct (decide (method = "GET")); [by left|]. destruct (decide (method = "HEAD")); [by right|].
    by rewrite !bool_decide_false in Em. }
  destruct (tryServeFile h headers (assetName path)) as [r|] eqn:E1.
  { apply tryServeFile_inv in E1 as (f & Hf & Hd & ->). simpl in Hb. injection Hb as <- <-.
    exists (assetName path), f. split_and!; try done; [apply assetName_plain|by left]. }
  destruct (negb (bool_decide (Ext (assetName path) = [])) && _) eqn:E2; [done|].
  destruct (tryServeFile h headers generatedIndex) as [r|] eqn:E3; [|done].
  apply tryServeFile_inv in E3 as (f & Hf & Hd & ->). simpl in Hb. injection Hb as <- <-.
  exists generatedIndex, f. split_and!; try done; [apply index_plain|]. right. split_and!; [done..|].
  destruct (decide (Ext (assetName path) = [])); [by left|]. destruct (decide (assetName path = generatedIndex)); [by right|].
  by rewrite !bool_decide_false in E2.
Qed.

(** The name opens a file that can be sent: not a directory, and it seeks or is read. *)
Definition servable (h : assetTree) (name : list byte) : Prop :=
  exists f, h name = Some f /\ af_statOk f = true /\ af_dir f = false /\ (af_seeks f = true \/ af_readOk f = true).

Lemma tryServeFile_none h headers name : tryServeFile h headers name = None -> ~ servable h name.
Proof.
  unfold tryServeFile. intros E (f & Hf & Hs & Hd & Hr). rewrite Hf, Hs, Hd in E.
  by destruct Hr as [Hr|Hr]; rewrite Hr, ?andb_false_r in E.
Qed.

(** C29: No request path leaves the asset tree, and nothing under the API prefix is ever
    answered with a file. If a request for any other path is answered with contents,
    the host is an allowed one, the path is not an API path, the method is GET or
    HEAD, and the contents are those of a file opened under a sequence of ordinary
    elements: no empty, dot or parent element, whatever the path holds. The name is the
    cleaned path, or the entry document when the cleaned path opens no file that can be
    sent and has no extension. Every such answer carries the content security policy of the server;
    and the entry document is always to be revalidated. *)
Theorem shell_confined (s : Server) (host method : string) (path : list byte) (base data : list byte) :
  r_body (spaHandler s host method path) = Content base data ->
  hostAllowed (c_hosts (sv_cfg s)) host = true /\ hasPrefix path apiRoot = false /\ (method = "GET" \/ method = "HEAD") /\
  getHeader (r_headers (spaHandler s host method path)) "Content-Security-Policy" = Some (sv_csp s) /\
  exists h name f, sv_assets s = Some h /\ plainName name /\ h name = Some f /\ af_dir f = false /\ data = af_data f /\
    (name = assetName path \/
     name = generatedIndex /\ ~ servable h (assetName path) /\ (Ext (assetName path) = [] \/ assetName path = generatedIndex)) /\
    (name = generatedIndex -> getHeader (r_headers (spaHandler s host method path)) "Cache-Control" = Some (bytesOf "no-cache")).
Proof.
  unfold spaHandler. destruct (hostAllowed _ host); [|done]. cbn [negb]. destruct (hasPrefix path apiRoot); [done|].
  destruct (sv_assets s) as [h|]; [|done]. intros Hb.
  apply serveShell_content in Hb as (Hm & name & f & Hp & Hf & Hd & -> & -> & Hn). split_and!; [done..| |].
  { by rewrite setHeader_other. }
  exists h, name, f. split_and!; try done; [destruct Hn as [->|(-> & Hn%tryServeFile_none & ?)]; auto|]. intros ->. by rewrite setHeader_get.
Qed.

Definition sampleTree : assetTree := fun name =>
  if bool_decide (name = generatedIndex) then Some (mkAsset (bytesOf "<html>") false true true true)
  else if bool_decide (name = bytesOf "assets/app.js") then Some (mkAsset (bytesOf "js") false true true true)
  else if bool_decide (name = bytesOf "assets") then Some (mkAsset [] true true true true) else None.

Definition sampleConfig : Config :=
  mkConfig (mkHosts "phone.example.com" ["127.0.0.1:8787"] [bytesOf "https://phone.example.com"; bytesOf "http://127.0.0.1:8787"])
    false [] 0 0 0 0 0 0 0 0 (mkRunConfig 0 0 0 0 (mkInterpretation false [] 0)).
Definition sampleDeps : Deps := mkDeps true true true true true true false (Some sampleTree) "" "".
Definition sampleShell : Server := mkServed (applyDefaults sampleConfig) false (Some sampleTree) "" ""
  (buildCSP (AllowedOrigins (c_hosts sampleConfig))).

Example sample_new : New sampleConfig sampleDeps = inl sampleShell.
Proof. by vm_compute. Qed.

(** Traversal ends at the root; directories and client routes give the entry
    document, a missing asset is not found. *)
Example sample_paths :
  (fun p => r_body (spaHandler sampleShell "phone.example.com" "GET" (bytesOf p))) <$>
    ["/assets/app.js"; "/../..//assets/./app.js"; "/../../etc/passwd"; "/assets/"; "/assets/gone.js"; "/api/v1/nothing"; "/"] =
  [Content (bytesOf "app.js") (bytesOf "js"); Content (bytesOf "app.js") (bytesOf "js");
   Content generatedIndex (bytesOf "<html>"); Content generatedIndex (bytesOf "<html>");
   Text (bytesOf "404 page not found"); JSONError "not_found" "unknown endpoint"; Content generatedIndex (bytesOf "<html>")].
Proof. by vm_compute. Qed.

Lemma shell_confined_witness :
  r_body (spaHandler sampleShell "phone.example.com" "GET" (bytesOf "/../runs")) = Content generatedIndex (bytesOf "<html>") /\
  hasPrefix (bytesOf "/../runs") apiRoot = false.
Proof.
  split; [by vm_compute|].
  destruct (shell_confined sampleShell "phone.example.com" "GET" (bytesOf "/../runs") generatedIndex (bytesOf "<html>")) as (_ & H & _);
    [by vm_compute|exact H].
Defined.

(** The answer to an unknown endpoint forbids no caching and carries no policy. *)
Example unknown_endpoint_headers :
  r_headers (spaHandler sampleShell "phone.example.com" "GET" (bytesOf "/api/v1/nothing")) =
    [("Content-Type", bytesOf "application/json; charset=utf-8")].
Proof. by vm_compute. Qed.

(** ** Facts of the policy *)

(** A policy read back: its directives, each as its words. *)
Definition words (s : list byte) : list (list byte) := List.filter (fun w => negb (bool_decide (w = []))) (splitOn x20 s).
Definition parsePolicy (csp : list byte) : list (list (list byte)) := words <$> splitOn x3b csp.

Definition originText (o : list byte) : Prop := Forall (fun b => b ≠ x20 /\ b ≠ x3b) o.

Lemma splitOn_joinText parts p : Forall (Forall (fun b => b ≠ x3b)) (p :: parts) ->
  splitOn x3b (joinText (bytesOf "; ") (p :: parts)) = p :: (cons x20 <$> parts).
Proof.
  revert p. induction parts as [|q parts IH]; intros p H.
  { simpl. apply splitOn_free. by inversion H. }
  inversion H as [|? ? Hp Hq]; subst. change (joinText (bytesOf "; ") (p :: q :: parts)) with (p ++ [x3b] ++ x20 :: joinText (bytesOf "; ") (q :: parts)).
  rewrite splitOn_app by done. cbn [fmap list_fmap]. f_equal.
  change (splitOn x3b (x20 :: joinText (bytesOf "; ") (q :: parts))) with
    (match splitOn x3b (joinText (bytesOf "; ") (q :: parts)) with h :: t => (x20 :: h) :: t | [] => [[x20]] end).
  by rewrite IH.
Qed.

Lemma words_space s : words (x20 :: s) = words s.
Proof. done. Qed.

Lemma joinText_space ps : joinText [x20] ps = joinWith x20 ps.
Proof. induction ps as [|p ps IH]; [done|]. destruct ps as [|q ps]; [done|]. cbn [joinText joinWith] in *. by rewrite IH. Qed.

Lemma words_join w ps : Forall (fun p => p ≠ [] /\ Forall (fun b => b ≠ x20) p) (w :: ps) -> words (joinWith x20 (w :: ps)) = w :: ps.
Proof.
  intros H. unfold words. rewrite splitOn_join; [|done|by eapply Forall_impl; [exact H|naive_solver]].
  apply filter_all. eapply Forall_impl; [exact H|]. intros p [Hp _]. by rewrite bool_decide_false.
Qed.

Lemma socketOrigin_text o w : originText o -> socketOrigin o = Some w -> w ≠ [] /\ originText w.
Proof.
  unfold socketOrigin, originText. intros Ho. assert (Hd : forall n, Forall (fun b => b ≠ x20 /\ b ≠ x3b) (drop n o)).
  { intros n. by apply Forall_drop. }
  destruct (hasPrefix o httpsScheme); [|destruct (hasPrefix o httpScheme)]; intros [= <-]; (split; [done|]);
    repeat (constructor; [done|]); apply Hd.
Qed.

Lemma sources_text allowed : Forall originText allowed -> Forall (fun w => w ≠ [] /\ originText w) (connectSources allowed).
Proof.
  intros H. unfold connectSources. constructor; [split; [done|by repeat constructor]|].
  induction H as [|o allowed Ho _ IH]; cbn [omap list_omap]; [done|].
  destruct (socketOrigin o) as [w|] eqn:E; [|done]. constructor; [by eapply socketOrigin_text|done].
Qed.

Lemma joinWith_text sep ps (P : byte -> Prop) : P sep -> Forall (Forall P) ps -> Forall P (joinWith sep ps).
Proof.
  intros Hs. induction 1 as [|p ps Hp _ IH]; [done|]. destruct ps; [done|].
  cbn [joinWith]. apply Forall_app. split; [done|]. apply Forall_app. split; [by constructor|done].
Qed.

(** The policy a browser reads is the one meant. For origins without a space or a
    semicolon, reading the header back gives exactly the ten directives, in order:
    scripts, fonts and everything else only from the server itself, nothing framed,
    embedded or rebased, and connections to the server itself and to the WebSocket
    form of each http or https origin of the configuration, to nothing else. *)
Theorem policy_read_back (allowed : list (list byte)) : Forall originText allowed ->
  parsePolicy (buildCSP allowed) =
    [ bytesOf <$> ["default-src"; "'self'"]; bytesOf <$> ["script-src"; "'self'"];
      bytesOf <$> ["style-src"; "'self'"; "'unsafe-inline'"]; bytesOf <$> ["img-src"; "'self'"; "data:"; "blob:"];
      bytesOf <$> ["font-src"; "'self'"];
      bytesOf "connect-src" :: bytesOf "'self'" :: omap socketOrigin allowed;
      bytesOf <$> ["object-src"; "'none'"]; bytesOf <$> ["base-uri"; "'none'"];
      bytesOf <$> ["frame-ancestors"; "'none'"]; bytesOf <$> ["form-action"; "'self'"] ].
Proof.
  intros H. pose proof (sources_text allowed H) as Hs.
  assert (Hw : words (bytesOf "connect-src " ++ joinText [x20] (connectSources allowed)) =
    bytesOf "connect-src" :: connectSources allowed).
  { rewrite joinText_space. change (bytesOf "connect-src ") with (bytesOf "connect-src" ++ [x20]). rewrite <- app_assoc.
    apply (words_join (bytesOf "connect-src") (connectSources allowed)).
    constructor; [split; [done|by repeat constructor]|]. eapply Forall_impl; [exact Hs|]. intros w [? Hw]. split; [done|].
    eapply Forall_impl; [exact Hw|]. naive_solver. }
  unfold parsePolicy, buildCSP, cspDirectives. rewrite splitOn_joinText.
  { cbn [fmap list_fmap]. rewrite !words_space, Hw. by repeat f_equal. }
  repeat (constructor; [try by repeat constructor|]); [|done].
  rewrite joinText_space. apply joinWith_text; [done|].
  eapply Forall_impl; [exact Hs|]. intros w [_ Hw']. eapply Forall_impl; [exact Hw'|]. naive_solver.
Qed.

Lemma policy_read_back_witness :
  (parsePolicy (sv_csp sampleShell)) !! 5%nat =
    Some (bytesOf <$> ["connect-src"; "'self'"; "wss://phone.example.com"; "ws://127.0.0.1:8787"]).
Proof.
  change (sv_csp sampleShell) with (buildCSP (AllowedOrigins (c_hosts sampleConfig))).
  rewrite (policy_read_back (AllowedOrigins (c_hosts sampleConfig))); [by vm_compute|by repeat constructor].
Defined.
