(* ===== verification/Float64.v ===== *)
(** * Float64: the binary64 arithmetic the code uses

    A [float64] is a rational in lowest terms, and every operation is the exact one
    rounded to the nearest number with a 53-bit significand, ties to even. Neither
    overflow nor subnormal numbers occur: the operands are sums, differences and
    quotients of 64-bit integers. *)

From Stdlib Require Import QArith Qround Qpower Qreduction Lqa SpecFloat.
From S2P Require Import Prelude.

#[local] Open Scope Q_scope.

(** The nearest integer, ties to even. *)
Definition nearestEven (x : Q) : Z :=
  let f := Qfloor x in
  match Qcompare (x - inject_Z f) (1#2) with
  | Lt => f
  | Gt => (f + 1)%Z
  | Eq => if Z.even f then f else (f + 1)%Z
  end.

(** The integer logarithm of a positive rational. *)
Definition log2Q (q : Q) : Z :=
  let l := (Z.log2 (Qnum q) - Z.log2 (QDen q))%Z in
  if Qle_bool (2 ^ l) q then l else (l - 1)%Z.

Definition roundPos (q : Q) : Q :=
  let e := (log2Q q - 52)%Z in inject_Z (nearestEven (q / 2 ^ e)) * 2 ^ e.

(** The rounding of every operation. *)
Definition rnd (q : Q) : Q :=
  Qred (match (Qnum q ?= 0)%Z with Eq => 0 | Gt => roundPos q | Lt => - roundPos (- q) end).

Notation float64 := Q (only parsing).
Definition ofInt (z : Z) : float64 := rnd (inject_Z z).
Definition fadd (a b : float64) : float64 := rnd (a + b).
Definition fsub (a b : float64) : float64 := rnd (a - b).
Definition fdiv (a b : float64) : float64 := rnd (a / b).
Definition fltb (a b : float64) : bool := negb (Qle_bool b a).

(** ** Rounding to an integer *)

Lemma nearest_near x : x - (1#2) <= inject_Z (nearestEven x) <= x + (1#2).
Proof.
  unfold nearestEven. pose proof (Qfloor_le x) as H1. pose proof (Qlt_floor x) as H2.
  rewrite inject_Z_plus in H2. change (inject_Z 1) with 1 in H2.
  destruct (Qcompare_spec (x - inject_Z (Qfloor x)) (1#2)) as [E|E|E];
    [destruct (Z.even _)| |]; rewrite ?inject_Z_plus; change (inject_Z 1) with 1; split; lra.
Qed.

Lemma nearest_ge x z : inject_Z z <= x -> (z <= nearestEven x)%Z.
Proof.
  intros H. apply Qfloor_resp_le in H. rewrite Qfloor_Z in H. unfold nearestEven.
  destruct (Qcompare _ _); [destruct (Z.even _)| |]; lia.
Qed.

Lemma nearest_le x z : x <= inject_Z z -> (nearestEven x <= z)%Z.
Proof.
  intros H. pose proof (Qfloor_resp_le _ _ H) as Hf. rewrite Qfloor_Z in Hf. unfold nearestEven.
  destruct (decide (Qfloor x = z)) as [E|E].
  - rewrite E. destruct (Qcompare_spec (x - inject_Z z) (1#2)); [exfalso; lra|lia|exfalso; lra].
  - destruct (Qcompare _ _); [destruct (Z.even _)| |]; lia.
Qed.

Lemma pow2_pos l : 0 < 2 ^ l.
Proof. by apply Qpower_0_lt. Qed.

Lemma pow2_Z n : (0 <= n)%Z -> 2 ^ n == inject_Z (2 ^ n)%Z.
Proof. intros H. by rewrite Zpower_Qpower. Qed.

Lemma pow2_split a b : 2 ^ (a + b) == 2 ^ a * 2 ^ b.
Proof. by apply Qpower_plus. Qed.

(** ** The exponent *)

Lemma inject_le a b : (a <= b)%Z -> inject_Z a <= inject_Z b.
Proof. by rewrite <- Zle_Qle. Qed.

Lemma inject_minus a b : inject_Z (a - b) == inject_Z a - inject_Z b.
Proof. unfold Z.sub. by rewrite inject_Z_plus, inject_Z_opp. Qed.

Lemma log2_pos_spec p : 2 ^ (Z.log2 (Z.pos p)) <= inject_Z (Z.pos p) /\ inject_Z (Z.pos p) < 2 ^ (Z.log2 (Z.pos p) + 1).
Proof.
  destruct (Z.log2_spec (Z.pos p)) as [H1 H2]; [done|]. pose proof (Z.log2_nonneg (Z.pos p)).
  rewrite !pow2_Z by lia. split; [by apply inject_le|]. by rewrite <- Zlt_Qlt.
Qed.

(** A positive rational lies in the binade of its logarithm. *)
Lemma log2Q_spec q : 0 < q -> 2 ^ log2Q q <= q < 2 ^ (log2Q q + 1).
Proof.
  destruct q as [n d]. intros Hq. destruct n as [|n|n]; [done| |done].
  unfold log2Q. cbn [Qnum Qden]. destruct (log2_pos_spec n) as [Hn1 Hn2], (log2_pos_spec d) as [Hd1 Hd2].
  assert (E : Z.pos n # d == inject_Z (Z.pos n) / inject_Z (Z.pos d)) by (by rewrite Qmake_Qdiv).
  revert Hn1 Hn2 Hd1 Hd2 E. generalize (Z.log2 (Z.pos n)) (Z.log2 (Z.pos d)). intros a b.
  assert (Hd : 0 < inject_Z (Z.pos d)) by done.
  generalize dependent (inject_Z (Z.pos n)). generalize dependent (inject_Z (Z.pos d)). intros D HD N Ha Ha' Hb Hb' E.
  pose proof (pow2_pos (a - b)) as Hp. pose proof (pow2_pos b) as Hpb.
  assert (Eab : 2 ^ a == 2 ^ (a - b) * 2 ^ b) by (rewrite <- pow2_split; by replace (a - b + b)%Z with a by lia).
  rewrite pow2_split in Ha', Hb'. change (2 ^ 1) with 2 in *.
  assert (Hup : (Z.pos n # d) < 2 ^ (a - b) * 2).
  { rewrite E. apply Qlt_shift_div_r; [done|]. nra. }
  assert (Hlow : 2 ^ (a - b) * (1#2) <= (Z.pos n # d)).
  { rewrite E. apply Qle_shift_div_l; [done|]. nra. }
  destruct (Qle_bool _ _) eqn:El.
  - apply Qle_bool_iff in El. split; [done|]. by rewrite pow2_split.
  - assert (Hlt : (Z.pos n # d) < 2 ^ (a - b)).
    { apply Qnot_le_lt. intros Hc. apply Qle_bool_iff in Hc. congruence. }
    replace (a - b - 1 + 1)%Z with (a - b)%Z by lia. split; [|done].
    replace (a - b - 1)%Z with (a - b + -1)%Z by lia. by rewrite pow2_split.
Qed.

(** ** The error and the exact cases *)

(** The unit roundoff. *)
Definition ulp : Q := 1 # 9007199254740992.

Lemma quotient_times q e : q / 2 ^ e * 2 ^ e == q.
Proof. field. apply Qnot_eq_sym, Qlt_not_eq, pow2_pos. Qed.

Lemma roundPos_error q : 0 < q -> q * (1 - ulp) <= roundPos q <= q * (1 + ulp).
Proof.
  intros Hq. pose proof (log2Q_spec q Hq) as [Hl _]. unfold roundPos. set (e := (log2Q q - 52)%Z).
  replace (log2Q q) with (e + 52)%Z in Hl by lia. rewrite pow2_split in Hl. change (2 ^ 52) with (4503599627370496#1) in Hl.
  pose proof (nearest_near (q / 2 ^ e)) as [H1 H2]. pose proof (quotient_times q e) as Eq. pose proof (pow2_pos e) as Hp.
  revert Eq H1 H2. generalize (q / 2 ^ e) (inject_Z (nearestEven (q / 2 ^ e))). intros x k Eq H1 H2.
  assert (Hk1 : (x - (1#2)) * 2 ^ e <= k * 2 ^ e) by (apply Qmult_le_compat_r; lra).
  assert (Hk2 : k * 2 ^ e <= (x + (1#2)) * 2 ^ e) by (apply Qmult_le_compat_r; lra).
  unfold ulp. split; lra.
Qed.

Lemma roundPos_ge q z : 0 < q -> (0 <= z <= 2 ^ 53)%Z -> inject_Z z <= q -> inject_Z z <= roundPos q.
Proof.
  intros Hq Hz Hle. pose proof (log2Q_spec q Hq) as [Hl Hl']. unfold roundPos. set (e := (log2Q q - 52)%Z).
  pose proof (pow2_pos e) as Hp. destruct (Z.leb_spec e 0) as [He|He].
  - assert (Hk : (z * 2 ^ (- e) <= nearestEven (q / 2 ^ e))%Z).
    { apply nearest_ge. rewrite inject_Z_mult, <- pow2_Z by lia. apply Qle_shift_div_l; [done|].
      rewrite <- Qmult_assoc, <- pow2_split. replace (- e + e)%Z with 0%Z by lia. change (2 ^ 0) with 1. lra. }
    apply inject_le in Hk. rewrite inject_Z_mult, <- pow2_Z in Hk by lia.
    apply (Qmult_le_compat_r _ _ (2 ^ e)) in Hk; [|lra].
    rewrite <- Qmult_assoc, <- pow2_split in Hk. replace (- e + e)%Z with 0%Z in Hk by lia. change (2 ^ 0) with 1 in Hk. lra.
  - assert (Hk : (2 ^ 52 <= nearestEven (q / 2 ^ e))%Z).
    { apply nearest_ge. rewrite <- pow2_Z by lia. apply Qle_shift_div_l; [done|]. rewrite <- pow2_split.
      by replace (52 + e)%Z with (log2Q q) by lia. }
    apply inject_le in Hk. apply (Qmult_le_compat_r _ _ (2 ^ e)) in Hk; [|lra].
    assert (He' : 2 <= 2 ^ e).
    { rewrite pow2_Z by lia. apply (inject_le 2). change 2%Z with (2 ^ 1)%Z. apply Z.pow_le_mono_r; lia. }
    pose proof (inject_le _ _ (proj2 Hz)) as Hz'. change (inject_Z (2 ^ 53)) with (9007199254740992#1) in Hz'.
    change (inject_Z (2 ^ 52)) with (4503599627370496#1) in Hk. lra.
Qed.

Lemma roundPos_le q z : 0 < q -> (0 <= z < 2 ^ 53)%Z -> q <= inject_Z z -> roundPos q <= inject_Z z.
Proof.
  intros Hq Hz Hle. pose proof (log2Q_spec q Hq) as [Hl _]. unfold roundPos. set (e := (log2Q q - 52)%Z).
  pose proof (pow2_pos e) as Hp.
  assert (He : (e <= 0)%Z).
  { destruct (Z.leb_spec e 0); [done|]. exfalso.
    assert (H53 : inject_Z (2 ^ 53) <= 2 ^ log2Q q).
    { rewrite pow2_Z by lia. apply inject_le. apply Z.pow_le_mono_r; lia. }
    assert (Hlt : inject_Z z < inject_Z (2 ^ 53)) by (rewrite <- Zlt_Qlt; lia). lra. }
  assert (Hk : (nearestEven (q / 2 ^ e) <= z * 2 ^ (- e))%Z).
  { apply nearest_le. rewrite inject_Z_mult, <- pow2_Z by lia. apply Qle_shift_div_r; [done|].
    rewrite <- Qmult_assoc, <- pow2_split. replace (- e + e)%Z with 0%Z by lia. change (2 ^ 0) with 1. lra. }
  apply inject_le in Hk. rewrite inject_Z_mult, <- pow2_Z in Hk by lia.
  apply (Qmult_le_compat_r _ _ (2 ^ e)) in Hk; [|lra].
  rewrite <- Qmult_assoc, <- pow2_split in Hk. replace (- e + e)%Z with 0%Z in Hk by lia. change (2 ^ 0) with 1 in Hk. lra.
Qed.

Lemma rnd_pos q : 0 < q -> rnd q == roundPos q.
Proof. intros H. unfold rnd. destruct q as [[|n|n] d]; [done| |done]. cbn [Qnum Z.compare]. by rewrite Qred_correct. Qed.

Lemma rnd_zero q : q == 0 -> rnd q == 0.
Proof. intros H. unfold rnd. destruct q as [[|n|n] d]; done. Qed.

(** Rounding a number that is not negative moves it by at most the unit roundoff. *)
Lemma rnd_error q : 0 <= q -> q * (1 - ulp) <= rnd q <= q * (1 + ulp).
Proof.
  intros H. apply Qle_lteq in H as [H|H].
  - rewrite (rnd_pos q H). by apply roundPos_error.
  - symmetry in H. rewrite (rnd_zero q H). unfold ulp. lra.
Qed.

Lemma rnd_nonneg q : 0 <= q -> 0 <= rnd q.
Proof. intros H. destruct (rnd_error q H) as [H1 _]. unfold ulp in H1. nra. Qed.

(** A small integer below stays below, and one above stays above. *)
Lemma rnd_ge q z : (0 <= z <= 2 ^ 53)%Z -> inject_Z z <= q -> inject_Z z <= rnd q.
Proof.
  intros Hz H. pose proof (inject_le _ _ (proj1 Hz)) as H0. change (inject_Z 0) with 0 in H0.
  destruct (Qlt_le_dec 0 q) as [Hq|Hq]; [rewrite rnd_pos by done; by apply roundPos_ge|].
  assert (E : q == 0) by lra. rewrite (rnd_zero q E). lra.
Qed.

Lemma rnd_le q z : (0 <= z < 2 ^ 53)%Z -> 0 <= q -> q <= inject_Z z -> rnd q <= inject_Z z.
Proof.
  intros Hz H0 H. destruct (Qlt_le_dec 0 q) as [Hq|Hq]; [rewrite rnd_pos by done; by apply roundPos_le|].
  assert (E : q == 0) by lra. rewrite (rnd_zero q E). lra.
Qed.

Lemma rnd_int z : (0 <= z < 2 ^ 53)%Z -> rnd (inject_Z z) == inject_Z z.
Proof.
  intros Hz. pose proof (inject_le _ _ (proj1 Hz)) as H0. apply Qle_antisym; [apply rnd_le|apply rnd_ge]; (done || lia || apply Qle_refl).
Qed.

(** Equal results are the same number. *)
Lemma rnd_canonical p q : rnd p == rnd q -> rnd p = rnd q.
Proof.
  intros H. assert (Hr : forall x, Qred (rnd x) = rnd x).
  { intros x. unfold rnd. apply Qred_complete. by rewrite Qred_correct. }
  rewrite <- (Hr p), <- (Hr q). by apply Qred_complete.
Qed.

(** Against the values IEEE 754 prescribes: a third, a tenth, the sum of a tenth and
    two tenths, and the first integer that is not representable. *)
Example known_values :
  fdiv (ofInt 1) (ofInt 3) = (6004799503160661 # 18014398509481984) /\
  fdiv (ofInt 1) (ofInt 10) = (3602879701896397 # 36028797018963968) /\
  fadd (fdiv (ofInt 1) (ofInt 10)) (fdiv (ofInt 2) (ofInt 10)) = (1351079888211149 # 4503599627370496) /\
  ofInt (2 ^ 53 + 1) = inject_Z (2 ^ 53) /\ ofInt (- (2 ^ 53 + 3)) = inject_Z (- (2 ^ 53 + 4)).
Proof. by vm_compute. Qed.

(** The value of a binary64 of the Standard Library's specification of IEEE 754. *)
Definition valueOf (x : spec_float) : option Q :=
  match x with
  | S754_zero _ => Some 0
  | S754_finite s m e => Some (Qred ((if s then -1 else 1) * inject_Z (Z.pos m) * 2 ^ e))
  | _ => None
  end.
Definition sameValue (x : spec_float) (q : Q) : bool := match valueOf x with Some v => Qeq_bool v q | None => false end.
Definition specInt (z : Z) : spec_float := binary_normalize 53 1024 z 0 false.

(** The operations against that specification, on operands of every size the code can
    meet: quotients of 63-bit integers, sums, and differences from one. *)
Example agrees_with_IEEE :
  forallb (fun '(a, b) =>
    let q := fdiv (ofInt a) (ofInt b) in let q' := SFdiv 53 1024 (specInt a) (specInt b) in
    let s := fadd q (ofInt a) in let s' := SFadd 53 1024 q' (specInt a) in
    sameValue (specInt a) (ofInt a) && sameValue q' q &&
    sameValue s' s && sameValue (SFsub 53 1024 s' (specInt 1)) (fsub s 1) &&
    Bool.eqb (SFltb q' (specInt 1)) (fltb q 1))
  [(1, 3); (40, 1); (100000000, 100000000); (600000000000, 100000000); (2 ^ 63 - 1, 7); (2 ^ 53 + 1, 2 ^ 62 - 1);
   (99999999, 100000000); (123456789, 1000); (-5, 100000000); (9007199254740993, 9007199254740995)]%Z = true.
Proof. by vm_compute. Qed.
