(* ===== verification/Rate.v ===== *)
(** * Rate: the rate limiter (internal/server/stores.go)

    A token bucket per key in [float64] arithmetic, swept of idle keys. Clock readings
    are arguments. *)

From Stdlib Require Import QArith Lqa.
From stdpp Require Import gmap.
From S2P Require Import Prelude Float64.

#[local] Open Scope Z_scope.

(** ** The limiter *)

Record bucket := mkBucket { tokens : Q; last : Z }.

Definition rlSweepInterval : Z := 60 * 10 ^ 9.
Definition rlIdleTTL : Z := 10 * 60 * 10 ^ 9.

Record rateLimiter := mkLimiter { rl_m : gmap string bucket; every : Z; burst : Z; lastSweep : Z }.

Definition newRateLimiter (every burst now : Z) : rateLimiter := mkLimiter ∅ every burst now.

Definition sweepLocked (r : rateLimiter) (now : Z) : rateLimiter :=
  if timeSub now (lastSweep r) <? rlSweepInterval then r
  else mkLimiter (filter (fun kb => timeSub now (last kb.2) < rlIdleTTL) (rl_m r)) (every r) (burst r) now.

(** The tokens of a bucket at [now]. *)
Definition refill (every burst : Z) (b : bucket) (now : Z) : Q :=
  let t := fadd (tokens b) (fdiv (ofInt (timeSub now (last b))) (ofInt every)) in
  if fltb (ofInt burst) t then ofInt burst else t.

Definition visit (every burst : Z) (b : option bucket) (now : Z) : bucket * bool :=
  match b with
  | None => (mkBucket (fsub (ofInt burst) 1) now, true)
  | Some b =>
      let t := refill every burst b now in
      if fltb t 1 then (mkBucket t now, false) else (mkBucket (fsub t 1) now, true)
  end.

Definition allow (r : rateLimiter) (now : Z) (key : string) : rateLimiter * bool :=
  let r := sweepLocked r now in
  let '(b, ok) := visit (every r) (burst r) (rl_m r !! key) now in
  (mkLimiter (<[key := b]> (rl_m r)) (every r) (burst r) (lastSweep r), ok).

(** ** Runs *)

Fixpoint after (r : rateLimiter) (reqs : list (Z * string)) : rateLimiter :=
  match reqs with [] => r | (now, k) :: reqs' => after (allow r now k).1 reqs' end.

(** The decisions on the requests of one key. *)
Fixpoint decisions (r : rateLimiter) (key : string) (reqs : list (Z * string)) : list bool :=
  match reqs with
  | [] => []
  | (now, k) :: reqs' =>
      let '(r', ok) := allow r now k in
      if bool_decide (k = key) then ok :: decisions r' key reqs' else decisions r' key reqs'
  end.

Definition timesOf (key : string) (reqs : list (Z * string)) : list Z :=
  omap (fun '(now, k) => if bool_decide (k = key) then Some now else None) reqs.

(** One bucket by itself, never swept. *)
Fixpoint alone (every burst : Z) (b : option bucket) (times : list Z) : list bool :=
  match times with
  | [] => []
  | now :: times' => let '(b', ok) := visit every burst b now in ok :: alone every burst (Some b') times'
  end.

Definition admitted (ds : list bool) : Z := Z.of_nat (length (List.filter id ds)).

(** The clock does not go back between requests, nor past [tmax]. *)
Fixpoint ordered (tmax t : Z) (times : list Z) : Prop :=
  match times with [] => True | now :: times' => t <= now <= tmax /\ ordered tmax now times' end.

(** ** Facts *)

Section Limits.
(** A period of at least a nanosecond, a burst of at least one, and a full refill that
    takes no longer than the idle time after which a bucket may be swept. *)
Context (ev B t0 tmax : Z).
Hypothesis Hev : 1 <= ev.
Hypothesis HB : 1 <= B.
Hypothesis Hfull : B * ev <= rlIdleTTL.
Hypothesis Hspan : tmax - t0 <= maxDuration.

Lemma small : 1 <= ev < 2 ^ 53 /\ 1 <= B < 2 ^ 53 /\ B * ev < 2 ^ 53.
Proof using Hev HB Hfull. unfold rlIdleTTL in Hfull. nia. Qed.

Lemma elapsed a b : t0 <= b <= a -> a <= tmax -> timeSub a b = a - b.
Proof using Hspan. unfold timeSub, maxDuration, minDuration in *. lia. Qed.

#[local] Open Scope Q_scope.

Notation qev := (inject_Z ev).
Notation qB := (inject_Z B).

Lemma qev_pos : 1 <= qev.
Proof using Hev. by apply (inject_le 1). Qed.
Lemma qB_pos : 1 <= qB.
Proof using HB. by apply (inject_le 1). Qed.

Lemma ofInt_ev : ofInt ev == qev.
Proof using Hev HB Hfull. apply rnd_int. destruct small. lia. Qed.
Lemma ofInt_B : ofInt B == qB.
Proof using Hev HB Hfull. apply rnd_int. destruct small. lia. Qed.
Lemma less_one : fsub (ofInt B) 1 == qB - 1.
Proof using Hev HB Hfull.
  unfold fsub. destruct (small) as (_ & H & _).
  transitivity (rnd (inject_Z (B - 1))); [|rewrite rnd_int by lia; by rewrite inject_minus].
  assert (E : ofInt B - 1 == inject_Z (B - 1)) by (by rewrite ofInt_B, inject_minus).
  apply Qle_antisym.
  - rewrite rnd_int by lia. apply rnd_le; [lia| |by rewrite E; apply Qle_refl]. rewrite E. apply (inject_le 0). lia.
  - rewrite (rnd_int (B - 1)) by lia. apply rnd_ge; [lia|]. rewrite E. apply Qle_refl.
Qed.

Lemma fltb_true a b : fltb a b = true <-> a < b.
Proof.
  unfold fltb. rewrite negb_true_iff. split; intros H.
  - apply Qnot_le_lt. intros Hc. apply Qle_bool_iff in Hc. congruence.
  - apply not_true_iff_false. rewrite Qle_bool_iff. by apply Qlt_not_le.
Qed.
Lemma fltb_false a b : fltb a b = false <-> b <= a.
Proof. unfold fltb. rewrite negb_false_iff. apply Qle_bool_iff. Qed.

(** What a time is worth. *)
Definition share (d : Z) : Q := inject_Z d / qev.
Definition quota (d : Z) : Q := fdiv (ofInt d) (ofInt ev).

Lemma quota_bounds d : (0 <= d)%Z -> 0 <= share d /\ 0 <= quota d <= share d * (1 + ulp) * (1 + ulp).
Proof using Hev HB Hfull.
  intros Hd. pose proof qev_pos as He. pose proof (inject_le 0 d Hd) as H0. change (inject_Z 0) with 0 in H0.
  assert (Hi : 0 < / qev) by (apply Qinv_lt_0_compat; lra).
  unfold quota, share, fdiv. destruct (rnd_error (inject_Z d)) as [_ Hc]; [done|]. pose proof (rnd_nonneg (inject_Z d) H0) as Hc0.
  fold (ofInt d) in Hc, Hc0.
  assert (E : ofInt d / ofInt ev == ofInt d * / qev) by (unfold Qdiv; by rewrite ofInt_ev).
  assert (Hq : 0 <= ofInt d / ofInt ev) by (rewrite E; nra).
  destruct (rnd_error _ Hq) as [_ Hr]. pose proof (rnd_nonneg _ Hq). rewrite E in Hr at 2.
  assert (Hm : ofInt d * / qev <= inject_Z d * / qev * (1 + ulp)).
  { assert (Em : inject_Z d * / qev * (1 + ulp) == inject_Z d * (1 + ulp) * / qev) by ring. rewrite Em. apply Qmult_le_compat_r; lra. }
  change (inject_Z d / qev) with (inject_Z d * / qev). split_and!; [nra|done|].
  revert Hm Hr. generalize (ofInt d * / qev) (inject_Z d * / qev). unfold ulp. intros x y Hm Hr. lra.
Qed.

Lemma quota_ge d n : (0 <= n <= B)%Z -> (n * ev <= d)%Z -> inject_Z n <= quota d.
Proof using Hev HB Hfull.
  intros Hn Hd. destruct small as (He & HBs & Hbe). apply rnd_ge; [lia|].
  pose proof qev_pos. apply Qle_shift_div_l; rewrite ofInt_ev; [lra|]. rewrite <- inject_Z_mult.
  apply rnd_ge; [nia|]. by apply inject_le.
Qed.

(** A bucket a run can hold. *)
Definition sound (b : bucket) (t : Z) : Prop := 0 <= tokens b <= qB /\ (t0 <= last b <= t)%Z.

Lemma refill_bounds b now : sound b now -> (now <= tmax)%Z ->
  0 <= refill ev B b now <= qB /\
  refill ev B b now <= tokens b + share (now - last b) * (1 + ulp) * (1 + ulp) * (1 + ulp) + ulp * qB.
Proof using All.
  intros [[H0 H1] Ht] Hnow. unfold refill. rewrite elapsed by lia. fold (quota (now - last b)).
  destruct (quota_bounds (now - last b)) as (Hs & Hq0 & Hq); [lia|]. unfold fadd.
  assert (Hp : 0 <= tokens b + quota (now - last b)) by lra.
  destruct (rnd_error _ Hp) as [_ Hr]. pose proof (rnd_nonneg _ Hp) as Hr0. pose proof ofInt_B as EB. pose proof qB_pos.
  destruct (fltb _ _) eqn:E; [apply fltb_true in E|apply fltb_false in E];
    revert Hs Hq0 Hq Hr Hr0 E H0 H1 EB; unfold ulp; intros; rewrite ?EB in *; split; try split; lra.
Qed.

(** After a full refill a bucket is as good as new. *)
Lemma refill_full b now : sound b now -> (now <= tmax)%Z -> (B * ev <= now - last b)%Z -> refill ev B b now = ofInt B.
Proof using All.
  intros [[H0 H1] Ht] Hnow Hd. unfold refill. rewrite elapsed by lia. fold (quota (now - last b)).
  destruct small as (_ & HBs & _). pose proof (quota_ge (now - last b) B ltac:(lia) Hd) as Hq.
  destruct (fltb _ _) eqn:E; [done|]. apply fltb_false in E. apply rnd_canonical, Qle_antisym; [exact E|].
  fold (ofInt B). rewrite ofInt_B. apply rnd_ge; [lia|]. lra.
Qed.

Lemma refill_period b now : sound b now -> (now <= tmax)%Z -> (ev <= now - last b)%Z -> 1 <= refill ev B b now.
Proof using All.
  intros [[H0 H1] Ht] Hnow Hd. unfold refill. rewrite elapsed by lia. fold (quota (now - last b)).
  pose proof (quota_ge (now - last b) 1 ltac:(lia) ltac:(lia)) as Hq. change (inject_Z 1) with 1 in Hq.
  destruct (fltb _ _); [rewrite ofInt_B; apply qB_pos|]. apply (rnd_ge _ 1); [lia|]. change (inject_Z 1) with 1. lra.
Qed.

(** Taking a token. *)
Lemma spend_bounds t : 1 <= t -> t <= qB -> 0 <= fsub t 1 <= qB /\ fsub t 1 <= t - 1 + ulp * qB.
Proof using All.
  intros H1 H2. unfold fsub. assert (Hp : 0 <= t - 1) by lra. destruct (rnd_error _ Hp) as [_ Hr]. pose proof (rnd_nonneg _ Hp).
  destruct small as (_ & HBs & _). split_and!; [done| |].
  - apply rnd_le; [lia|done|lra].
  - revert Hr. unfold ulp. intros. lra.
Qed.

Lemma fresh_sound now : (t0 <= now)%Z -> sound (mkBucket (fsub (ofInt B) 1) now) now.
Proof using Hev HB Hfull. intros H. pose proof qB_pos. split; [cbn; rewrite less_one; split; lra|cbn; lia]. Qed.

Lemma visit_sound b now b' ok : (t0 <= now <= tmax)%Z -> (forall b0, b = Some b0 -> sound b0 now) -> visit ev B b now = (b', ok) ->
  sound b' now /\ last b' = now.
Proof using All.
  intros Hnow Hb. destruct b as [b|]; cbn [visit].
  - destruct (refill_bounds b now (Hb _ eq_refl)) as [[H0 H1] _]; [lia|]. destruct (fltb _ _) eqn:E; intros [= <- <-].
    + split; [|done]. split; [done|cbn; lia].
    + apply fltb_false in E. destruct (spend_bounds _ E H1) as [? _]. split; [|done]. split; [done|cbn; lia].
  - intros [= <- <-]. split; [|done]. apply fresh_sound. lia.
Qed.

Lemma sound_later b t t' : sound b t -> (t <= t')%Z -> sound b t'.
Proof. intros [H1 H2] H. split; [done|lia]. Qed.

(** *** A key is served as if it were alone *)

(** What the limiter holds for a key at [t] against the bucket that is never swept:
    the same, or nothing when a full refill has gone by. *)
Definition tracks (held kept : option bucket) (t : Z) : Prop :=
  (forall b, kept = Some b -> sound b t) /\
  (held = kept \/ held = None /\ exists b, kept = Some b /\ (B * ev <= t - last b)%Z).

Lemma tracks_later held kept t t' : tracks held kept t -> (t <= t')%Z -> tracks held kept t'.
Proof.
  intros [H1 H2] Ht. split; [intros b Hb; by eapply sound_later; [apply H1|]|].
  destruct H2 as [->|(-> & b & -> & Hd)]; [by left|right]. split; [done|]. exists b. split; [done|lia].
Qed.

Lemma tracks_visit held kept now : (t0 <= now <= tmax)%Z -> tracks held kept now ->
  visit ev B held now = visit ev B kept now /\ tracks (Some (visit ev B kept now).1) (Some (visit ev B kept now).1) now.
Proof using All.
  intros Hnow [H1 H2]. assert (E : visit ev B held now = visit ev B kept now).
  { destruct H2 as [->|(-> & b & -> & Hd)]; [done|]. cbn [visit]. rewrite (refill_full b now) by (auto; lia).
    assert (Hf : fltb (ofInt B) 1 = false) by (apply fltb_false; rewrite ofInt_B; apply qB_pos). by rewrite Hf. }
  split; [done|]. split; [|by left]. intros b [= <-]. destruct (visit ev B kept now) as [b ok] eqn:Ev. by apply (visit_sound kept now b ok).
Qed.

Lemma tracks_sweep (m : gmap string bucket) (key : string) kept now : (t0 <= now <= tmax)%Z -> tracks (m !! key) kept now ->
  tracks (filter (fun kb : string * bucket => (timeSub now (last kb.2) < rlIdleTTL)%Z) m !! key) kept now.
Proof using All.
  intros Hnow [H1 H2]. split; [done|]. rewrite map_lookup_filter.
  destruct H2 as [->|(-> & Hd)]; [|by right]. destruct kept as [b|]; [|by left]. cbn [mbind option_bind].
  specialize (H1 b eq_refl). destruct H1 as [_ Hb]. case_guard as Hg; cbn [mbind option_bind fst snd] in *; [by left|].
  right. split; [done|]. exists b. split; [done|]. rewrite elapsed in Hg by lia. lia.
Qed.

(** One request: the decision on the key is that of the bucket alone, and a request of
    another key changes nothing. *)
Lemma allow_tracks r key k kept t now : every r = ev -> burst r = B -> (t0 <= t <= now)%Z -> (now <= tmax)%Z ->
  tracks (rl_m r !! key) kept t ->
  let '(r', ok) := allow r now k in
  every r' = ev /\ burst r' = B /\
  if bool_decide (k = key)
  then ok = (visit ev B kept now).2 /\ tracks (rl_m r' !! key) (Some (visit ev B kept now).1) now
  else tracks (rl_m r' !! key) kept now.
Proof using All.
  intros He Hb Ht Hnow Htr. unfold allow. set (r1 := sweepLocked r now).
  assert (Hr1 : every r1 = ev /\ burst r1 = B /\ tracks (rl_m r1 !! key) kept now).
  { assert (Htr' : tracks (rl_m r !! key) kept now) by (apply (tracks_later _ _ t); [done|lia]). unfold r1, sweepLocked.
    destruct (_ <? _)%Z; [done|]. cbn [every burst rl_m]. split_and!; [done..|]. apply tracks_sweep; [lia|done]. }
  destruct Hr1 as (E1 & E2 & Htr1). rewrite E1, E2. destruct (decide (k = key)) as [->|Hk].
  - destruct (tracks_visit _ _ now ltac:(lia) Htr1) as [Ev Hn]. rewrite Ev. destruct (visit ev B kept now) as [b ok]. cbn [fst] in Hn.
    rewrite bool_decide_true by done. cbn [every burst rl_m]. by rewrite lookup_insert_eq.
  - destruct (visit ev B (rl_m r1 !! k) now) as [b ok]. rewrite bool_decide_false by done. cbn [every burst rl_m].
    by rewrite lookup_insert_ne.
Qed.

Lemma key_alone key reqs : forall r kept t, every r = ev -> burst r = B -> (t0 <= t)%Z ->
  ordered tmax t (reqs.*1) -> tracks (rl_m r !! key) kept t ->
  decisions r key reqs = alone ev B kept (timesOf key reqs).
Proof using All.
  induction reqs as [|[now k] reqs IH]; intros r kept t He Hb Ht Ho Htr; [done|].
  destruct Ho as [Hnow Ho]. cbn [fst] in Hnow, Ho. pose proof (allow_tracks r key k kept t now He Hb ltac:(lia) ltac:(lia) Htr) as Ha.
  cbn [decisions timesOf omap list_omap]. destruct (allow r now k) as [r' ok]. destruct Ha as (He' & Hb' & Ha).
  change (omap _ reqs) with (timesOf key reqs). destruct (bool_decide (k = key)).
  - destruct Ha as [-> Htr']. cbn [alone]. destruct (visit ev B kept now) as [b ok]. cbn [fst snd] in *. f_equal.
    apply (IH _ _ now); (done || lia).
  - apply (IH _ _ now); (done || lia).
Qed.

(** What is known of a key after any requests: its bucket, last filled at the key's last
    request. *)
Lemma tracked_after key reqs : forall r kept t, every r = ev -> burst r = B -> (t0 <= t)%Z ->
  ordered tmax t (reqs.*1) -> tracks (rl_m r !! key) kept t ->
  exists kept' t', (t <= t')%Z /\ every (after r reqs) = ev /\ burst (after r reqs) = B /\
    tracks (rl_m (after r reqs) !! key) kept' t' /\ (forall later, ordered tmax t ((reqs ++ later).*1) -> ordered tmax t' (later.*1)) /\
    (kept' = kept \/ exists b, kept' = Some b /\ last b ∈ timesOf key reqs).
Proof using All.
  induction reqs as [|[now k] reqs IH]; intros r kept t He Hb Ht Ho Htr.
  { exists kept, t. split_and!; try done; by left. }
  destruct Ho as [Hnow Ho]. cbn [fst] in Hnow, Ho. pose proof (allow_tracks r key k kept t now He Hb ltac:(lia) ltac:(lia) Htr) as Ha.
  cbn [after timesOf omap list_omap]. destruct (allow r now k) as [r' ok]. destruct Ha as (He' & Hb' & Ha). cbn [fst].
  change (omap _ reqs) with (timesOf key reqs). destruct (bool_decide (k = key)).
  - destruct Ha as [_ Htr']. destruct (IH r' _ now He' Hb' ltac:(lia) Ho Htr') as (kept' & t' & ? & ? & ? & Ht' & Hl & Hk).
    exists kept', t'. split_and!; try done; [lia| |].
    + intros later [_ H']. by apply Hl.
    + right. destruct Hk as [->|(b & -> & Hin)]; [|exists b; split; [done|set_solver]].
      destruct (visit ev B kept now) as [b ok0] eqn:Ev. exists b. split; [done|].
      destruct (visit_sound kept now b ok0) as [_ ->]; [lia| |done|set_solver].
      intros b0 Hb0. destruct Htr as [Hs _]. eapply sound_later; [by apply Hs|lia].
  - destruct (IH r' _ now He' Hb' ltac:(lia) Ho Ha) as (kept' & t' & ? & ? & ? & Ht' & Hl & Hk).
    exists kept', t'. split_and!; try done; [lia|]. intros later [_ H']. by apply Hl.
Qed.

(** *** How much one bucket admits *)

Definition lastOf (t : Z) (times : list Z) : Z := default t (list.last times).

Lemma admitted_cons (ok : bool) ds : admitted (ok :: ds) = ((if ok then 1 else 0) + admitted ds)%Z.
Proof. unfold admitted. destruct ok; cbn [List.filter id length]; lia. Qed.

Lemma lastOf_cons t now times : lastOf t (now :: times) = lastOf now times.
Proof. unfold lastOf. destruct times as [|x times]; [done|]. change (now :: x :: times) with ([now] ++ (x :: times)).
  rewrite last_app. by destruct (list.last (x :: times)) eqn:E; [|apply last_None in E]. Qed.

Lemma share_add a b : share (a + b) == share a + share b.
Proof. unfold share, Qdiv. rewrite inject_Z_plus. ring. Qed.

Lemma lastOf_le times : forall t, ordered tmax t times -> (t <= lastOf t times)%Z.
Proof.
  induction times as [|now times IH]; intros t H; [by cbn|]. destruct H as [H1 H2]. rewrite lastOf_cons. specialize (IH _ H2). lia.
Qed.

Definition drift (n : nat) : Q := inject_Z (Z.of_nat n) * (2 * ulp * qB).

Lemma drift_S n : drift (S n) == drift n + 2 * ulp * qB.
Proof. unfold drift. rewrite Nat2Z.inj_succ. unfold Z.succ. rewrite inject_Z_plus. change (inject_Z 1) with 1. ring. Qed.

(** What one visit pays out and leaves, out of what the bucket holds. *)
Lemma visit_pays b now : sound b now -> (now <= tmax)%Z ->
  let '(b', ok) := visit ev B (Some b) now in
  (if ok then 1 else 0) + tokens b' <= refill ev B b now + ulp * qB.
Proof using All.
  intros Hs Hnow. cbn [visit]. destruct (refill_bounds b now Hs Hnow) as [[H0 H1] _]. pose proof qB_pos.
  destruct (fltb _ _) eqn:E; cbn [tokens].
  - unfold ulp. lra.
  - apply fltb_false in E. destruct (spend_bounds _ E H1) as [_ Hz]. lra.
Qed.

Lemma alone_bound times : forall b, sound b (last b) -> ordered tmax (last b) times ->
  inject_Z (admitted (alone ev B (Some b) times)) <=
    tokens b + share (lastOf (last b) times - last b) * (1 + ulp) * (1 + ulp) * (1 + ulp) + drift (length times).
Proof using All.
  induction times as [|now times IH]; intros b Hs Ho.
  - destruct Hs as [[H0 _] _]. cbn [alone length]. unfold lastOf, drift. cbn [list.last default]. rewrite Z.sub_diag.
    change (inject_Z (admitted [])) with 0. change (inject_Z (Z.of_nat 0)) with 0. unfold share. change (inject_Z 0) with 0. unfold Qdiv, ulp. lra.
  - destruct Ho as [Hnow Ho]. assert (Hs' : sound b now) by (eapply sound_later; [exact Hs|lia]).
    pose proof (visit_pays b now Hs' ltac:(lia)) as Hp. destruct (refill_bounds b now Hs' ltac:(lia)) as [_ Hr].
    cbn [alone length]. destruct (visit ev B (Some b) now) as [b' ok] eqn:Ev.
    destruct Hs as [_ Hb]. destruct (visit_sound (Some b) now b' ok) as [Hs2 El]; [lia|by intros ? [= <-]|done|].
    specialize (IH b'). rewrite El in IH. specialize (IH Hs2 Ho). rewrite admitted_cons, inject_Z_plus, lastOf_cons, drift_S.
    assert (Esh : share (lastOf now times - last b) == share (lastOf now times - now) + share (now - last b)).
    { rewrite <- share_add. by replace (lastOf now times - now + (now - last b))%Z with (lastOf now times - last b)%Z by lia. }
    rewrite Esh. assert (Eok : inject_Z (if ok then 1 else 0) == if ok then 1 else 0) by (by destruct ok). rewrite Eok.
    unfold ulp in *. lra.
Qed.

(** Started full, or at the first request of a window. *)
Lemma window_bound kept t times : (t0 <= t)%Z -> (forall b, kept = Some b -> sound b t) -> ordered tmax t times ->
  let first := default t (head times) in
  inject_Z (admitted (alone ev B kept times)) <=
    qB + share (lastOf first times - first) * (1 + ulp) * (1 + ulp) * (1 + ulp) + drift (length times).
Proof using All.
  intros Ht Hk Ho. pose proof qB_pos as HqB. destruct times as [|now times].
  { cbn [head default length alone]. unfold lastOf, drift. cbn [list.last default]. rewrite Z.sub_diag.
    change (inject_Z (admitted [])) with 0. change (inject_Z (Z.of_nat 0)) with 0. unfold share. change (inject_Z 0) with 0. unfold Qdiv, ulp. lra. }
  destruct Ho as [Hnow Ho]. change (default t (head (now :: times))) with now. cbv zeta. cbn [alone length]. rewrite lastOf_cons.
  destruct (visit ev B kept now) as [b' ok] eqn:Ev.
  destruct (visit_sound kept now b' ok) as [Hs El]; [lia|intros b Hb; eapply sound_later; [by apply Hk|lia]|done|].
  assert (Hp : (if ok then 1 else 0) + tokens b' <= qB + ulp * qB).
  { destruct kept as [b|].
    - assert (Hs' : sound b now) by (eapply sound_later; [by apply Hk|lia]).
      pose proof (visit_pays b now Hs' ltac:(lia)) as Hp. rewrite Ev in Hp. destruct (refill_bounds b now Hs' ltac:(lia)) as [[_ ?] _]. lra.
    - injection Ev as <- <-. cbn [tokens]. rewrite less_one. unfold ulp. lra. }
  pose proof (alone_bound times b') as Hal. rewrite El in Hal. specialize (Hal Hs Ho).
  rewrite admitted_cons, inject_Z_plus, drift_S.
  assert (Eok : inject_Z (if ok then 1 else 0) == if ok then 1 else 0) by (by destruct ok). rewrite Eok. unfold ulp in *. lra.
Qed.

(** In integers, for a window of at most [2 ^ 50] periods and tokens asked for. *)
Lemma window_count kept t times : (t0 <= t)%Z -> (forall b, kept = Some b -> sound b t) -> ordered tmax t times ->
  let first := default t (head times) in
  (Z.of_nat (length times) * B <= 2 ^ 50)%Z -> (lastOf first times - first <= 2 ^ 50 * ev)%Z ->
  (admitted (alone ev B kept times) * ev <= (B + 1) * ev + (lastOf first times - first))%Z.
Proof using All.
  intros Ht Hk Ho first Hn HT. pose proof (window_bound kept t times Ht Hk Ho) as H. cbv zeta in H. fold first in H.
  assert (Hf : (0 <= lastOf first times - first)%Z).
  { unfold first. destruct times as [|now times]; [cbn; lia|]. change (default t (head (now :: times))) with now. rewrite lastOf_cons.
    destruct Ho as [_ Ho]. pose proof (lastOf_le _ _ Ho). lia. }
  set (T := (lastOf first times - first)%Z) in *. set (A := admitted _) in *. pose proof qev_pos as He.
  assert (Hsh : share T * qev == inject_Z T) by (unfold share; field; lra).
  assert (Hs1 : share T <= inject_Z (2 ^ 50)).
  { unfold share. apply Qle_shift_div_r; [lra|]. rewrite <- inject_Z_mult. by apply inject_le. }
  assert (Hs0 : 0 <= share T).
  { unfold share. apply Qle_shift_div_l; [lra|]. rewrite Qmult_0_l. by apply (inject_le 0). }
  assert (Hd : drift (length times) <= inject_Z (2 ^ 50) * (2 * ulp)).
  { unfold drift. apply inject_le in Hn. rewrite inject_Z_mult in Hn. unfold ulp. lra. }
  assert (HA : inject_Z A <= qB + share T + 1).
  { revert H Hs1 Hs0 Hd. unfold ulp. change (inject_Z (2 ^ 50)) with (1125899906842624#1). intros. lra. }
  assert (HAe : inject_Z (A * ev) <= inject_Z ((B + 1) * ev + T)).
  { rewrite inject_Z_plus, !inject_Z_mult, inject_Z_plus, <- Hsh. change (inject_Z 1) with 1.
    apply (Qmult_le_compat_r _ _ qev) in HA; lra. }
  by rewrite <- Zle_Qle in HAe.
Qed.

#[local] Close Scope Q_scope.

Lemma ordered_weaken times : forall t t', ordered tmax t' times -> (t <= t')%Z -> ordered tmax t times.
Proof. destruct times as [|now times]; intros t t' H Ht; [done|]. destruct H as [? ?]. split; [lia|done]. Qed.

Lemma ordered_times key reqs : forall t, ordered tmax t (reqs.*1) -> ordered tmax t (timesOf key reqs).
Proof.
  induction reqs as [|[now k] reqs IH]; intros t H; [done|]. destruct H as [H1 H2]. cbn [fst] in *. apply IH in H2.
  cbn [timesOf omap list_omap]. change (omap _ reqs) with (timesOf key reqs). destruct (bool_decide (k = key)); [by split|].
  eapply ordered_weaken; [exact H2|lia].
Qed.

Lemma new_tracks key : tracks (rl_m (newRateLimiter ev B t0) !! key) None t0.
Proof. split; [done|by left]. Qed.

Lemma ordered_app xs : forall t ys, ordered tmax t (xs ++ ys) -> ordered tmax t xs.
Proof. induction xs as [|x xs IH]; intros t ys H; [done|]. destruct H as [H1 H2]. split; [done|by eapply IH]. Qed.
End Limits.

(** The assumptions on a limiter and its clock. *)
Definition sensible (every burst t0 tmax : Z) : Prop :=
  1 <= every /\ 1 <= burst /\ burst * every <= rlIdleTTL /\ tmax - t0 <= maxDuration.

Definition span (times : list Z) : Z := let first := default 0 (head times) in lastOf first times - first.

(** C31: Each key is served as if it were alone. For a period and a burst that refill fully
    within the idle time, and a clock that does not go back: whatever the requests of
    other keys and wherever the sweeps fall, the decisions on a key are those of a
    single bucket that is never swept, in the same arithmetic; so neither the other
    clients nor the loss of an idle bucket can refuse or grant a request. And a key
    that has not asked for a period is admitted. *)
Theorem key_served_alone (every burst t0 tmax : Z) (reqs : list (Z * string)) (now : Z) (key : string) :
  sensible every burst t0 tmax -> ordered tmax t0 ((reqs ++ [(now, key)]).*1) ->
  decisions (newRateLimiter every burst t0) key reqs = alone every burst None (timesOf key reqs) /\
  (Forall (fun t => t + every <= now) (timesOf key reqs) ->
   (allow (after (newRateLimiter every burst t0) reqs) now key).2 = true).
Proof.
  intros (He & HB & Hf & Hs) Ho. pose proof Ho as Ho'. rewrite fmap_app in Ho'. apply ordered_app in Ho'.
  pose proof (new_tracks every burst t0 key) as Hn. split.
  - by apply (key_alone every burst t0 tmax He HB Hf Hs key reqs _ _ t0).
  - intros Hpause. destruct (tracked_after every burst t0 tmax He HB Hf Hs key reqs (newRateLimiter every burst t0) None t0 eq_refl eq_refl ltac:(lia) Ho' Hn)
      as (kept & t & Ht & E1 & E2 & Htr & Hl & Hk). destruct (Hl [(now, key)] Ho) as [Hnow _]. cbn [fst] in Hnow.
    pose proof (allow_tracks every burst t0 tmax He HB Hf Hs _ key key kept t now E1 E2 ltac:(lia) ltac:(lia) Htr) as Ha.
    destruct (allow _ now key) as [r' ok]. rewrite bool_decide_true in Ha by done. destruct Ha as (_ & _ & -> & _). cbn [snd].
    destruct Hk as [->|(b & -> & Hb)]; [done|]. rewrite Forall_forall in Hpause. specialize (Hpause _ Hb).
    destruct Htr as [Hsd _]. assert (Hsb : sound burst t0 b now) by (eapply sound_later; [by apply Hsd|lia]).
    pose proof (refill_period every burst t0 tmax He HB Hf Hs b now Hsb ltac:(lia) ltac:(lia)) as Hr.
    cbn [visit]. apply fltb_false in Hr. by rewrite Hr.
Qed.

Lemma rate_bound (every burst t0 tmax : Z) (earlier window : list (Z * string)) (key : string) :
  sensible every burst t0 tmax -> ordered tmax t0 ((earlier ++ window).*1) ->
  let times := timesOf key window in
  Z.of_nat (length times) * burst <= 2 ^ 50 -> span times <= 2 ^ 50 * every ->
  admitted (decisions (after (newRateLimiter every burst t0) earlier) key window) * every <= (burst + 1) * every + span times.
Proof.
  intros (He & HB & Hf & Hs) Ho times Hn HT. pose proof Ho as Ho'. rewrite fmap_app in Ho'. apply ordered_app in Ho'.
  destruct (tracked_after every burst t0 tmax He HB Hf Hs key earlier (newRateLimiter every burst t0) None t0 eq_refl eq_refl ltac:(lia) Ho' (new_tracks every burst t0 key))
    as (kept & t & Ht & E1 & E2 & Htr & Hl & _). specialize (Hl window Ho).
  rewrite (key_alone every burst t0 tmax He HB Hf Hs key window _ kept t E1 E2 Ht Hl Htr). fold times.
  assert (Hot : ordered tmax t times) by (by apply ordered_times).
  assert (Esp : span times = lastOf (default t (head times)) times - default t (head times)).
  { unfold span. destruct times as [|x xs]; [cbn; unfold lastOf; cbn; lia|done]. }
  rewrite Esp in *. apply (window_count every burst t0 tmax He HB Hf Hs kept t times Ht); [apply Htr|done..].
Qed.

(** The defaults of the server: a period of 100 ms and a burst of 40. *)
Definition sampleEvery : Z := 100000000.
Definition sampleBurst : Z := 40.

(** At one instant exactly the burst is admitted; 99 ms later still nothing, 1 ns more
    than 100 ms later one more. *)
Example default_burst :
  decisions (newRateLimiter sampleEvery sampleBurst 0) "a" (replicate 42 (7, "a") ++ [(99000007, "a"); (100000008, "a"); (100000008, "a")]) =
  replicate 40 true ++ [false; false; false; true; false].
Proof. by vm_compute. Qed.

(** A bucket idle for ten minutes is swept by the request of another key. *)
Example sweeps :
  let r := after (newRateLimiter sampleEvery sampleBurst 0) [(7, "a"); (8, "b"); (rlIdleTTL + 7, "b")] in
  rl_m r !! "a" = None /\ last <$> rl_m r !! "b" = Some (rlIdleTTL + 7).
Proof. by vm_compute. Qed.

Lemma key_served_alone_witness :
  sensible sampleEvery sampleBurst 0 1000000000 /\
  (allow (after (newRateLimiter sampleEvery sampleBurst 0) (replicate 41 (0, "a") ++ replicate 41 (0, "b"))) 100000000 "a").2 = true.
Proof.
  assert (H : sensible sampleEvery sampleBurst 0 1000000000) by (unfold sensible, maxDuration, rlIdleTTL, sampleEvery, sampleBurst; lia).
  split; [exact H|]. apply (key_served_alone sampleEvery sampleBurst 0 1000000000 _ _ _ H).
  - repeat split; vm_compute; discriminate.
  - assert (E : timesOf "a" (replicate 41 (0, "a") ++ replicate 41 (0, "b")) = replicate 41 0) by (by vm_compute).
    rewrite E. apply Forall_replicate. unfold sampleEvery. lia.
Defined.
