(* ===== verification/Throttle.v ===== *)
(** * Throttle: the middleware with the rate limiter

    The two of [Routes] and [Rate] together: the limiter is the one the middleware
    asks, with the clock of the request, and what the handlers do between requests to
    the authenticator is arbitrary. *)

From S2P Require Import Prelude GoStr Session Pairing Access AuthAdapter Float64 Rate Routes.

#[local] Open Scope Z_scope.

(** The limiter and the clock it reads. *)
Definition clockedLimiter : Type := rateLimiter * Z.
#[global] Instance clocked_Limiter : Limiter clockedLimiter :=
  fun l key => let '(r, ok) := Rate.allow l.1 l.2 key in ((r, l.2), ok).

Section Throttled.
Context {A : Type} `{Authenticator A}.
Context (equalFold : list byte -> list byte -> bool) (crossOriginOk : httpRequest -> bool) (cfg : hostConfig).

Notation state := (server A clockedLimiter).

(** A request at a time, on a route, and what its handler does to the authenticator. *)
Record event := mkEvent { ev_now : Z; ev_route : routeSpec; ev_request : httpRequest; ev_effect : A -> A }.

Definition atTime (s : state) (now : Z) : state := mkServer (s_auth s) ((s_limiter s).1, now) (s_cookies s) (s_audit s).

Definition serve (s : state) (e : event) : state * outcome :=
  let '(s, o) := wrap equalFold crossOriginOk cfg (ev_route e) (atTime s (ev_now e)) (ev_now e) (ev_request e) in
  (withAuth s (ev_effect e (s_auth s)), o).

Fixpoint serveAll (s : state) (es : list event) : state :=
  match es with [] => s | e :: es' => serveAll (serve s e).1 es' end.

(** How many of the requests that [counts] holds of reach their handler. *)
Fixpoint reached (counts : event -> bool) (s : state) (es : list event) : Z :=
  match es with
  | [] => 0
  | e :: es' =>
      let '(s', o) := serve s e in
      (if counts e && match o with Serve _ _ => true | Deny _ => false end then 1 else 0) + reached counts s' es'
  end.

(** What a request does to the limiter: nothing, and it is denied; or it asks for its
    key, and it is served exactly when that is allowed. *)
Definition asks (l : clockedLimiter) (key : string) (res : state * outcome) : Prop :=
  s_limiter res.1 = (allow l key).1 /\ match res.2 with Serve _ _ => (allow l key).2 = true | Deny _ => (allow l key).2 = false end.

Definition refusedEarly (l : clockedLimiter) (res : state * outcome) : Prop :=
  s_limiter res.1 = l /\ exists d, res.2 = Deny d.

Lemma afterSession_asks rt s now r cv key ident :
  let res := afterSession equalFold crossOriginOk cfg rt s now r cv key ident in
  refusedEarly (s_limiter s) res \/ asks (s_limiter s) key res.
Proof.
  unfold afterSession, refusedEarly. destruct (_ && _); [left; eauto|]. destruct (_ && _); [left; eauto|].
  set (csrf := match rt_auth rt with authSession => _ | _ => _ end).
  assert (Hl : s_limiter csrf.1 = s_limiter s).
  { unfold csrf. destruct (rt_auth rt); [done..|]. destruct (rt_mutating rt); [|done]. by destruct (ValidateCSRF _ _ _ _). }
  destruct csrf as [s1 ok]. cbn [fst] in Hl. destruct ok; cbn [negb]; [|left; rewrite <- Hl; eauto].
  destruct (_ && negb (hasJSONContentType r)); [left; rewrite <- Hl; eauto|]. right. rewrite Hl. unfold asks.
  destruct (allow (s_limiter s) key) as [l okl]. by destruct okl.
Qed.

(** The session of a request, if any, is found without the limiter. *)
Lemma resolve_limiter s now r : s_limiter (resolveSession (L:=clockedLimiter) s now r).1 = s_limiter s.
Proof.
  unfold resolveSession. assert (Hs : s_limiter (sessionFromRequest (L:=clockedLimiter) s now r).1 = s_limiter s).
  { unfold sessionFromRequest. destruct (rq_Cookie r) as [v|]; [|done]. destruct (negb _); [done|]. by destruct (SessionOf _ _ _). }
  destruct (sessionFromRequest s now r) as [s1 found]. cbn [fst] in Hs. destruct found; [done|]. destruct (NamedMode _); [|done].
  unfold provisionSession. destruct (EnsureSession _ _ _) as [a [[sess|]|e]]; cbn [fst s_limiter withAuth]; [|done..].
  by destruct (negb _).
Qed.

Lemma wrap_asks rt s now r :
  let res := wrap equalFold crossOriginOk cfg rt s now r in
  refusedEarly (s_limiter s) res \/
  exists key, asks (s_limiter s) key res /\ (rt_auth rt ≠ authSession -> key = unauthKey rt r).
Proof.
  unfold wrap, refusedEarly. destruct (negb (hostAllowed cfg (rq_Host r))); [left; eauto|].
  set (ver := match rt_auth rt with authNone => _ | _ => _ end).
  assert (Hl : s_limiter ver.1 = s_limiter s).
  { unfold ver. destruct (rt_auth rt); [done|..]; by destruct (VerifyAccess _ _ _). }
  destruct ver as [s1 err]. cbn [fst] in Hl. destruct err; [left; eauto|].
  assert (Hun : rt_auth rt ≠ authSession -> let res := afterSession equalFold crossOriginOk cfg rt s1 now r "" (unauthKey rt r) None in
    refusedEarly (s_limiter s) res \/ exists key, asks (s_limiter s) key res /\ (rt_auth rt ≠ authSession -> key = unauthKey rt r)).
  { intros _. rewrite <- Hl. destruct (afterSession_asks rt s1 now r "" (unauthKey rt r) None) as [?|?]; [by left|right; eauto]. }
  destruct (rt_auth rt) eqn:Ea; [by apply Hun..|].
  pose proof (resolve_limiter s1 now r) as Hr. destruct (resolveSession s1 now r) as [s2 [[cv id]|]]; cbn [fst] in Hr.
  - rewrite <- Hl, <- Hr. destruct (afterSession_asks rt s2 now r cv ("s:" +:+ si_SessionID id) (Some id)) as [?|?]; [by left|].
    right. eexists. split; [done|done].
  - left. rewrite <- Hl, <- Hr. eauto.
Qed.

(** The requests that came as far as the limiter. *)
Lemma asked key counts es : (forall e, e ∈ es -> counts e = true -> rt_auth (ev_route e) ≠ authSession /\ unauthKey (ev_route e) (ev_request e) = key) ->
  forall s, exists reqs, (s_limiter (serveAll s es)).1 = after (s_limiter s).1 reqs /\
    reqs.*1 `sublist_of` (ev_now <$> es) /\ reached counts s es <= admitted (decisions (s_limiter s).1 key reqs).
Proof.
  induction es as [|e es IH]; intros Hc s; [by exists []|].
  assert (Hc' : forall e', e' ∈ es -> counts e' = true -> rt_auth (ev_route e') ≠ authSession /\ unauthKey (ev_route e') (ev_request e') = key)
    by (intros; apply Hc; [by right|done]).
  specialize (Hc e (list_elem_of_here _ _)). cbn [serveAll reached].
  assert (Hw := wrap_asks (ev_route e) (atTime s (ev_now e)) (ev_now e) (ev_request e)). cbv zeta in Hw.
  unfold serve. destruct (wrap _ _ _ _ _ _ _) as [s1 o]. cbn [fst].
  specialize (IH Hc' (withAuth s1 (ev_effect e (s_auth s1)))) as (reqs & E1 & E2 & E3). cbn [withAuth s_limiter] in E1, E3.
  destruct Hw as [[Hl [d Hd]]|(k & [Hl Ho] & Hk)]; cbn [fst snd atTime s_limiter] in *.
  - subst o. rewrite andb_false_r. exists reqs. rewrite Hl in E1, E3. split_and!; [done|by constructor|exact E3].
  - exists ((ev_now e, k) :: reqs). cbn [after decisions fmap list_fmap fst]. unfold allow, clocked_Limiter in Hl, Ho. cbn [fst snd] in Hl, Ho.
    destruct (Rate.allow (s_limiter s).1 (ev_now e) k) as [r1 ok]. cbn [fst snd] in *. rewrite Hl in E1, E3. cbn [fst] in E1, E3.
    split_and!; [done|by constructor|]. destruct (counts e) eqn:Ec; cbn [andb].
    + destruct (Hc eq_refl) as [Hs Hu]. rewrite Hk, Hu, bool_decide_true by done. rewrite admitted_cons.
      destruct o; rewrite Ho; lia.
    + case_bool_decide; [|lia]. rewrite admitted_cons. destruct ok; lia.
Qed.
End Throttled.

Lemma ordered_sublist tmax xs ys : xs `sublist_of` ys -> forall t, ordered tmax t ys -> ordered tmax t xs.
Proof.
  induction 1 as [|x xs ys _ IH|x xs ys _ IH]; intros t H; [done|destruct H as [? ?]; split; [done|by apply IH]|].
  destruct H as [[? ?] H]. apply IH. by eapply ordered_weaken.
Qed.

Lemma times_sublist key reqs : timesOf key reqs `sublist_of` reqs.*1.
Proof.
  induction reqs as [|[now k] reqs IH]; [done|]. cbn [timesOf omap list_omap fmap list_fmap fst].
  destruct (bool_decide (k = key)); by constructor.
Qed.

Lemma lastOf_in t times : lastOf t times ∈ t :: times.
Proof.
  unfold lastOf. destruct (list.last times) eqn:E; cbn [default]; [|by left]. apply last_Some_elem_of in E. by right.
Qed.

(** Times within [a] and [a + T] span at most [T]. *)
Lemma span_within times a T : 0 <= T -> Forall (fun t => a <= t <= a + T) times -> span times <= T.
Proof.
  intros HT H. unfold span. destruct times as [|t times]; [unfold lastOf; cbn; lia|]. change (default 0 (head (t :: times))) with t. cbv zeta.
  pose proof (lastOf_in t (t :: times)) as Hin. rewrite Forall_forall in H.
  assert (Hl : a <= lastOf t (t :: times) <= a + T) by (apply H; set_solver). specialize (H t ltac:(left)). lia.
Qed.

Definition pairsFrom {A : Type} (ip : list byte) (e : event (A:=A)) : bool :=
  match rt_handler (ev_route e) with hPair => bool_decide (clientIP (ev_request e) = ip) | _ => false end.

Definition pairKey (ip : list byte) : string := "u:" +:+ (apiPrefix +:+ "/pair") +:+ "|" +:+ String.string_of_list_byte ip.

Lemma pair_route_key rt r : rt ∈ routes -> rt_handler rt = hPair -> rt_auth rt ≠ authSession /\ unauthKey rt r = pairKey (clientIP r).
Proof.
  intros Hin Hh. unfold routes in Hin.
  repeat (apply elem_of_cons in Hin as [->|Hin]; [by try split|]). by apply not_elem_of_nil in Hin.
Qed.

(** C33: Guessing the pairing secret is bounded by the clock. Whatever else the server is
    asked, by anyone, on any route of the table, and whatever its handlers do in
    between: in any stretch of the run that lasts [T], the requests of one client
    address that get as far as the pairing handler are at most a burst, one more, and
    one for each period in [T]. *)
Theorem pairing_throttled {A : Type} `{Authenticator A} (equalFold : list byte -> list byte -> bool) (crossOriginOk : httpRequest -> bool)
    (cfg : hostConfig) (every burst t0 tmax a T : Z) (s : server A clockedLimiter) (earlier window : list event) (ip : list byte) :
  sensible every burst t0 tmax -> (s_limiter s).1 = newRateLimiter every burst t0 ->
  Forall (fun e => ev_route e ∈ routes) window -> ordered tmax t0 (ev_now <$> earlier ++ window) ->
  Forall (fun e => a <= ev_now e <= a + T) window -> 0 <= T <= 2 ^ 50 * every -> Z.of_nat (length window) * burst <= 2 ^ 50 ->
  reached equalFold crossOriginOk cfg (pairsFrom ip) (serveAll equalFold crossOriginOk cfg s earlier) window * every <=
    (burst + 1) * every + T.
Proof.
  intros Hsen Hl Hrt Ho Hwin HT Hn.
  destruct (asked equalFold crossOriginOk cfg (pairKey ip) (fun _ => false) earlier ltac:(done) s) as (before & E1 & E2 & _).
  destruct (asked equalFold crossOriginOk cfg (pairKey ip) (pairsFrom ip) window) with (s := serveAll equalFold crossOriginOk cfg s earlier)
    as (reqs & _ & F2 & F3).
  { intros e He Hc. unfold pairsFrom in Hc. rewrite Forall_forall in Hrt. specialize (Hrt e He).
    destruct (rt_handler (ev_route e)) eqn:Eh; try done. apply bool_decide_eq_true in Hc as <-. by apply pair_route_key. }
  rewrite E1, Hl in F3. pose proof Hsen as (He & HB & _).
  assert (Hsub : timesOf (pairKey ip) reqs `sublist_of` (ev_now <$> window)) by (etransitivity; [apply times_sublist|exact F2]).
  assert (Hsp : span (timesOf (pairKey ip) reqs) <= T).
  { apply (span_within _ a); [lia|]. apply Forall_forall. intros t Ht.
    eapply elem_of_sublist in Ht; [|exact Hsub]. apply list_elem_of_fmap in Ht as (e & -> & Hin). rewrite Forall_forall in Hwin. by apply Hwin. }
  assert (Hord : ordered tmax t0 ((before ++ reqs).*1)).
  { eapply ordered_sublist; [|exact Ho]. rewrite !fmap_app. by apply sublist_app. }
  pose proof (rate_bound every burst t0 tmax before reqs (pairKey ip) Hsen Hord) as Hb. cbv zeta in Hb.
  apply sublist_length in Hsub. rewrite length_fmap in Hsub.
  assert (Hlen : Z.of_nat (length (timesOf (pairKey ip) reqs)) * burst <= 2 ^ 50) by nia.
  specialize (Hb Hlen ltac:(lia)). nia.
Qed.

(** The pairing route against the sample server with the default limiter. *)
Definition pairRoute : routeSpec := mkRoute POST (apiPrefix +:+ "/pair") authPair true false hPair.
Definition throttledServer : server (authAdapter jwksState) clockedLimiter :=
  mkServer quickAdapter (newRateLimiter sampleEvery sampleBurst 0, 0) [] [].
Definition pairAttempt (now : Z) : event (A:=authAdapter jwksState) := mkEvent now pairRoute sampleRequest (fun a => a).

#[local] Existing Instance adapter_Authenticator.

(** Forty attempts at once reach the handler; of five more, one per period does. *)
Example attempts_at_once :
  reached (H:=adapter_Authenticator sampleHeader sampleClaims acceptAll) EqualFold (fun _ => true) sampleHosts
    (pairsFrom (bytesOf "127.0.0.1")) throttledServer (pairAttempt <$> replicate 45 60 ++ [100000060; 100000061; 200000060]) = 42.
Proof. by vm_compute. Qed.

Lemma pairing_throttled_witness :
  reached (H:=adapter_Authenticator sampleHeader sampleClaims acceptAll) EqualFold (fun _ => true) sampleHosts
    (pairsFrom (bytesOf "127.0.0.1")) throttledServer (pairAttempt <$> replicate 45 60) * sampleEvery <= 41 * sampleEvery + 0.
Proof.
  apply (pairing_throttled (H:=adapter_Authenticator sampleHeader sampleClaims acceptAll) EqualFold (fun _ => true) sampleHosts
    sampleEvery sampleBurst 0 1000000000 60 0 throttledServer [] (pairAttempt <$> replicate 45 60) (bytesOf "127.0.0.1")).
  - unfold sensible, maxDuration, rlIdleTTL, sampleEvery, sampleBurst. lia.
  - reflexivity.
  - apply Forall_fmap, Forall_replicate. cbn. unfold routes. set_solver.
  - repeat split; vm_compute; discriminate.
  - apply Forall_fmap, Forall_replicate. cbn. lia.
  - unfold sampleEvery. lia.
  - vm_compute. discriminate.
Defined.
