(* ===== verification/Calls.v ===== *)
(** * Calls: the typed Herdr operations over the socket (internal/herdr/mutations.go,
    agents.go, reads.go, lists.go and the results of internal/integration/mutate.go)

    What an operation checks, sends and accepts, and the mutator the relay uses. The
    requests of the mutations are those of [Dispatch], the round trip is
    [HerdrClient.call]. Decoding a result into its struct and encoding it again is the
    library's, one function per struct. *)

From stdpp Require Import pretty.
From S2P Require Import Prelude GoStr Sanitize Json Keys Session Topology Dispatch Discover Mutations HerdrClient.

#[local] Open Scope Z_scope.

(** ** Results *)

Record WorkspaceCreated := mkWorkspaceCreated { wc_Workspace : Workspace; wc_Tab : Tab; wc_RootPane : Pane }.
Record TabCreated := mkTabCreated { tc_Tab : Tab; tc_RootPane : Pane }.
Record PaneResizeResult := mkPaneResize {
  pr_Changed : bool; pr_PaneID : string; pr_FocusedPaneID : string; pr_Reason : option string; pr_Layout : option Layout
}.
Record PaneZoomResult := mkPaneZoom {
  pz_Changed : bool; pz_ZoomChanged : bool; pz_FocusChanged : bool; pz_Zoomed : bool; pz_PaneID : string; pz_FocusedPaneID : string
}.
Record PaneSwapResult := mkPaneSwap {
  ps_Changed : bool; ps_SourcePaneID : string; ps_TargetPaneID : string; ps_FocusedPaneID : string
}.
Record PaneMoveResult := mkPaneMove {
  pm_Changed : bool; pm_Pane : Pane; pm_PreviousPaneID : string; pm_PreviousTabID : string; pm_PreviousWorkspaceID : string;
  pm_FocusedPaneID : string; pm_ClosedTabID : string; pm_ClosedWorkspaceID : string;
  pm_CreatedTab : option Tab; pm_CreatedWorkspace : option Workspace
}.
Definition NewPaneID (r : PaneMoveResult) : string := p_PaneID (pm_Pane r).
Record AgentStarted := mkAgentStarted { ast_Agent : Agent; ast_Argv : list string }.
Record Worktree := mkWorktree {
  wk_Path : string; wk_Label : string; wk_Branch : string; wk_IsBare : bool; wk_IsDetached : bool;
  wk_IsLinkedWorktree : bool; wk_IsPrunable : bool; wk_OpenWorkspaceID : string
}.
Record WorktreeCreated := mkWorktreeCreated {
  wtc_Worktree : Worktree; wtc_Workspace : Workspace; wtc_Tab : Tab; wtc_RootPane : Pane
}.
Record WorktreeOpened := mkWorktreeOpened {
  wto_AlreadyOpen : bool; wto_Worktree : Worktree; wto_Workspace : Workspace; wto_Tab : Tab; wto_RootPane : Pane
}.
Record WorktreeRemoved := mkWorktreeRemoved { wtr_Forced : bool; wtr_Path : string; wtr_WorkspaceID : string }.

(** [ReadResult]; the text as bytes. *)
Record ReadResult := mkRead {
  rd_PaneID : string; rd_WorkspaceID : string; rd_TabID : string; rd_Source : string; rd_Format : string;
  rd_Text : list byte; rd_Revision : Z; rd_Truncated : bool
}.

(** What an operation gives back; [RTabs] of [tab.move] is the new order. *)
Inductive result :=
| RWorkspaceCreated (r : WorkspaceCreated) | RWorkspace (r : Workspace) | RTabCreated (r : TabCreated) | RTab (r : Tab)
| RTabs (r : list Tab) | RPane (r : Pane) | RPaneResize (r : PaneResizeResult) | RPaneZoom (r : PaneZoomResult)
| RPaneSwap (r : PaneSwapResult) | RPaneMove (r : PaneMoveResult) | RAgent (r : Agent) | RAgentStarted (r : AgentStarted)
| RWorktreeCreated (r : WorktreeCreated) | RWorktreeOpened (r : WorktreeOpened) | RWorktreeRemoved (r : WorktreeRemoved)
| ROk
| RRead (r : ReadResult) | RAgents (r : list Agent) | RWorkspaces (r : list Workspace) | RPanes (r : list Pane)
| RWorktrees (r : list Worktree).

(** ** The checks of the client, in their order, with their messages *)

Definition requires (ok : bool) (msg : string) (next : option string) : option string := if ok then next else Some msg.

Definition checkDestination (d : PaneMoveDestination) : option string :=
  match d with
  | MoveToTab tabID split _ _ =>
      requires (nonempty tabID) "move to tab requires a tab id"
        (requires (splitValid split) "move to tab requires split right or down" None)
  | _ => None
  end.

Definition agentNameRule : string := "agent name must match [a-z][a-z0-9_-]{0,31}".

Definition checkKeys (ks : list string) : option string :=
  let '(bad, ok) := ValidateKeys (bytesOf <$> ks) in
  requires ok (if bool_decide (bad = []) then "agent.send_keys requires at least one key"
               else "agent.send_keys rejected invalid key: " +:+ String.string_of_list_byte bad) None.

Section Calls.
Context (positive negative : string -> bool).

Definition checkCall (c : HerdrCall) : option string :=
  match c with
  | WorkspaceCreate _ _ _ _ | TabCreate _ _ _ _ _ => None
  | WorkspaceFocus i => requires (nonempty i) "workspace.focus requires a workspace id" None
  | WorkspaceRename i _ => requires (nonempty i) "workspace.rename requires a workspace id" None
  | WorkspaceClose i => requires (nonempty i) "workspace.close requires a workspace id" None
  | TabFocus i => requires (nonempty i) "tab.focus requires a tab id" None
  | TabRename i _ => requires (nonempty i) "tab.rename requires a tab id" None
  | TabMove i idx =>
      requires (nonempty i) "tab.move requires a tab id"
        (requires (negb (isNegative negative idx)) "tab.move insert_index must be non-negative" None)
  | TabClose i => requires (nonempty i) "tab.close requires a tab id" None
  | PaneFocus i => requires (nonempty i) "pane.focus requires a pane id" None
  | PaneSplit i dir _ _ _ _ =>
      requires (nonempty i) "pane.split requires an explicit target pane id"
        (requires (splitValid dir) "pane.split direction must be right or down" None)
  | PaneResize i dir _ =>
      requires (nonempty i) "pane.resize requires a pane id" (requires (directionValid dir) "pane.resize direction is invalid" None)
  | PaneZoom i mode =>
      requires (nonempty i) "pane.zoom requires a pane id" (requires (zoomValid mode) "pane.zoom mode is invalid" None)
  | PaneSwap s t => requires (nonempty s && nonempty t) "pane.swap requires source and target pane ids" None
  | PaneMove i dest _ => requires (nonempty i) "pane.move requires a pane id" (checkDestination dest)
  | PaneRename i _ => requires (nonempty i) "pane.rename requires a pane id" None
  | PaneClose i => requires (nonempty i) "pane.close requires a pane id" None
  | AgentFocus t => requires (nonempty t) "agent.focus requires a target" None
  | AgentPrompt t _ => requires (nonempty t) "agent.prompt requires a target" None
  | AgentSendKeys t ks => requires (nonempty t) "agent.send_keys requires a target" (checkKeys ks)
  | AgentRename t name =>
      requires (nonempty t) "agent.rename requires a target"
        (requires (negb (nonempty name) || ValidAgentName (bytesOf name)) agentNameRule None)
  | AgentStart name knd i _ =>
      requires (nonempty i) "agent.start requires a pane id"
        (requires (nonempty knd) "agent.start requires a kind" (requires (ValidAgentName (bytesOf name)) agentNameRule None))
  | WorktreeCreate ws cwd _ _ _ _ _ => requires (nonempty ws || nonempty cwd) "worktree.create requires a workspace id or cwd" None
  | WorktreeOpen _ _ br path _ _ => requires (nonempty path || nonempty br) "worktree.open requires a path or branch" None
  | WorktreeRemove i _ => requires (nonempty i) "worktree.remove requires a workspace id" None
  end.

(** ** What a reply must be *)

(** [json.Unmarshal] into each struct. *)
Record decoders := mkDecoders {
  d_workspaceCreated : list byte -> option WorkspaceCreated; d_workspaceInfo : list byte -> option Workspace;
  d_tabCreated : list byte -> option TabCreated; d_tabInfo : list byte -> option Tab; d_tabs : list byte -> option (list Tab);
  d_paneInfo : list byte -> option Pane; d_paneResize : list byte -> option PaneResizeResult;
  d_paneZoom : list byte -> option PaneZoomResult; d_paneSwap : list byte -> option PaneSwapResult;
  d_paneMove : list byte -> option PaneMoveResult; d_agentInfo : list byte -> option Agent;
  d_agentStarted : list byte -> option AgentStarted; d_worktreeCreated : list byte -> option WorktreeCreated;
  d_worktreeOpened : list byte -> option WorktreeOpened; d_worktreeRemoved : list byte -> option WorktreeRemoved;
  d_read : list byte -> option ReadResult; d_agents : list byte -> option (list Agent);
  d_workspaces : list byte -> option (list Workspace); d_panes : list byte -> option (list Pane);
  d_worktrees : list byte -> option (list Worktree)
}.

Definition into {A} (f : A -> result) (decode : list byte -> option A) (s : list byte) : option result := f <$> decode s.

(** An operation without a result decodes nothing. *)
Definition nothing (_ : list byte) : option result := Some ROk.

(** The result type the operation accepts, and into what it decodes it. *)
Definition expects (d : decoders) (c : HerdrCall) : string * (list byte -> option result) :=
  match c with
  | WorkspaceCreate _ _ _ _ => ("workspace_created", into RWorkspaceCreated (d_workspaceCreated d))
  | WorkspaceFocus _ | WorkspaceRename _ _ => ("workspace_info", into RWorkspace (d_workspaceInfo d))
  | TabCreate _ _ _ _ _ => ("tab_created", into RTabCreated (d_tabCreated d))
  | TabFocus _ | TabRename _ _ => ("tab_info", into RTab (d_tabInfo d))
  | TabMove _ _ => ("tab_list", into RTabs (d_tabs d))
  | PaneFocus _ | PaneSplit _ _ _ _ _ _ | PaneRename _ _ => ("pane_info", into RPane (d_paneInfo d))
  | PaneResize _ _ _ => ("pane_resize", into RPaneResize (d_paneResize d))
  | PaneZoom _ _ => ("pane_zoom", into RPaneZoom (d_paneZoom d))
  | PaneSwap _ _ => ("pane_swap", into RPaneSwap (d_paneSwap d))
  | PaneMove _ _ _ => ("pane_move", into RPaneMove (d_paneMove d))
  | AgentFocus _ | AgentRename _ _ => ("agent_info", into RAgent (d_agentInfo d))
  | AgentPrompt _ _ => ("agent_prompted", into RAgent (d_agentInfo d))
  | AgentStart _ _ _ _ => ("agent_started", into RAgentStarted (d_agentStarted d))
  | WorktreeCreate _ _ _ _ _ _ _ => ("worktree_created", into RWorktreeCreated (d_worktreeCreated d))
  | WorktreeOpen _ _ _ _ _ _ => ("worktree_opened", into RWorktreeOpened (d_worktreeOpened d))
  | WorktreeRemove _ _ => ("worktree_removed", into RWorktreeRemoved (d_worktreeRemoved d))
  | WorkspaceClose _ | TabClose _ | PaneClose _ | AgentSendKeys _ _ => ("ok", nothing)
  end.

(** ** Reads *)

Definition ParseReadSource (s : string) : string + Error :=
  if bool_decide (s = "") || bool_decide (s = "visible") then inl "visible"
  else if bool_decide (s = "recent") then inl "recent"
  else if bool_decide (s = "recent_unwrapped") || bool_decide (s = "recent-unwrapped") then inl "recent_unwrapped"
  else if bool_decide (s = "detection") then inl "detection"
  else inr (newError "invalid_params" (bytesOf "unknown read source: " ++ bytesOf s)).

Record PaneReadOptions := mkReadOptions { ro_Source : string; ro_Format : string; ro_Lines : Z; ro_StripANSI : bool }.

(** An [int] as a number literal. *)
Definition intLiteral (z : Z) : string := pretty z.

Definition linesPtr (n : Z) : list (string * json) := if n <=? 0 then [] else [("lines", JNum (intLiteral n))].
Definition timeoutField (ms : Z) : list (string * json) := if 0 <? ms then [("timeout_ms", JNum (intLiteral ms))] else [].
Definition untilField (until : list string) : list (string * json) :=
  if bool_decide (until = []) then [] else [("until", JArr (JStr <$> until))].

Definition readParams (field target : string) (o : PaneReadOptions) : json :=
  JObj ([(field, JStr target); ("source", JStr (if nonempty (ro_Source o) then ro_Source o else "visible"))] ++
        optField "format" (ro_Format o) ++ linesPtr (ro_Lines o) ++ (if ro_StripANSI o then [("strip_ansi", JBool true)] else [])).

Inductive HerdrRead :=
| PaneRead (paneID : string) (o : PaneReadOptions)
| AgentRead (target : string) (o : PaneReadOptions)
| AgentList
| AgentGet (target : string)
| WorktreeList (workspaceID : string)
| WorkspaceList
| TabList (workspaceID : string)
| PaneList (workspaceID : string)
| AgentWait (target : string) (until : list string) (timeoutMS : Z)
| AgentPromptWait (target text : string) (wait : bool) (until : list string) (timeoutMS : Z).

Definition checkRead (r : HerdrRead) : option string :=
  match r with
  | WorktreeList ws => requires (nonempty ws) "worktree list requires a workspace id" None
  | AgentWait t _ _ => requires (nonempty t) "agent.wait requires a target" None
  | AgentPromptWait t _ _ _ _ => requires (nonempty t) "agent.prompt requires a target" None
  | _ => None
  end.

(** [AgentPrompt] with its options; the relay passes none. *)
Definition promptParams (target text : string) (wait : bool) (until : list string) (ms : Z) : json :=
  JObj ([("target", JStr target); ("text", JStr text)] ++
        (if wait || negb (bool_decide (until = [])) || (0 <? ms) then [("wait", JObj (untilField until ++ timeoutField ms))] else [])).

Definition readRequest (r : HerdrRead) : string * json :=
  match r with
  | PaneRead i o => ("pane.read", readParams "pane_id" i o)
  | AgentRead t o => ("agent.read", readParams "target" t o)
  | AgentList => ("agent.list", JObj [])
  | AgentGet t => ("agent.get", JObj [("target", JStr t)])
  | WorktreeList ws => ("worktree.list", JObj [("workspace_id", JStr ws)])
  | WorkspaceList => ("workspace.list", JObj [])
  | TabList ws => ("tab.list", JObj (optField "workspace_id" ws))
  | PaneList ws => ("pane.list", JObj (optField "workspace_id" ws))
  | AgentWait t until ms => ("agent.wait", JObj ([("target", JStr t)] ++ untilField until ++ timeoutField ms))
  | AgentPromptWait t text wait until ms => ("agent.prompt", promptParams t text wait until ms)
  end.

Definition readExpects (d : decoders) (r : HerdrRead) : string * (list byte -> option result) :=
  match r with
  | PaneRead _ _ | AgentRead _ _ => ("pane_read", into RRead (d_read d))
  | AgentList => ("agent_list", into RAgents (d_agents d))
  | AgentGet _ | AgentWait _ _ _ => ("agent_info", into RAgent (d_agentInfo d))
  | WorktreeList _ => ("worktree_list", into RWorktrees (d_worktrees d))
  | WorkspaceList => ("workspace_list", into RWorkspaces (d_workspaces d))
  | TabList _ => ("tab_list", into RTabs (d_tabs d))
  | PaneList _ => ("pane_list", into RPanes (d_panes d))
  | AgentPromptWait _ _ _ _ _ => ("agent_prompted", into RAgent (d_agentInfo d))
  end.

(** ** Over the socket *)

Context (decodeEnvelope : list byte -> option envelope) (decodeType : list byte -> option string) (d : decoders).

(** A frame that was sent: its id, method and params. *)
Record sent := mkSent { sn_ID : string; sn_Method : string; sn_Params : json }.

Definition roundTrip (cl : Client) (req : string * json) (want : string * (list byte -> option result))
    (dial : conn + list byte) (sel : selected) : (result + Error) * Client * option sent :=
  let '(r, cl') := call decodeEnvelope decodeType want.2 cl want.1 dial sel in
  (r, cl', match dial with inl _ => Some (mkSent (nextID cl).1 req.1 req.2) | inr _ => None end).

Definition invalidParams (msg : string) : Error := newError "invalid_params" (bytesOf msg).

Definition perform (cl : Client) (c : HerdrCall) (dial : conn + list byte) (sel : selected)
    : (result + Error) * Client * option sent :=
  match checkCall c, request positive negative c with
  | Some msg, _ => (inr (invalidParams msg), cl, None)
  | None, Some req => roundTrip cl req (expects d c) dial sel
  | None, None => (inr (invalidParams ""), cl, None)
  end.

Definition read (cl : Client) (r : HerdrRead) (dial : conn + list byte) (sel : selected) : (result + Error) * Client * option sent :=
  match checkRead r with
  | Some msg => (inr (invalidParams msg), cl, None)
  | None => roundTrip cl (readRequest r) (readExpects d r) dial sel
  end.

(** [stateAdapter.ReadPane]: the source is checked before the socket. *)
Definition ReadPane (cl : Client) (paneID source : string) (lines : Z) (dial : conn + list byte) (sel : selected)
    : (list byte + Error) * Client * option sent :=
  match ParseReadSource source with
  | inr e => (inr e, cl, None)
  | inl src =>
      let '(r, cl', s) := read cl (PaneRead paneID (mkReadOptions src "text" lines false)) dial sel in
      (match r with inl (RRead x) => inl (rd_Text x) | inl _ => inr (invalidParams "") | inr e => inr e end, cl', s)
  end.

(** ** The mutator of the relay *)

Context (numOk : kind -> string -> bool) (encode : result -> option json).

(** What the world answers to one mutation: the clock and a discovery run, the dialled
    connection and which case of the select runs. *)
Record exchange := mkExchange { x_use : use; x_dial : conn + list byte; x_selected : selected }.

(** The mutator, the frames it has sent, and the answers still to come. *)
Record socketMutator := mkSocket { sm_kinds : agentKinds; sm_client : Client; sm_world : nat -> exchange; sm_sent : list sent }.

Definition CodeDiscovery : string := "agent_kinds_unavailable".

Definition discoveryCode (e : discoveryError) : string :=
  match e with DiscoveryTimeout => CodeTimeout | DiscoveryCanceled => CodeCanceled | NoKindsLine | CannotRun _ => CodeDiscovery end.

(** The upstream code of an error before the socket. *)
Definition dispatchCode (u : use) (e : dispatchError) : string :=
  match e with
  | InvalidParams => "invalid_params"
  | NotImplemented => ""
  | KindsUnavailable => match StartableAgentKinds (u_run u) with inr e => discoveryCode e | inl _ => "" end
  end.

(** [voidResult] and [result]; an encoding error carries no code. *)
Definition marshalResult (r : result) : json + string :=
  match r with
  | ROk => inl (JObj [("ok", JBool true)])
  | _ => match encode r with Some j => inl j | None => inr "" end
  end.

Definition mutateOverSocket (m : socketMutator) (op : string) (raw : option json) : socketMutator * (json + string) :=
  let x := sm_world m O in
  let u := x_use x in
  let world' n := sm_world m (S n) in
  let '(kinds', r) := Mutate numOk (sm_kinds m) (u_t1 u) (found (u_run u)) (u_t2 u) (u_t3 u) op raw in
  match r with
  | inr e => (mkSocket kinds' (sm_client m) world' (sm_sent m), inr (dispatchCode u e))
  | inl c =>
      let '(r, cl', s) := perform (sm_client m) c (x_dial x) (x_selected x) in
      (mkSocket kinds' cl' world' (sm_sent m ++ option_list s),
       match r with inl v => marshalResult v | inr e => inr (Code e) end)
  end.
End Calls.

(** ** Facts *)

(** The checks are those under which there is a request. *)
Lemma check_request positive negative c : checkCall negative c = None <-> request positive negative c ≠ None.
Proof.
  unfold request, workspaceByID, workspaceClose, tabByID, tabMove, tabClose, paneSplit, paneByID, paneResize,
    paneZoom, paneSwap, paneMoveTo, paneClose, agentFocus, agentPrompt, agentSendKeys, agentRename, agentStart,
    worktreeCreate, worktreeOpen, worktreeRemove, workspaceCreate, tabCreate, byID, destinationWire, checkCall, checkDestination, checkKeys, requires.
  destruct c; try done;
    repeat match goal with |- context [nonempty ?x] => destruct (nonempty x) | |- context [ValidAgentName ?x] => destruct (ValidAgentName x) end;
    cbn [negb andb orb]; repeat case_match; try done; naive_solver.
Qed.

Section facts.
Context (numOk : kind -> string -> bool) (positive negative : string -> bool)
  (decodeEnvelope : list byte -> option envelope) (decodeType : list byte -> option string) (d : decoders) (encode : result -> option json).

Notation performs := (perform positive negative decodeEnvelope decodeType d).
Notation mutates := (mutateOverSocket positive negative decodeEnvelope decodeType d numOk encode).

(** A reply the operation takes: of its own result type, under the request's id. *)
Definition takes (cl : Client) (c : HerdrCall) (dial : conn + list byte) (sel : selected) (v : result) : Prop :=
  exists cn frame rest env, dial = inl cn /\ sel = RoundTrip /\ writeErr cn = None /\
    inbound cn = frame ++ nl :: rest /\ noNewline frame /\ Z.of_nat (length frame) <= maxBytes cl /\
    decodeEnvelope frame = Some env /\ env_Error env = None /\ (env_ID env = "" \/ env_ID env = (nextID cl).1) /\ env_Result env ≠ [] /\
    decodeType (env_Result env) = Some (expects d c).1 /\ (expects d c).2 (env_Result env) = Some v.

Lemma expects_type c : (expects d c).1 ≠ "".
Proof. by destruct c. Qed.

Lemma perform_spec cl c dial sel : 0 <= maxBytes cl ->
  let '(r, cl', s) := performs cl c dial sel in
  match request positive negative c with
  | None => s = None /\ cl' = cl /\ exists msg, checkCall negative c = Some msg /\ r = inr (invalidParams msg)
  | Some (method, params) =>
      s = match dial with inl _ => Some (mkSent (nextID cl).1 method params) | inr _ => None end /\
      cl' = (nextID cl).2 /\ forall v, r = inl v <-> takes cl c dial sel v
  end.
Proof.
  intros Hm. unfold perform. pose proof (check_request positive negative c) as Hc.
  destruct (checkCall negative c) as [msg|]; destruct (request positive negative c) as [[method params]|].
  - exfalso. by assert (Some msg = None) by by apply Hc.
  - split_and!; try done. by exists msg.
  - unfold roundTrip. pose proof (fun v => call_meaning decodeEnvelope decodeType (expects d c).2 cl (expects d c).1 dial sel v Hm) as Hcall.
    assert (Hcl : (call decodeEnvelope decodeType (expects d c).2 cl (expects d c).1 dial sel).2 = (nextID cl).2).
    { unfold call. by destruct (nextID cl). }
    destruct (call _ _ _ _ _ _ _) as [r cl']. cbn [fst snd] in *. split_and!; [done|done|]. intros v. rewrite Hcall. unfold takes.
    split; intros (cn & f & rest & env & H); exists cn, f, rest, env.
    + destruct H as (? & ? & ? & ? & ? & ? & ? & ? & ? & ? & Ht & ?). split_and!; try done.
      destruct Ht as [Ht|Ht]; [by apply expects_type in Ht|done].
    + destruct H as (? & ? & ? & ? & ? & ? & ? & ? & ? & ? & Ht & ?). split_and!; try done. by right.
  - exfalso. by apply Hc.
Qed.

Lemma request_method c method params : request positive negative c = Some (method, params) ->
  method = match c with
    | WorkspaceCreate _ _ _ _ => "workspace.create" | WorkspaceFocus _ => "workspace.focus" | WorkspaceRename _ _ => "workspace.rename"
    | WorkspaceClose _ => "workspace.close" | TabCreate _ _ _ _ _ => "tab.create" | TabFocus _ => "tab.focus" | TabRename _ _ => "tab.rename"
    | TabMove _ _ => "tab.move" | TabClose _ => "tab.close" | PaneFocus _ => "pane.focus" | PaneSplit _ _ _ _ _ _ => "pane.split"
    | PaneResize _ _ _ => "pane.resize" | PaneZoom _ _ => "pane.zoom" | PaneSwap _ _ => "pane.swap" | PaneMove _ _ _ => "pane.move"
    | PaneRename _ _ => "pane.rename" | PaneClose _ => "pane.close" | AgentFocus _ => "agent.focus" | AgentPrompt _ _ => "agent.prompt"
    | AgentSendKeys _ _ => "agent.send_keys" | AgentRename _ _ => "agent.rename" | AgentStart _ _ _ _ => "agent.start"
    | WorktreeCreate _ _ _ _ _ _ _ => "worktree.create" | WorktreeOpen _ _ _ _ _ _ => "worktree.open" | WorktreeRemove _ _ => "worktree.remove"
    end.
Proof.
  unfold request, workspaceByID, workspaceClose, tabByID, tabMove, tabClose, paneSplit, paneByID, paneResize,
    paneZoom, paneSwap, paneMoveTo, paneClose, agentFocus, agentPrompt, agentSendKeys, agentRename, agentStart,
    worktreeCreate, worktreeOpen, worktreeRemove, workspaceCreate, tabCreate, byID.
  destruct c; intros H; repeat case_match; by simplify_eq.
Qed.

(** A pane read gives text or an error. *)
Lemma pane_read_kind cl paneID o dial sel v : (read decodeEnvelope decodeType d cl (PaneRead paneID o) dial sel).1.1 = inl v -> exists x, v = RRead x.
Proof.
  unfold read, checkRead, roundTrip, call. destruct (nextID cl) as [id cl']. destruct dial as [cn|]; [|done]. destruct sel; try done.
  destruct (writeErr cn); [done|]. destruct (readFrame _ _ _) as [[frame rest]|]; [|done]. cbn [fst snd readExpects].
  intros H. apply decodeResponse_exact in H as (env & _ & _ & _ & _ & _ & H). unfold into in H.
  destruct (d_read d _) as [x|]; [|done]. injection H as <-. by exists x.
Qed.

(** The only method an operation of the browser can reach. *)
Definition methodOf (op : string) : string := if bool_decide (op = "worktree.remove_force") then "worktree.remove" else op.

Lemma dispatched_method op raw c method params :
  dispatchMutation numOk op raw = inl c -> request positive negative c = Some (method, params) ->
  op ∈ dispatchTable.*1 /\ method = methodOf op.
Proof.
  intros Hd Hr. apply request_method in Hr. unfold dispatchMutation in Hd.
  destruct (assoc op dispatchTable) as [[sc build]|] eqn:Ea; [|done]. destruct (decode numOk sc raw) as [p|]; [|done].
  apply assoc_elem in Ea. split; [apply list_elem_of_fmap; by exists (op, (sc, build))|]. subst method.
  unfold dispatchTable, workspaceBranches, tabBranches, paneBranches, agentBranches, worktreeBranches, worktreeRemovals in Ea.
  cbn [app] in Ea.
  repeat (apply elem_of_cons in Ea as [Ea|Ea]; [injection Ea as -> -> ->; try (injection Hd as <-; reflexivity)|]);
    [|by apply not_elem_of_nil in Ea].
  unfold paneMove in Hd. by repeat (case_match; simplify_eq; try done).
Qed.

Lemma Mutate_dispatch a t1 f t2 t3 op raw a' c : Mutate numOk a t1 f t2 t3 op raw = (a', inl c) -> dispatchMutation numOk op raw = inl c.
Proof.
  unfold Mutate. destruct (bool_decide (op = "agent.start")); [|by intros [= _ ->]].
  destruct (validateKind _ _ _ _ _ _) as [a1 [e|]]; [done|]. by intros [= _ ->].
Qed.

(** What one mutation adds to the frames sent: nothing, or the frame of the one typed
    call its params decode to. *)
Lemma mutate_sends (m m' : socketMutator) op raw r : mutates m op raw = (m', r) ->
  sm_sent m' = sm_sent m \/
  exists f c, sm_sent m' = sm_sent m ++ [f] /\ dispatchMutation numOk op raw = inl c /\
    request positive negative c = Some (sn_Method f, sn_Params f) /\ op ∈ dispatchTable.*1 /\ sn_Method f = methodOf op.
Proof.
  unfold mutateOverSocket. destruct (Mutate _ _ _ _ _ _ _ _) as [kinds' [c|e]] eqn:Ed; [|intros [= <- _]; by left].
  apply Mutate_dispatch in Ed. unfold perform, roundTrip.
  destruct (checkCall negative c); [intros [= <- _]; left; apply app_nil_r|].
  destruct (request positive negative c) as [[method params]|] eqn:Er; [|intros [= <- _]; left; apply app_nil_r].
  destruct (dispatched_method op raw c method params Ed Er) as [Hop ->].
  destruct (call _ _ _ _ _ _ _) as [res cl']. intros [= <- _].
  destruct (x_dial (sm_world m O)); [right|left; apply app_nil_r]. eexists _, c. by split_and!.
Qed.

(** Nothing but the operation asked for goes over the socket. A mutation sends at most
    one frame, with a fresh id; its method is the operation's own (the forced removal
    of a worktree sends the ordinary method), the operation is one of the dispatch
    table, and its params are those of the one typed call the browser's params decode
    to. It succeeds only with the decoded result of that very request: a complete line
    under its id, without an error, of the operation's result type. *)
Theorem mutation_on_the_wire (m m' : socketMutator) (op : string) (raw : option json) (r : json + string) :
  0 <= maxBytes (sm_client m) -> mutates m op raw = (m', r) ->
  exists new, sm_sent m' = sm_sent m ++ new /\ (length new <= 1)%nat /\
    (forall f, f ∈ new -> op ∈ dispatchTable.*1 /\ sn_Method f = methodOf op /\ sn_ID f = (nextID (sm_client m)).1 /\
       exists c, dispatchMutation numOk op raw = inl c /\ request positive negative c = Some (sn_Method f, sn_Params f)) /\
    (forall j, r = inl j -> exists f c v, new = [f] /\ dispatchMutation numOk op raw = inl c /\
       takes (sm_client m) c (x_dial (sm_world m O)) (x_selected (sm_world m O)) v /\ marshalResult encode v = inl j).
Proof.
  intros Hm. unfold mutateOverSocket.
  destruct (Mutate _ _ _ _ _ _ _ _) as [kinds' [c|e]] eqn:Ed.
  2:{ intros [= <- <-]. exists []. cbn [sm_sent]. rewrite app_nil_r. split_and!; [done|cbn; lia|set_solver|done]. }
  apply Mutate_dispatch in Ed. pose proof (perform_spec (sm_client m) c (x_dial (sm_world m O)) (x_selected (sm_world m O)) Hm) as Hp.
  destruct (performs _ _ _ _) as [[res cl'] s]. intros [= <- <-]. exists (option_list s). cbn [sm_sent]. split; [done|].
  destruct (request positive negative c) as [[method params]|] eqn:Er.
  - destruct Hp as (-> & _ & Hv). destruct (dispatched_method op raw c method params Ed Er) as [Hop ->].
    destruct (x_dial (sm_world m O)) as [cn|msg] eqn:Ex; cbn [option_list].
    + split_and!; [done| |].
      * intros f Hf. apply list_elem_of_singleton in Hf. subst f. split_and!; [done..|]. by exists c.
      * intros j Hj. destruct res as [v|err]; [|done]. eexists _, c, v. split_and!; [done..| |exact Hj]. by apply Hv.
    + split_and!; [cbn; lia|set_solver|]. intros j Hj. destruct res as [v|err]; [|done].
      destruct (proj1 (Hv v) eq_refl) as (? & ? & ? & ? & ? & _). done.
  - destruct Hp as (-> & _ & msg & _ & ->). cbn [option_list]. split_and!; [cbn; lia|set_solver|done].
Qed.
End facts.

(** ** A sample mutation *)

Definition samplePane : Pane :=
  mkPane "p1" "t1" "w1" "tab1" true "" "" "" "" None StatusIdle "" "" "" "" None 0.
Definition sampleDecoders : decoders :=
  mkDecoders (fun _ => None) (fun _ => None) (fun _ => None) (fun _ => None) (fun _ => None) (fun _ => Some samplePane)
    (fun _ => None) (fun _ => None) (fun _ => None) (fun _ => None) (fun _ => None) (fun _ => None) (fun _ => None) (fun _ => None)
    (fun _ => None) (fun _ => None) (fun _ => None) (fun _ => None) (fun _ => None) (fun _ => None).
Definition sampleSocket : socketMutator :=
  mkSocket (mkKinds 60 [] 0 false) sampleClient
    (fun _ => mkExchange (mkUse 0 sampleRun 0 0) (inl sampleConn) RoundTrip) [].
Definition sampleEncode (r : result) : option json := match r with RPane p => Some (JObj [("pane_id", JStr (p_PaneID p))]) | _ => None end.
Definition sampleMutation (op : string) (raw : option json) : socketMutator * (json + string) :=
  mutateOverSocket (fun _ => true) (fun _ => false) sampleEnvelope (fun _ => Some "pane_info") sampleDecoders (fun _ _ => true) sampleEncode sampleSocket op raw.

(** Served; a close, whose reply must be "ok", refused; bad params and an unknown
    operation never reach the socket. *)
Example sample_mutations :
  (fun '(op, raw) => let '(m, r) := sampleMutation op raw in (sn_Method <$> sm_sent m, r)) <$>
    [("pane.focus", sampleParams); ("pane.close", sampleParams); ("pane.focus", Some (JObj [("pane", JStr "p1")])); ("server.stop", None)] =
  [(["pane.focus"], inl (JObj [("pane_id", JStr "p1")])); (["pane.close"], inr "unexpected_type");
   ([], inr "invalid_params"); ([], inr "")].
Proof. by vm_compute. Qed.

Lemma mutation_on_the_wire_witness :
  exists f, sm_sent (sampleMutation "pane.focus" sampleParams).1 = [f] /\ sn_Method f = "pane.focus" /\ sn_ID f = "phone-1".
Proof.
  destruct (mutation_on_the_wire (fun _ _ => true) (fun _ => true) (fun _ => false) sampleEnvelope (fun _ => Some "pane_info")
    sampleDecoders sampleEncode sampleSocket (sampleMutation "pane.focus" sampleParams).1 "pane.focus" sampleParams
    (inl (JObj [("pane_id", JStr "p1")]))) as (new & E & _ & H & Hr); [by vm_compute|by vm_compute|].
  destruct (Hr _ eq_refl) as (f & _ & _ & -> & _). exists f. split; [exact E|].
  destruct (H f) as (_ & H1 & H2 & _); [by left|]. split; [exact H1|exact H2].
Defined.

(** ** Behind the relay *)

#[local] Instance sample_HerdrMutator : HerdrMutator socketMutator := fun m op raw =>
  mutateOverSocket (fun _ => true) (fun _ => false) sampleEnvelope (fun _ => Some "pane_info") sampleDecoders (fun _ _ => true) sampleEncode m op raw.

(** From the request of the browser to the frame on the socket and the answer. *)
Example focus_end_to_end :
  let '(s, resp) := handleMutations sampleCanonical sampleHash sampleMarshal sampleCfg sampleCaller sampleGens sampleReadings
    (Some sampleFocus) (mkRelay ∅ sampleNonces sampleSocket [] []) in
  sm_sent (r_mutator s) = [mkSent "phone-1" "pane.focus" (JObj [("pane_id", JStr "p1")])] /\
  resp = RMutation 200 (mkResp "r2" true (Some (JObj [("pane_id", JStr "p1")])) None).
Proof. by vm_compute. Qed.
