(* ===== verification/Flight.v ===== *)
(** * Flight: concurrent lookups of signing keys (internal/auth/singleflight.go with
    [PublicKey] and [refresh] of jwks.go)

    Lookups that run at the same time as a machine of atomic actions: every critical
    section of the cache's and the group's mutexes is one action, and so is the
    release of the waiters. The clock does not go back; what a fetch brings is an
    input. The sequential cache is that of [Access]. *)

From stdpp Require Import gmap.
From S2P Require Import Prelude GoStr Access.

#[local] Open Scope Z_scope.

(** ** The parts of a lookup *)

(** The first read: an answer, or that a refresh is due. *)
Definition firstRead (j : JWKSCache) (kid : string) (now : Z) : option (RSAKey + keyError) :=
  let fresh := loaded j && (timeSub now (fetchedAt j) <? jttl j) in
  match keys j !! kid with
  | Some k => if fresh then Some (inl k) else None
  | None => if fresh && (timeSub now (lastAttempt j) <? minRefreshInterval j) then Some (inr EUnknownKID) else None
  end.

Definition attempt (j : JWKSCache) (now : Z) : JWKSCache :=
  mkJWKS (keys j) (jttl j) (minRefreshInterval j) (fetchedAt j) now (loaded j).

(** The end of [refresh]: the keys of a document that has usable ones are stored. *)
Definition store (j : JWKSCache) (doc : option (list jwk)) (now : Z) : JWKSCache * bool :=
  match doc with
  | None => (j, false)
  | Some ks =>
      let next := collectKeys ks in
      if (size next =? 0)%nat then (j, false)
      else (mkJWKS next (jttl j) (minRefreshInterval j) now (lastAttempt j) true, true)
  end.

(** One after the other they are the sequential lookup. *)
Lemma lookup_parts j kid now f later :
  cachePublicKey j kid now f later =
    match firstRead j kid now with
    | Some r => (j, r, false)
    | None => let '(j', ok) := store (attempt j (startedAt f)) (document f) (finishedAt f) in (j', afterRefresh j' kid ok later, true)
    end.
Proof.
  unfold cachePublicKey, firstRead, refresh, store, attempt.
  destruct (keys j !! kid) as [k|]; cbn [isPresent from_option andb negb]; destruct (loaded j && _); cbn [andb];
    repeat (destruct (_ <? _); cbn [andb]); try done; destruct (document f); try done; by destruct (_ =? _)%nat.
Qed.

(** ** The machine *)

(** Where the one that runs the fetch is: it has the call registered; it has noted the
    attempt; it has the outcome; it has released the waiters. *)
Inductive stage := Registered | Attempted | Fetched (ok : bool) | Released (ok : bool).

(** An answer: what was asked and when, the call it waited for, when it was given, and
    the age mark of the keys it came from. *)
Record answer := mkAnswer {
  an_kid : string; an_asked : Z; an_call : option (nat * bool); an_given : Z; an_set : Z; an_result : RSAKey + keyError
}.

Inductive caller :=
| Asking (kid : string) (asked : Z)
| Leading (kid : string) (asked : Z) (call : nat) (st : stage)
| Waiting (kid : string) (asked : Z) (call : nat)
| Refreshed (kid : string) (asked : Z) (call : nat) (ok : bool)
| Answered (a : answer).

(** The shared state: the cache, the call registered in the group, the calls ever made
    with when they were registered and their outcome once released, and the callers. *)
Record world := mkWorld {
  w_now : Z; w_cache : JWKSCache; w_inflight : option nat; w_calls : list (Z * option bool); w_callers : gmap nat caller
}.

Definition startWorld (ttl minRefresh t0 : Z) : world := mkWorld t0 (NewJWKSCache ttl minRefresh) None [] ∅.

(** The actions of caller [i]. *)
Inductive action :=
| Look (kid : string)
| Do
| Attempt
| Fetch (doc : option (list jwk))
| Release
| Remove
| Wake
| Answer.

Definition put (w : world) (i : nat) (c : caller) : world := mkWorld (w_now w) (w_cache w) (w_inflight w) (w_calls w) (<[i := c]> (w_callers w)).
Definition withCache (w : world) (j : JWKSCache) : world := mkWorld (w_now w) j (w_inflight w) (w_calls w) (w_callers w).

Definition act (w : world) (i : nat) (a : action) : option world :=
  let now := w_now w in
  match a, w_callers w !! i with
  | Look kid, None =>
      Some (put w i (match firstRead (w_cache w) kid now with
                     | Some r => Answered (mkAnswer kid now None now (fetchedAt (w_cache w)) r)
                     | None => Asking kid now
                     end))
  | Do, Some (Asking kid asked) =>
      match w_inflight w with
      | Some c => Some (put w i (Waiting kid asked c))
      | None =>
          let c := length (w_calls w) in
          Some (put (mkWorld now (w_cache w) (Some c) (w_calls w ++ [(now, None)]) (w_callers w)) i (Leading kid asked c Registered))
      end
  | Attempt, Some (Leading kid asked c Registered) =>
      Some (put (withCache w (attempt (w_cache w) now)) i (Leading kid asked c Attempted))
  | Fetch doc, Some (Leading kid asked c Attempted) =>
      let '(j, ok) := store (w_cache w) doc now in Some (put (withCache w j) i (Leading kid asked c (Fetched ok)))
  | Release, Some (Leading kid asked c (Fetched ok)) =>
      Some (put (mkWorld now (w_cache w) (w_inflight w) (alter (fun x => (x.1, Some ok)) c (w_calls w)) (w_callers w)) i
              (Leading kid asked c (Released ok)))
  | Remove, Some (Leading kid asked c (Released ok)) =>
      Some (put (mkWorld now (w_cache w) None (w_calls w) (w_callers w)) i (Refreshed kid asked c ok))
  | Wake, Some (Waiting kid asked c) =>
      match w_calls w !! c with
      | Some (_, Some ok) => Some (put w i (Refreshed kid asked c ok))
      | _ => None
      end
  | Answer, Some (Refreshed kid asked c ok) =>
      Some (put w i (Answered (mkAnswer kid asked (Some (c, ok)) now (fetchedAt (w_cache w)) (afterRefresh (w_cache w) kid ok now))))
  | _, _ => None
  end.

(** A caller acts at a time. *)
Definition step (w : world) (e : Z * nat * action) : option world :=
  let '(t, i, a) := e in
  if t <? w_now w then None else act (mkWorld t (w_cache w) (w_inflight w) (w_calls w) (w_callers w)) i a.

Definition run (w : world) (es : list (Z * nat * action)) : option world :=
  foldl (fun ow e => w ← ow; step w e) (Some w) es.

(** ** The invariant *)

Definition outcome (st : stage) : option bool := match st with Released ok => Some ok | _ => None end.
Definition succeeded (st : stage) : bool := match st with Fetched ok | Released ok => ok | _ => false end.
Definition leads (c : caller) : bool := match c with Leading _ _ _ _ => true | _ => false end.

(** Where a key that was handed out comes from. *)
Definition goodAnswer (ttl : Z) (calls : list (Z * option bool)) (a : answer) : Prop :=
  forall k, an_result a = inl k -> strongKey k /\
    match an_call a with
    | None => timeSub (an_asked a) (an_set a) < ttl
    | Some (c, true) => exists b, calls !! c = Some (b, Some true) /\ b <= an_set a
    | Some (c, false) => timeSub (an_given a) (an_set a) <= 2 * ttl
    end.

Definition callerOk (ttl mark : Z) (inflight : option nat) (calls : list (Z * option bool)) (c : caller) : Prop :=
  match c with
  | Asking _ _ => True
  | Leading _ _ n st => inflight = Some n /\ exists b, calls !! n = Some (b, outcome st) /\ (succeeded st = true -> b <= mark)
  | Waiting _ _ n => exists b o, calls !! n = Some (b, o) /\ (o = None -> inflight = Some n)
  | Refreshed _ _ n ok => exists b, calls !! n = Some (b, Some ok)
  | Answered a => goodAnswer ttl calls a
  end.

Record sound (ttl : Z) (w : world) : Prop := {
  s_cache : jwksInv (w_cache w);
  s_ttl : jttl (w_cache w) = ttl;
  s_begun : forall n b o, w_calls w !! n = Some (b, o) -> b <= w_now w;
  s_done : forall n b, w_calls w !! n = Some (b, Some true) -> b <= fetchedAt (w_cache w);
  s_callers : map_Forall (fun _ c => callerOk ttl (fetchedAt (w_cache w)) (w_inflight w) (w_calls w) c) (w_callers w);
  s_one : forall i i' c c', w_callers w !! i = Some c -> w_callers w !! i' = Some c' -> leads c = true -> leads c' = true -> i = i';
  s_led : forall n, w_inflight w = Some n -> exists i kid asked st, w_callers w !! i = Some (Leading kid asked n st)
}.

(** What the others see of a change. *)
Definition keeps (w w' : world) : Prop :=
  (forall n b o, w_calls w !! n = Some (b, Some o) -> w_calls w' !! n = Some (b, Some o)) /\
  (forall n b, w_calls w !! n = Some (b, None) -> w_inflight w = Some n -> exists o, w_calls w' !! n = Some (b, o) /\ (o = None -> w_inflight w' = Some n)).

Lemma keeps_ok ttl w w' mark mark' c : leads c = false -> keeps w w' ->
  callerOk ttl mark (w_inflight w) (w_calls w) c -> callerOk ttl mark' (w_inflight w') (w_calls w') c.
Proof.
  intros Hl [H1 H2]. destruct c as [kid t|kid t n st|kid t n|kid t n ok|a]; cbn [callerOk]; try done.
  - intros (b & [o|] & Hn & Ho); [exists b, (Some o); split; [by apply H1|done]|].
    destruct (H2 n b Hn (Ho eq_refl)) as (o & ? & ?). by exists b, o.
  - intros (b & Hn). exists b. by apply H1.
  - intros Hg k Hk. destruct (Hg k Hk) as [? Hc]. split; [done|]. destruct (an_call a) as [[n []]|]; try done.
    destruct Hc as (b & ? & ?). exists b. split; [by apply H1|done].
Qed.

(** One caller moves; nobody else leads, before or after. *)
Lemma sound_put ttl w w' i c :
  sound ttl w -> w_now w <= w_now w' -> w_callers w' = <[i := c]> (w_callers w) -> keeps w w' ->
  jwksInv (w_cache w') -> jttl (w_cache w') = ttl ->
  (forall n b o, w_calls w' !! n = Some (b, o) -> b <= w_now w') ->
  (forall n b, w_calls w' !! n = Some (b, Some true) -> b <= fetchedAt (w_cache w')) ->
  callerOk ttl (fetchedAt (w_cache w')) (w_inflight w') (w_calls w') c ->
  (forall i' c', i' ≠ i -> w_callers w !! i' = Some c' -> leads c' = true ->
     leads c = false /\ w_inflight w' = w_inflight w /\ w_calls w' = w_calls w /\ fetchedAt (w_cache w') = fetchedAt (w_cache w)) ->
  (forall n, w_inflight w' = Some n -> (exists kid asked st, c = Leading kid asked n st) \/
     (w_inflight w = Some n /\ forall kid asked st, w_callers w !! i ≠ Some (Leading kid asked n st))) ->
  sound ttl w'.
Proof.
  intros Hs Hnow Hc Hk Hj Ht Hb Hd Hok Hoth Hled. split; try done.
  - rewrite Hc. intros i' c' Hi. destruct (decide (i' = i)) as [->|Hne]; [rewrite lookup_insert_eq in Hi; by simplify_eq|].
    rewrite lookup_insert_ne in Hi by done. pose proof (s_callers _ _ Hs i' c' Hi) as Ho. destruct (leads c') eqn:El.
    + destruct (Hoth i' c' Hne Hi El) as (_ & -> & -> & ->). exact Ho.
    + exact (keeps_ok ttl w w' _ _ c' El Hk Ho).
  - rewrite Hc. intros i1 i2 c1 c2. destruct (decide (i1 = i)) as [->|N1], (decide (i2 = i)) as [->|N2]; [done|..];
      rewrite ?lookup_insert_eq, ?lookup_insert_ne by done; intros H1 H2 L1 L2; simplify_eq.
    + destruct (Hoth i2 c2 N2 H2 L2) as [? _]. congruence.
    + destruct (Hoth i1 c1 N1 H1 L1) as [? _]. congruence.
    + exact (s_one _ _ Hs i1 i2 c1 c2 H1 H2 L1 L2).
  - intros n Hn. rewrite Hc. destruct (Hled n Hn) as [(kid & t & st & ->)|[Hi Hno]].
    + exists i, kid, t, st. apply lookup_insert_eq.
    + destruct (s_led _ _ Hs n Hi) as (i' & kid & t & st & Hi'). exists i', kid, t, st.
      rewrite lookup_insert_ne; [done|]. intros ->. by eapply Hno.
Qed.

Lemma keeps_same w w' : w_calls w' = w_calls w -> w_inflight w' = w_inflight w -> keeps w w'.
Proof. intros E1 E2. split; rewrite E1, ?E2; eauto. Qed.

Lemma sound_clock ttl w t : sound ttl w -> w_now w <= t -> sound ttl (mkWorld t (w_cache w) (w_inflight w) (w_calls w) (w_callers w)).
Proof.
  intros [H1 H2 H3 H4 H5 H6 H7] Ht. split; try done. cbn. intros n b o Hn. specialize (H3 n b o Hn). lia.
Qed.

Lemma firstRead_good ttl j kid now k : jwksInv j -> jttl j = ttl -> firstRead j kid now = Some (inl k) ->
  strongKey k /\ timeSub now (fetchedAt j) < ttl.
Proof.
  intros [Hk _] Ht. unfold firstRead. destruct (keys j !! kid) as [k'|] eqn:Ek; destruct (loaded j && (timeSub now (fetchedAt j) <? jttl j)) eqn:Ef; cbn [andb]; try done;
    [|destruct (timeSub now (lastAttempt j) <? minRefreshInterval j); intros H; discriminate H].
  intros [= <-]. split; [by apply (Hk kid k')|]. apply andb_prop in Ef as [_ Ef]. lia.
Qed.

Lemma store_ok j doc now : jwksInv j -> jwksInv (store j doc now).1 /\ jttl (store j doc now).1 = jttl j /\
  (fetchedAt (store j doc now).1 = if (store j doc now).2 then now else fetchedAt j).
Proof.
  intros [H1 H2]. unfold store. destruct doc as [ks|]; [|done]. destruct (_ =? _)%nat; [done|]. split; [|done]. split; [apply collectKeys_strong|done].
Qed.

Lemma keeps_append w x infl : w_inflight w = None -> keeps w (mkWorld (w_now w) (w_cache w) infl (w_calls w ++ [x]) (w_callers w)).
Proof. intros E. split; cbn; [|by rewrite E]. intros n b o Hn. by apply lookup_app_l_Some. Qed.

(** When a caller that leads moves on, no other leads. *)
Lemma alone_leads ttl w i kid t n st : sound ttl w -> w_callers w !! i = Some (Leading kid t n st) ->
  forall i' c', i' ≠ i -> w_callers w !! i' = Some c' -> leads c' = true -> False.
Proof. intros Hs Hi i' c' Hne Hi' Hl. apply Hne. by eapply (s_one _ _ Hs). Qed.

Ltac moves w :=
  eapply (sound_put _ w); [eassumption|done|done|..].

Lemma sound_act ttl w i a w' : 0 < ttl < 2 ^ 62 -> sound ttl w -> act w i a = Some w' -> sound ttl w'.
Proof.
  intros Ht Hs. pose proof Hs as [Hj Hjt Hb Hd Hc Ho Hl]. unfold act.
  destruct a as [kid| | |doc| | | |]; destruct (w_callers w !! i) as [[kid0 asked|kid0 asked n st|kid0 asked n|kid0 asked n ok|an]|] eqn:Ei; try done.
  - intros [= <-]. moves w; try done; [by apply keeps_same|..].
    + destruct (firstRead _ _ _) as [r|] eqn:Ef; cbn; [|done]. intros k Hk. cbn in *. subst r. by eapply firstRead_good.
    + intros i' c' _ _ _. split_and!; try done. by destruct (firstRead _ _ _).
    + intros n Hn. right. split; [done|]. by rewrite Ei.
  - destruct (w_inflight w) as [n|] eqn:Ef; intros [= <-].
    + moves w; try done; [by apply keeps_same| |].
      * cbn. rewrite Ef. destruct (Hl n eq_refl) as (i' & kid & t & st & Hi'). destruct (Hc _ _ Hi') as [_ (b & Hn & _)]. by exists b, (outcome st).
      * intros n' Hn. right. split; [done|]. by rewrite Ei.
    + moves w; try done; cbn.
      * by apply keeps_append.
      * intros n b o. rewrite lookup_app. destruct (w_calls w !! n) as [[b' o']|] eqn:En; [intros [= <- <-]; by eapply Hb|].
        intros Hn. apply list_lookup_singleton_Some in Hn as [_ [= <- <-]]. lia.
      * intros n b. rewrite lookup_app. destruct (w_calls w !! n) as [[b' o']|] eqn:En; [intros [= <- ->]; by eapply Hd|].
        intros Hn. by apply list_lookup_singleton_Some in Hn as [_ [=]].
      * split; [done|]. exists (w_now w). split; [by apply list_lookup_middle|done].
      * intros i' c' _ Hi' Hlead. destruct c' as [| kid' t' n' st'| | |]; try done. destruct (Hc _ _ Hi') as [Hinf _]. congruence.
      * intros n [= <-]. left. by eexists _, _, _.
  - destruct st; try done. intros [= <-]. destruct (Hc _ _ Ei) as [Hinf (b & Hn & _)].
    moves w; try done; [by apply keeps_same| | |].
    + cbn. split; [done|]. by exists b.
    + intros i' c' Hne Hi' Hlead. exfalso. by eapply (alone_leads ttl w i).
    + cbn. intros n' Hn'. left. rewrite Hinf in Hn'. injection Hn' as <-. by eexists _, _, _.
  - destruct st; try done. pose proof (store_ok (w_cache w) doc (w_now w) Hj) as (Hj' & Hjt' & Hf'). destruct (store _ _ _) as [j' ok].
    intros [= <-]. cbn [fst snd] in *. destruct (Hc _ _ Ei) as [Hinf (b & Hn & _)].
    moves w; try done; cbn; [by apply keeps_same|congruence| | | |].
    + intros n' b' Hn'. rewrite Hf'. destruct ok; [by eapply Hb|by eapply Hd].
    + split; [done|]. exists b. split; [done|]. intros ->. rewrite Hf'. by eapply Hb.
    + intros i' c' Hne Hi' Hlead. exfalso. by eapply (alone_leads ttl w i).
    + intros n' Hn'. left. rewrite Hinf in Hn'. injection Hn' as <-. by eexists _, _, _.
  - destruct st as [| |ok|]; try done. intros [= <-]. destruct (Hc _ _ Ei) as [Hinf (b & Hn & Hm)]. cbn [outcome succeeded] in *.
    assert (Hal : forall n' b' o', alter (fun x : Z * option bool => (x.1, Some ok)) n (w_calls w) !! n' = Some (b', o') ->
      (n' = n /\ b' = b /\ o' = Some ok) \/ (n' ≠ n /\ w_calls w !! n' = Some (b', o'))).
    { intros n' b' o'. destruct (decide (n' = n)) as [->|Hne]; [rewrite list_lookup_alter_eq, Hn; cbn; intros [= <- <-]; by left|].
      rewrite list_lookup_alter_ne by done. by right. }
    moves w; try done; cbn.
    + split; cbn.
      * intros n' b' o' Hn'. rewrite list_lookup_alter_ne; [done|]. intros ->. congruence.
      * intros n' b' Hn' Hi'. rewrite Hinf in Hi'. injection Hi' as <-. rewrite list_lookup_alter_eq, Hn'. cbn. by eexists.
    + intros n' b' o' Hn'. destruct (Hal _ _ _ Hn') as [(-> & -> & _)|[_ ?]]; by eapply Hb.
    + intros n' b' Hn'. destruct (Hal _ _ _ Hn') as [(-> & -> & [= <-])|[_ ?]]; [by apply Hm|by eapply Hd].
    + split; [done|]. exists b. rewrite list_lookup_alter_eq, Hn. done.
    + intros i' c' Hne Hi' Hlead. exfalso. by eapply (alone_leads ttl w i).
    + intros n' Hn'. left. rewrite Hinf in Hn'. injection Hn' as <-. by eexists _, _, _.
  - destruct st as [| | |ok]; try done. intros [= <-]. destruct (Hc _ _ Ei) as [Hinf (b & Hn & Hm)]. cbn [outcome succeeded] in *.
    moves w; try done; cbn.
    + split; cbn; [done|]. intros n' b' Hn' Hi'. congruence.
    + by exists b.
    + intros i' c' Hne Hi' Hlead. exfalso. by eapply (alone_leads ttl w i).
  - destruct (w_calls w !! n) as [[b [ok|]]|] eqn:En; try done. intros [= <-].
    moves w; try done; [by apply keeps_same|cbn; by exists b|]. intros n' Hn'. right. split; [done|]. by rewrite Ei.
  - intros [= <-]. moves w; try done; [by apply keeps_same| |].
    + destruct (Hc _ _ Ei) as [b Hn]. cbn. intros k Hk. cbn in Hk. apply afterRefresh_key in Hk as [Hk Hage].
      destruct Hj as [Hst _]. split; [by apply (Hst kid0 k)|]. cbn. destruct ok; [exists b; split; [done|by eapply Hd]|].
      destruct Hage as [?|Hage]; [done|]. rewrite Hjt, int64_small in Hage by lia. exact Hage.
    + intros n' Hn'. right. split; [done|]. by rewrite Ei.
Qed.

(** ** What holds of every run *)

Lemma sound_start ttl minRefresh t0 : sound ttl (startWorld ttl minRefresh t0).
Proof.
  split; cbn; try done.
Qed.

Lemma acts_app w es es' : run w (es ++ es') = (w' ← run w es; run w' es').
Proof.
  unfold run. rewrite foldl_app. destruct (foldl _ (Some w) es) as [w'|]; [done|]. cbn. clear. by induction es' as [|e es' IH].
Qed.

Lemma sound_run ttl minRefresh t0 es w : 0 < ttl < 2 ^ 62 -> run (startWorld ttl minRefresh t0) es = Some w -> sound ttl w.
Proof.
  intros Ht. revert w. induction es as [|[[t i] a] es IH] using rev_ind; intros w Hr; [injection Hr as <-; apply sound_start|].
  rewrite acts_app in Hr. destruct (run _ es) as [w1|]; [|done]. specialize (IH w1 eq_refl). cbn in Hr.
  destruct (t <? w_now w1) eqn:Et; [done|]. eapply (sound_act ttl _ i a w Ht); [|exact Hr]. apply sound_clock; [done|]. cbn. lia.
Qed.

(** How many actions a caller has left. *)
Definition remaining (c : caller) : nat :=
  match c with
  | Asking _ _ => 6 | Leading _ _ _ Registered => 5 | Leading _ _ _ Attempted => 4 | Leading _ _ _ (Fetched _) => 3
  | Leading _ _ _ (Released _) => 2 | Waiting _ _ _ => 2 | Refreshed _ _ _ _ => 1 | Answered _ => 0
  end.

Lemma act_other w i a w' i' : act w i a = Some w' -> i' ≠ i -> w_callers w' !! i' = w_callers w !! i'.
Proof.
  intros Ha Hne. unfold act in Ha.
  repeat (case_match; simplify_eq; try done); cbn; by rewrite ?lookup_insert_ne by done.
Qed.

Lemma act_remaining w i a w' c : act w i a = Some w' -> w_callers w !! i = Some c ->
  exists c', w_callers w' !! i = Some c' /\ (remaining c' < remaining c)%nat.
Proof.
  intros Ha Hc. unfold act in Ha. rewrite Hc in Ha.
  repeat (case_match; simplify_eq; try done); cbn; rewrite lookup_insert_eq; eexists; (split; [done|cbn; lia]).
Qed.

(** A caller whose turn it can be. *)
Definition enabled (w : world) (i : nat) : Prop := exists a w', act w i a = Some w'.

Lemma leader_enabled w i kid t n st : w_callers w !! i = Some (Leading kid t n st) -> enabled w i.
Proof.
  intros Hi. destruct st as [| |ok|ok].
  - exists Attempt. eexists. unfold act. by rewrite Hi.
  - exists (Fetch None). eexists. unfold act. by rewrite Hi.
  - exists Release. eexists. unfold act. by rewrite Hi.
  - exists Remove. eexists. unfold act. by rewrite Hi.
Qed.

(** C22: Concurrent lookups of signing keys are safe. In every run, however the lookups
    interleave and whatever the fetches bring: at most one caller runs a fetch, so
    fetches never overlap; and a key that is handed out is a full-strength key, from a
    set younger than the TTL when it was asked for, or stored no earlier than the
    successful refresh the caller waited for was begun, or, when that refresh failed,
    at most twice the TTL old. *)
Theorem lookups_safe (ttl minRefresh t0 : Z) (es : list (Z * nat * action)) (w : world) :
  0 < ttl < 2 ^ 62 -> run (startWorld ttl minRefresh t0) es = Some w ->
  (forall i i' kid kid' t t' n n' st st', w_callers w !! i = Some (Leading kid t n st) -> w_callers w !! i' = Some (Leading kid' t' n' st') -> i = i') /\
  (forall i a k, w_callers w !! i = Some (Answered a) -> an_result a = inl k -> strongKey k /\
     match an_call a with
     | None => timeSub (an_asked a) (an_set a) < ttl
     | Some (n, true) => exists begun, w_calls w !! n = Some (begun, Some true) /\ begun <= an_set a
     | Some (_, false) => timeSub (an_given a) (an_set a) <= 2 * ttl
     end).
Proof.
  intros Ht Hr. pose proof (sound_run _ _ _ _ _ Ht Hr) as Hs. split.
  - intros i i' kid kid' t t' n n' st st' H1 H2. by eapply (s_one _ _ Hs).
  - intros i a k Hi Hk. exact (s_callers _ _ Hs i _ Hi k Hk).
Qed.

(** Every lookup is answered. In every reachable state each action of a caller brings
    it closer to its answer and leaves the others where they are; and as long as a
    caller has no answer, it can act, or it waits for a fetch whose runner can. So no
    lookup waits for a fetch nobody runs. *)
Theorem lookups_answered (ttl minRefresh t0 : Z) (es : list (Z * nat * action)) (w : world) :
  0 < ttl < 2 ^ 62 -> run (startWorld ttl minRefresh t0) es = Some w ->
  (forall i a w' c, act w i a = Some w' -> w_callers w !! i = Some c ->
     (exists c', w_callers w' !! i = Some c' /\ (remaining c' < remaining c)%nat) /\
     forall i', i' ≠ i -> w_callers w' !! i' = w_callers w !! i') /\
  (forall i c, w_callers w !! i = Some c -> remaining c ≠ O ->
     enabled w i \/ exists kid t n i' kid' t' st, c = Waiting kid t n /\ w_callers w !! i' = Some (Leading kid' t' n st) /\ enabled w i').
Proof.
  intros Ht Hr. pose proof (sound_run _ _ _ _ _ Ht Hr) as Hs. split.
  - intros i a w' c Ha Hc. split; [by eapply act_remaining|]. intros i' Hne. by eapply act_other.
  - intros i c Hc Hrem. destruct c as [kid t|kid t n st|kid t n|kid t n ok|a]; [| | | |done].
    + left. exists Do. unfold act. rewrite Hc. destruct (w_inflight w); eauto.
    + left. by eapply leader_enabled.
    + destruct (s_callers _ _ Hs i _ Hc) as (b & o & Hn & Ho). destruct o as [ok|].
      * left. exists Wake. eexists. unfold act. by rewrite Hc, Hn.
      * right. destruct (s_led _ _ Hs n (Ho eq_refl)) as (i' & kid' & t' & st & Hi').
        exists kid, t, n, i', kid', t', st. split_and!; try done. by eapply leader_enabled.
    + left. exists Answer. eexists. unfold act. by rewrite Hc.
Qed.

(** ** Runs *)

(** Three lookups of one new key at once: one fetch, the others share it. *)
Definition sharedRun : list (Z * nat * action) :=
  [(5, 0%nat, Look "k1"); (5, 1%nat, Look "k1"); (6, 0%nat, Do); (6, 1%nat, Do); (6, 2%nat, Look "k1"); (7, 0%nat, Attempt);
   (8, 2%nat, Do); (9, 0%nat, Fetch (Some [sampleJwk])); (9, 0%nat, Release); (9, 1%nat, Wake); (10, 0%nat, Remove);
   (10, 1%nat, Answer); (10, 2%nat, Wake); (11, 0%nat, Answer); (11, 2%nat, Answer); (12, 3%nat, Look "k1")].

Definition sharedWorld : world := default (startWorld 1000 10 0) (run (startWorld 1000 10 0) sharedRun).

Definition answerOf (w : world) (i : nat) : option (option (nat * bool) * (RSAKey + keyError)) :=
  match w_callers w !! i with Some (Answered a) => Some (an_call a, an_result a) | _ => None end.

Lemma sharedRun_ok : run (startWorld 1000 10 0) sharedRun = Some sharedWorld.
Proof.
  unfold sharedWorld. destruct (run (startWorld 1000 10 0) sharedRun) eqn:E; [done|]. exfalso.
  assert (H : match run (startWorld 1000 10 0) sharedRun with Some _ => true | None => false end = true) by (by vm_compute).
  by rewrite E in H.
Qed.

Example one_fetch_shared : length (w_calls sharedWorld) = 1%nat /\
  (fst <$> answerOf sharedWorld 0, fst <$> answerOf sharedWorld 1, fst <$> answerOf sharedWorld 2, fst <$> answerOf sharedWorld 3) =
    (Some (Some (0%nat, true)), Some (Some (0%nat, true)), Some (Some (0%nat, true)), Some None).
Proof. by vm_compute. Qed.

Lemma lookups_safe_witness : strongKey sampleKey.
Proof.
  destruct (lookups_safe 1000 10 0 sharedRun sharedWorld ltac:(lia) sharedRun_ok) as [_ H].
  assert (E : match w_callers sharedWorld !! 1%nat with
              | Some (Answered a) => match an_result a with inl k => keyN k = keyN sampleKey /\ keyE k = keyE sampleKey | inr _ => False end
              | _ => False end) by (by vm_compute).
  destruct (w_callers sharedWorld !! 1%nat) as [[| | | |a]|] eqn:Ea; try (exfalso; exact E).
  destruct (an_result a) as [k|] eqn:Ek; [|exfalso; exact E]. destruct E as [E1 E2].
  destruct (H 1%nat a k Ea Ek) as [Hk _]. unfold strongKey in *. rewrite E1, E2 in Hk. exact Hk.
Defined.

Lemma lookups_answered_witness : exists kid t n, w_callers (default sharedWorld (run (startWorld 1000 10 0) (take 7 sharedRun))) !! 1%nat = Some (Waiting kid t n) /\
  exists i', i' ≠ 1%nat /\ enabled (default sharedWorld (run (startWorld 1000 10 0) (take 7 sharedRun))) i'.
Proof.
  exists "k1", 5, O. split; [by vm_compute|].
  destruct (lookups_answered 1000 10 0 (take 7 sharedRun) (default sharedWorld (run (startWorld 1000 10 0) (take 7 sharedRun))) ltac:(lia)
    ltac:(by vm_compute)) as [_ H].
  destruct (H 1%nat (Waiting "k1" 5 O)) as [(a & w' & Ha)|(kid & t & n & i' & kid' & t' & st & Hw & Hi & He)]; [by vm_compute|done| |].
  - exfalso. by destruct a; vm_compute in Ha.
  - exists i'. split; [|exact He]. intros ->. by vm_compute in Hi.
Defined.

(** The throttle of unknown ids is checked before the group is joined. Two lookups of
    unknown ids at one instant, when the last attempt is longer ago than the interval,
    both pass it; the second joins after the first is done and so runs a fetch of its
    own, within the interval that is to separate them. *)
Definition racingRun : list (Z * nat * action) :=
  [(0, 0%nat, Look "k1"); (0, 0%nat, Do); (0, 0%nat, Attempt); (0, 0%nat, Fetch (Some [sampleJwk])); (0, 0%nat, Release); (0, 0%nat, Remove);
   (20, 1%nat, Look "x"); (20, 2%nat, Look "y");
   (20, 1%nat, Do); (20, 1%nat, Attempt); (21, 1%nat, Fetch (Some [sampleJwk])); (21, 1%nat, Release); (21, 1%nat, Remove);
   (21, 2%nat, Do); (21, 2%nat, Attempt)].

Example throttle_race :
  let w0 := default sharedWorld (run (startWorld 1000 15 0) (take 13 racingRun)) in
  let w := default sharedWorld (run (startWorld 1000 15 0) racingRun) in
  length (w_calls w) = 3%nat /\ lastAttempt (w_cache w0) = 20 /\ lastAttempt (w_cache w) = 21 /\ minRefreshInterval (w_cache w) = 15.
Proof. by vm_compute. Qed.
