(* ===== verification/Report.v ===== *)
(** * Report: what an authenticated page is told (server/pairing.go, snapshot.go and
    mutations.go for the session view and the capability document, with the state,
    daemon and tunnel adapters of integration/adapters.go)

    The session view lets a reloaded page recover the token its mutating requests
    need; the capability document says which operations there are and how large an
    answer may be. *)

From S2P Require Import Prelude GoStr Float64 Session Pairing Access AuthAdapter Json Mutations Stack Tunnel Discover.
From S2P Require Import Runs Shell Routes.

(** ** The session view *)

(** [time.Time.UnixMilli] *)
Definition UnixMilli (t : Z) : Z := int64 (int64 (Unix t * 1000) + (t mod Second) / 10 ^ 6).

Record idJSON := mkIdJSON { id_Subject : string; id_Display : string; id_Quick : bool; id_Mode : string }.

Definition modeName (namedMode : bool) : string := if namedMode then "named" else "quick".

Record sessionResponse := mkSessionResponse {
  vw_CSRFToken : string; vw_ExpiresUnixMs : Z; vw_Identity : idJSON; vw_WorkspaceRoots : list string
}.

Definition idView (namedMode : bool) (id : ServerIdentity) : idJSON :=
  mkIdJSON (si_Subject id) (si_Display id) (si_Quick id) (modeName namedMode).

Definition handleGetSession (namedMode : bool) (roots : list string) (ident : ServerIdentity) : sessionResponse :=
  mkSessionResponse (si_CSRFToken ident) (if isZero (si_ExpiresAt ident) then 0 else UnixMilli (si_ExpiresAt ident))
    (idView namedMode ident) roots.

(** The body of a successful pairing; its type has the fields of [sessionResponse]. *)
Definition pairResponse (namedMode : bool) (roots : list string) (sess : ServerSession) : sessionResponse :=
  mkSessionResponse (ss_CSRFToken sess) (UnixMilli (ss_ExpiresAt sess)) (idView namedMode (ss_Identity sess)) roots.

(** ** Status *)

Record ComponentHealth := mkHealth { Healthy : bool; Detail : string }.

Definition healthOf (h : bool * string) : ComponentHealth := mkHealth h.1 h.2.

Record DaemonStatus := mkDaemonStatus {
  ds_Version : string; ds_Protocol : Z; ds_Mode : string; ds_Ready : bool;
  ds_Herdr : ComponentHealth; ds_State : ComponentHealth; ds_Clients : Z
}.

Definition Version : string := "0.4.0".
Definition HerdrProtocol : Z := 19.

(** [daemonStatusAdapter.Status]; the clients are counted by the handler. *)
Definition daemonStatus (mode : string) (ready pinged snapshot lastPollOk : bool) : DaemonStatus :=
  mkDaemonStatus Version HerdrProtocol mode ready (healthOf (herdrHealth pinged))
    (healthOf (stateHealth snapshot lastPollOk)) 0.

Record TunnelInfo := mkTunnelInfo { ti_Mode : string; ti_PublicURL : list byte; ti_Health : ComponentHealth }.

Definition stateText (s : State) : string :=
  match s with
  | StateIdle => "idle" | StateStarting => "starting" | StateReady => "ready" | StateDegraded => "degraded"
  | StateStopped => "stopped"
  end.

(** [tunnelStatusAdapter.Tunnel]; external mode has no supervisor. *)
Definition tunnelInfo (mode : string) (sup : option Supervisor) : TunnelInfo :=
  match sup with
  | None => mkTunnelInfo mode [] (mkHealth true "external")
  | Some s => mkTunnelInfo mode (url s) (mkHealth (bool_decide (state s = StateReady)) (stateText (state s)))
  end.

(** ** The capability document *)

Definition allowedOperationNames : list string := sortBy (fun k => (k, "")) operations.*1.

(** [int(d.Seconds())] *)
Definition wholeSeconds (d : Z) : Z :=
  let s := fadd (ofInt (Z.quot d Second)) (fdiv (ofInt (Z.rem d Second)) (ofInt (10 ^ 9))) in
  Z.quot (QArith_base.Qnum s) (Z.pos (QArith_base.Qden s)).

Record limitsJSON := mkLimits {
  l_MaxBodyBytes : Z; l_MaxPaneReadLines : Z; l_ConfirmationTTLs : Z; l_MaxRunOutputLines : Z;
  l_MaxRunOutputBytes : Z; l_MaxRuns : Z
}.

Definition limitsOf (cfg : Shell.Config) : limitsJSON :=
  mkLimits (c_MaxBodyBytes cfg) (MaxPaneReadLines (c_runs cfg)) (wholeSeconds (c_ConfirmationTTL cfg))
    (MaxRunOutputLines (c_runs cfg)) (MaxRunOutputBytes (c_runs cfg)) (MaxRuns (c_runs cfg)).

Record capabilitiesResponse := mkCapabilitiesResponse {
  cr_Version : Z; cr_Operations : list string; cr_Capabilities : list (string * json); cr_Status : DaemonStatus;
  cr_Tunnel : TunnelInfo; cr_Limits : limitsJSON; cr_Runs : runCapabilities
}.

(** The document before it is encoded and, for a client that accepts it, compressed. *)
Definition handleCapabilities (cfg : Shell.Config) (clients : Z) (caps : list (string * json)) (status : DaemonStatus)
    (tun : TunnelInfo) : capabilitiesResponse :=
  mkCapabilitiesResponse 1 allowedOperationNames caps
    (mkDaemonStatus (ds_Version status) (ds_Protocol status) (ds_Mode status) (ds_Ready status) (ds_Herdr status)
       (ds_State status) clients)
    tun (limitsOf cfg) (capabilitiesOf (c_runs cfg)).

(** ** A reload recovers its session *)

Section Recovery.
Context {S L : Type} `{KeySource S} `{Limiter L}.
Context (uh : list byte -> option jwtHeader) (uc : list byte -> option jwtClaims) (vf : RSAKey -> list byte -> list byte -> bool).
Context (equalFold : list byte -> list byte -> bool) (crossOriginOk : httpRequest -> bool).
#[local] Instance auth : Authenticator (authAdapter S) := adapter_Authenticator uh uc vf.

(** The store has a session under the cookie, with this token. *)
Definition tokenOf (a : authAdapter S) (cv token : string) : Prop :=
  cv ≠ "" /\ exists sess, sessions (store a) !! cv = Some sess /\ CSRFToken sess = token.

Lemma csrf_exactly a cv token now csrf : tokenOf a cv token ->
  (validateCSRF a now cv csrf).2 = true <-> csrf = token /\ csrf ≠ "" /\ is_Some (sessionOf a now cv).2.
Proof.
  intros (Hne & sess & Hs & <-). unfold validateCSRF, sessionOf, Get. rewrite bool_decide_false by done. rewrite Hs.
  destruct (expiredLocked _ _ _); simpl; [split; [done|by intros (_ & _ & [? ?])]|].
  unfold ValidCSRF. cbn [CSRFToken touch]. repeat case_bool_decide; simpl.
  all: naive_solver.
Qed.

Lemma sessionOf_token a now cv a' id : sessionOf a now cv = (a', Some id) -> tokenOf a' cv (si_CSRFToken id).
Proof.
  unfold sessionOf, Get. case_bool_decide as Hc; [done|]. destruct (sessions (store a) !! cv) as [sess|]; [|done].
  destruct (expiredLocked _ _ _); simpl; [done|]. intros [= <- <-]. split; [done|]. eexists. simpl. by rewrite lookup_insert_eq.
Qed.

Lemma Create_stored st now id hard st' sess : Create st now id hard = (st', Some sess) ->
  sessions st' !! ID sess = Some sess.
Proof.
  unfold Create. destruct (randomToken _ _) as [[sid|] r1]; [|done]. destruct (randomToken r1 _) as [[csrf|] r2]; [|done].
  destruct (randomToken r2 _) as [[aud|] r3]; [|done]. intros [= <- <-]. simpl. by rewrite lookup_insert_eq.
Qed.

Lemma ensure_token a now tok a' sess : ensureSession uh uc vf a now tok = (a', inl (Some sess)) ->
  ck_Value (ss_Cookie sess) ≠ "" -> tokenOf a' (ck_Value (ss_Cookie sess)) (si_CSRFToken (ss_Identity sess)).
Proof.
  unfold ensureSession. destruct (negb (named a)); [done|]. destruct (verifyToken _ _ _ _ _ _) as [a1 [c|e]]; [|done].
  case_bool_decide as Hi; [done|].
  destruct (GetByIdentity (store a1) now (identityOf c)) as [st [b|]] eqn:Eg; intros Hr Hne.
  - injection Hr as <- <-. split; [done|]. exists b. split; [|done]. simpl.
    unfold GetByIdentity in Eg. case_bool_decide; [done|]. destruct (fold_left _ _ _) as [x|]; [|done].
    injection Eg as <- <-. simpl. by rewrite lookup_insert_eq.
  - destruct (Create st now _ _) as [st' [made|]] eqn:Ec; [|done]. injection Hr as <- <-. split; [done|].
    exists made. split; [|done]. simpl. by eapply Create_stored.
Qed.

(** The session a request ends up with is in the store, under the cookie that the
    browser has: the one it sent, or the one that is set on the response. *)
Lemma resolveSession_token (s s' : server (authAdapter S) L) now r cv id :
  resolveSession s now r = (s', Some (cv, id)) ->
  tokenOf (s_auth s') cv (si_CSRFToken id) /\
  (rq_Cookie r = Some cv /\ s_cookies s' = s_cookies s \/
   exists ck, ck_Value ck = cv /\ s_cookies s' = s_cookies s ++ [ck]).
Proof.
  assert (Hp : forall s0, s_cookies s0 = s_cookies s -> provisionSession s0 now r = (s', Some (cv, id)) ->
    tokenOf (s_auth s') cv (si_CSRFToken id) /\
    exists ck, ck_Value ck = cv /\ s_cookies s' = s_cookies s ++ [ck]).
  { intros s0 Hs. unfold provisionSession. simpl. destruct (ensureSession _ _ _ _ _ _) as [a [[sess|]|]] eqn:Ee; [|done..].
    unfold nonempty. case_bool_decide as Hne; [done|]. intros [= <- <- <-]. simpl. rewrite Hs.
    split; [by eapply ensure_token|eauto]. }
  assert (Hq : forall s0, s_cookies s0 = s_cookies s ->
    (if NamedMode (s_auth s0) then provisionSession s0 now r else (s0, None)) = (s', Some (cv, id)) ->
    tokenOf (s_auth s') cv (si_CSRFToken id) /\
    (rq_Cookie r = Some cv /\ s_cookies s' = s_cookies s \/
     exists ck, ck_Value ck = cv /\ s_cookies s' = s_cookies s ++ [ck])).
  { intros s0 Hs. destruct (NamedMode (s_auth s0)); [|done]. intros Hr. destruct (Hp s0 Hs Hr) as [H1 H2]. auto. }
  unfold resolveSession, sessionFromRequest. destruct (rq_Cookie r) as [v|] eqn:Ek; [|by apply Hq].
  destruct (negb (nonempty v)); [by apply Hq|]. simpl.
  destruct (sessionOf (s_auth s) now v) as [a [i|]] eqn:Es; simpl; [|exact (Hq (withAuth s a) eq_refl)].
  intros [= <- <- <-]. simpl. split; [by eapply sessionOf_token|auto].
Qed.

Lemma afterSession_read cfg rt (s s' : server (authAdapter S) L) now r cv key ident cv' ident' : rt_mutating rt = false ->
  afterSession equalFold crossOriginOk cfg rt s now r cv key ident = (s', Serve cv' ident') ->
  cv' = cv /\ ident' = ident /\ s_auth s' = s_auth s /\ s_cookies s' = s_cookies s.
Proof.
  intros Hm. unfold afterSession. rewrite Hm, orb_false_r.
  destruct (_ && negb (originAllowed _ _ _)); [done|]. destruct (_ && negb (crossOriginOk r)); [done|].
  replace (match rt_auth rt with authSession => (s, true) | _ => (s, true) end) with (s, true) by (by destruct (rt_auth rt)).
  simpl. destruct (allow _ _) as [l []]; [|done]. by intros [= <- <- <-].
Qed.

(** C19: A reloaded page gets back a working session. Whoever is served the session
    view, by its own cookie or by the one set on that response, is told exactly the
    token with which a mutating request under that cookie passes the CSRF check: at
    any later time that check accepts this token and no other, and only while the
    session is live. *)
Theorem reload_recovers (cfg : hostConfig) (roots : list string) (s s' : server (authAdapter S) L) (now : Z)
    (r : httpRequest) (cv : string) (id : ServerIdentity) (rt : routeSpec) :
  rt ∈ routes -> rt_handler rt = hGetSession ->
  wrap equalFold crossOriginOk cfg rt s now r = (s', Serve cv (Some id)) ->
  let view := handleGetSession (NamedMode (s_auth s)) roots id in
  (rq_Cookie r = Some cv \/ exists ck, ck_Value ck = cv /\ s_cookies s' = s_cookies s ++ [ck]) /\
  forall now' csrf, (validateCSRF (s_auth s') now' cv csrf).2 = true <->
    csrf = vw_CSRFToken view /\ csrf ≠ "" /\ is_Some (sessionOf (s_auth s') now' cv).2.
Proof.
  intros Hin Hh Hw. assert (Ha : rt_auth rt = authSession /\ rt_mutating rt = false).
  { unfold routes in Hin. repeat (apply elem_of_cons in Hin as [->|Hin]; [by vm_compute in Hh|]). set_solver. }
  destruct Ha as [Ha Hm]. unfold wrap in Hw. destruct (negb _); [done|]. rewrite Ha in Hw.
  destruct (VerifyAccess _ _ _) as [a [e|]]; [done|].
  destruct (resolveSession _ now r) as [s1 [[cv1 id1]|]] eqn:Er; [|done].
  apply afterSession_read in Hw as (-> & [= ->] & Hauth & Hck); [|done].
  apply resolveSession_token in Er as [Ht Hc]. simpl in Hc. rewrite Hauth, Hck. split; [naive_solver|].
  intros now' csrf. by apply csrf_exactly.
Qed.
End Recovery.

(** ** What the capability document promises *)

Lemma allowed_operations op : op ∈ allowedOperationNames <-> is_Some (assoc op operations).
Proof. unfold allowedOperationNames. rewrite sortBy_perm. by rewrite assoc_keys. Qed.

Lemma guards_unknown cfg gens now req spec resource :
  guards cfg gens now req spec resource ≠ Some (RError 400 codeBadRequest "unknown operation").
Proof. unfold guards, generationGuard. repeat case_match; try done. all: by simplify_eq. Qed.

(** The operations advertised are those the mutation endpoint knows: in order, each
    once; and a request for an operation is turned away as unknown exactly when the
    document does not list it. *)
Theorem advertised_known (canonical : json -> option (list byte)) (hash : list byte -> string)
    (scfg : Shell.Config) (clients : Z) caps status tun (cfg : Mutations.Config) (who : caller)
    (gens : string -> option Z) (idem : Stores.idemStore) (tPeek now : Z) (req : mutationRequest) :
  let doc := handleCapabilities scfg clients caps status tun in
  NoDup (cr_Operations doc) /\ StronglySorted (keyLe (fun k => (k, ""))) (cr_Operations doc) /\
  (q_RequestID req ≠ "" ->
   (validate canonical hash cfg who gens idem tPeek now (Some req)).2 =
     inl (RError 400 codeBadRequest "unknown operation") <-> q_Operation req ∉ cr_Operations doc).
Proof.
  cbv zeta. change (cr_Operations _) with allowedOperationNames. split_and!.
  - apply (bool_decide_unpack _). by vm_compute.
  - apply sortBy_sorted.
  - intros Hid. rewrite allowed_operations, <- eq_None_not_Some. unfold validate, nonempty.
    rewrite bool_decide_false by done. cbn [negb].
    destruct (assoc (q_Operation req) operations) as [spec|]; [|done].
    split; [|done]. destruct (normalizeParams _ _) as [norm|]; [|done].
    destruct (Stores.peek _ _ _ _) as [idem' []]; try done;
      (destruct (guards _ _ _ _ _ _) as [x|] eqn:Eg; [|done]); intros [= ->]; by apply guards_unknown in Eg.
Qed.

(** ** Concrete values *)

(** Thirty seconds are thirty; within a nanosecond of a whole number of seconds a
    long duration is rounded up to it. *)
Example whole_seconds :
  (wholeSeconds (30 * Second), wholeSeconds (1500 * 10 ^ 6), wholeSeconds ((2 ^ 25 + 1) * Second - 1)) =
  (30, 1, 2 ^ 25 + 1).
Proof. by vm_compute. Qed.

Example tunnel_reports :
  tunnelInfo "external" None = mkTunnelInfo "external" [] (mkHealth true "external") /\
  healthOf (stateHealth true false) = mkHealth false "poll error".
Proof. done. Qed.

Definition reloadRoute : routeSpec := mkRoute GET (apiPrefix +:+ "/session") authSession false false hGetSession.

Definition sampleReload : server (authAdapter jwksState) openLimiter * outcome :=
  wrap (H:=adapter_Authenticator sampleHeader sampleClaims acceptAll) EqualFold (fun _ => true) sampleHosts
    reloadRoute sampleServer 60 sampleRequest.

Lemma sampleReload_result : sampleReload = (sampleReload.1, Serve (ID sampleSession) (Some sampleIdentityView)).
Proof.
  assert (E : sampleReload.2 = Serve (ID sampleSession) (Some sampleIdentityView)) by (vm_compute; reflexivity).
  destruct sampleReload as [s o]. simpl in *. by rewrite E.
Qed.

Lemma reload_recovers_witness :
  (validateCSRF (s_auth sampleReload.1) 90 (ID sampleSession) (CSRFToken sampleSession)).2 = true.
Proof.
  destruct (reload_recovers sampleHeader sampleClaims acceptAll EqualFold (fun _ => true) sampleHosts ["/w"] sampleServer
              sampleReload.1 60 sampleRequest (ID sampleSession) sampleIdentityView reloadRoute
              ltac:(unfold routes, reloadRoute; set_solver) eq_refl sampleReload_result) as [_ H].
  apply H. split_and!; [reflexivity|done|]. eexists. vm_compute. reflexivity.
Defined.

Lemma advertised_known_witness :
  "agent.prompt" ∈ allowedOperationNames /\ "terminal.takeover" ∉ allowedOperationNames.
Proof.
  destruct (advertised_known (fun _ => None) (fun _ => "") (Shell.mkConfig sampleHosts false [] 0 0 0 0 0 0 0 0
      (mkRunConfig 0 0 0 0 (mkInterpretation false [] 0))) 0 [] (daemonStatus "quick" true true true true)
      (tunnelInfo "quick" None) (Mutations.mkConfig 0 0 0 0) (mkCaller "a" "b") (fun _ => None) ∅ 0 0
      (mkReq "r" "terminal.takeover" 0 0 "" None)) as (_ & _ & H).
  split; [apply (bool_decide_unpack _); by vm_compute|]. apply H; [done|]. by vm_compute.
Defined.
