(* ===== verification/Files.v ===== *)
(** * Files: the private files of the daemon and the tunnel (WriteRuntime of
    daemon/runtime.go, the pidfile of tunnel/orphan.go, the token file of
    tunnel/token.go, the audit file of server/audit.go)

    A writer is a program over a small file system. Every system call may fail, a
    write may stop part of the way, and after any call the process may die: [seen]
    keeps the file system after each of them. Directories are outside; only whether
    their creation succeeds is an input. *)

From stdpp Require Import gmap.
From S2P Require Import Prelude GoStr GoText GoPath GoPathFacts.

Declare Scope io_scope.

(** ** The file system *)

#[export] Instance byte_countable : Countable byte := inj_countable Byte.to_N Byte.of_N Byte.of_to_N.

Notation path := (list byte) (only parsing).

Record node := mkNode { n_mode : Z; n_data : list byte }.

(** [stuck] are the files whose removal the system refused. *)
Record fs := mkFS { files : gmap path node; stuck : list path }.

(** What the system answers to a call; of a write that fails, how much it wrote. *)
Record answer := mkAnswer { an_ok : bool; an_part : nat }.

(** Calls past the end of [script] succeed. *)
Record world := mkWorld { now : fs; script : list answer; seen : list fs }.

Definition start (f : gmap path node) (script : list answer) : world := mkWorld (mkFS f []) script [].

Definition io (A : Type) := world -> A * world.
Definition ret {A} (a : A) : io A := fun w => (a, w).
Definition bind {A B} (m : io A) (k : A -> io B) : io B := fun w => let '(a, w') := m w in k a w'.

Notation "'let*' x := m 'in' k" := (bind m (fun x => k)) (at level 200, x name, m at level 100, k at level 200) : io_scope.
Open Scope io_scope.

(** A call: its result, the file systems passed through and the one reached. *)
Definition call {A} (eff : answer -> fs -> A * list fs * fs) : io A := fun w =>
  let an := match script w with [] => mkAnswer true 0 | a :: _ => a end in
  let '(a, mid, d) := eff an (now w) in
  (a, mkWorld d (tail (script w)) (seen w ++ mid ++ [d])).

Definition setFile (p : path) (n : node) (d : fs) : fs := mkFS (<[p := n]> (files d)) (stuck d).

(** MkdirAll, Sync, Close: nothing that is modelled changes. *)
Definition plainCall : io bool := call (fun an d => (an_ok an, [], d)).

(** [os.CreateTemp] at the name it picks. *)
Definition CreateTemp (umask : Z) (p : path) : io bool :=
  call (fun an d =>
    if an_ok an && bool_decide (files d !! p = None) then (true, [], setFile p (mkNode (Z.ldiff 384 umask) []) d)
    else (false, [], d)).

(** [os.OpenFile] with O_CREATE and O_APPEND. *)
Definition OpenAppend (umask : Z) (p : path) : io bool :=
  call (fun an d =>
    if an_ok an then
      (true, [], match files d !! p with Some _ => d | None => setFile p (mkNode (Z.ldiff 384 umask) []) d end)
    else (false, [], d)).

Definition Chmod (p : path) (mode : Z) : io bool :=
  call (fun an d =>
    match files d !! p with
    | Some n => if an_ok an then (true, [], setFile p (mkNode mode (n_data n)) d) else (false, [], d)
    | None => (false, [], d)
    end).

Definition Write (p : path) (data : list byte) : io bool :=
  call (fun an d =>
    match files d !! p with
    | Some n =>
        let part := setFile p (mkNode (n_mode n) (n_data n ++ take (an_part an) data)) d in
        if an_ok an then (true, [part], setFile p (mkNode (n_mode n) (n_data n ++ data)) d) else (false, [], part)
    | None => (false, [], d)
    end).

Definition Rename (p q : path) : io bool :=
  call (fun an d =>
    match files d !! p with
    | Some n => if an_ok an then (true, [], mkFS (<[q := n]> (delete p (files d))) (stuck d)) else (false, [], d)
    | None => (false, [], d)
    end).

Inductive removal := Removed | NoFile | Refused.

Definition Remove (p : path) : io removal :=
  call (fun an d =>
    match files d !! p with
    | None => (NoFile, [], d)
    | Some _ => if an_ok an then (Removed, [], mkFS (delete p (files d)) (stuck d))
                else (Refused, [], mkFS (files d) (p :: stuck d))
    end).

(** [defer func() { _ = os.Remove(p) }()] *)
Definition deferRemove {A} (p : path) (m : io A) : io A := let* a := m in let* _ := Remove p in ret a.

(** The name [os.CreateTemp] makes of a pattern and its random digits. *)
Definition tempName (dir prefix rnd suffix : list byte) : path :=
  (if hasSuffix dir [slash] then dir else dir ++ [slash]) ++ prefix ++ rnd ++ suffix.

(** [filepath.Dir] *)
Definition Dir (p : path) : path :=
  match cutLast slash p with Some (before, _) => Clean (before ++ [slash]) | None => Clean [] end.

(** ** The writers *)

Inductive fileErr :=
| ErrEmptyDir | ErrMkdir | ErrMarshal | ErrOpen | ErrCreate | ErrChmod | ErrWrite | ErrSync | ErrClose | ErrRename.

Section Writers.
Context (umask : Z).

Definition runtimeFileName : list byte := bytesOf "runtime.json".
Definition RuntimePath (stateDir : path) : path := Join [stateDir; runtimeFileName].

(** [data] is the encoded record, or nothing when it cannot be encoded; [rnd] the
    random digits. *)
Definition WriteRuntime (p : path) (data : option (list byte)) (rnd : list byte) : io (option fileErr) :=
  let dir := Dir p in
  let* ok := plainCall in
  if negb ok then ret (Some ErrMkdir) else
  let* _ := plainCall in
  match data with
  | None => ret (Some ErrMarshal)
  | Some data =>
      let data := data ++ [x0a] in
      let tmp := tempName dir (bytesOf ".runtime-") rnd (bytesOf ".tmp") in
      let* ok := CreateTemp umask tmp in
      if negb ok then ret (Some ErrCreate) else
      deferRemove tmp (
        let* ok := Chmod tmp 384 in
        if negb ok then let* _ := plainCall in ret (Some ErrChmod) else
        let* ok := Write tmp data in
        if negb ok then let* _ := plainCall in ret (Some ErrWrite) else
        let* ok := plainCall in
        if negb ok then let* _ := plainCall in ret (Some ErrSync) else
        let* ok := plainCall in
        if negb ok then ret (Some ErrClose) else
        let* ok := Rename tmp p in
        if negb ok then ret (Some ErrRename) else ret None)
  end.

Definition pidfileName : list byte := bytesOf "cloudflared.pid".
Definition pidfilePath (dir : path) : path := Join [dir; pidfileName].

Definition writePidRecord (dir : path) (data : option (list byte)) (rnd : list byte) : io (option fileErr) :=
  if isEmpty dir then ret (Some ErrEmptyDir) else
  let* ok := plainCall in
  if negb ok then ret (Some ErrMkdir) else
  match data with
  | None => ret (Some ErrMarshal)
  | Some data =>
      let tmp := tempName dir (bytesOf ".cloudflared-") rnd (bytesOf ".pid") in
      let* ok := CreateTemp umask tmp in
      if negb ok then ret (Some ErrCreate) else
      deferRemove tmp (
        let* ok := Chmod tmp 384 in
        if negb ok then let* _ := plainCall in ret (Some ErrChmod) else
        let* ok := Write tmp data in
        if negb ok then let* _ := plainCall in ret (Some ErrWrite) else
        let* ok := plainCall in
        if negb ok then ret (Some ErrClose) else
        let* ok := Rename tmp (pidfilePath dir) in
        if negb ok then ret (Some ErrRename) else ret None)
  end.

Definition removePidRecord (dir : path) : io unit := let* _ := Remove (pidfilePath dir) in ret tt.

(** [pidDirFor] *)
Definition pidDirFor (tempDir pidDir tokenDir : path) : path :=
  if negb (isEmpty pidDir) then pidDir else if negb (isEmpty tokenDir) then tokenDir else tempDir.

(** [writeTokenFile]: the path, or the error. *)
Definition writeTokenFile (tempDir dir : path) (token rnd : list byte) : io (path + fileErr) :=
  let dir := if isEmpty dir then tempDir else dir in
  let tmp := tempName dir (bytesOf "herdr-phone-cf-token-") rnd [] in
  let* ok := CreateTemp umask tmp in
  if negb ok then ret (inr ErrCreate) else
  let* ok := Chmod tmp 384 in
  if negb ok then let* _ := plainCall in let* _ := Remove tmp in ret (inr ErrChmod) else
  let* ok := Write tmp token in
  if negb ok then let* _ := plainCall in let* _ := Remove tmp in ret (inr ErrWrite) else
  let* ok := plainCall in
  if negb ok then let* _ := Remove tmp in ret (inr ErrClose) else
  ret (inl tmp).

(** The cleanup function of [writeTokenFile]: [once] afterwards, and whether it
    reports an error. *)
Definition tokenCleanup (name : path) (once : bool) : io (bool * bool) :=
  if once then ret (true, false)
  else let* r := Remove name in ret (true, match r with Refused => true | _ => false end).

(** [NewFileAuditor]: whether the file is open. *)
Definition NewFileAuditor (p : path) : io bool :=
  let* ok := OpenAppend umask p in
  if negb ok then ret false else
  let* ok := Chmod p 384 in
  if negb ok then let* _ := plainCall in ret false else ret true.

(** One encoded record appended to the open file; errors are dropped. *)
Definition auditAppend (p : path) (line : list byte) : io unit := let* _ := Write p line in ret tt.
End Writers.

(** ** Reasoning about crashes

    [wp Q m R d]: from the file system [d], every file system that [m] passes through
    satisfies [Q], and it returns with [R]. *)

Definition wp (Q : fs -> Prop) {A} (m : io A) (R : A -> fs -> Prop) (d : fs) : Prop :=
  forall s l, Forall Q l -> Forall Q (seen (m (mkWorld d s l)).2) /\ R (m (mkWorld d s l)).1 (now (m (mkWorld d s l)).2).

Lemma wp_ret {Q A} (a : A) (R : A -> fs -> Prop) d : R a d -> wp Q (ret a) R d.
Proof. by intros H s l Hl. Qed.

Lemma wp_bind {Q A B} (m : io A) (k : A -> io B) R d : wp Q m (fun a => wp Q (k a) R) d -> wp Q (bind m k) R d.
Proof.
  intros H s l Hl. unfold bind. destruct (H s l Hl) as [H1 H2]. destruct (m _) as [a [d' s' l']]. simpl in *. by apply H2.
Qed.

Lemma wp_call {Q A} (eff : answer -> fs -> A * list fs * fs) R d :
  (forall an, let '(a, mid, d') := eff an d in Forall Q (mid ++ [d']) /\ R a d') -> wp Q (call eff) R d.
Proof.
  intros H s l Hl. unfold call. cbn [script now seen]. set (an := match s with [] => _ | _ => _ end). specialize (H an).
  destruct (eff an d) as [[a mid] d']. simpl. destruct H as [H1 H2]. split; [by apply Forall_app|done].
Qed.

Lemma wp_seq {Q A B} (eff : answer -> fs -> A * list fs * fs) (k : A -> io B) R d :
  (forall an, let '(a, mid, d') := eff an d in Forall Q (mid ++ [d']) /\ wp Q (k a) R d') -> wp Q (bind (call eff) k) R d.
Proof. intros H. apply wp_bind, wp_call, H. Qed.

(** A replacement seen from outside: the file systems it passes through differ from
    the one before, [f0], by the temporary file or by the new file. *)
Section Replacement.
Context (replacing : Prop) (f0 : gmap path node) (tmp p : path) (full : list byte) (umask : Z).
Context (fresh : f0 !! tmp = None) (apart : tmp ≠ p).

(** Before the temporary file, with it, after it became the file; the last for a
    writer that renames, which is what [replacing] says. *)
Inductive view := Before | Temp (n : node) | After.

Definition private (n : node) : Prop := Z.land (n_mode n) 63 = 0 /\ n_data n `prefix_of` full.

Definition allowed (v : view) : Prop := match v with Before => True | Temp n => private n | After => replacing end.

Definition disk (v : view) (st : list path) : fs :=
  mkFS (match v with Before => f0 | Temp n => <[tmp := n]> f0 | After => <[p := mkNode 384 full]> f0 end) st.

Definition crash (d : fs) : Prop := exists v st, d = disk v st /\ allowed v.

Lemma crash_disk v st : allowed v -> crash (disk v st).
Proof. intros. by exists v, st. Qed.

Lemma disk_tmp v st : files (disk v st) !! tmp = match v with Temp n => Some n | _ => None end.
Proof. destruct v; simpl; [done|by rewrite lookup_insert_eq|by rewrite lookup_insert_ne]. Qed.

Lemma setFile_disk n v st : v ≠ After -> setFile tmp n (disk v st) = disk (Temp n) st.
Proof. unfold setFile. destruct v; [done| |done]. intros _. simpl. by rewrite insert_insert_eq. Qed.

Lemma created_private : private (mkNode (Z.ldiff 384 umask) []).
Proof.
  split; [|apply prefix_nil]. cbn [n_mode].
  by rewrite Z.ldiff_land, <- Z.land_assoc, (Z.land_comm _ 63), Z.land_assoc.
Qed.

Lemma written_private i : private (mkNode 384 (take i full)).
Proof. split; [done|]. apply prefix_take. Qed.

Lemma full_private : private (mkNode 384 full).
Proof. by split. Qed.

Context {B : Type} (R : B -> fs -> Prop).
Notation wpc m := (wp crash m R).

Lemma wp_plain (k : bool -> io B) v st : allowed v -> (forall ok, wpc (k ok) (disk v st)) -> wpc (bind plainCall k) (disk v st).
Proof. intros Hv H. apply wp_seq. intros an. split; [|apply H]. constructor; [by apply crash_disk|done]. Qed.

Lemma wp_create (k : bool -> io B) st : wpc (k false) (disk Before st) ->
  wpc (k true) (disk (Temp (mkNode (Z.ldiff 384 umask) [])) st) -> wpc (bind (CreateTemp umask tmp) k) (disk Before st).
Proof.
  intros Hf Ht. apply wp_seq. intros an. rewrite disk_tmp, bool_decide_true, andb_true_r by done.
  destruct (an_ok an); rewrite ?setFile_disk by done; (split; [|done]); constructor; try done; apply crash_disk; [|done].
  apply created_private.
Qed.

Lemma wp_chmod (k : bool -> io B) n st : private n -> wpc (k false) (disk (Temp n) st) ->
  wpc (k true) (disk (Temp (mkNode 384 (n_data n))) st) -> wpc (bind (Chmod tmp 384) k) (disk (Temp n) st).
Proof.
  intros Hp Hf Ht. apply wp_seq. intros an. rewrite disk_tmp, setFile_disk by done.
  destruct (an_ok an); (split; [|done]); constructor; try done; apply crash_disk; [|done]. by split; [|apply Hp].
Qed.

Lemma wp_write (k : bool -> io B) st : (forall i, wpc (k false) (disk (Temp (mkNode 384 (take i full))) st)) ->
  wpc (k true) (disk (Temp (mkNode 384 full)) st) -> wpc (bind (Write tmp full) k) (disk (Temp (mkNode 384 [])) st).
Proof.
  intros Hf Ht. apply wp_seq. intros an. rewrite disk_tmp, !setFile_disk by done. simpl.
  destruct (an_ok an); (split; [|done]); repeat constructor; apply crash_disk; [apply written_private|apply full_private|apply written_private].
Qed.

Lemma wp_rename (k : bool -> io B) st : replacing -> wpc (k false) (disk (Temp (mkNode 384 full)) st) ->
  wpc (k true) (disk After st) -> wpc (bind (Rename tmp p) k) (disk (Temp (mkNode 384 full)) st).
Proof.
  intros Hrep Hf Ht. apply wp_seq. intros an. rewrite disk_tmp.
  replace (mkFS (<[p:=mkNode 384 full]> (delete tmp (files (disk (Temp (mkNode 384 full)) st)))) (stuck (disk (Temp (mkNode 384 full)) st)))
    with (disk After st) by (simpl; by rewrite delete_insert_id).
  destruct (an_ok an); (split; [|done]); constructor; try done; apply crash_disk; [done|apply full_private].
Qed.

Lemma wp_remove (k : removal -> io B) v st : allowed v ->
  (match v with
   | Temp n => wpc (k Removed) (disk Before st) /\ wpc (k Refused) (disk v (tmp :: st))
   | _ => wpc (k NoFile) (disk v st)
   end) -> wpc (bind (Remove tmp) k) (disk v st).
Proof.
  intros Hv H. apply wp_seq. intros an. rewrite disk_tmp. destruct v as [|n|].
  1, 3: split; [|done]; constructor; [by apply crash_disk|done].
  destruct H as [Ha Hb]. simpl. rewrite delete_insert_id by done. destruct (an_ok an); (split; [|done]); constructor; try done.
  - by apply (crash_disk Before).
  - by apply (crash_disk (Temp n)).
Qed.
End Replacement.

(** One system call of a replacement, with both its outcomes. *)
Ltac io_cases :=
  match goal with
  | |- wp _ (bind plainCall _) _ _ => apply wp_plain; [try done|intros []]
  | |- wp _ (bind (CreateTemp _ _) _) _ _ => apply wp_create; [try done|try done|..]
  | |- wp _ (bind (Chmod _ _) _) _ _ => apply wp_chmod; [try done|try done|..]
  | |- wp _ (bind (Write _ _) _) _ _ => apply wp_write; [try done|try done|intros ?|]
  | |- wp _ (bind (Rename _ _) _) _ _ => apply wp_rename; [try done|try done|try exact I|..]
  | |- wp _ (bind (Remove _) _) _ _ => apply wp_remove; [try done|try done|try done|try (lazymatch goal with |- _ /\ _ => split end)]
  | |- wp _ (bind _ _) _ _ => apply wp_bind
  | |- wp _ (ret _) _ _ => apply wp_ret
  end; cbn beta iota delta [negb].

#[export] Hint Extern 1 (allowed _ _ (Temp _)) => first [apply created_private|apply written_private|apply full_private] : herdr.
#[export] Hint Extern 1 (private _ _) => first [apply created_private|apply written_private|apply full_private] : herdr.

(** ** Atomic replacement *)

Section Atomic.
Context (f0 : gmap path node) (tmp p : path) (data : list byte) (umask : Z).
Context (fresh : f0 !! tmp = None) (apart : tmp ≠ p).

(** What a writer of [p] through [tmp] promises: at every moment, also if the process
    dies then, the file is the one from before or the whole new one, nobody else may
    read the temporary file, and no other file changes; an error means that the file
    is the one from before; and the temporary file goes, if the system lets it. *)
Definition Replaced (rw : option fileErr * world) : Prop :=
  Forall (fun d => (files d !! p = f0 !! p \/ files d !! p = Some (mkNode 384 data)) /\
      (forall n, files d !! tmp = Some n -> private data n) /\
      (forall q, q ≠ p -> q ≠ tmp -> files d !! q = f0 !! q)) (now rw.2 :: seen rw.2) /\
  (rw.1 = None -> files (now rw.2) !! p = Some (mkNode 384 data)) /\
  (rw.1 ≠ None -> files (now rw.2) !! p = f0 !! p) /\
  (stuck (now rw.2) = [] -> files (now rw.2) !! tmp = None).

Definition replacedPost (r : option fileErr) (d : fs) : Prop :=
  exists v st, d = disk f0 tmp p data v st /\ allowed True data v /\ (r = None <-> v = After) /\ (st = [] -> forall n, v ≠ Temp n).

Lemma post_disk r v st : allowed True data v -> (r = None <-> v = After) -> (st = [] -> forall n, v ≠ Temp n) ->
  replacedPost r (disk f0 tmp p data v st).
Proof. intros. by exists v, st. Qed.

Lemma Replaced_wp (m : io (option fileErr)) script :
  wp (crash True f0 tmp p data) m replacedPost (disk f0 tmp p data Before []) -> Replaced (m (start f0 script)).
Proof.
  intros H. destruct (H script [] (Forall_nil_2 _)) as [Hs (v & st & Hd & Ha & Hr & Ht)].
  unfold start. change (mkFS f0 []) with (disk f0 tmp p data Before []). destruct (m _) as [r w]. simpl in *.
  assert (Hp : forall u k, files (disk f0 tmp p data u k) !! p = match u with After => Some (mkNode 384 data) | _ => f0 !! p end).
  { intros [] k; simpl; [done|by rewrite lookup_insert_ne|by rewrite lookup_insert_eq]. }
  assert (Hcrash : crash True f0 tmp p data (now w)) by (exists v, st; done).
  split_and!; cbn [fst snd]; rewrite ?Hd, ?Hp, ?disk_tmp by done.
  - apply Forall_impl with (crash True f0 tmp p data); [constructor; [by rewrite <- Hd|exact Hs]|]. intros d (u & k & -> & Hu). rewrite Hp, disk_tmp by done.
    split_and!; [destruct u; auto|intros n E; destruct u; by simplify_eq|]. intros q H1 H2.
    destruct u; simpl; [done|by rewrite lookup_insert_ne|by rewrite lookup_insert_ne].
  - intros E. apply Hr in E as ->. done.
  - intros E. destruct v; [done|done|]. by destruct E; apply Hr.
  - simpl. intros ->. destruct v; try done. by destruct (Ht eq_refl n).
Qed.
End Atomic.

Ltac io_run := repeat io_cases; eauto with herdr; apply post_disk; eauto with herdr; try split; intros; congruence.

Lemma WriteRuntime_replaces umask f0 pth data rnd script :
  let tmp := tempName (Dir pth) (bytesOf ".runtime-") rnd (bytesOf ".tmp") in
  f0 !! tmp = None -> tmp ≠ pth ->
  Replaced f0 tmp pth (data ++ [x0a]) (WriteRuntime umask pth (Some data) rnd (start f0 script)).
Proof.
  intros tmp Hf Hn. apply Replaced_wp; [done|done|]. unfold WriteRuntime, deferRemove. fold tmp. io_run.
Qed.

Lemma writePidRecord_replaces umask f0 dir data rnd script :
  let tmp := tempName dir (bytesOf ".cloudflared-") rnd (bytesOf ".pid") in
  dir ≠ [] -> f0 !! tmp = None -> tmp ≠ pidfilePath dir ->
  Replaced f0 tmp (pidfilePath dir) data (writePidRecord umask dir (Some data) rnd (start f0 script)).
Proof.
  intros tmp Hd Hf Hn. apply Replaced_wp; [done|done|]. apply isEmpty_false in Hd. unfold writePidRecord, deferRemove.
  fold tmp. rewrite Hd. io_run.
Qed.

(** *** The temporary name is never the file's own *)

Lemma splitOn_last sep s n : Forall (fun b => b ≠ sep) n -> splitOn sep (s ++ sep :: n) = splitOn sep s ++ [n].
Proof.
  intros Hn. induction s as [|b s IH]; simpl.
  - rewrite splitOn_free by done. by rewrite byte_eqb_refl.
  - rewrite IH. destruct (b =b sep); [done|]. pose proof (splitOn_nonempty sep s). by destruct (splitOn sep s).
Qed.

Lemma Clean_last s n : plainElement n -> exists q, Clean (s ++ slash :: n) = q ++ n.
Proof.
  intros Hn. assert (Hc : exists es, cleanElements (s ++ slash :: n) = es ++ [n]).
  { unfold cleanElements. rewrite splitOn_last by apply Hn. rewrite foldl_snoc, cleanElement_plain by done.
    rewrite reverse_cons. eauto. }
  destruct Hc as [es He]. unfold Clean. rewrite He.
  assert (Hj : exists q, joinWith slash (es ++ [n]) = q ++ n).
  { destruct es as [|e es]; [by exists []|]. rewrite joinWith_snoc by done. exists (joinWith slash (e :: es) ++ [slash]).
    by rewrite <- app_assoc. }
  destruct Hj as [q Hq]. rewrite Hq. destruct (IsAbs _); [by exists (slash :: q)|]. exists q.
  destruct (q ++ n) eqn:E; [|done]. apply app_eq_nil in E as [_ ->]. by destruct Hn.
Qed.

Lemma Join_last d n : plainElement n -> exists q, Join [d; n] = q ++ n.
Proof.
  intros Hn. destruct d as [|b d]; [|by apply Clean_last]. simpl. destruct n as [|c n]; [by destruct Hn|].
  destruct Hn as (H1 & H2 & H3 & H4). exists []. unfold Clean, cleanElements. rewrite splitOn_free by done.
  assert (Ha : IsAbs (c :: n) = false).
  { destruct (IsAbs (c :: n)) eqn:E; [|done]. apply hasPrefix_spec in E as [r E]. injection E as -> _.
    by apply Forall_cons in H4 as [? _]. }
  rewrite Ha. simpl foldl. by rewrite cleanElement_plain.
Qed.

Lemma tempName_last dir pre rnd suf : exists q, tempName dir pre rnd suf = q ++ rnd ++ suf.
Proof. unfold tempName. eexists. by rewrite !(app_assoc _ pre). Qed.

Ltac plain_name := split_and!; [done|done|done|apply (bool_decide_unpack _); vm_compute; exact I].

Lemma runtime_apart dir rnd : tempName (Dir (RuntimePath dir)) (bytesOf ".runtime-") rnd (bytesOf ".tmp") ≠ RuntimePath dir.
Proof.
  destruct (tempName_last (Dir (RuntimePath dir)) (bytesOf ".runtime-") rnd (bytesOf ".tmp")) as [q ->].
  destruct (Join_last dir runtimeFileName) as [q' Hq]; [by plain_name|].
  unfold RuntimePath. rewrite Hq. intros E. apply (f_equal last) in E.
  replace runtimeFileName with (bytesOf "runtime.jso" ++ [x6e]) in E by done.
  replace (bytesOf ".tmp") with (bytesOf ".tm" ++ [x70]) in E by done. by rewrite !app_assoc, !last_snoc in E.
Qed.

(** Whatever the digits are, they do not end in a letter d. *)
Definition digits (rnd : list byte) : Prop := Forall (fun b => between 48 57 b = true) rnd.

Lemma pidfile_apart dir rnd : digits rnd ->
  tempName dir (bytesOf ".cloudflared-") rnd (bytesOf ".pid") ≠ pidfilePath dir.
Proof.
  intros Hd. destruct (Join_last dir pidfileName) as [q' Hq]; [by plain_name|].
  unfold pidfilePath. rewrite Hq. unfold tempName. set (pre := if hasSuffix dir [slash] then _ else _).
  replace pidfileName with (bytesOf "cloudflared" ++ bytesOf ".pid") by done. rewrite !app_assoc. intros E.
  apply app_inv_tail in E.
  destruct rnd as [|b rnd] using rev_ind.
  - rewrite app_nil_r in E. apply (f_equal last) in E.
    replace (bytesOf ".cloudflared-") with (bytesOf ".cloudflared" ++ [x2d]) in E by done.
    replace (bytesOf "cloudflared") with (bytesOf "cloudflare" ++ [x64]) in E by done. by rewrite !app_assoc, !last_snoc in E.
  - apply (f_equal last) in E. replace (bytesOf "cloudflared") with (bytesOf "cloudflare" ++ [x64]) in E by done.
    rewrite !app_assoc, !last_snoc in E. injection E as ->. apply Forall_app in Hd as [_ Hd]. by apply Forall_cons in Hd as [? _].
Qed.

(** C18: The runtime file and the pidfile are replaced in one piece. Whichever calls
    fail, however much a failing write had written, and wherever the process dies: the
    file is the one from before or the complete new record, readable by its owner
    only; the temporary file is private, holds a beginning of the record and is gone
    at the end unless the system refuses to remove it; no other file is touched; and
    the writer reports success exactly when the new record is in place. *)
Theorem records_replaced (umask : Z) (f0 : gmap path node) (dir data rnd : list byte) (script : list answer) :
  digits rnd -> dir ≠ [] ->
  let tmpR := tempName (Dir (RuntimePath dir)) (bytesOf ".runtime-") rnd (bytesOf ".tmp") in
  let tmpP := tempName dir (bytesOf ".cloudflared-") rnd (bytesOf ".pid") in
  (f0 !! tmpR = None ->
   Replaced f0 tmpR (RuntimePath dir) (data ++ [x0a]) (WriteRuntime umask (RuntimePath dir) (Some data) rnd (start f0 script))) /\
  (f0 !! tmpP = None ->
   Replaced f0 tmpP (pidfilePath dir) data (writePidRecord umask dir (Some data) rnd (start f0 script))).
Proof.
  intros Hd Hne tmpR tmpP. split; intros Hf.
  - apply WriteRuntime_replaces; [done|]. apply runtime_apart.
  - apply writePidRecord_replaces; [done|done|]. by apply pidfile_apart.
Qed.

(** ** The token file *)

Section Token.
Context (f0 : gmap path node) (tmp : path) (token : list byte) (umask : Z).
Context (fresh : f0 !! tmp = None).

(** No rename takes place, so the second path does not matter. *)
Lemma other_path : tmp ≠ tmp ++ [x00].
Proof. intros E. apply (f_equal length) in E. rewrite length_app in E. simpl in E. lia. Qed.

Definition tokenPost (r : path + fileErr) (d : fs) : Prop :=
  exists v st, d = disk f0 tmp (tmp ++ [x00]) token v st /\
    match r with
    | inl q => q = tmp /\ v = Temp (mkNode 384 token) /\ st = []
    | inr _ => allowed False token v /\ (st = [] -> v = Before)
    end.

Lemma token_post r v st :
  match r with
  | inl q => q = tmp /\ v = Temp (mkNode 384 token) /\ st = []
  | inr _ => allowed False token v /\ (st = [] -> v = Before)
  end -> tokenPost r (disk f0 tmp (tmp ++ [x00]) token v st).
Proof. intros. by exists v, st. Qed.

(** What was there stays, and only a private file with a beginning of the token comes. *)
Definition onlyToken (d : fs) : Prop :=
  (forall q, q ≠ tmp -> files d !! q = f0 !! q) /\ (forall n, files d !! tmp = Some n -> private token n).

Lemma crash_onlyToken d : crash False f0 tmp (tmp ++ [x00]) token d -> onlyToken d.
Proof.
  intros (v & st & -> & Hv). split.
  - intros q Hq. destruct v; simpl; [done|by rewrite lookup_insert_ne|done].
  - intros n. rewrite disk_tmp by (done || apply other_path). destruct v; [done|by intros [= <-]|done].
Qed.
End Token.

Lemma token_wp umask f0 tempDir dir token rnd :
  let tmp := tempName (if isEmpty dir then tempDir else dir) (bytesOf "herdr-phone-cf-token-") rnd [] in
  f0 !! tmp = None ->
  wp (crash False f0 tmp (tmp ++ [x00]) token) (writeTokenFile umask tempDir dir token rnd) (tokenPost f0 tmp token)
    (disk f0 tmp (tmp ++ [x00]) token Before []).
Proof.
  intros tmp Hf. pose proof (other_path tmp) as Hn. unfold writeTokenFile. fold tmp.
  repeat io_cases; eauto with herdr; try exact I; apply token_post; split_and?; eauto with herdr; try exact I; intros; congruence.
Qed.

(** C34: The token is never readable by others and never left behind. Whichever calls
    fail and wherever the process dies, the only file that comes is the temporary one,
    which nobody else may read at any moment and which holds a beginning of the token;
    on success it holds the token; after an error, and after the clean-up of a success,
    the files are those from before unless the system refused a removal. A second
    clean-up does nothing. *)
Theorem token_private (umask : Z) (f0 : gmap path node) (tempDir dir token rnd : list byte) (script : list answer) :
  let tmp := tempName (if isEmpty dir then tempDir else dir) (bytesOf "herdr-phone-cf-token-") rnd [] in
  f0 !! tmp = None ->
  let '(r, w) := writeTokenFile umask tempDir dir token rnd (start f0 script) in
  Forall (onlyToken f0 tmp token) (now w :: seen w) /\
  match r with
  | inl q => q = tmp /\ files (now w) = <[tmp := mkNode 384 token]> f0 /\
      let '((once, failed), w') := tokenCleanup q false w in
      once = true /\ (failed = false -> files (now w') = f0) /\ tokenCleanup q once w' = ((true, false), w')
  | inr _ => stuck (now w) = [] -> files (now w) = f0
  end.
Proof.
  intros tmp Hf. destruct (token_wp umask f0 tempDir dir token rnd Hf script [] (Forall_nil_2 _)) as [Hs (v & st & Hd & Hr)].
  unfold start. change (mkFS f0 []) with (disk f0 tmp (tmp ++ [x00]) token Before []). fold tmp in Hs, Hd, Hr.
  pose proof (other_path tmp) as Hn. destruct (writeTokenFile _ _ _ _ _ _) as [r w]. simpl in *. split.
  - constructor; [|eapply Forall_impl; [exact Hs|]; intros d; by apply crash_onlyToken].
    apply crash_onlyToken; [done|]. rewrite Hd. exists v, st. split; [done|].
    destruct r as [q|]; [destruct Hr as (_ & -> & _); apply full_private|apply Hr].
  - rewrite Hd. destruct r as [q|e]; [|simpl; intros ->; by rewrite (proj2 Hr eq_refl)].
    destruct Hr as (-> & -> & ->). split_and!; [done|done|]. unfold tokenCleanup, bind, Remove, call, ret. rewrite Hd.
    rewrite disk_tmp by done. destruct w as [? s ?]. simpl. destruct (an_ok _); simpl; split_and!; try done.
    intros _. by rewrite delete_insert_id.
Qed.

(** ** The audit file *)

(** Appending, from the moment the file is open: private, and what was written stays. *)
Definition auditFile (p : path) (base : list byte) (d : fs) : Prop :=
  exists n, files d !! p = Some n /\ n_mode n = 384 /\ base `prefix_of` n_data n.

Lemma lookup_setFile p n d : files (setFile p n d) !! p = Some n.
Proof. apply lookup_insert_eq. Qed.

Lemma audit_open umask p d : wp (fun _ => True) (NewFileAuditor umask p)
  (fun ok d' => ok = true -> auditFile p (from_option n_data [] (files d !! p)) d') d.
Proof.
  unfold NewFileAuditor. apply wp_seq. intros an. destruct (an_ok an); [|split; [by repeat constructor|by apply wp_ret]].
  set (d1 := match files d !! p with Some _ => d | None => _ end). split; [by repeat constructor|].
  assert (H1 : exists n, files d1 !! p = Some n /\ n_data n = from_option n_data [] (files d !! p)).
  { unfold d1. destruct (files d !! p) as [n|] eqn:E; [by exists n|]. rewrite lookup_setFile. eauto. }
  destruct H1 as (n & H1 & H2). cbn [negb]. apply wp_seq. intros an'. rewrite H1.
  destruct (an_ok an'); (split; [by repeat constructor|]); cbn [negb].
  - apply wp_ret. intros _. exists (mkNode 384 (n_data n)). by rewrite lookup_setFile, <- H2.
  - apply wp_seq. intros an2. split; [by repeat constructor|]. by apply wp_ret.
Qed.

Lemma audit_write p line base d : auditFile p base d ->
  wp (auditFile p base) (auditAppend p line) (fun _ d' => auditFile p base d') d.
Proof.
  intros (n & Hn & Hm & Hb). unfold auditAppend. apply wp_seq. intros an. rewrite Hn.
  assert (Hk : forall x, auditFile p base (setFile p (mkNode (n_mode n) (n_data n ++ x)) d)).
  { intros x. exists (mkNode (n_mode n) (n_data n ++ x)). rewrite lookup_setFile. split_and!; try done.
    by apply prefix_app_r. }
  destruct (an_ok an); (split; [by repeat constructor|]); by apply wp_ret.
Qed.

Fixpoint auditAll (p : path) (lines : list (list byte)) : io unit :=
  match lines with [] => ret tt | l :: rest => let* _ := auditAppend p l in auditAll p rest end.

(** The audit file, once open, is private and only grows, also when writes stop part
    of the way. *)
Theorem audit_grows (umask : Z) (f0 : gmap path node) (p : path) (lines : list (list byte)) (script : list answer) :
  let '(ok, w) := NewFileAuditor umask p (start f0 script) in
  ok = true ->
  let '(_, w') := auditAll p lines (mkWorld (now w) (Files.script w) []) in
  Forall (auditFile p (from_option n_data [] (f0 !! p))) (now w' :: seen w').
Proof.
  destruct (audit_open umask p (mkFS f0 []) script [] (Forall_nil_2 _)) as [_ Ho]. unfold start.
  destruct (NewFileAuditor _ _ _) as [ok w]. simpl in *. intros Hok. specialize (Ho Hok).
  assert (Hall : forall d, auditFile p (from_option n_data [] (f0 !! p)) d ->
    wp (auditFile p (from_option n_data [] (f0 !! p))) (auditAll p lines) (fun _ => auditFile p (from_option n_data [] (f0 !! p))) d).
  { induction lines as [|l lines IH]; intros d Hd; [by apply wp_ret|]. apply wp_bind.
    destruct (audit_write p l _ d Hd (Files.script w) [] (Forall_nil_2 _)) as [_ _].
    intros s lg Hl. destruct (audit_write p l _ d Hd s lg Hl) as [H1 H2]. split; [done|]. by apply IH. }
  destruct (Hall _ Ho (Files.script w) [] (Forall_nil_2 _)) as [H1 H2]. destruct (auditAll _ _ _) as [u w']. simpl in *. by constructor.
Qed.

(** ** Concrete values *)

Definition oldRuntime : gmap path node := {[ bytesOf "/s/runtime.json" := mkNode 384 (bytesOf "old") ]}.

(** The write stops after one byte: the old record stays and the temporary file is
    removed; and dying right after the rename leaves the new record. *)
Example short_write :
  let '(r, w) := WriteRuntime 18 (bytesOf "/s/runtime.json") (Some (bytesOf "new")) (bytesOf "42")
                   (start oldRuntime [mkAnswer true 0; mkAnswer true 0; mkAnswer true 0; mkAnswer true 0; mkAnswer false 1]) in
  (r, files (now w) !! bytesOf "/s/runtime.json", files (now w) !! bytesOf "/s/.runtime-42.tmp", length (seen w)) =
  (Some ErrWrite, Some (mkNode 384 (bytesOf "old")), None, 7%nat).
Proof. by vm_compute. Qed.

Example names :
  (Dir (bytesOf "/s/runtime.json"), RuntimePath (bytesOf "/s"), tempName (bytesOf "/s") (bytesOf ".cloudflared-") (bytesOf "7") (bytesOf ".pid"),
   pidDirFor (bytesOf "/tmp") [] (bytesOf "/t")) =
  (bytesOf "/s", bytesOf "/s/runtime.json", bytesOf "/s/.cloudflared-7.pid", bytesOf "/t").
Proof. by vm_compute. Qed.

Lemma records_replaced_witness :
  files (now (WriteRuntime 18 (RuntimePath (bytesOf "/s")) (Some (bytesOf "new")) (bytesOf "42") (start oldRuntime [])).2) !!
    RuntimePath (bytesOf "/s") = Some (mkNode 384 (bytesOf "new" ++ [x0a])).
Proof.
  assert (Hd : digits (bytesOf "42")) by (by repeat constructor).
  destruct (records_replaced 18 oldRuntime (bytesOf "/s") (bytesOf "new") (bytesOf "42") [] Hd ltac:(done)) as [H _].
  destruct (H ltac:(by vm_compute)) as (_ & H1 & _). apply H1. by vm_compute.
Defined.

Lemma token_private_witness :
  Forall (onlyToken oldRuntime (bytesOf "/s/herdr-phone-cf-token-42") (bytesOf "secret"))
    (seen (writeTokenFile 0 (bytesOf "/tmp") (bytesOf "/s") (bytesOf "secret") (bytesOf "42")
             (start oldRuntime [mkAnswer true 0; mkAnswer true 0; mkAnswer false 3; mkAnswer true 0; mkAnswer false 0])).2).
Proof.
  pose proof (token_private 0 oldRuntime (bytesOf "/tmp") (bytesOf "/s") (bytesOf "secret") (bytesOf "42")
    [mkAnswer true 0; mkAnswer true 0; mkAnswer false 3; mkAnswer true 0; mkAnswer false 0] ltac:(by vm_compute)) as H.
  change (tempName _ _ _ _) with (bytesOf "/s/herdr-phone-cf-token-42") in H.
  destruct (writeTokenFile _ _ _ _ _ _) as [r w]. destruct H as [H _]. by apply Forall_cons in H as [_ H].
Defined.

Lemma audit_grows_witness :
  (NewFileAuditor 18 (bytesOf "/a") (start oldRuntime [])).1 = true /\
  Forall (auditFile (bytesOf "/a") [])
    (seen (auditAll (bytesOf "/a") [bytesOf "x"] (mkWorld (now (NewFileAuditor 18 (bytesOf "/a") (start oldRuntime [])).2) [] [])).2).
Proof.
  pose proof (audit_grows 18 oldRuntime (bytesOf "/a") [bytesOf "x"] []) as H.
  assert (E : (NewFileAuditor 18 (bytesOf "/a") (start oldRuntime [])).1 = true) by (by vm_compute).
  assert (Es : script (NewFileAuditor 18 (bytesOf "/a") (start oldRuntime [])).2 = []) by (by vm_compute).
  destruct (NewFileAuditor _ _ _) as [ok w]. cbn [fst snd] in *. specialize (H E). rewrite Es in H. split; [exact E|].
  destruct (auditAll _ _ _) as [u w']. by apply Forall_cons in H as [_ H].
Defined.
