(* ===== verification/Process.v ===== *)
(** * Process: stopping processes and finding Herdr (tunnel/process.go,
    terminal/controller.go, the ps commands of tunnel/orphan.go, herdr/resolve.go and
    the random names of integration/paths.go)

    When a process ends, whether a signal is delivered and when the caller gives up
    are inputs. *)

From stdpp Require Import pretty.
From S2P Require Import Prelude GoStr GoText GoPath Session Daemon Config Assembly TunnelLog Tunnel Files.

(** ** Signals *)

(** One call of kill(2): a negative pid is a process group. *)
Definition kill := (Z * signal)%type.

(** [killGroup] and [signalGroup]: [delivered] says whether the group could be
    signalled; the leader is the fallback. *)
Definition signalGroup (pid : Z) (sig : signal) (delivered : bool) : list kill :=
  (- pid, sig) :: if delivered then [] else [(pid, sig)].

Definition killGroup (pid : option Z) (sig : signal) (delivered : bool) : list kill :=
  match pid with None => [] | Some pid => signalGroup pid sig delivered end.

(** ** Stopping cloudflared *)

(** How the wait for the process ended. *)
Inductive waited := Exited | WaitDelayed | Signaled | Failed (text : list byte).

Definition exitError (w : waited) : option (list byte) :=
  match w with Exited | WaitDelayed | Signaled => None | Failed e => Some e end.

Definition errNotKilled : list byte := bytesOf "tunnel: cloudflared did not exit after kill".

(** What happens while [stop] waits, in nanoseconds since its start: when the process
    ends by itself and how, when the caller's context ends, and how long after SIGKILL
    the process ends. [prefer] is the choice of a select whose cases are ready at the
    same time. *)
Record stopping := mkStopping {
  sp_pid : option Z; sp_exit : option (Z * waited); sp_ctx : option Z; sp_killed : option (Z * waited);
  sp_delivered : bool * bool; sp_prefer : bool
}.

Definition effectiveGrace (grace : Z) : Z := if grace <=? 0 then defaultGracePeriod else grace.

(** When the first wait gives up. *)
Definition patience (grace : Z) (s : stopping) : Z :=
  match sp_ctx s with Some t => Z.min t (effectiveGrace grace) | None => effectiveGrace grace end.

Definition killWait : Z := 2 * second.

(** [stop]: the error, the signals sent and the time it takes. *)
Definition stop (grace : Z) (s : stopping) : option (list byte) * list kill * Z :=
  match sp_pid s with
  | None => (None, [], 0)
  | Some _ =>
      let term := killGroup (sp_pid s) SIGTERM (sp_delivered s).1 in
      let give := patience grace s in
      let exited := match sp_exit s with
                    | Some (t, w) => if (t <? give) || ((t =? give) && sp_prefer s) then Some (t, w) else None
                    | None => None end in
      match exited with
      | Some (t, w) => (exitError w, term, t)
      | None =>
          let sent := term ++ killGroup (sp_pid s) SIGKILL (sp_delivered s).2 in
          match sp_killed s with
          | Some (t, w) =>
              if (t <? killWait) || ((t =? killWait) && sp_prefer s) then (exitError w, sent, give + t)
              else (Some errNotKilled, sent, give + killWait)
          | None => (Some errNotKilled, sent, give + killWait)
          end
      end
  end.

(** ** The terminal controller *)

Definition launchWaitDelay (configured : Z) : Z := if configured <=? 0 then 5 * second else configured.

Inductive controllerAct := CKill (k : kill) | CloseStdin.

(** [Terminate]; its errors are ignored. *)
Definition Terminate (pid : option Z) : list controllerAct :=
  match pid with None => [] | Some pid => [CKill (- pid, SIGTERM); CloseStdin] end.

(** ** The ps commands *)

Definition psCandidatePaths : list (list byte) := [bytesOf "/bin/ps"; bytesOf "/usr/bin/ps"].

(** [stat] says whether a path is there and whether it is a directory. *)
Definition resolvePS (stat : list byte -> option bool) : option (list byte) :=
  List.find (fun p => match stat p with Some isDir => negb isDir | None => false end) psCandidatePaths.

(** The commands of [processComm] and [processStartTime], the latter with what it
    adds to the environment. *)
Definition commCommand (ps : list byte) (pid : Z) : list (list byte) :=
  [ps; bytesOf "-p"; decimal pid; bytesOf "-o"; bytesOf "comm="].
Definition startCommand (ps : list byte) (pid : Z) : list (list byte) * list (list byte) :=
  ([ps; bytesOf "-o"; bytesOf "lstart="; bytesOf "-p"; decimal pid], [bytesOf "LC_ALL=C"; bytesOf "LANG=C"]).

(** [run] is the output of a command; [parse] reads a time of the layout of lstart. *)
Definition psComm (stat : list byte -> option bool) (run : list (list byte) -> option (list byte)) (pid : Z)
    : option (list byte) :=
  ps ← resolvePS stat; out ← run (commCommand ps pid); Some (TrimSpace out).

Definition processStartTime (stat : list byte -> option bool) (run : list (list byte) -> option (list byte))
    (parse : list byte -> option Z) (pid : Z) : option Z :=
  ps ← resolvePS stat; out ← run (startCommand ps pid).1;
  match TrimSpace out with [] => None | s => parse s end.

(** ** Finding Herdr *)

(** [None] when the home directory is not known. *)
Definition UserHomeDir (env : list byte -> list byte) : option (list byte) :=
  if isEmpty (env HOME) then None else Some (env HOME).

Definition expandHome (env : list byte -> list byte) (p : list byte) : option (list byte) :=
  if bool_decide (p = [x7e]) || hasPrefix p (bytesOf "~/") then
    home ← UserHomeDir env;
    Some (if bool_decide (p = [x7e]) then home else Join [home; drop 2 p])
  else Some p.

Definition ResolveSocketPath (env : list byte -> list byte) (configured : list byte) : option (list byte) :=
  match TrimSpace configured with
  | [] =>
      match TrimSpace (env (bytesOf "HERDR_SOCKET_PATH")) with
      | [] => home ← UserHomeDir env; Some (Join [home; bytesOf ".config"; bytesOf "herdr"; bytesOf "herdr.sock"])
      | p => expandHome env p
      end
  | p => expandHome env p
  end.

Definition ResolveBinaryPath (env : list byte -> list byte) (configured : list byte) : list byte :=
  match TrimSpace configured with
  | [] => match TrimSpace (env (bytesOf "HERDR_BIN_PATH")) with [] => bytesOf "herdr" | p => p end
  | p => default p (expandHome env p)
  end.

(** ** Random names (paths.go) *)

(** [newProbeToken] and [newInstanceID]: the name and what is left of the entropy. *)
Definition newProbeToken (rnd : list byte) : option (list byte) * list byte :=
  let '(b, rest) := readFull rnd 32 in (b64encode <$> b, rest).
Definition newInstanceID (rnd : list byte) : option (list byte) * list byte :=
  let '(b, rest) := readFull rnd 16 in (Daemon.hexEncode <$> b, rest).

(** ** The token of an attempt (supervisor.go) *)

(** [prepareToken]: the path for cloudflared and whether the attempt has to remove it;
    [run] is the output of the token command. *)
Definition prepareToken (run : list (list byte) -> option (list (list byte))) (umask : Z) (tempDir : list byte) (c : Tunnel.Config)
    (rnd : list byte) : io (list byte * bool + secretError + fileErr) :=
  if negb (usesTokenCommand c) then ret (inl (inl (Tunnel.TokenFile c, false)))
  else match runTokenCommand run (Tunnel.TokenCommand c) with
       | inr e => ret (inl (inr e))
       | inl token =>
           let* r := writeTokenFile umask tempDir (Tunnel.TokenDir c) token rnd in
           ret (match r with inl p => inl (inl (p, true)) | inr e => inr e end)
       end.

(** ** Facts *)

Lemma effectiveGrace_pos g : 0 < effectiveGrace g.
Proof. unfold effectiveGrace, defaultGracePeriod, second, millisecond. destruct (g <=? 0) eqn:E; lia. Qed.

(** Times are durations. *)
Definition timely (s : stopping) : Prop :=
  from_option (fun x => 0 <= x.1) True (sp_exit s) /\ from_option (fun t => 0 <= t) True (sp_ctx s) /\
  from_option (fun x => 0 <= x.1) True (sp_killed s).

Lemma signalGroup_to pid sig d k : k ∈ signalGroup pid sig d -> (k.1 = pid \/ k.1 = - pid) /\ k.2 = sig.
Proof. unfold signalGroup. destruct d; set_solver. Qed.


(** A path with nothing to trim and no home in front. *)
Definition settled (p : list byte) : Prop := TrimSpace p = p /\ p ≠ [x7e] /\ hasPrefix p (bytesOf "~/") = false.

Lemma expandHome_settled env p : settled p -> expandHome env p = Some p.
Proof. intros (_ & H1 & H2). unfold expandHome. by rewrite bool_decide_false, H2. Qed.

(** The two resolvers of the Herdr socket give the same path when there is no
    XDG_CONFIG_HOME and the paths given need neither trimming nor a home directory. *)
Theorem sockets_agree (cfg : Config.Config) (env : list byte -> list byte) :
  settled (Config.SocketPath (herdr cfg)) -> settled (env (bytesOf "HERDR_SOCKET_PATH")) ->
  env (bytesOf "XDG_CONFIG_HOME") = [] -> env HOME ≠ [] ->
  ResolveSocketPath env (Config.SocketPath (herdr cfg)) = Some (resolveHerdrSocket cfg env).
Proof.
  intros H1 H2 Hx Hh. unfold ResolveSocketPath, resolveHerdrSocket, UserHomeDir. rewrite (proj1 H1), (proj1 H2), Hx.
  destruct (Config.SocketPath (herdr cfg)) as [|b p] eqn:E1; [|cbn [isEmpty negb]; by apply expandHome_settled].
  destruct (env (bytesOf "HERDR_SOCKET_PATH")) as [|b p] eqn:E2; [|cbn [isEmpty negb]; by apply expandHome_settled].
  apply isEmpty_false in Hh. rewrite Hh. done.
Qed.

(** ** Concrete values *)

Definition tildeEnv (k : list byte) : list byte :=
  if bool_decide (k = bytesOf "HERDR_SOCKET_PATH") then bytesOf "~/run/herdr.sock"
  else if bool_decide (k = HOME) then bytesOf "/home/u" else [].

(** The resolver of the herdr package expands the home directory in the environment
    variable; the one the program runs with does not. *)
Example socket_paths_differ (cfg : Config.Config) : Config.SocketPath (herdr cfg) = [] ->
  ResolveSocketPath tildeEnv [] = Some (bytesOf "/home/u/run/herdr.sock") /\
  resolveHerdrSocket cfg tildeEnv = bytesOf "~/run/herdr.sock".
Proof. intros E. unfold resolveHerdrSocket. rewrite E. split; by vm_compute. Qed.

Example ps_absolute :
  (resolvePS (fun p => if bool_decide (p = bytesOf "/bin/ps") then Some true else Some false),
   psComm (fun _ => Some false) (fun c => if bool_decide (c = commCommand (bytesOf "/bin/ps") 7) then Some (bytesOf " cloudflared" ++ [x0a]) else None) 7,
   psComm (fun _ => None) (fun _ => Some (bytesOf "x")) 7) =
  (Some (bytesOf "/usr/bin/ps"), Some (bytesOf "cloudflared"), None).
Proof. by vm_compute. Qed.

Definition stubborn : stopping := mkStopping (Some 42) None None (Some (1, Signaled)) (true, false) false.

Example stop_escalates :
  stop second stubborn = (None, [(-42, SIGTERM); (-42, SIGKILL); (42, SIGKILL)], second + 1) /\
  Terminate (Some 7) = [CKill (-7, SIGTERM); CloseStdin].
Proof. by vm_compute. Qed.

