(* ===== verification/ControlServer.v ===== *)
(** * ControlServer: serving and closing the control socket (ControlServer of
    internal/daemon/control.go, [handleStop] of daemon.go)

    The accept loop, one goroutine per connection and [Close] run at the same time. An
    action is what one of them does between two operations on what they share: the
    mutex, the wait group and the connections. What a connection carries is the model
    of [Control]; here it is nothing, a stop, or another request. *)

From stdpp Require Import gmap.
From S2P Require Import Prelude.

(** ** Connections *)

(** Returned by Accept; in the set of connections; counted by the wait group and
    handled; before [setExempt]; before the stop handler; before the write; after it;
    closed by its goroutine; out of the set; done. *)
Inductive phase :=
| Accepted | Tracked | Handling | Exempting | Stopping | Answering | Answered | SelfClosed | Untracked | Finished.
#[export] Instance phase_dec : EqDecision phase.
Proof. solve_decision. Defined.

(** [cn_cut]: [Close] closed it; [cn_reply]: whether the write got through. *)
Record conn := mkConn { cn_phase : phase; cn_cut : bool; cn_reply : option bool }.

Definition to (p : phase) (c : conn) : conn := mkConn p (cn_cut c) (cn_reply c).

(** Counted by the wait group. *)
Definition counted (p : phase) : bool := match p with Accepted | Tracked | Finished => false | _ => true end.

(** ** The server *)

Inductive closing := NotClosing | Collected (others : list nat) | Cutting (others : list nat) | Waiting | Returned.

(** [loop] is the connection the accept loop is busy with; [listening] ends with the
    listener; [socket] is the file. *)
Record server := mkServer {
  conns : gmap nat conn; tracked : gset nat; loop : option nat; loopDone : bool; exempt : option nat;
  closed : bool; listening : bool; close_ : closing; stopAsked : bool; socket : bool
}.

Definition Listen : server := mkServer ∅ ∅ None false None false true NotClosing false true.

Definition setConn (i : nat) (c : conn) (s : server) : server :=
  mkServer (<[i := c]> (conns s)) (tracked s) (loop s) (loopDone s) (exempt s) (closed s) (listening s) (close_ s)
    (stopAsked s) (socket s).
Definition trackConn (i : nat) (add : bool) (s : server) : server :=
  mkServer (conns s) (if add then tracked s ∪ {[i]} else tracked s ∖ {[i]}) (loop s) (loopDone s) (exempt s) (closed s)
    (listening s) (close_ s) (stopAsked s) (socket s).
Definition setLoop (l : option nat) (ended : bool) (s : server) : server :=
  mkServer (conns s) (tracked s) l ended (exempt s) (closed s) (listening s) (close_ s) (stopAsked s) (socket s).
Definition setExempt (i : nat) (s : server) : server :=
  mkServer (conns s) (tracked s) (loop s) (loopDone s) (Some i) (closed s) (listening s) (close_ s) (stopAsked s) (socket s).
Definition setClose (k : closing) (lis sock : bool) (s : server) : server :=
  mkServer (conns s) (tracked s) (loop s) (loopDone s) (exempt s) true lis k (stopAsked s) sock.
(** [handleStop] starts the shutdown and returns. *)
Definition handleStop (s : server) : server :=
  mkServer (conns s) (tracked s) (loop s) (loopDone s) (exempt s) (closed s) (listening s) (close_ s) true (socket s).

(** [wg.Wait] returns. *)
Definition drained (s : server) : bool :=
  bool_decide (map_Forall (fun _ c => counted (cn_phase c) = false) (conns s)).

Inductive received := Nothing | StopCommand | OtherCommand.

Inductive action :=
| Accept (i : nat) | AcceptFails | LoopTrack | LoopAdd
| Receive (i : nat) (r : received) | Exempt (i : nat) | CallStop (i : nat) | Answer (i : nat)
| SelfClose (i : nat) | Untrack (i : nat) | Done (i : nat)
| CloseStart | CloseListener | CloseNext | CloseReturn.

(** One step of connection [i] from phase [p]. *)
Definition advance (i : nat) (p : phase) (f : conn -> server -> option server) (s : server) : option server :=
  c ← conns s !! i; if bool_decide (cn_phase c = p) then f c s else None.

Definition act (a : action) (s : server) : option server :=
  match a with
  | Accept i =>
      if listening s && negb (loopDone s) && bool_decide (loop s = None) && bool_decide (conns s !! i = None)
      then Some (setLoop (Some i) false (setConn i (mkConn Accepted false None) s)) else None
  | AcceptFails =>
      if bool_decide (loop s = None) && (closed s || negb (listening s)) then Some (setLoop None true s) else None
  | LoopTrack => i ← loop s; advance i Accepted (fun c s => Some (trackConn i true (setConn i (to Tracked c) s))) s
  | LoopAdd => i ← loop s; advance i Tracked (fun c s => Some (setLoop None (loopDone s) (setConn i (to Handling c) s))) s
  | Receive i r =>
      advance i Handling (fun c s =>
        match r with
        | Nothing => Some (setConn i (to Answered c) s)
        | StopCommand => if cn_cut c then None else Some (setConn i (to Exempting c) s)
        | OtherCommand => if cn_cut c then None else Some (setConn i (to Answering c) s)
        end) s
  | Exempt i => advance i Exempting (fun c s => Some (setExempt i (setConn i (to Stopping c) s))) s
  | CallStop i => advance i Stopping (fun c s => Some (handleStop (setConn i (to Answering c) s))) s
  | Answer i => advance i Answering (fun c s => Some (setConn i (mkConn Answered (cn_cut c) (Some (negb (cn_cut c)))) s)) s
  | SelfClose i => advance i Answered (fun c s => Some (setConn i (to SelfClosed c) s)) s
  | Untrack i => advance i SelfClosed (fun c s => Some (trackConn i false (setConn i (to Untracked c) s))) s
  | Done i => advance i Untracked (fun c s => Some (setConn i (to Finished c) s)) s
  | CloseStart =>
      if closed s then None
      else Some (setClose (Collected (elements (match exempt s with Some e => tracked s ∖ {[e]} | None => tracked s end)))
                   (listening s) (socket s) s)
  | CloseListener => match close_ s with Collected o => Some (setClose (Cutting o) false (socket s) s) | _ => None end
  | CloseNext =>
      match close_ s with
      | Cutting [] => Some (setClose Waiting (listening s) (socket s) s)
      | Cutting (i :: o) =>
          c ← conns s !! i;
          Some (setClose (Cutting o) (listening s) (socket s) (setConn i (mkConn (cn_phase c) true (cn_reply c)) s))
      | _ => None
      end
  | CloseReturn =>
      match close_ s with
      | Waiting => if drained s then Some (setClose Returned (listening s) false s) else None
      | _ => None
      end
  end.

Fixpoint run (as_ : list action) (s : server) : option server :=
  match as_ with [] => Some s | a :: rest => s' ← act a s; run rest s' end.

(** ** Invariants *)

(** A connection that is not counted yet is the one the accept loop holds. *)
Definition early (p : phase) : bool := bool_decide (p = Accepted) || bool_decide (p = Tracked).

Record inv (s : server) : Prop := {
  inv_loop i c : conns s !! i = Some c -> early (cn_phase c) = true -> loop s = Some i;
  inv_listening : match close_ s with Cutting _ | Waiting | Returned => listening s = false | _ => True end;
  inv_left i c : close_ s = Returned -> conns s !! i = Some c -> cn_phase c ≠ Finished ->
    forall j c', conns s !! j = Some c' -> cn_phase c' ≠ Finished -> j = i;
  inv_socket : close_ s = Returned -> socket s = false
}.

Lemma advance_Some i p f s s' : advance i p f s = Some s' -> exists c, conns s !! i = Some c /\ cn_phase c = p /\ f c s = Some s'.
Proof.
  unfold advance. intros (c & Hc & H)%bind_Some. case_bool_decide; [|done]. eauto.
Qed.

(** Every step that is one connection's own: it moves on from a phase that is not the
    last, and nothing else but its entries in the shared state changes. *)
Definition own (s s' : server) (i : nat) (c c' : conn) : Prop :=
  conns s !! i = Some c /\ conns s' = <[i := c']> (conns s) /\ close_ s' = close_ s /\ listening s' = listening s /\
  socket s' = socket s /\ cn_phase c ≠ Finished /\ cn_cut c' = cn_cut c.

Lemma act_cases a s s' : act a s = Some s' ->
  (exists i, a = Accept i /\ conns s !! i = None /\ listening s = true /\ loop s = None /\
     s' = setLoop (Some i) false (setConn i (mkConn Accepted false None) s)) \/
  (a = AcceptFails /\ loop s = None /\ s' = setLoop None true s) \/
  (exists i c p, own s s' i c (to p c) /\ loop s = Some i /\ exempt s' = exempt s /\ stopAsked s' = stopAsked s /\
     ((a = LoopTrack /\ cn_phase c = Accepted /\ p = Tracked /\ loop s' = Some i) \/
      (a = LoopAdd /\ cn_phase c = Tracked /\ p = Handling /\ loop s' = None))) \/
  (exists i c c', own s s' i c c' /\ loop s' = loop s /\ early (cn_phase c) = false /\ early (cn_phase c') = false /\
     (exempt s' = exempt s \/ a = Exempt i /\ exempt s' = Some i /\ cn_phase c' = Stopping) /\
     (stopAsked s' = stopAsked s \/ a = CallStop i /\ cn_phase c = Stopping) /\
     (cn_phase c' = Stopping -> a = Exempt i /\ exempt s' = Some i) /\
     (cn_reply c' = cn_reply c \/ cn_reply c' = Some (negb (cn_cut c)))) \/
  (exists k lis sock, s' = setClose k lis sock s /\
     ((a = CloseStart /\ closed s = false /\ lis = listening s /\ sock = socket s /\
         k = Collected (elements (match exempt s with Some e => tracked s ∖ {[e]} | None => tracked s end))) \/
      (exists o, a = CloseListener /\ close_ s = Collected o /\ k = Cutting o /\ lis = false /\ sock = socket s) \/
      (a = CloseNext /\ close_ s = Cutting [] /\ k = Waiting /\ lis = listening s /\ sock = socket s) \/
      (a = CloseReturn /\ close_ s = Waiting /\ drained s = true /\ k = Returned /\ lis = listening s /\ sock = false))) \/
  (exists i o c, a = CloseNext /\ close_ s = Cutting (i :: o) /\ conns s !! i = Some c /\
     s' = setClose (Cutting o) (listening s) (socket s) (setConn i (mkConn (cn_phase c) true (cn_reply c)) s)).
Proof.
  destruct a; simpl; intros H.
  - destruct (listening s) eqn:?; [|done]. destruct (loopDone s); [done|]. simpl in H. repeat case_bool_decide; try done.
    injection H as <-. left. eauto 10.
  - case_bool_decide; [|done]. simpl in H. destruct (_ || _); [|done]. injection H as <-. auto.
  - apply bind_Some in H as (i & Hl & (c & Hc & Hp & [= <-])%advance_Some). do 2 right. left.
    exists i, c, Tracked. unfold own. rewrite Hp. split_and!; try done. left. done.
  - apply bind_Some in H as (i & Hl & (c & Hc & Hp & [= <-])%advance_Some). do 2 right. left.
    exists i, c, Handling. unfold own. rewrite Hp. split_and!; try done. right. done.
  - apply advance_Some in H as (c & Hc & Hp & H). do 3 right. left.
    destruct r; [|destruct (cn_cut c); [done|]..]; injection H as <-; eexists i, c, _; unfold own; rewrite Hp;
      split_and!; simpl; try done; auto.
  - apply advance_Some in H as (c & Hc & Hp & [= <-]). do 3 right. left.
    eexists i, c, _; unfold own; rewrite Hp; split_and!; simpl; try done; auto.
  - apply advance_Some in H as (c & Hc & Hp & [= <-]). do 3 right. left.
    eexists i, c, _; unfold own; rewrite Hp; split_and!; simpl; try done; auto.
  - apply advance_Some in H as (c & Hc & Hp & [= <-]). do 3 right. left.
    eexists i, c, _; unfold own; rewrite Hp; split_and!; simpl; try done; auto.
  - apply advance_Some in H as (c & Hc & Hp & [= <-]). do 3 right. left.
    eexists i, c, _; unfold own; rewrite Hp; split_and!; simpl; try done; auto.
  - apply advance_Some in H as (c & Hc & Hp & [= <-]). do 3 right. left.
    eexists i, c, _; unfold own; rewrite Hp; split_and!; simpl; try done; auto.
  - apply advance_Some in H as (c & Hc & Hp & [= <-]). do 3 right. left.
    eexists i, c, _; unfold own; rewrite Hp; split_and!; simpl; try done; auto.
  - destruct (closed s) eqn:?; [done|]. injection H as <-. do 4 right. left. eexists _, _, _. split; [reflexivity|]. left. done.
  - destruct (close_ s) eqn:?; try done. injection H as <-. do 4 right. left. eexists _, _, _. split; [reflexivity|]. eauto 10.
  - destruct (close_ s) as [|?|[|i o]| |] eqn:?; try done.
    + injection H as <-. do 4 right. left. eexists _, _, _. split; [reflexivity|]. eauto 10.
    + apply bind_Some in H as (c & Hc & [= <-]). do 5 right. eauto 10.
  - destruct (close_ s) eqn:?; try done. destruct (drained s) eqn:?; [|done]. injection H as <-. do 4 right. left.
    eexists _, _, _. split; [reflexivity|]. do 3 right. done.
Qed.

Lemma own_lookup s s' i c c' j d : own s s' i c c' -> conns s' !! j = Some d ->
  (j = i /\ d = c') \/ (j ≠ i /\ conns s !! j = Some d).
Proof.
  intros (Hc & -> & _). destruct (decide (j = i)) as [->|Hn]; [rewrite lookup_insert_eq; intros [= <-]; auto|].
  rewrite lookup_insert_ne by done. auto.
Qed.

Lemma early_to p c : early (cn_phase (to p c)) = early p.
Proof. done. Qed.

Lemma server_start : inv Listen.
Proof. by split. Qed.

(** An unfinished connection of the state after was one of the state before, unless it
    was just accepted. *)
Lemma own_inv s s' i c c' : inv s -> own s s' i c c' ->
  (early (cn_phase c) = true \/ early (cn_phase c') = false) ->
  (early (cn_phase c') = true -> loop s' = Some i) ->
  (forall j, j ≠ i -> loop s = Some j -> loop s' = Some j) -> inv s'.
Proof.
  intros [H1 H2 H3 H4] Ho He Hl Hj. pose proof Ho as (Hc & _ & Hk & Hlis & Hso & Hf & _). split.
  - intros j d Hd Hearly. destruct (own_lookup _ _ _ _ _ _ _ Ho Hd) as [[-> ->]|[Hn Hd']]; [auto|]. eauto.
  - rewrite Hk, Hlis. done.
  - rewrite Hk. intros Hr j d Hd Hp j' d' Hd' Hp'.
    assert (Hold : forall x y, conns s' !! x = Some y -> cn_phase y ≠ Finished -> exists z, conns s !! x = Some z /\ cn_phase z ≠ Finished).
    { intros x y Hx Hy. destruct (own_lookup _ _ _ _ _ _ _ Ho Hx) as [[-> ->]|[Hn Hx']]; eauto. }
    destruct (Hold _ _ Hd Hp) as (z & Hz & Hzp), (Hold _ _ Hd' Hp') as (z' & Hz' & Hzp'). eauto.
  - by rewrite Hk, Hso.
Qed.

Lemma server_act a s s' : inv s -> act a s = Some s' -> inv s'.
Proof.
  intros Hi Ha. pose proof Hi as [H1 H2 H3 H4].
  apply act_cases in Ha as [(i & -> & Hn & Hlis & Hl & ->)|[(-> & Hl & ->)|[(i & c & p & Ho & Hl & _ & _ & Hcase)|
    [(i & c & c' & Ho & Hl & He & He' & _)|[(k & lis & sock & -> & Hcase)|(i & o & c & -> & Hk & Hc & ->)]]]]].
  - split; simpl.
    + intros j d. destruct (decide (j = i)) as [->|Hj]; [done|]. rewrite lookup_insert_ne by done. intros Hd He.
      specialize (H1 j d Hd He). congruence.
    + destruct (close_ s); try done; congruence.
    + intros ? ? Hr. rewrite Hr in H2. congruence.
    + done.
  - split; simpl; [|done..]. intros j d Hd He. specialize (H1 j d Hd He). congruence.
  - eapply own_inv; [done|exact Ho|..].
    + left. destruct Hcase as [(_ & -> & _)|(_ & -> & _)]; done.
    + destruct Hcase as [(_ & _ & -> & ->)|(_ & _ & -> & _)]; done.
    + intros j Hj E. congruence.
  - eapply own_inv; [done|exact Ho|by right|by rewrite He'|by rewrite Hl].
  - destruct Hcase as [(-> & _ & -> & -> & ->)|[(o & -> & Hk & -> & -> & ->)|[(-> & Hk & -> & -> & ->)|(-> & Hk & Hd & -> & -> & ->)]]];
      split; simpl; try done; rewrite ?Hk in H2; try done.
    intros i c _ Hc Hp j d Hj Hq. unfold drained in Hd. apply bool_decide_eq_true in Hd.
    pose proof (Hd _ _ Hc) as Dc. pose proof (Hd _ _ Hj) as Dj. simpl in Dc, Dj.
    assert (Hearly : forall x, counted x = false -> x ≠ Finished -> early x = true) by (by intros []).
    pose proof (H1 _ _ Hc (Hearly _ Dc Hp)). pose proof (H1 _ _ Hj (Hearly _ Dj Hq)). congruence.
  - split; simpl; rewrite ?Hk in *; try done.
    intros j d. destruct (decide (j = i)) as [->|Hj]; [rewrite lookup_insert_eq; intros [= <-]; exact (H1 _ _ Hc)|].
    rewrite lookup_insert_ne by done. apply H1.
Qed.

Lemma server_ind (P : server -> Prop) : (forall a s s', P s -> act a s = Some s' -> P s') ->
  forall as_ s s', P s -> run as_ s = Some s' -> P s'.
Proof.
  intros H. induction as_ as [|a as_ IH]; simpl; intros s s' Hs Hr; [by injection Hr as <-|].
  apply bind_Some in Hr as (s1 & Ha & Hr). eauto.
Qed.

(** A counted connection stays counted until it is done, and is done when [Close]
    returns. *)
Definition settles (i : nat) (s : server) : Prop :=
  exists c, conns s !! i = Some c /\ early (cn_phase c) = false /\ (close_ s = Returned -> cn_phase c = Finished).

Lemma settles_act i a s s' : settles i s -> act a s = Some s' -> settles i s'.
Proof.
  intros (d & Hd & He & Hf) Ha.
  apply act_cases in Ha as [(j & -> & Hn & _ & _ & ->)|[(-> & _ & ->)|[(j & c & p & Ho & _ & _ & _ & Hcase)|
    [(j & c & c' & Ho & _ & Hec & He' & _)|[(k & lis & sock & -> & Hcase)|(j & o & c & -> & Hk & Hc & ->)]]]]].
  - exists d. simpl. rewrite lookup_insert_ne by congruence. done.
  - by exists d.
  - destruct Ho as (Hc & Hm & Hk & _). exists d. rewrite Hk, Hm. rewrite lookup_insert_ne; [done|]. intros ->.
    assert (c = d) as -> by congruence. by destruct Hcase as [(_ & E & _)|(_ & E & _)]; rewrite E in He.
  - destruct Ho as (Hc & Hm & Hk & _ & _ & Hp & _). unfold settles. rewrite Hk, Hm. destruct (decide (i = j)) as [->|Hij].
    + exists c'. rewrite lookup_insert_eq. split_and!; [done|done|]. intros Hr. assert (c = d) as -> by congruence.
      by specialize (Hf Hr).
    + exists d. by rewrite lookup_insert_ne.
  - exists d. split_and!; [done|done|]. simpl. intros ->.
    destruct Hcase as [(_ & _ & _ & _ & E)|[(o & _ & _ & E & _)|[(_ & _ & E & _)|(_ & _ & Hdr & _)]]]; try done.
    unfold drained in Hdr. apply bool_decide_eq_true in Hdr. specialize (Hdr _ _ Hd). simpl in Hdr.
    by destruct (cn_phase d).
  - unfold settles. simpl. destruct (decide (i = j)) as [->|Hij].
    + assert (c = d) as -> by congruence. eexists. rewrite lookup_insert_eq. done.
    + exists d. rewrite lookup_insert_ne by done. done.
Qed.

(** [Close] waits for the requests. When it returns, the socket is gone and nothing is
    accepted any more; every connection that was being handled when it started is
    done; and at most one connection is not, the one the accept loop was holding,
    uncounted, while [Close] waited. *)
Theorem close_waits (before after : list action) (s0 s1 s : server) :
  run before Listen = Some s0 -> act CloseStart s0 = Some s1 -> run after s1 = Some s -> close_ s = Returned ->
  socket s = false /\ listening s = false /\
  (forall i c, conns s0 !! i = Some c -> counted (cn_phase c) = true ->
     exists c', conns s !! i = Some c' /\ cn_phase c' = Finished) /\
  (forall i c j c', conns s !! i = Some c -> cn_phase c ≠ Finished -> conns s !! j = Some c' -> cn_phase c' ≠ Finished -> i = j).
Proof.
  intros H0 Ha H1 Hr. assert (Hi0 : inv s0) by (eapply server_ind; [apply server_act|apply server_start|done]).
  assert (Hi : inv s) by (eapply server_ind; [apply server_act|eapply server_act; [exact Hi0|exact Ha]|done]).
  destruct Hi as [_ Hl Hleft Hs]. split_and!; [by apply Hs|by rewrite Hr in Hl| |].
  - intros i c Hc Hcount. assert (Hset : settles i s).
    { eapply (server_ind (settles i)); [by intros; eapply settles_act| |exact H1]. simpl in Ha. destruct (closed s0); [done|].
      injection Ha as <-. exists c. split_and!; [done| |done]. by destruct (cn_phase c). }
    destruct Hset as (c' & Hc' & _ & Hf). exists c'. auto.
  - intros i c j c' Hc Hp Hc' Hp'. symmetry. by eapply Hleft.
Qed.

(** *** The answer to the stop *)

(** Connection [i] is the only one to ask for a stop, and the server is only closed
    once a stop was asked for. *)
Fixpoint orderly (i : nat) (as_ : list action) (s : server) : Prop :=
  match as_ with
  | [] => True
  | a :: rest =>
      match a with Exempt j => j = i | CloseStart => stopAsked s = true | _ => True end /\
      match act a s with Some s' => orderly i rest s' | None => True end
  end.

(** The connection is exempt from the moment its stop is about to be handled, and never
    cut. *)
Definition spared (i : nat) (s : server) : Prop :=
  (exempt s = None \/ exempt s = Some i) /\ (stopAsked s = true -> exempt s = Some i) /\
  (forall j c, conns s !! j = Some c -> cn_phase c = Stopping -> exempt s = Some i) /\
  (close_ s ≠ NotClosing -> exempt s = Some i) /\
  match close_ s with Collected o | Cutting o => i ∉ o | _ => True end /\
  (forall c, conns s !! i = Some c -> cn_cut c = false /\ cn_reply c ≠ Some false).

Lemma spared_own i s s' j c c' : spared i s -> own s s' j c c' ->
  (exempt s' = exempt s \/ exempt s' = Some i) -> (stopAsked s' = stopAsked s \/ exempt s' = Some i) ->
  (cn_phase c' = Stopping -> exempt s' = Some i) ->
  (cn_reply c' = cn_reply c \/ cn_reply c' = Some (negb (cn_cut c))) -> spared i s'.
Proof.
  intros (He & Hs & Hp & Hk & Hc & Hr) Ho He' Hs' Hp' Hr'. pose proof Ho as (Hj & _ & Hcl & _ & _ & _ & Hcut).
  assert (Hkeep : exempt s = Some i -> exempt s' = Some i) by (intros; destruct He'; congruence).
  unfold spared. rewrite Hcl. split_and!; [destruct He'; [congruence|auto] | | |auto|done|].
  - destruct Hs' as [E|E]; [rewrite E; auto|auto].
  - intros x d Hd Hph. destruct (own_lookup _ _ _ _ _ _ _ Ho Hd) as [[-> ->]|[_ Hd']]; [auto|]. apply Hkeep. by eapply Hp.
  - intros d Hd. destruct (own_lookup _ _ _ _ _ _ _ Ho Hd) as [[-> ->]|[_ Hd']]; [|by apply Hr].
    destruct (Hr _ Hj) as [Hc0 Hr0]. rewrite Hcut. split; [done|]. destruct Hr' as [->| ->]; [done|]. by rewrite Hc0.
Qed.

Lemma spared_act i a s s' : spared i s -> act a s = Some s' ->
  match a with Exempt j => j = i | CloseStart => stopAsked s = true | _ => True end -> spared i s'.
Proof.
  intros Hsp Ha Hor. pose proof Hsp as (He & Hs & Hp & Hk & Hc & Hr).
  apply act_cases in Ha as [(j & -> & Hn & _ & _ & ->)|[(-> & _ & ->)|[(j & c & p & Ho & _ & Hex & Hst & Hcase)|
    [(j & c & c' & Ho & _ & _ & _ & Hex & Hst & Hph & Hre)|[(k & lis & sock & -> & Hcase)|(j & o & c & -> & Hkk & Hcc & ->)]]]]].
  - unfold spared. simpl. split_and!; try done.
    + intros x d. destruct (decide (x = j)) as [->|]; [rewrite lookup_insert_eq; by intros [= <-]|].
      rewrite lookup_insert_ne by done. apply Hp.
    + intros d. destruct (decide (i = j)) as [->|]; [rewrite lookup_insert_eq; by intros [= <-]|].
      rewrite lookup_insert_ne by done. apply Hr.
  - done.
  - eapply spared_own; [done|exact Ho|auto|auto| |by left].
    intros E. by destruct Hcase as [(_ & _ & -> & _)|(_ & _ & -> & _)].
  - eapply spared_own; [done|exact Ho| | | |done].
    + destruct Hex as [E|(-> & E & _)]; [auto|subst; auto].
    + destruct Hst as [E|(-> & E)]; [auto|]. right. destruct Ho as (Hj & _). destruct Hex as [->|(? & _)]; [|done]. by eapply Hp.
    + intros E. destruct (Hph E) as [-> ->]. by subst.
  - unfold spared. destruct Hcase as [(-> & _ & -> & -> & ->)|[(o & -> & Hkk & -> & -> & ->)|[(-> & Hkk & -> & -> & ->)|(-> & Hkk & _ & -> & -> & ->)]]];
      simpl; rewrite ?Hkk in Hk, Hc; split_and!; try done; auto.
    rewrite (Hs Hor), elem_of_elements. set_solver.
  - rewrite Hkk in Hk, Hc. apply not_elem_of_cons in Hc as [Hij Ho]. unfold spared. simpl. split_and!; try done; auto.
    intros d. rewrite lookup_insert_ne by done. apply Hr.
Qed.

(** The answer to the stop is never cut off by the shutdown it starts: as long as no
    other connection asks for a stop, its connection is not closed by the server, and
    no write on it fails for that reason. *)
Theorem stop_answered (i : nat) (as_ : list action) (s : server) (c : conn) :
  orderly i as_ Listen -> run as_ Listen = Some s -> conns s !! i = Some c ->
  cn_cut c = false /\ cn_reply c ≠ Some false.
Proof.
  intros Ho Hr Hc. enough (Hs : spared i s) by (by apply Hs).
  assert (Hgen : forall as_ s0 s1, spared i s0 -> orderly i as_ s0 -> run as_ s0 = Some s1 -> spared i s1).
  { clear. induction as_ as [|a as_ IH]; simpl; intros s0 s1 Hs Ho Hr; [by injection Hr as <-|].
    apply bind_Some in Hr as (s2 & Ha & Hr). destruct Ho as [Ho1 Ho2]. rewrite Ha in Ho2.
    eapply IH; [|exact Ho2|exact Hr]. by eapply spared_act. }
  eapply Hgen; [|exact Ho|exact Hr]. unfold spared. simpl. split_and!; try done. by left.
Qed.

(** ** Concrete runs *)

Definition open (i : nat) : list action := [Accept i; LoopTrack; LoopAdd].

(** One stop: its answer gets through while an idle connection is cut. *)
Definition oneStop : list action :=
  open 0 ++ open 1 ++ [Receive 0 StopCommand; Exempt 0; CallStop 0; CloseStart; CloseListener; CloseNext; CloseNext;
    Answer 0; SelfClose 0; Untrack 0; Done 0; Receive 1 Nothing; SelfClose 1; Untrack 1; Done 1; CloseReturn].

Example one_stop :
  (fun s => (cn_reply <$> conns s !! 0%nat, cn_cut <$> conns s !! 1%nat, socket s)) <$> run oneStop Listen =
  Some (Some (Some true), Some true, false).
Proof. by vm_compute. Qed.

(** Two stops: the second takes the exemption over, and the answer to the first is cut. *)
Example two_stops :
  (s ← run (open 0 ++ open 1 ++ [Receive 0 StopCommand; Exempt 0; CallStop 0; Receive 1 StopCommand; Exempt 1; CloseStart;
       CloseListener; CloseNext; Answer 0]) Listen; c ← conns s !! 0%nat; cn_reply c) = Some false.
Proof. by vm_compute. Qed.

(** A connection accepted just before [Close] starts: [Close] returns, the daemon gives
    up its lock, and a request is then read and answered. *)
Example request_after_close :
  (fun s => (socket s, cn_reply <$> conns s !! 0%nat)) <$>
    run [Accept 0; CloseStart; CloseListener; CloseNext; CloseReturn; LoopTrack; LoopAdd; Receive 0 OtherCommand; Answer 0] Listen =
  Some (false, Some (Some true)).
Proof. by vm_compute. Qed.

Lemma stop_answered_witness : exists c, (s ← run oneStop Listen; conns s !! 0%nat) = Some c /\ cn_reply c ≠ Some false.
Proof.
  destruct (run oneStop Listen) as [s|] eqn:E; [|by vm_compute in E].
  destruct (conns s !! 0%nat) as [c|] eqn:Ec; [|vm_compute in E; injection E as <-; by vm_compute in Ec].
  exists c. split; [exact Ec|]. destruct (stop_answered 0 oneStop s c ltac:(vm_compute; tauto) E Ec) as [_ H]. exact H.
Defined.

Lemma close_waits_witness : exists s, run oneStop Listen = Some s /\ socket s = false.
Proof.
  destruct (run oneStop Listen) as [s|] eqn:E; [|by vm_compute in E]. exists s. split; [done|].
  destruct (run (take 9 oneStop) Listen) as [s0|] eqn:E0; [|by vm_compute in E0].
  destruct (act CloseStart s0) as [s1|] eqn:E1; [|vm_compute in E0; injection E0 as <-; by vm_compute in E1].
  assert (E2 : run (drop 10 oneStop) s1 = Some s).
  { vm_compute in E0. injection E0 as <-. vm_compute in E1. injection E1 as <-. vm_compute in E. injection E as <-. by vm_compute. }
  assert (Er : close_ s = Returned) by (vm_compute in E; by injection E as <-).
  destruct (close_waits _ _ s0 s1 s E0 E1 E2 Er) as [H _]. exact H.
Defined.
