(* ===== verification/WireConn.v ===== *)
(** * WireConn: the terminal's connection to the browser (coderConn of
    internal/server/terminalroute.go)

    Deadlines over a library that takes a context per operation. One goroutine writes;
    another may set an immediate deadline to abort it. An action is one critical
    section, or the end of the library's write. *)

From S2P Require Import Prelude.

(** Between writes; the context is made; it is registered and the write is under way;
    the write has returned. *)
Inductive writing := Idle | Prepared | Under | Returned.
#[export] Instance writing_dec : EqDecision writing.
Proof. solve_decision. Defined.

(** [cc_until]: when the context of the current write ends; [None] is the session's own
    context. [cc_cancelled]: whether it was cancelled before. *)
Record coderConn := mkConn {
  writeDeadline : option Z; registered : bool; cc_until : option Z; cc_cancelled : bool; cc_writing : writing
}.

Definition newCoderConn : coderConn := mkConn None false None false Idle.

(** The write fails at once when its context is over. *)
Definition ctxOver (now : Z) (c : coderConn) : bool :=
  cc_cancelled c || match cc_until c with Some t => t <=? now | None => false end.

Inductive event := Deadline (t : Z) | MakeContext | Register | WriteEnds (ok : bool) | Unregister.

(** [SetWriteDeadline]; [None] would be the zero time, which the bridge does not set. *)
Definition SetWriteDeadline (t now : Z) (c : coderConn) : coderConn :=
  mkConn (Some t) (registered c) (cc_until c) (cc_cancelled c || ((t <=? now) && registered c)) (cc_writing c).

Definition writeContext (c : coderConn) : coderConn := mkConn (writeDeadline c) (registered c) (writeDeadline c) false Prepared.

(** One event at a time [now]. *)
Definition step (now : Z) (e : event) (c : coderConn) : option coderConn :=
  match e, cc_writing c with
  | Deadline t, _ => Some (SetWriteDeadline t now c)
  | MakeContext, Idle => Some (writeContext c)
  | Register, Prepared => Some (mkConn (writeDeadline c) true (cc_until c) (cc_cancelled c) Under)
  | WriteEnds ok, Under =>
      if negb ok || negb (ctxOver now c)
      then Some (mkConn (writeDeadline c) (registered c) (cc_until c) (cc_cancelled c) Returned) else None
  | Unregister, Returned => Some (mkConn (writeDeadline c) false (cc_until c) true Idle)
  | _, _ => None
  end.

Fixpoint run (es : list (Z * event)) (c : coderConn) : option coderConn :=
  match es with [] => Some c | (now, e) :: rest => c' ← step now e c; run rest c' end.

(** ** Facts *)

(** Every deadline set is at most [timeout] ahead, and the clock does not go back. *)
Fixpoint paced (timeout t : Z) (es : list (Z * event)) : Prop :=
  match es with
  | [] => True
  | (now, e) :: rest => t <= now /\ match e with Deadline d => d <= now + timeout | _ => True end /\ paced timeout now rest
  end.

Definition latest (t : Z) (es : list (Z * event)) : Z := foldl (fun _ ne => ne.1) t es.

(** A deadline is set, and the context of the write under way has one, both near. *)
Definition bounded (timeout now : Z) (c : coderConn) : Prop :=
  (exists d, writeDeadline c = Some d /\ d <= now + timeout) /\
  (cc_writing c = Under \/ cc_writing c = Prepared -> exists d, cc_until c = Some d /\ d <= now + timeout).

Lemma bounded_step timeout t now e c c' : bounded timeout t c -> t <= now ->
  match e with Deadline d => d <= now + timeout | _ => True end -> step now e c = Some c' -> bounded timeout now c'.
Proof.
  intros [(d & Hd & Hle) Hu] Ht He Hs.
  assert (H1 : exists x, writeDeadline c = Some x /\ x <= now + timeout) by (exists d; split; [done|lia]).
  assert (H2 : cc_writing c = Under \/ cc_writing c = Prepared -> exists x, cc_until c = Some x /\ x <= now + timeout).
  { intros Hw. destruct (Hu Hw) as (x & ? & ?). exists x. split; [done|lia]. }
  unfold step in Hs. destruct e as [x| | |ok|].
  - injection Hs as <-. split; simpl; [by exists x|done].
  - destruct (cc_writing c); try done. injection Hs as <-. by split.
  - destruct (cc_writing c); try done. injection Hs as <-. split; simpl; [done|]. intros _. apply H2. by right.
  - destruct (cc_writing c); try done. destruct (_ || _); [|done]. injection Hs as <-. split; simpl; [done|]. by intros [?|?].
  - destruct (cc_writing c); try done. injection Hs as <-. split; simpl; [done|]. by intros [?|?].
Qed.

(** A write never hangs for longer than the write timeout: once a deadline was set, and
    whatever is set later, a write under way may end with an error when the timeout
    has passed since the last event. *)
Theorem write_bounded (timeout t d : Z) (es : list (Z * event)) (c c' : coderConn) :
  writeDeadline c = Some d -> d <= t + timeout -> cc_writing c = Idle -> paced timeout t es -> run es c = Some c' ->
  cc_writing c' = Under -> forall now, latest t es + timeout <= now -> ctxOver now c' = true.
Proof.
  intros Hd Hle Hi Hp Hr Hw. assert (Hb : bounded timeout t c).
  { split; [by exists d|]. by rewrite Hi; intros [?|?]. }
  assert (Hend : bounded timeout (latest t es) c').
  { clear Hd Hle Hi Hw d. revert t c Hb Hp Hr. induction es as [|[n e] es IH]; intros t c Hb Hp Hr; [by injection Hr as <-|].
    destruct Hp as (H1 & H2 & H3). simpl in Hr. apply bind_Some in Hr as (c1 & Hs & Hr).
    change (latest t ((n, e) :: es)) with (latest n es). eapply IH; [|exact H3|exact Hr]. by eapply bounded_step. }
  intros now Hnow. destruct Hend as [_ Hu]. destruct (Hu (or_introl Hw)) as (x & Hx & Hxl). unfold ctxOver. rewrite Hx.
  apply orb_true_iff. right. lia.
Qed.

(** A write that is under way, aborted by an immediate deadline, cannot succeed any
    more and can end at once: whatever happens before it returns, its context stays
    over. *)
Theorem immediate_deadline_aborts (c c' : coderConn) (now t : Z) (es : list (Z * event)) :
  cc_writing c = Under -> registered c = true -> t <= now ->
  run es (SetWriteDeadline t now c) = Some c' -> Forall (fun ne => match ne.2 with Unregister => False | _ => True end) es ->
  (Forall (fun ne => ne.2 ≠ WriteEnds true) es) /\
  (cc_writing c' = Under -> forall now', ctxOver now' c' = true /\ is_Some (step now' (WriteEnds false) c')).
Proof.
  intros Hw Hr Ht. assert (Hc : cc_cancelled (SetWriteDeadline t now c) = true).
  { simpl. rewrite Hr, andb_true_r. destruct (t <=? now) eqn:E; [apply orb_true_r|lia]. }
  assert (Hp : cc_writing (SetWriteDeadline t now c) = Under \/ cc_writing (SetWriteDeadline t now c) = Returned) by (left; done).
  revert Hc Hp. generalize (SetWriteDeadline t now c). clear. induction es as [|[n e] es IH]; intros c Hc Hp Hrun Hes.
  - injection Hrun as <-. split; [done|]. intros Hw now'. unfold ctxOver. rewrite Hc. split; [done|]. simpl. rewrite Hw. eauto.
  - apply Forall_cons in Hes as [He Hes]. simpl in Hrun. apply bind_Some in Hrun as (c1 & Hs & Hrun). simpl in He.
    assert (Hnext : cc_cancelled c1 = true /\ (cc_writing c1 = Under \/ cc_writing c1 = Returned) /\ e ≠ WriteEnds true).
    { unfold step in Hs. destruct Hp as [Hp|Hp]; rewrite Hp in Hs; destruct e as [x| | |[]|]; simpl in Hs; try done;
        try (injection Hs as <-; simpl; rewrite ?Hc; auto; fail).
      unfold ctxOver in Hs. by rewrite Hc in Hs. }
    destruct Hnext as (H1 & H2 & H3). destruct (IH c1 H1 H2 Hrun Hes) as [H4 H5]. split; [by constructor|done].
Qed.

(** ** Concrete runs *)

(** The immediate deadline comes after the context is made and before it is registered:
    the write is not aborted, and may go on until its own deadline. *)
Example abort_missed :
  (fun c => (cc_writing c, ctxOver 5 c, ctxOver 100 c)) <$>
    run [(0, Deadline 100); (0, MakeContext); (5, Deadline 5); (5, Register)] newCoderConn = Some (Under, false, true).
Proof. by vm_compute. Qed.

Example aborted :
  (fun c => ctxOver 5 c) <$> run [(0, Deadline 100); (0, MakeContext); (0, Register); (5, Deadline 5)] newCoderConn = Some true.
Proof. by vm_compute. Qed.

Lemma write_bounded_witness :
  exists c, run [(0, Deadline 100); (0, MakeContext); (5, Deadline 5); (5, Register)] (mkConn (Some 0) false None false Idle) = Some c /\
    ctxOver 105 c = true.
Proof.
  eexists. split; [reflexivity|].
  refine (write_bounded 100 0 0 [(0, Deadline 100); (0, MakeContext); (5, Deadline 5); (5, Register)]
    (mkConn (Some 0) false None false Idle) _ eq_refl _ eq_refl _ eq_refl eq_refl 105 _); [lia|simpl; lia|simpl; lia].
Defined.

Lemma immediate_deadline_aborts_witness :
  exists c, run [] (SetWriteDeadline 5 5 (mkConn (Some 100) true (Some 100) false Under)) = Some c /\ ctxOver 6 c = true.
Proof.
  eexists. split; [reflexivity|].
  refine (proj1 (proj2 (immediate_deadline_aborts (mkConn (Some 100) true (Some 100) false Under) _ 5 5 [] eq_refl eq_refl _ eq_refl _)
    eq_refl 6)); [lia|constructor].
Defined.
