(* ===== verification/Mux.v ===== *)
(** * Mux: how a request finds its route (internal/server/routes.go over http.ServeMux)

    The matching of http.ServeMux for the patterns [registerRoutes] registers: a method
    and a path of literal segments and single-segment wildcards, and the pattern "/" of
    the shell, which takes every other request. *)

From S2P Require Import Prelude GoStr GoText GoPath Routes.

(** ** Paths *)

(** [cleanPath] of net/http, on the escaped path; a trailing slash is kept. *)
Definition cleanPath (p : list byte) : list byte :=
  if bool_decide (p = []) then [slash]
  else
    let p := if hasPrefix p [slash] then p else slash :: p in
    let np := Clean p in
    if bool_decide (last p = Some slash) && negb (bool_decide (np = [slash])) then np ++ [slash] else np.

(** [url.PathUnescape]; a malformed escape leaves the segment as it is. *)
Fixpoint pathUnescape (s : list byte) : option (list byte) :=
  match s with
  | [] => Some []
  | c :: r =>
      if bz c =? 37 then
        match r with
        | h :: l :: r' => x ← hexDigit h; y ← hexDigit l; (fun t => zb (16 * x + y) :: t) <$> pathUnescape r'
        | _ => None
        end
      else cons c <$> pathUnescape r
  end.

Definition segment (s : list byte) : list byte := default s (pathUnescape s).

(** The segments [firstSegment] cuts off, of what follows the first slash: each
    unescaped; a trailing slash is the segment "/". *)
Fixpoint segmentsOf (es : list (list byte)) : list (list byte) :=
  match es with
  | [] => []
  | [e] => [if bool_decide (e = []) then [slash] else segment e]
  | e :: es' => segment e :: segmentsOf es'
  end.

Definition pathSegments (p : list byte) : list (list byte) := segmentsOf (splitOn slash (drop 1 p)).

(** ** Patterns *)

Inductive patternSegment := Literal (s : list byte) | Wildcard.

Definition isWildcard (s : list byte) : bool := hasPrefix s [x7b] && bool_decide (last s = Some x7d).

Definition patternOf (pattern : string) : list patternSegment :=
  (fun s => if isWildcard s then Wildcard else Literal s) <$> splitOn slash (drop 1 (bytesOf pattern)).

(** The values of the wildcards; a wildcard does not take a trailing slash. *)
Fixpoint matchSegments (ps : list patternSegment) (ss : list (list byte)) : option (list (list byte)) :=
  match ps, ss with
  | [], [] => Some []
  | Literal l :: ps', s :: ss' => if bool_decide (s = l) then matchSegments ps' ss' else None
  | Wildcard :: ps', s :: ss' => if bool_decide (s = [slash]) then None else cons s <$> matchSegments ps' ss'
  | _, _ => None
  end.

Definition methodName (m : httpMethod) : string :=
  match m with GET => "GET" | POST => "POST" | DELETE => "DELETE" end.

(** A pattern for GET takes HEAD as well. *)
Definition methodFits (m : httpMethod) (method : string) : bool :=
  bool_decide (method = methodName m) || match m with GET => bool_decide (method = "HEAD") | _ => false end.

Definition routeMatch (method : string) (p : list byte) (rt : routeSpec) : option (list (list byte)) :=
  if methodFits (rt_method rt) method then matchSegments (patternOf (rt_pattern rt)) (pathSegments p) else None.

(** ** The multiplexer *)

Inductive muxResult := MuxRedirect (to : list byte) | MuxRoute (rt : routeSpec) (values : list (list byte)) | MuxShell.

Fixpoint firstMatch (method : string) (p : list byte) (rts : list routeSpec) : muxResult :=
  match rts with
  | [] => MuxShell
  | rt :: rts' => match routeMatch method p rt with Some vs => MuxRoute rt vs | None => firstMatch method p rts' end
  end.

(** For every method but CONNECT. No two routes take the same request
    ([routes_apart]), so the precedence of patterns plays no part. *)
Definition serveMux (method : string) (p : list byte) : muxResult :=
  if bool_decide (cleanPath p = p) then firstMatch method p routes else MuxRedirect (cleanPath p).

(** ** No two routes take the same request *)

(** Patterns that differ in length or in a literal at the same place. *)
Fixpoint apart (ps qs : list patternSegment) : bool :=
  match ps, qs with
  | [], [] => false
  | Literal a :: ps', Literal b :: qs' => negb (bool_decide (a = b)) || apart ps' qs'
  | _ :: ps', _ :: qs' => apart ps' qs'
  | _, _ => true
  end.

Lemma apart_sound ps qs ss v w : apart ps qs = true -> matchSegments ps ss = Some v -> matchSegments qs ss = Some w -> False.
Proof.
  revert qs ss v w. induction ps as [|[a|] ps IH]; intros [|[b|] qs] [|s ss] v w; cbn; try done.
  - destruct (bool_decide (s = a)) eqn:E1; [|done]. destruct (bool_decide (s = b)) eqn:E2; [|done].
    apply bool_decide_eq_true in E1, E2. subst. rewrite bool_decide_true by done. cbn. apply IH.
  - destruct (bool_decide (s = a)); [|done]. destruct (bool_decide (s = [slash])); [done|].
    intros Ha Hv Hw. apply fmap_Some in Hw as (w' & Hw & _). by eapply IH.
  - destruct (bool_decide (s = b)); [|by destruct (bool_decide _)]. destruct (bool_decide (s = [slash])); [done|].
    intros Ha Hv Hw. apply fmap_Some in Hv as (v' & Hv & _). by eapply IH.
  - destruct (bool_decide (s = [slash])); [done|]. intros Ha Hv Hw.
    apply fmap_Some in Hv as (v' & Hv & _). apply fmap_Some in Hw as (w' & Hw & _). by eapply IH.
Qed.

Lemma methodFits_inj m m' method : methodFits m method = true -> methodFits m' method = true -> m = m'.
Proof. destruct m, m'; unfold methodFits; cbn; repeat case_bool_decide; subst; done. Qed.

Definition sameMethod (m m' : httpMethod) : bool := bool_decide (methodName m = methodName m').

(** Each route against those after it. *)
Fixpoint allApart (rts : list routeSpec) : bool :=
  match rts with
  | [] => true
  | rt :: rts' =>
      forallb (fun rt' => negb (sameMethod (rt_method rt) (rt_method rt')) || apart (patternOf (rt_pattern rt)) (patternOf (rt_pattern rt'))) rts' &&
      allApart rts'
  end.

Lemma routes_apart : allApart routes = true.
Proof. by vm_compute. Qed.

(** The first match is the only one. *)
Lemma firstMatch_exact method p rts rt vs : allApart rts = true ->
  firstMatch method p rts = MuxRoute rt vs <-> rt ∈ rts /\ routeMatch method p rt = Some vs.
Proof.
  induction rts as [|r rts IH]; cbn [allApart firstMatch]; [split; [done|set_solver]|]. intros Ha.
  apply andb_true_iff in Ha as [Hr Ha]. specialize (IH Ha). destruct (routeMatch method p r) as [ws|] eqn:Em.
  - split; [intros [= <- <-]; split; [by left|done]|]. intros [Hin Hm]. apply elem_of_cons in Hin as [->|Hin]; [by simplify_eq|].
    exfalso. rewrite forallb_forall in Hr. assert (Hi : In rt rts) by by apply list_elem_of_In. specialize (Hr rt Hi).
    unfold routeMatch in *. destruct (methodFits (rt_method r) method) eqn:F1; [|done].
    destruct (methodFits (rt_method rt) method) eqn:F2; [|done]. rewrite (methodFits_inj _ _ _ F1 F2) in Hr.
    unfold sameMethod in Hr. rewrite bool_decide_true in Hr by done. exact (apart_sound _ _ _ _ _ Hr Em Hm).
  - rewrite IH. split; [intros [? ?]; split; [by right|done]|]. intros [Hin Hm].
    apply elem_of_cons in Hin as [->|Hin]; [congruence|done].
Qed.

Lemma firstMatch_shell method p rts : firstMatch method p rts = MuxShell <-> forall rt, rt ∈ rts -> routeMatch method p rt = None.
Proof.
  induction rts as [|r rts IH]; cbn [firstMatch]; [split; [set_solver|done]|].
  destruct (routeMatch method p r) as [ws|] eqn:Em.
  - split; [done|]. intros H. specialize (H r ltac:(by left)). congruence.
  - rewrite IH. split; [intros H rt Hin; apply elem_of_cons in Hin as [->|Hin]; auto|intros H rt Hin; apply H; by right].
Qed.

Lemma firstMatch_noredirect method p rts q : firstMatch method p rts ≠ MuxRedirect q.
Proof. induction rts as [|r rts IH]; cbn; [done|]. by destruct (routeMatch _ _ _). Qed.

(** Every request has one place to go. A route runs exactly for the clean paths of its
    own pattern under its own method (HEAD counting as GET), with the segments its
    wildcards took; any other clean path is the shell's, and an unclean path runs no
    handler and is redirected to its clean form. So a request never reaches a handler
    whose method it does not name: a GET or HEAD runs no mutating handler. *)
Theorem serveMux_exact (method : string) (p : list byte) :
  (forall rt vs, serveMux method p = MuxRoute rt vs <-> cleanPath p = p /\ rt ∈ routes /\ routeMatch method p rt = Some vs) /\
  (serveMux method p = MuxShell <-> cleanPath p = p /\ forall rt, rt ∈ routes -> routeMatch method p rt = None) /\
  (forall q, serveMux method p = MuxRedirect q <-> cleanPath p ≠ p /\ q = cleanPath p) /\
  (forall rt vs, serveMux method p = MuxRoute rt vs -> method = "GET" \/ method = "HEAD" -> rt_mutating rt = false).
Proof.
  unfold serveMux. case_bool_decide as Ec; split_and!.
  - intros rt vs. rewrite firstMatch_exact by apply routes_apart. naive_solver.
  - rewrite firstMatch_shell. naive_solver.
  - intros q. split; [intros H; by apply firstMatch_noredirect in H|by intros [? _]].
  - intros rt vs Hf Hm. apply firstMatch_exact in Hf as [Hin Hr]; [|apply routes_apart]. unfold routeMatch in Hr.
    destruct (methodFits (rt_method rt) method) eqn:Ef; [|done]. unfold routes in Hin.
    repeat (apply elem_of_cons in Hin as [->|Hin]; [first [done|by destruct Hm as [-> | ->]]|]). by apply not_elem_of_nil in Hin.
  - intros rt vs. naive_solver.
  - naive_solver.
  - intros q. naive_solver.
  - done.
Qed.

Lemma serveMux_routes method p rt vs : serveMux method p = MuxRoute rt vs -> rt ∈ routes.
Proof. unfold serveMux. case_bool_decide; [|done]. intros Hf. by apply firstMatch_exact in Hf as [? _]; [|apply routes_apart]. Qed.

Lemma serveMux_method method p rt vs : serveMux method p = MuxRoute rt vs -> rt_method rt = POST -> method = "POST".
Proof.
  unfold serveMux. case_bool_decide; [|done]. intros Hf Hp. apply firstMatch_exact in Hf as [_ Hr]; [|apply routes_apart].
  unfold routeMatch, methodFits in Hr. rewrite Hp in Hr. cbn in Hr. by case_bool_decide.
Qed.

(** Wildcards, methods, escapes, trailing slashes and unclean paths. *)
Example sample_mux :
  (fun '(m, p) => match serveMux m (bytesOf p) with
     | MuxRoute rt vs => inl (rt_pattern rt, String.string_of_list_byte <$> vs)
     | MuxShell => inr "shell" | MuxRedirect q => inr (String.string_of_list_byte q) end) <$>
    [("POST", "/api/v1/mutations"); ("POST", "/api/v1/%6Dutations"); ("GET", "/api/v1/mutations"); ("HEAD", "/api/v1/runs/w1%3A2");
     ("GET", "/api/v1/runs/"); ("GET", "/api/v1//runs"); ("DELETE", "/api/v1/x/../session/")] =
  [inl ("/api/v1/mutations", []); inl ("/api/v1/mutations", []); inr "shell"; inl ("/api/v1/runs/{pane_id}", ["w1:2"]);
   inr "shell"; inr "/api/v1/runs"; inr "/api/v1/session/"].
Proof. by vm_compute. Qed.
