(* ===== verification/Service.v ===== *)
(** * Service: the relay as a whole

    The middleware of routes.go in front of the confirmation and mutation handlers of
    mutations.go, over the shared stores and the Herdr socket, under every interleaving:
    a request finds its route ([serveMux]) and is admitted by [Routes.wrap], a mutation then runs stage by stage as in
    [Concurrent], and between two stages any other request, the sessions and the limiter
    may move. A log records what was admitted, what was confirmed and what was sent to
    Herdr; the theorems relate the three. *)

From S2P Require Import Prelude GoStr Json Session Stores Access AuthAdapter Mutations Concurrent Routes Mux.
From S2P Require Import Sanitize Keys Topology Dispatch Guard Discover HerdrClient Calls.

#[local] Open Scope Z_scope.

#[global] Instance binding_eq_dec : EqDecision binding.
Proof. solve_decision. Defined.

(** [identityFrom]: the identity the middleware left in the context, or the zero value. *)
Definition identityFrom (ident : option ServerIdentity) : caller :=
  match ident with
  | Some id => mkCaller (si_SessionID id) (si_Subject id)
  | None => mkCaller "" ""
  end.

(** ** Counting the values of a map *)

Section count.
Context {K V : Type} `{Countable K} (P : V -> bool).
Implicit Types m : gmap K V.

Definition countIf m : nat := size (filter (fun kv => P kv.2 = true) m).

Lemma countIf_empty : countIf ∅ = 0%nat.
Proof. unfold countIf. by rewrite map_filter_empty, map_size_empty. Qed.

Lemma countIf_insert m k v : m !! k = None -> countIf (<[k := v]> m) = (Nat.b2n (P v) + countIf m)%nat.
Proof.
  intros Hk. unfold countIf. destruct (P v) eqn:E.
  - rewrite map_filter_insert_True by done. rewrite map_size_insert_None; [done|].
    apply map_lookup_filter_None. by left.
  - rewrite map_filter_insert_False by (cbn; by rewrite E). by rewrite delete_id by done.
Qed.

Lemma countIf_delete m k v : m !! k = Some v -> countIf m = (Nat.b2n (P v) + countIf (delete k m))%nat.
Proof. intros Hk. rewrite <- (insert_delete_id m k v Hk) at 1. apply countIf_insert, lookup_delete_eq. Qed.

Lemma countIf_update m k v v' : m !! k = Some v ->
  (countIf (<[k := v']> m) + Nat.b2n (P v) = countIf m + Nat.b2n (P v'))%nat.
Proof.
  intros Hk. rewrite <- insert_delete_eq, countIf_insert by apply lookup_delete_eq. rewrite (countIf_delete m k v Hk). lia.
Qed.

Lemma countIf_mono m m' : m ⊆ m' -> (countIf m <= countIf m')%nat.
Proof. intros Hs. apply map_subseteq_size. by apply map_filter_strong_subseteq_ext; naive_solver eauto using lookup_weaken. Qed.

(** An insertion over whatever was there. *)
Lemma countIf_put m k v : (countIf (<[k := v]> m) <= Nat.b2n (P v) + countIf m)%nat.
Proof.
  rewrite <- insert_delete_eq, countIf_insert by apply lookup_delete_eq.
  pose proof (countIf_mono (delete k m) m (delete_subseteq _ _)). lia.
Qed.
End count.

(** ** The state and the log *)

Section Service.
Context {A L M : Type} `{Authenticator A} `{Limiter L} `{HerdrMutator M}.
Context (equalFold : list byte -> list byte -> bool) (crossOriginOk : httpRequest -> bool) (hosts : hostConfig).
Context (canonical : json -> option (list byte)) (hash : list byte -> string)
        (marshal : mutationResponse -> list byte) (cfg : Config).

(** A request the middleware served: its method and path, the server before it, the
    time, the request and the identity it ran for. *)
Record admission := mkAdmission {
  ad_method : string; ad_path : list byte; ad_server : server A L; ad_now : Z; ad_request : httpRequest; ad_ident : option ServerIdentity
}.

Inductive entry :=
| Entered (a : admission) (body : option mutationRequest)
| Issued (a : admission) (b : binding)
| Dispatched (j : job).

Record service := mkService { sv_server : server A L; sv_world : world M; sv_log : list entry }.

(** What a confirmation binds. *)
Definition bindingFor (who : caller) (req : confirmationRequest) (norm : list byte) : binding :=
  mkBinding (f_Operation req) (f_ResourceID req) (f_ExpectedGeneration req) (c_session who) (hash norm).

(** The log entry of an answer of the confirmation handler. *)
Definition issuedBy (a : admission) (body : option confirmationRequest) (resp : response) : list entry :=
  match resp, body with
  | RConfirmation _ _, Some req =>
      match normalizeParams canonical (f_Params req) with
      | Some norm => [Issued a (bindingFor (identityFrom (ad_ident a)) req norm)]
      | None => []
      end
  | _, _ => []
  end.

Definition withShared (w : world M) (s : relay M) : world M := mkWorld (clock w) s (threads w) (events w).

(** One step. [serves_server]: any other request or the passing of time, for the
    sessions, the limiter and the cookies. [serves_spend]: a terminal takeover spends a
    confirmation, a sweep drops them. *)
Inductive serves : service -> service -> Prop :=
| serves_server s srv :
    serves s (mkService srv (sv_world s) (sv_log s))
| serves_spend s n :
    n ⊆ r_nonces (shared (sv_world s)) ->
    serves s (mkService (sv_server s) (withShared (sv_world s) (withNonces (shared (sv_world s)) n)) (sv_log s))
| serves_confirmation s m p rt vs r srv cv ident gens token body sh resp :
    serveMux m p = MuxRoute rt vs -> rt_handler rt = hConfirmations ->
    let w := sv_world s in
    let a := mkAdmission m p (sv_server s) (clock w) r ident in
    wrap equalFold crossOriginOk hosts rt (sv_server s) (clock w) r = (srv, Serve cv ident) ->
    handleConfirmations canonical hash cfg (identityFrom ident) gens token (clock w) (clock w) body (shared w) = (sh, resp) ->
    serves s (mkService srv (withShared w sh) (sv_log s ++ issuedBy a body resp))
| serves_mutation s m p rt vs r srv cv ident i body :
    serveMux m p = MuxRoute rt vs -> rt_handler rt = hMutations ->
    let w := sv_world s in
    let a := mkAdmission m p (sv_server s) (clock w) r ident in
    wrap equalFold crossOriginOk hosts rt (sv_server s) (clock w) r = (srv, Serve cv ident) ->
    threads w !! i = None ->
    serves s (mkService srv
                (mkWorld (clock w) (shared w) (setThread w i (Arrived (identityFrom ident) body)) (events w))
                (sv_log s ++ [Entered a body]))
| serves_stage s w' :
    step canonical hash marshal cfg (sv_world s) w' ->
    dom (threads w') = dom (threads (sv_world s)) -> r_calls (shared w') = r_calls (shared (sv_world s)) ->
    serves s (mkService (sv_server s) w' (sv_log s))
| serves_execute s i j u sh result :
    let w := sv_world s in
    threads w !! i = Some (Ready j u) -> execute (shared w) j = (sh, result) ->
    serves s (mkService (sv_server s)
                (mkWorld (clock w) sh (setThread w i (Called j u result)) (events w ++ [Call (j_key j) (clock w)]))
                (sv_log s ++ [Dispatched j])).

Inductive running (m0 : M) : service -> Prop :=
| running_start srv t audit : running m0 (mkService srv (mkWorld t (mkRelay newIdemStore newNonceStore m0 audit []) ∅ []) [])
| running_step s s' : running m0 s -> serves s s' -> running m0 s'.

(** ** A run as a program *)

(** A request by method and path, with the bodies the two endpoints would read and the
    thread it would run as; or one stage of a thread. *)
Inductive command :=
| DoRequest (m : string) (p : list byte) (r : httpRequest) (token : string)
    (confirmation : option confirmationRequest) (i : nat) (mutation : option mutationRequest)
| DoStage (i : nat).

(** One command; a request the middleware denies leaves its mark on the server only,
    and one for another route is not of this model. *)
Definition obey (gens : string -> option Z) (c : command) (s : service) : option service :=
  let w := sv_world s in
  match c with
  | DoRequest m p r token cbody i mbody =>
      match serveMux m p with
      | MuxRoute rt _ =>
          match wrap equalFold crossOriginOk hosts rt (sv_server s) (clock w) r with
          | (srv, Deny _) => Some (mkService srv w (sv_log s))
          | (srv, Serve _ ident) =>
              let a := mkAdmission m p (sv_server s) (clock w) r ident in
              match rt_handler rt, threads w !! i with
              | hConfirmations, _ =>
                  let '(sh, resp) :=
                    handleConfirmations canonical hash cfg (identityFrom ident) gens token (clock w) (clock w) cbody (shared w) in
                  Some (mkService srv (withShared w sh) (sv_log s ++ issuedBy a cbody resp))
              | hMutations, None =>
                  Some (mkService srv
                          (mkWorld (clock w) (shared w) (setThread w i (Arrived (identityFrom ident) mbody)) (events w))
                          (sv_log s ++ [Entered a mbody]))
              | _, _ => None
              end
          end
      | _ => None
      end
  | DoStage i =>
      match threads w !! i with
      | Some (Ready j u) =>
          let '(sh, result) := execute (shared w) j in
          Some (mkService (sv_server s)
                  (mkWorld (clock w) sh (setThread w i (Called j u result)) (events w ++ [Call (j_key j) (clock w)]))
                  (sv_log s ++ [Dispatched j]))
      | _ => (fun w' => mkService (sv_server s) w' (sv_log s)) <$> advance canonical hash marshal cfg gens w i
      end
  end.

Fixpoint obeyAll (gens : string -> option Z) (cs : list command) (s : service) : option service :=
  match cs with
  | [] => Some s
  | c :: cs' => match obey gens c s with Some s' => obeyAll gens cs' s' | None => None end
  end.

(** ** What the log shows *)

(** A POST to the endpoint [h] behind every check of a mutating session route: its host and origin are
    allowed, it carries JSON, its Access assertion was verified, the identity it runs
    for is that of its own live session cookie or, in named mode, of the session
    provisioned for its assertion, and its CSRF token is that session's. *)
Definition admitted (h : routeHandler) (a : admission) : Prop :=
  let r := ad_request a in
  let auth := (VerifyAccess (s_auth (ad_server a)) (ad_now a) (rq_Access r)).1 in
  (exists rt vs, serveMux (ad_method a) (ad_path a) = MuxRoute rt vs /\ rt_handler rt = h) /\ ad_method a = "POST" /\
  hostAllowed hosts (rq_Host r) = true /\ originAllowed equalFold hosts r = true /\ crossOriginOk r = true /\
  hasJSONContentType r = true /\ (VerifyAccess (s_auth (ad_server a)) (ad_now a) (rq_Access r)).2 = None /\
  exists cv id, ad_ident a = Some id /\
    ((rq_Cookie r = Some cv /\ cv ≠ "" /\ (SessionOf auth (ad_now a) cv).2 = Some id) \/
     (NamedMode (s_auth (ad_server a)) = true /\
      exists a' sess, (EnsureSession a' (ad_now a) (rq_Access r)).2 = inl (Some sess) /\
        ck_Value (ss_Cookie sess) = cv /\ ss_Identity sess = id)) /\
    rq_CSRF r ≠ "" /\ exists a' id', (SessionOf a' (ad_now a) cv).2 = Some id' /\ si_CSRFToken id' = rq_CSRF r.

Definition dispatched (log : list entry) : list job :=
  omap (fun e => match e with Dispatched j => Some j | _ => None end) log.

Definition issuances (log : list entry) : list binding :=
  omap (fun e => match e with Issued _ b => Some b | _ => None end) log.

(** The destructive dispatches under a binding, and its confirmations. *)
Definition spendings (b : binding) (log : list entry) : nat :=
  length (List.filter (fun j => requiresConfirmation (j_spec j) && bool_decide (jobBinding j = b)) (dispatched log)).
Definition confirmations (b : binding) (log : list entry) : nat :=
  length (List.filter (fun b' => bool_decide (b' = b)) (issuances log)).

(** A validated request: an allowlisted operation, aimed at the resource the guards
    checked, under the hash of its own params. *)
Definition guarded (j : job) : Prop :=
  assoc (q_Operation (j_req j)) operations = Some (j_spec j) /\ j_resource j = resourceOf (j_spec j) (j_req j) /\
  divergentAlt (q_Params (j_req j)) (altResourceField (j_spec j)) (j_resource j) = false /\
  (generationChecked (j_spec j) = true -> q_ExpectedGeneration (j_req j) ≠ 0) /\
  exists norm, normalizeParams canonical (q_Params (j_req j)) = Some norm /\ j_paramsHash j = hash norm.

Definition traced (log : list entry) (j : job) : Prop :=
  guarded j /\ exists a, Entered a (Some (j_req j)) ∈ log /\ j_caller j = identityFrom (ad_ident a).

Definition threadTraced (log : list entry) (p : phase) : Prop :=
  match p with
  | Arrived who body => exists a, Entered a body ∈ log /\ who = identityFrom (ad_ident a)
  | Validated j | Reserved j _ | Ready j _ | Called j _ _ | Refused j _ _ => traced log j
  | Finished _ => True
  end.

(** A destructive request between the spending of its confirmation and its call. *)
Definition readyFor (b : binding) (p : phase) : bool :=
  match p with
  | Ready j _ => requiresConfirmation (j_spec j) && bool_decide (jobBinding j = b)
  | _ => false
  end.

Definition heldFor (b : binding) (n : nonce) : bool := bool_decide (bindingOf n = b).

Record sound (s : service) : Prop := mkSound {
  sd_inv : inv cfg (sv_world s);
  sd_admitted : forall a body, Entered a body ∈ sv_log s -> admitted hMutations a;
  sd_issued : forall a b, Issued a b ∈ sv_log s -> admitted hConfirmations a /\ b_session b = c_session (identityFrom (ad_ident a)) /\
    b_operation b ∈ confirmable.*1;
  sd_threads : forall i p, threads (sv_world s) !! i = Some p -> threadTraced (sv_log s) p;
  sd_dispatched : forall j, j ∈ dispatched (sv_log s) -> traced (sv_log s) j;
  sd_budget : forall b, (countIf (heldFor b) (r_nonces (shared (sv_world s))) +
    countIf (readyFor b) (threads (sv_world s)) + spendings b (sv_log s) <= confirmations b (sv_log s))%nat
}.
End Service.

Arguments mkAdmission {A L}.
Arguments ad_server {A L}.
Arguments ad_now {A L}.
Arguments ad_request {A L}.
Arguments ad_ident {A L}.
Arguments Entered {A L}.
Arguments Issued {A L}.
Arguments Dispatched {A L}.
Arguments mkService {A L M}.
Arguments sv_server {A L M}.
Arguments sv_world {A L M}.
Arguments sv_log {A L M}.
Arguments spendings : simpl never.
Arguments confirmations : simpl never.
Arguments dispatched : simpl never.
Arguments issuances : simpl never.

(** ** Lemmas *)

(** The two endpoints, as the route table has them. *)
Lemma relay_routes rt : rt ∈ routes -> rt_handler rt = hMutations \/ rt_handler rt = hConfirmations ->
  rt_auth rt = authSession /\ rt_mutating rt = true /\ rt_method rt = POST.
Proof.
  intros Hin. unfold routes in Hin.
  repeat (apply elem_of_cons in Hin as [->|Hin]; [cbn; intros [?|?]; done|]). by apply not_elem_of_nil in Hin.
Qed.

Lemma confirmations_cases {M} canonical hash cfg who gens token t1 t2 body (s s' : relay M) resp :
  handleConfirmations canonical hash cfg who gens token t1 t2 body s = (s', resp) ->
  (s' = s /\ forall tok e, resp ≠ RConfirmation tok e) \/
  (exists req norm exp audit, body = Some req /\ normalizeParams canonical (f_Params req) = Some norm /\
     f_Operation req ∈ confirmable.*1 /\ resp = RConfirmation token exp /\
     s' = mkRelay (r_idem s) (<[token := mkNonce (f_Operation req) (f_ResourceID req) (f_ExpectedGeneration req)
            (c_session who) (hash norm) exp]> (nonceGC t2 (r_nonces s))) (r_mutator s) audit (r_calls s)).
Proof.
  unfold handleConfirmations, issue. intros Hh.
  destruct body as [req|]; [|left; by simplify_eq].
  destruct (assoc (f_Operation req) confirmable) as [spec|] eqn:Eo; [|left; by simplify_eq].
  apply assoc_elem in Eo.
  destruct (normalizeParams canonical (f_Params req)) as [norm|] eqn:En; repeat case_match; simplify_eq; try (by left).
  all: right; do 4 eexists; split_and!; try done; apply list_elem_of_fmap; by exists (f_Operation req, spec).
Qed.

Lemma inv_shared {M} cfg (w : world M) s : inv cfg w -> r_idem s = r_idem (shared w) -> inv cfg (withShared w s).
Proof. intros [H1 H2 H3 H4 H5] E. split; cbn; by rewrite ?E. Qed.

Section facts.
Context {A L M : Type} `{Authenticator A} `{!AuthenticatorLaws A} `{Limiter L} `{HerdrMutator M}.
Context (equalFold : list byte -> list byte -> bool) (crossOriginOk : httpRequest -> bool) (hosts : hostConfig).
Context (canonical : json -> option (list byte)) (hash : list byte -> string)
        (marshal : mutationResponse -> list byte) (cfg : Config).

Notation servesTo := (serves (A:=A) (L:=L) (M:=M) equalFold crossOriginOk hosts canonical hash marshal cfg).
Notation runs m0 := (running (A:=A) (L:=L) (M:=M) equalFold crossOriginOk hosts canonical hash marshal cfg m0).
Notation admits := (admitted (A:=A) (L:=L) equalFold crossOriginOk hosts).
Notation holds := (sound (A:=A) (L:=L) (M:=M) equalFold crossOriginOk hosts canonical hash cfg).
Implicit Types log : list (entry (A:=A) (L:=L)).

Lemma wrap_admits h m p rt vs s s' now r cv ident :
  serveMux m p = MuxRoute rt vs -> rt_handler rt = h -> h = hMutations \/ h = hConfirmations ->
  wrap equalFold crossOriginOk hosts rt s now r = (s', Serve cv ident) -> admits h (mkAdmission m p s now r ident).
Proof.
  intros Hx Hrt Hh. assert (Ha : (exists rt vs, serveMux m p = MuxRoute rt vs /\ rt_handler rt = h) /\ m = "POST").
  { split; [by eauto|]. eapply serveMux_method; [exact Hx|]. eapply relay_routes; [by eapply serveMux_routes|]. by subst h. }
  destruct Ha as [Hmux Hpost]. destruct (relay_routes rt (serveMux_routes _ _ _ _ Hx)) as (Ea & Em & Ep); [by subst h|]. unfold wrap. rewrite Ea.
  destruct (hostAllowed hosts (rq_Host r)) eqn:Eh; [|done]. cbn [negb].
  pose proof (mode_access (s_auth s) now (rq_Access r)) as Hmode.
  destruct (VerifyAccess (s_auth s) now (rq_Access r)) as [a [e|]] eqn:Ev; [done|].
  destruct (resolveSession _ _ _) as [s2 [[cv0 id]|]] eqn:Er; [|done].
  intros Hw. apply afterSession_serves in Hw as (-> & -> & Ho & Hc & Hj & _).
  destruct (Ho ltac:(rewrite Em; apply orb_true_r)) as [Ho1 Ho2]. destruct (Hc Ea Em) as [Hc1 Hc2].
  unfold admitted. cbn. rewrite Ev. cbn in *. split_and!; auto. exists cv0, id. split_and!; [done| |done|eauto].
  apply resolveSession_spec in Er as [Er|[Hm Er]]; [by left|right]. cbn in Hm. by rewrite Hmode in Hm.
Qed.

(** ** The log only grows *)

Lemma traced_app log l j : traced canonical hash log j -> traced canonical hash (log ++ l) j.
Proof. intros (Hg & a & Ha & Hc). split; [done|]. exists a. split; [|done]. apply elem_of_app. by left. Qed.

Lemma threadTraced_app log l p : threadTraced canonical hash log p -> threadTraced canonical hash (log ++ l) p.
Proof.
  destruct p; cbn; try apply traced_app; [|done]. intros (a & Ha & Hw). exists a. split; [|done]. apply elem_of_app. by left.
Qed.

Lemma dispatched_app log l : dispatched (log ++ l) = dispatched log ++ dispatched l.
Proof. apply omap_app. Qed.

Lemma spendings_app b log l : spendings b (log ++ l) = (spendings b log + spendings b l)%nat.
Proof. unfold spendings. by rewrite dispatched_app, List.filter_app, length_app. Qed.

Lemma confirmations_app b log l : confirmations b (log ++ l) = (confirmations b log + confirmations b l)%nat.
Proof. unfold confirmations, issuances. by rewrite omap_app, List.filter_app, length_app. Qed.

Lemma spendings_none b log : dispatched log = [] -> spendings b log = 0%nat.
Proof. intros E. unfold spendings. by rewrite E. Qed.

Lemma confirmations_none b log : issuances log = [] -> confirmations b log = 0%nat.
Proof. intros E. unfold confirmations. by rewrite E. Qed.

Lemma confirmations_one b a b' : confirmations b [Issued (A:=A) (L:=L) a b'] = Nat.b2n (bool_decide (b' = b)).
Proof. unfold confirmations, issuances. cbn. by destruct (bool_decide _). Qed.

Lemma spendings_one b j :
  spendings (A:=A) (L:=L) b [Dispatched j] = Nat.b2n (requiresConfirmation (j_spec j) && bool_decide (jobBinding j = b)).
Proof. unfold spendings, dispatched. cbn. by destruct (_ && _). Qed.

(** ** One stage of a handler *)

Lemma validate_traced log who gens idem t1 t2 body idem' j :
  validate canonical hash cfg who gens idem t1 t2 body = (idem', inr j) ->
  threadTraced canonical hash log (Arrived who body) -> traced canonical hash log j.
Proof.
  intros Ev (a & Ha & Hw). apply validate_ok in Ev as (norm & Hb & Hc & Ho & Hn & Hh & _ & _ & Hr & Hg & _).
  apply guards_ok in Hg as (Hd & _ & Hgen & _). subst body. split.
  - split_and!; [done..| |by exists norm]. intros E. by destruct (Hgen E).
  - exists a. split; [done|]. congruence.
Qed.

(** Setting the thread of a request. *)
Lemma threads_set log (ts : gmap nat phase) i p :
  (forall i p, ts !! i = Some p -> threadTraced canonical hash log p) -> threadTraced canonical hash log p ->
  forall i' p', <[i := p]> ts !! i' = Some p' -> threadTraced canonical hash log p'.
Proof. intros Ht Hp i' p' Hl. apply lookup_insert_Some in Hl as [[_ <-]|[_ Hl]]; eauto. Qed.

(** The nonces and the requests about to make their call. *)
Definition pending (b : binding) (w : world M) : nat :=
  (countIf (heldFor b) (r_nonces (shared w)) + countIf (readyFor b) (threads w))%nat.

Lemma pending_set b (w : world M) i p p' s ev :
  threads w !! i = Some p -> readyFor b p = false -> readyFor b p' = false -> r_nonces s = r_nonces (shared w) ->
  pending b (mkWorld (clock w) s (setThread w i p') ev) = pending b w.
Proof.
  intros Hp E E' En. unfold pending, setThread. cbn. rewrite En.
  pose proof (countIf_update (readyFor b) (threads w) i p p' Hp) as Hu. rewrite E, E' in Hu. cbn in Hu. lia.
Qed.

(** Spending the confirmation moves it from the store to the request. *)
Lemma pending_confirm b (w : world M) i j u expired n stop ev :
  threads w !! i = Some (Reserved j u) -> confirm (r_nonces (shared w)) expired (clock w) j = (n, stop) ->
  (pending b (mkWorld (clock w) (withNonces (shared w) n)
     (setThread w i (match stop with Some resp => Refused j u resp | None => Ready j u end)) ev) <= pending b w)%nat.
Proof.
  intros Hp Hc. pose proof (confirm_cases (r_nonces (shared w)) expired (clock w) j) as Hcs. rewrite Hc in Hcs.
  unfold pending, setThread. cbn.
  pose proof (fun p' => countIf_update (readyFor b) (threads w) i _ p' Hp) as Hu. cbn in Hu.
  destruct Hcs as [(resp & [= -> ->] & _)|[(_ & Hr & [= -> ->])|(_ & Hr & [(x & Hx & _ & Hb & [= -> ->])|(r & [= -> ->] & _)])]].
  - specialize (Hu (Refused j u resp)). cbn in Hu. lia.
  - specialize (Hu (Ready j u)). cbn in Hu. rewrite Hr in Hu. cbn in Hu. lia.
  - specialize (Hu (Ready j u)). cbn in Hu. rewrite Hr in Hu. cbn in Hu.
    rewrite (countIf_delete (heldFor b) _ _ x Hx). unfold heldFor at 2. rewrite Hb.
    destruct (bool_decide (jobBinding j = b)); cbn in *; lia.
  - specialize (Hu (Refused j u (RMutation 403 r))). cbn in Hu.
    pose proof (countIf_mono (heldFor b) _ _ (delete_subseteq (r_nonces (shared w)) (q_Confirmation (j_req j)))). lia.
Qed.

(** A stage that starts no request and makes no call. *)
Lemma stage_sound (w w' : world M) log :
  step canonical hash marshal cfg w w' -> dom (threads w') = dom (threads w) -> r_calls (shared w') = r_calls (shared w) ->
  (forall i p, threads w !! i = Some p -> threadTraced canonical hash log p) ->
  (forall i p, threads w' !! i = Some p -> threadTraced canonical hash log p) /\
  (forall b, (pending b w' <= pending b w)%nat).
Proof.
  intros Hs Hd Hc Ht. destruct Hs as [w i who body Hn|w t Ht1|w i who body gens idem v Hp Hv|w i j idem stop Hp _
    |w i j u expired n stop Hp Hn|w i j u resp Hp|w i j u s res Hp He|w i j u res ctx status r keep Hp _]; cbn in Hd, Hc.
  - exfalso. apply not_elem_of_dom in Hn. apply Hn. rewrite <- Hd. unfold setThread. set_solver.
  - split; [done|]. intros b. unfold pending. cbn. lia.
  - split; [apply threads_set; [done|]|intros b; by erewrite (pending_set b w i); [..|destruct v|]].
    destruct v as [resp|j]; [done|]. eapply validate_traced; [exact Hv|]. exact (Ht _ _ Hp).
  - split; [apply threads_set; [done|]|intros b; by erewrite (pending_set b w i); [..|destruct stop|]].
    destruct stop; [done|]. exact (Ht _ _ Hp).
  - split; [apply threads_set; [done|]|intros b; by eapply pending_confirm]. destruct stop; exact (Ht _ _ Hp).
  - split; [by apply threads_set|intros b; by erewrite (pending_set b w i)].
  - exfalso. unfold execute in He. destruct (mutate _ _ _). injection He as <- _. cbn in Hc.
    apply (f_equal length) in Hc. rewrite length_app in Hc. cbn in Hc. lia.
  - split; [by apply threads_set|intros b; by erewrite (pending_set b w i)].
Qed.

(** ** Programs are runs *)

(** A stage of one request keeps the set of requests, and makes no call unless the
    request was ready. *)
Lemma advance_quiet gens (w w' : world M) i :
  advance canonical hash marshal cfg gens w i = Some w' ->
  match threads w !! i with Some (Ready _ _) => False | _ => True end ->
  dom (threads w') = dom (threads w) /\ r_calls (shared w') = r_calls (shared w).
Proof.
  unfold advance. destruct (threads w !! i) as [p|] eqn:Ei; [|done]. intros Ha Hp.
  assert (Hd : forall p', dom (setThread w i p') = dom (threads w)).
  { intros p'. unfold setThread. apply dom_insert_lookup_L. by eexists. }
  destruct p; try done; repeat case_match; simplify_eq; cbn; by rewrite ?Hd.
Qed.

Lemma obey_serves gens c s s' :
  obey equalFold crossOriginOk hosts canonical hash marshal cfg gens c s = Some s' -> servesTo s s'.
Proof.
  destruct c as [m p r token cbody i mbody|i]; cbn.
  - destruct (serveMux m p) as [q|rt vs|] eqn:Ex; [done| |done].
    destruct (wrap _ _ _ _ _ _ _) as [srv [d|cv ident]] eqn:Ew; [intros [= <-]; apply serves_server|].
    destruct (rt_handler rt) eqn:Eh; try done.
    + destruct (handleConfirmations _ _ _ _ _ _ _ _ _ _) as [sh resp] eqn:Ec. intros [= <-].
      eapply (serves_confirmation _ _ _ _ _ _ _ s m p rt vs); done.
    + destruct (threads (sv_world s) !! i) eqn:Ei; [done|]. intros [= <-].
      eapply (serves_mutation _ _ _ _ _ _ _ s m p rt vs); done.
  - intros Hc. assert (Hst : forall w', advance canonical hash marshal cfg gens (sv_world s) i = Some w' ->
      match threads (sv_world s) !! i with Some (Ready _ _) => False | _ => True end ->
      servesTo s (mkService (sv_server s) w' (sv_log s))).
    { intros w' Ha Hp. destruct (advance_quiet _ _ _ _ Ha Hp). apply serves_stage; [|done..]. by eapply advance_step. }
    destruct (threads (sv_world s) !! i) as [p|] eqn:Ei.
    2: { apply fmap_Some in Hc as (w' & Ha & ->). by apply Hst. }
    destruct p; try (apply fmap_Some in Hc as (w' & Ha & ->); by apply Hst).
    destruct (execute _ _) as [sh result] eqn:Ex. injection Hc as <-. by eapply serves_execute.
Qed.

Lemma obeyAll_running gens m0 cs s s' :
  runs m0 s -> obeyAll equalFold crossOriginOk hosts canonical hash marshal cfg gens cs s = Some s' -> runs m0 s'.
Proof.
  revert s. induction cs as [|c cs IH]; intros s Hr; cbn; [by intros [= <-]|].
  destruct (obey _ _ _ _ _ _ _ _ c s) as [s1|] eqn:Ec; [|done]. apply IH.
  eapply running_step; [exact Hr|]. by eapply obey_serves.
Qed.

(** ** The invariant *)

Lemma sound_initial m0 srv t audit : holds (mkService srv (mkWorld t (mkRelay newIdemStore newNonceStore m0 audit []) ∅ []) []).
Proof.
  split; cbn.
  1: eapply inv_reachable; by apply (reach_init canonical hash marshal cfg).
  1, 2, 4: set_solver.
  - intros i p Hp. by rewrite lookup_empty in Hp.
  - intros b. by rewrite !countIf_empty.
Qed.

(** A confirmation answered adds at most one nonce, of the binding it is logged under. *)
Lemma issue_sound (s : service (A:=A) (L:=L) (M:=M)) (a : admission (A:=A) (L:=L)) gens token body sh resp :
  let w := sv_world s in
  handleConfirmations canonical hash cfg (identityFrom (ad_ident a)) gens token (clock w) (clock w) body (shared w) = (sh, resp) ->
  let new := issuedBy canonical hash a body resp in
  r_idem sh = r_idem (shared w) /\ r_mutator sh = r_mutator (shared w) /\ dispatched new = [] /\
  (forall a' b, Issued a' b ∈ new -> a' = a /\ b_session b = c_session (identityFrom (ad_ident a)) /\ b_operation b ∈ confirmable.*1) /\
  (forall a' bd, Entered a' bd ∉ new) /\
  forall b, (countIf (heldFor b) (r_nonces sh) <= countIf (heldFor b) (r_nonces (shared w)) + confirmations b new)%nat.
Proof.
  intros w Hh. apply confirmations_cases in Hh as [[-> Hr]|(req & norm & exp & audit & -> & Hn & Ho & -> & ->)].
  - assert (E : issuedBy canonical hash a body resp = []) by (destruct resp; [done..|by destruct (Hr token0 expires)]).
    cbn. rewrite E. split_and!; [done|done|done|set_solver..|]. intros b. cbn. lia.
  - cbn. rewrite Hn. split_and!; [done|done|done| |set_solver|].
    + intros a' b Hin. apply list_elem_of_singleton in Hin. by injection Hin as -> ->.
    + intros b. etrans; [apply countIf_put|]. pose proof (countIf_mono (heldFor b) (nonceGC (clock w) (r_nonces (shared w)))
        (r_nonces (shared w)) (map_filter_subseteq _ _)).
      unfold heldFor at 1. cbn. unfold bindingOf, bindingFor. cbn. rewrite confirmations_one. cbn. lia.
Qed.

Lemma sound_step s s' : holds s -> servesTo s s' -> holds s'.
Proof.
  intros [Hi Ha His Ht Hd Hb] Hs.
  destruct Hs as [s srv|s n Hn|s m pa rt vs r srv cv ident gens token body sh resp Hin Hh w a Hw Hc
    |s m pa rt vs r srv cv ident i body Hin Hh w a Hw Hi0|s w' Hst Hdom Hcalls|s i j u sh result w Hp He].
  - by split.
  - split; cbn; auto; [by apply inv_shared|]. intros b. pose proof (countIf_mono (heldFor b) _ _ Hn). specialize (Hb b). lia.
  - pose proof (issue_sound s a _ _ _ _ _ Hc) as (Hidem & _ & Hdis & Hiss & Hadm & Hcount).
    assert (Hok : admits hConfirmations a) by (eapply wrap_admits; [exact Hin|done|by right|exact Hw]).
    split; cbn.
    + by apply inv_shared.
    + intros a' bd Hin'. apply elem_of_app in Hin' as [Hin'|Hin']; [by eapply Ha|by apply Hadm in Hin'].
    + intros a' b Hin'. apply elem_of_app in Hin' as [Hin'|Hin']; [by apply His|]. by apply Hiss in Hin' as (-> & ? & ?).
    + intros i p Hp. apply threadTraced_app. by eapply Ht.
    + intros j Hj. rewrite dispatched_app, Hdis, app_nil_r in Hj. apply traced_app. by apply Hd.
    + intros b. rewrite spendings_app, confirmations_app, (spendings_none b (issuedBy _ _ _ _ _)) by done.
      specialize (Hb b). specialize (Hcount b). unfold w in *. lia.
  - assert (Hok : admits hMutations a) by (eapply wrap_admits; [exact Hin|done|by left|exact Hw]).
    split; cbn.
    + eapply inv_step; [exact Hi|]. by apply (step_arrive canonical hash marshal cfg).
    + intros a' bd Hin'. apply elem_of_app in Hin' as [Hin'|Hin']; [by eapply Ha|].
      apply list_elem_of_singleton in Hin'. by injection Hin' as -> _.
    + intros a' b Hin'. apply elem_of_app in Hin' as [Hin'|Hin']; [by apply His|set_solver].
    + apply threads_set; [intros i' p Hp; apply threadTraced_app; by eapply Ht|].
      exists a. split; [apply elem_of_app; right; by left|done].
    + intros j Hj. rewrite dispatched_app, app_nil_r in Hj. apply traced_app. by apply Hd.
    + intros b. rewrite spendings_app, (spendings_none b [_]), confirmations_app, (confirmations_none b [_]) by done.
      unfold setThread. rewrite countIf_insert by done. specialize (Hb b). cbn. unfold w. lia.
  - destruct (stage_sound _ _ _ Hst Hdom Hcalls Ht) as [Ht' Hb'].
    split; cbn; auto; [by eapply inv_step|]. intros b. specialize (Hb b). specialize (Hb' b). unfold pending in Hb'. lia.
  - pose proof (Ht _ _ Hp) as Htr. cbn in Htr.
    split; cbn.
    + eapply inv_step; [exact Hi|]. by eapply (step_execute canonical hash marshal cfg).
    + intros a' bd Hin'. apply elem_of_app in Hin' as [Hin'|Hin']; [by eapply Ha|set_solver].
    + intros a' b Hin'. apply elem_of_app in Hin' as [Hin'|Hin']; [by apply His|set_solver].
    + apply threads_set; [intros i' p Hp'; apply threadTraced_app; by eapply Ht|by apply traced_app].
    + intros j' Hj. apply traced_app. rewrite dispatched_app in Hj. apply elem_of_app in Hj as [Hj|Hj]; [by apply Hd|].
      apply list_elem_of_singleton in Hj. by subst j'.
    + intros b. rewrite spendings_app, confirmations_app, (confirmations_none b [_]) by done. unfold setThread.
      pose proof (countIf_update (readyFor b) (threads w) i _ (Called j u result) Hp) as Hu. cbn in Hu.
      assert (Hn : r_nonces sh = r_nonces (shared w)).
      { unfold execute in He. destruct (mutate _ _ _). by injection He as <- _. }
      rewrite Hn. specialize (Hb b). unfold w in *. rewrite spendings_one. lia.
Qed.

Lemma running_sound m0 s : runs m0 s -> holds s.
Proof. induction 1 as [srv t audit|s s' _ IH Hs]; [apply sound_initial|by eapply sound_step]. Qed.

(** C2: No destructive call without a human confirming it. In every run of the relay, under
    any interleaving of any number of requests with the sessions, the limiter, the stores
    and an unconstrained clock, each destructive call made to Herdr has a confirmation of
    its own: for every operation, resource, generation, session and hash of params, there
    are at most as many calls as confirmations answered for exactly these. Every
    confirmation was answered, for a confirmable operation, to a POST to the confirmations
    endpoint that passed every check of the middleware, under the session the middleware
    identified. *)
Theorem destructive_confirmed (m0 : M) (s : service (A:=A) (L:=L) (M:=M)) :
  runs m0 s ->
  (forall b, (spendings b (sv_log s) <= confirmations b (sv_log s))%nat) /\
  (forall a b, Issued a b ∈ sv_log s ->
     admits hConfirmations a /\ b_session b = c_session (identityFrom (ad_ident a)) /\ b_operation b ∈ confirmable.*1).
Proof.
  intros Hr. apply running_sound in Hr as [_ _ His _ _ Hb]. split; [|done].
  intros b. specialize (Hb b). lia.
Qed.
End facts.

(** ** On the wire *)

Lemma sublist_filter {X} (f : X -> bool) (l k : list X) :
  l `sublist_of` k -> (length (List.filter f l) <= length (List.filter f k))%nat.
Proof. induction 1; cbn; [done|destruct (f _); cbn; lia..]. Qed.

Section wire.
Context {A L : Type} `{Authenticator A} `{!AuthenticatorLaws A} `{Limiter L}.
Context (numOk : kind -> string -> bool) (positive negative : string -> bool)
  (decodeEnvelope : list byte -> option envelope) (decodeType : list byte -> option string) (d : decoders)
  (encode : result -> option json).
Context (equalFold : list byte -> list byte -> bool) (crossOriginOk : httpRequest -> bool) (hosts : hostConfig).
Context (canonical : json -> option (list byte)) (hash : list byte -> string)
        (marshal : mutationResponse -> list byte) (cfg : Config).

(** The socket as the relay's mutator. *)
Definition overSocket : HerdrMutator socketMutator :=
  mutateOverSocket positive negative decodeEnvelope decodeType d numOk encode.

#[local] Existing Instance overSocket.

Notation servesTo := (serves (A:=A) (L:=L) (M:=socketMutator) equalFold crossOriginOk hosts canonical hash marshal cfg).
Notation runs m0 := (running (A:=A) (L:=L) (M:=socketMutator) equalFold crossOriginOk hosts canonical hash marshal cfg m0).

(** A frame carries out a job: its method and params are those of the one typed call
    the job's params decode to. *)
Definition carries (f : sent) (j : job) : Prop :=
  exists c, dispatchMutation numOk (q_Operation (j_req j)) (q_Params (j_req j)) = inl c /\
    request positive negative c = Some (sn_Method f, sn_Params f) /\ sn_Method f = methodOf (q_Operation (j_req j)).

(** It addresses the resource the guards checked: for an operation with one, and params
    that spell it plainly, the call's target is that resource, which is not empty, and
    the frame carries it. *)
Definition addresses (f : sent) (j : job) : Prop :=
  exists c, dispatchMutation numOk (q_Operation (j_req j)) (q_Params (j_req j)) = inl c /\
    request positive negative c = Some (sn_Method f, sn_Params f) /\
    (resourceField (j_spec j) ≠ "" ->
     plainlyNamed (q_Operation (j_req j)) (resourceField (j_spec j)) (q_Params (j_req j)) ->
     callTarget c = j_resource j /\ j_resource j ≠ "" /\
     exists members, sn_Params f = JObj members /\ JStr (j_resource j) ∈ members.*2).

Lemma carries_addresses f j : carries f j -> guarded canonical hash j -> addresses f j.
Proof.
  intros (c & Hd & Hr & _) (Ho & Hj & _). exists c. split_and!; [done..|]. intros Hf Hp.
  destruct (dispatch_addresses numOk _ _ _ _ Ho Hf Hd) as [Ht Hc]. specialize (Hc Hp).
  destruct (request_names _ _ _ _ _ Hr Ht) as [Hne (ms & Hm & Hin)].
  assert (E : callTarget c = j_resource j).
  { rewrite Hc, Hj. unfold resourceOf, nonempty. by rewrite bool_decide_false. }
  rewrite E in *. eauto.
Qed.

Definition framed (s : service (A:=A) (L:=L) (M:=socketMutator)) : Prop :=
  exists js, js `sublist_of` dispatched (sv_log s) /\ Forall2 carries (sm_sent (r_mutator (shared (sv_world s)))) js.

Lemma stage_mutator (w w' : world socketMutator) : step canonical hash marshal cfg w w' ->
  r_calls (shared w') = r_calls (shared w) -> r_mutator (shared w') = r_mutator (shared w).
Proof.
  destruct 1 as [| | | | | |w i j u s res Hp He|]; try done. intros Hc. exfalso. unfold execute in He.
  destruct (mutate _ _ _). injection He as <- _. cbn in Hc.
  apply (f_equal length) in Hc. rewrite length_app in Hc. cbn in Hc. lia.
Qed.

(** Entries that dispatch nothing change nothing. *)
Lemma framed_keeps (s s' : service (A:=A) (L:=L) (M:=socketMutator)) new :
  framed s -> sv_log s' = sv_log s ++ new -> dispatched new = [] ->
  r_mutator (shared (sv_world s')) = r_mutator (shared (sv_world s)) -> framed s'.
Proof.
  intros (js & Hs & Hf) El En Em. exists js. by rewrite El, Em, dispatched_app, En, app_nil_r.
Qed.

Lemma framed_step s s' : framed s -> servesTo s s' -> framed s'.
Proof.
  intros Hf Hs. destruct Hs as [s srv|s n Hn|s m pa rt vs r srv cv ident gens token body sh resp Hin Hh w a Hw Hc
    |s m pa rt vs r srv cv ident i body Hin Hh w a Hw Hi0|s w' Hst Hdom Hcalls|s i j u sh result w Hp He].
  - done.
  - done.
  - eapply framed_keeps; [exact Hf|done|..]; apply (issue_sound equalFold canonical hash cfg s a) in Hc as (_ & Hm & Hd & _); done.
  - by eapply framed_keeps.
  - eapply framed_keeps; [exact Hf|symmetry; apply app_nil_r|done|]. by apply stage_mutator.
  - destruct Hf as (js & Hs & Hf). unfold framed. cbn [sv_log sv_world shared]. rewrite dispatched_app.
    unfold execute in He. destruct (mutate _ _ _) as [m' res] eqn:Em. injection He as <- <-. cbn [r_mutator].
    apply mutate_sends in Em as [E|(f & c & E & Hd & Hr & _ & Hm)]; rewrite E.
    + exists js. split; [by apply sublist_inserts_r|done].
    + exists (js ++ [j]). split; [by apply sublist_app|]. apply Forall2_app; [done|]. constructor; [|done]. by exists c.
Qed.

(** C1: Every frame on the Herdr socket was authorised at the front door. In every run of
    the relay, under any interleaving, the frames sent are, in order, those of distinct
    dispatched requests: each carries the one typed call that request's params decode
    to, for an allowlisted operation. When the operation has a resource and the params
    spell it plainly (no member of that name in another case, none null), the call and
    the frame are aimed at the very resource the guards checked; without that they need
    not be ([guard_bypassed]). Each of these requests was a POST to the mutations
    endpoint that the middleware admitted, with its host, origin, CSRF token, JSON and
    session checked, and ran under the identity the middleware found; and the
    destructive ones among them never outnumber the confirmations answered for exactly
    their operation, resource, generation, session and hash of params. *)
Theorem frames_authorised (m0 : socketMutator) (s : service (A:=A) (L:=L) (M:=socketMutator)) :
  sm_sent m0 = [] -> runs m0 s ->
  exists js, js `sublist_of` dispatched (sv_log s) /\ Forall2 carries (sm_sent (r_mutator (shared (sv_world s)))) js /\
    Forall2 addresses (sm_sent (r_mutator (shared (sv_world s)))) js /\
    (forall j, j ∈ js -> guarded canonical hash j /\
       exists a, Entered a (Some (j_req j)) ∈ sv_log s /\ admitted equalFold crossOriginOk hosts hMutations a /\
         j_caller j = identityFrom (ad_ident a)) /\
    forall b, (length (List.filter (fun j => requiresConfirmation (j_spec j) && bool_decide (jobBinding j = b)) js) <=
      confirmations b (sv_log s))%nat.
Proof.
  intros H0s Hr. assert (Hf : framed s).
  { induction Hr as [srv t audit|s s' _ IH Hs]; [exists []; cbn; by rewrite H0s|by eapply framed_step]. }
  destruct Hf as (js & Hs & Hf). apply running_sound in Hr as [_ Ha _ _ Hd Hb].
  assert (Hg : forall j, j ∈ js -> traced canonical hash (sv_log s) j).
  { intros j Hj. apply Hd. by apply (sublist_subseteq _ _ Hs). }
  exists js. split_and!; [done..| | |].
  - clear -Hf Hg. induction Hf as [|f j fs js Hc _ IH]; constructor.
    + apply carries_addresses; [done|]. by apply Hg; left.
    + apply IH. intros j' Hj. apply Hg. by right.
  - intros j Hj. destruct (Hg j Hj) as [Hgd (a & Hin & Hc)]. eauto 10.
  - intros b. specialize (Hb b). pose proof (sublist_filter (fun j => requiresConfirmation (j_spec j) && bool_decide (jobBinding j = b)) _ _ Hs).
    unfold spendings in Hb. lia.
Qed.
End wire.

(** ** A sample run *)

(** A browser confirms the closing of a pane and closes it; a second close under the
    same token is refused. *)
#[local] Instance sampleAuthenticator : Authenticator (authAdapter jwksState) := adapter_Authenticator sampleHeader sampleClaims acceptAll.
#[local] Instance sampleWire : HerdrMutator socketMutator :=
  overSocket (fun _ _ => true) (fun _ => true) (fun _ => false) sampleEnvelope (fun _ => Some "ok") sampleDecoders sampleEncode.

Definition sampleService : service (A:=authAdapter jwksState) (L:=openLimiter) (M:=socketMutator) :=
  mkService sampleServer (mkWorld 60 (mkRelay newIdemStore newNonceStore sampleSocket [] []) ∅ []) [].

Definition closeRequest (id : string) : mutationRequest := mkReq id "pane.close" 0 3 "tok" sampleParams.

Definition sampleCommands : list command :=
  [ DoRequest "POST" (bytesOf "/api/v1/confirmations") sampleRequest "tok" (Some (mkConfReq "pane.close" "p1" 3 sampleParams)) 0 None;
    DoRequest "POST" (bytesOf "/api/v1/mutations") sampleRequest "" None 0 (Some (closeRequest "r1"));
    DoRequest "POST" (bytesOf "/api/v1/mutations") sampleRequest "" None 1 (Some (closeRequest "r2")) ] ++
  (DoStage <$> [0; 1; 0; 1; 1; 0; 0; 1; 1]%nat).

Definition sampleRun : option (service (A:=authAdapter jwksState) (L:=openLimiter) (M:=socketMutator)) :=
  obeyAll EqualFold (fun _ => true) sampleHosts sampleCanonical sampleHash sampleMarshal sampleCfg sampleGens sampleCommands sampleService.

Definition sampleEnd : service (A:=authAdapter jwksState) (L:=openLimiter) (M:=socketMutator) := default sampleService sampleRun.

Definition closeBinding : binding := mkBinding "pane.close" "p1" 3 (AuditID sampleSession) "{}".

(** The status each request was answered with. *)
Definition statusOf (i : nat) : option Z :=
  match threads (sv_world sampleEnd) !! i with Some (Finished (RMutation st _)) => Some st | _ => None end.

(** One confirmation, two requests under its token, one frame. *)
Example sample_run :
  (sn_Method <$> sm_sent (r_mutator (shared (sv_world sampleEnd)))) = ["pane.close"] /\
  (statusOf 0, statusOf 1) = (Some 403, Some 200) /\
  (confirmations closeBinding (sv_log sampleEnd), spendings closeBinding (sv_log sampleEnd)) = (1%nat, 1%nat).
Proof. vm_compute. auto. Qed.

Lemma sample_running :
  running EqualFold (fun _ => true) sampleHosts sampleCanonical sampleHash sampleMarshal sampleCfg sampleSocket sampleEnd.
Proof.
  unfold sampleEnd. destruct sampleRun as [s|] eqn:E; [|apply running_start].
  eapply obeyAll_running; [|exact E]. apply running_start.
Qed.

Lemma sample_sent : length (sm_sent (r_mutator (shared (sv_world sampleEnd)))) = 1%nat.
Proof. by vm_compute. Qed.

Lemma frames_authorised_witness :
  exists j a, sn_Method <$> sm_sent (r_mutator (shared (sv_world sampleEnd))) = ["pane.close"] /\
    j ∈ dispatched (sv_log sampleEnd) /\ Entered a (Some (j_req j)) ∈ sv_log sampleEnd.
Proof.
  destruct (frames_authorised (fun _ _ => true) (fun _ => true) (fun _ => false) sampleEnvelope (fun _ => Some "ok") sampleDecoders
    sampleEncode EqualFold (fun _ => true) sampleHosts sampleCanonical sampleHash sampleMarshal sampleCfg sampleSocket sampleEnd
    eq_refl sample_running) as (js & Hs & Hf & _ & Hj & _).
  apply Forall2_length in Hf. rewrite sample_sent in Hf. destruct js as [|j js]; [discriminate Hf|].
  destruct (Hj j ltac:(by left)) as (_ & a & Ha & _). exists j, a. split_and!; [by vm_compute| |exact Ha].
  apply (sublist_subseteq _ _ Hs). by left.
Defined.

Lemma destructive_confirmed_witness :
  (spendings closeBinding (sv_log sampleEnd) <= 1)%nat.
Proof.
  destruct (destructive_confirmed EqualFold (fun _ => true) sampleHosts sampleCanonical sampleHash sampleMarshal sampleCfg
    sampleSocket sampleEnd sample_running) as [H _].
  etrans; [exact (H closeBinding)|]. by vm_compute.
Defined.
